(* ===== verification/_CoqProject ===== *)
-Q . S2P
Prelude.v
Sha256.v
Core.v
Pow.v
FeeMarket.v
TrieNode.v
Trie.v
TrieTree.v
TrieRefine.v
TrieProps.v
StateDB.v
Mpt.v
MptProofs.v
Pos.v
StackVM.v
StackVMProps.v
StackVMLimits.v
Exchange.v
ExchangeProps.v
Adapter.v
AdapterProps.v
Transition.v
TransitionProps.v
TransitionTheorems.v
Chain.v
ChainProps.v
ChainTheorems.v
ForkChoice.v
Slashing.v
BlockBuilder.v
BlockBuilderProps.v
Store.v
StoreProps.v
Node.v
NodeProps.v
Validator.v
P2P.v
P2PProps.v
GoStd.v
Harness.v
Rpc.v
RpcProps.v
Cli.v
CliProps.v
CliParse.v
Discovery.v
Network.v
