(* ===== verification/Prelude.v ===== *)
(** * l1chain: a verification of the chain

    l1chain is a layer-1 blockchain node in Go.  A node ([node/]) owns one chain
    ([chain/]), an optional database ([store/]), a pool of pending transactions and a
    signing key ([wallet/]).  The chain stores blocks ([core/]) by hash, validates each
    against its parent (proof of work, [consensus/], or stake-weighted proposers,
    [pos/]), replays it from genesis over an account state ([state/]) held in a
    Merkle-Patricia trie ([trie/]), and makes the heaviest branch canonical.  A
    transaction is a transfer, an order for the on-chain exchange ([exchange/]), a
    checkpoint attestation, a program for the chain's own stack machine ([vm/]) or a
    call of an embedded EVM ([evm/adapter]).  A process ([cmd/l1]) drives a node from a
    timer, from JSON-RPC requests ([rpc/]) and from the network ([p2p/]); the same program
    is the client that sends transactions and checks balances.

    ** Which file models what

    - [Prelude]: 64-bit wrap-around, big-endian bytes, the error values of the source
      and the [result] monad, shared lemmas.  [Sha256]: the hash, executable.
    - [Core]: [core/] - transactions, headers, blocks, signing hashes, the Merkle root.
    - [Pow]: [consensus/].  [FeeMarket]: [chain/feemarket.go].
    - [TrieNode], [Trie]: [trie/].  [TrieTree] is the reference tree, [TrieRefine]
      relates the hash-linked node store to it, [TrieProps] states the trie's contract.
    - [StateDB]: [state/statedb.go] and the overlay of [chain/transition.go].  The Go
      interface is the class [StateDB]; what its clients rely on is [StateDBLaws], proved
      for the flat state and for an overlay of any state, the Merkle-Patricia one
      included.  [Mpt]: [state/mpt.go], [state/proof.go].
    - [Pos]: [pos/].  [StackVM]: [vm/], with [StackVMProps], [StackVMLimits].
    - [Exchange]: [exchange/], with [ExchangeProps].
    - [Adapter]: [evm/dispatch.go], [evm/adapter/], with [AdapterProps].  [Harness]:
      [evm/runtime.go], [evm/erc20_fixture.go], the same interpreter over its own state.
    - [Transition]: [chain/transition.go], [chain/evm_wiring.go]; [TransitionProps],
      [TransitionTheorems].
    - [Chain]: [chain/chain.go], [chain/genesis.go]; [ChainProps] (the invariant and its
      preservation), [ChainTheorems], [ForkChoice], [Slashing] (who is jailed).
    - [BlockBuilder]: [chain/blockbuilder.go], with [BlockBuilderProps].
    - [Store]: [wallet/], [store/], with [StoreProps].
    - [Node]: [node/node.go], with [NodeProps].  [Validator] splits [MaybeAttest] into its
      critical sections and interleaves them with everything else.
    - [P2P]: the logic of [p2p/gossip.go] and [p2p/sync.go], with [P2PProps].
    - [GoStd]: what the outer layers use of Go's library - hexadecimal, decimal numbers,
      string splitting, JSON values and how [encoding/json] fills a variable.
    - [Rpc]: [rpc/server.go], [rpc/client.go]; the classes [Encode] and [Decode] are the
      two directions of the wire, with [RpcProps] ([WireLaw]: they are inverse).
    - [Cli]: [cmd/l1/main.go]; [CliProps] (the light client, a running process, sending)
      over [MptProofs] (proofs of the head state), [CliParse] (the flag grammars).
    - [Discovery]: [p2p/host.go], [p2p/mdns.go], [p2p/dht.go], [p2p/relay.go], the set-up of
      [p2p/gossip.go] and the start of [cmd/l1/main.go], as sequences of library calls.
    - [Network]: several processes of [Cli] joined by the block topic.

    ** How the state corresponds

    A Go struct is a record with the same fields ([Chain], [Node], [adb], ...); a method
    that mutates its receiver returns the new record beside its result; an error is a
    constructor of [error] in [result].  Unsigned integers are [Z] with [u64] written
    where the source can wrap; maps are [gmap]s; byte arrays are lists.  Methods that
    hold the node's lock are single steps.

    ** What the theorems show

    - State: the trie implements a map, its root depends on the contents only and binds
      them; proofs are sound and complete; the Merkle-Patricia state reads as the flat
      one while no account with storage is deleted; flushing an overlay commits it in any
      map order.
    - Transactions: no replay, exact accounting of transfers, fees and refunds; while the
      supply is below [2^64] it changes by reward minus burned fees and the stack machine
      conserves coins; the machine terminates within its gas and keeps its limits; EVM snapshots restore everything, and a
      balance overflow discards the call.
    - Chain: the invariant of the block store under any sequence of blocks; mined blocks
      are accepted; the height index is the canonical branch; nodes converge; votes are
      counted exactly; while a checkpoint stays finalized no block off its branch is
      accepted; every walk terminates; jailing is
      exact, and a validator whose keys nobody else uses is never jailed.
    - Selection: termination, nonce order, prices, gas.
    - Node: the invariant under any sequence of calls; what is admitted to the pool, in
      which nonce order; what mining does; a saved chain loads back as it was.
    - Network: valid blocks pass the gossip filter, a node that is behind catches up in
      one sync, and syncs and streams stay within their limits; processes of one genesis
      keep one chain while announcements arrive.  A starting node registers its filters
      before it dials, dials every startup peer and never itself.
    - The outer layers: blocks and transactions survive the wire and every request is
      answered; a client reads what the node holds, and submitting over the wire is
      submitting; a balance that [balance --verify] prints is the one every state with
      the printed root gives, and an honest node's answer is believed; a process keeps
      the node's invariant under any sequence of ticks, requests, messages and streams,
      and publishes only blocks it stores; a key from [wallet new] can spend; the
      specifications of accounts and validators are parsed exactly; the harness keeps the
      logs of its executions apart.
    - Where the code does not do what it means to: a block of batch orders can create
      coins, an EVM call can erase the order book, one validator can finalize alone, an
      undecodable order or a stale transaction stops block production, a node with its
      own chain id cannot restart, a resync never crosses a fork, a fabricated header of
      difficulty 0 passes the light client's check, a credit that passes [2^64] destroys
      coins, an uncovered transfer to oneself is admitted and stops block production, the
      gas budget of a block wraps, a later checkpoint can leave the branch of an earlier
      one, the flat state keeps the slots of a deleted account (each a theorem about the
      same definitions).

    ** Parameters

    Code of other repositories is a class: [Engine] (the order-matching engine),
    [GethEVM] (go-ethereum's interpreter), [Blst] and [BlstKeys] (BLS12-381), [Secp]
    (secp256k1), [SecpBytes] and [BlstBytes] (their key encodings), [Bolt] (the database),
    [Gob] and [GobTx] (encoding/gob), [OrderbookText] (the engine's name of a side),
    [GethState] (go-ethereum's state), [Peers], [AddrInfos] and [Libp2p] (libp2p, which
    answers each call from the history of calls).
    [ErrorText] stands for the texts of error messages, which nothing depends on.  Their
    documented behaviour, where a theorem needs it, is a second class ([GethEVMLaws],
    [SecpLaws], [SecpBytesLaws], [BoltLaws], [GobLaws], [GobTxLaws], [GethStateLaws]); each is instantiated for the
    examples.  The server a client talks to is an arbitrary function.  Hash collisions appear as
    hypotheses on finite lists of byte strings ([hash_safe], [collision_free]).

    ** Fuel

    Loops without a structural measure take fuel, and it is proved to be enough: trie
    paths have at most 64 nibbles and each step consumes one ([trie_fuel]); an
    instruction that goes on costs gas, so [GasLimit + 2] suffices for the machine
    ([vm_fuel]); a walk to genesis visits each stored block once ([link_fuel]); the
    selection loop takes a transaction or retires a sender each time ([build_fuel]).  Only
    [Mine] without an iteration limit has no bound; its fuel is an argument and [ErrFuel]
    means the search goes on.

    ** Not modelled

    libp2p itself (topics, streams, deadlines, routing) and HTTP; the syntax of JSON text,
    of which the values are modelled, and of the flag package, of which the parsed values
    are; the shutdown of a process, and what it logs.  [evm/evm.go] is a package comment and
    [evm/oz_erc20_fixture.go] a compiled contract.  Key generation, files and locks are
    library calls. *)

From Stdlib Require Export ZArith Lia.
From stdpp Require Export base tactics option list numbers gmap.

#[global] Open Scope Z_scope.
#[global] Set Default Goal Selector "!".

(** ** Machine integers

    Go's fixed-width unsigned integers are kept as [Z] with the wrap-around
    written out where the source can overflow. *)

Definition two64 : Z := 18446744073709551616.
Definition two63 : Z := 9223372036854775808.
Definition two32 : Z := 4294967296.
Definition two256 : Z := 2 ^ 256.

Definition u64 (x : Z) : Z := x mod two64.
Definition u32 (x : Z) : Z := x mod two32.

(** Go's conversion [int64(x)] of a 64-bit pattern. *)
Definition i64_of (x : Z) : Z :=
  let y := u64 x in if y <? two63 then y else y - two64.

Abbreviation is_u64 x := (0 <= x < two64) (only parsing).
Abbreviation is_u32 x := (0 <= x < two32) (only parsing).

(** ** Bytes *)

Abbreviation bytes := (list Z) (only parsing).
Definition is_byte (b : Z) : Prop := 0 <= b < 256.
#[export] Instance is_byte_dec b : Decision (is_byte b).
Proof. unfold is_byte. apply _. Defined.

Abbreviation all_bytes := (Forall is_byte) (only parsing).

(** [binary.BigEndian.PutUint64] and friends: the [n] low bytes of [x], most
    significant first. *)
Fixpoint be (n : nat) (x : Z) : bytes :=
  match n with
  | O => []
  | S n' => be n' (x / 256) ++ [x mod 256]
  end.

(** [binary.BigEndian.Uint64] and [big.Int.SetBytes]. *)
Definition be_decode (bs : bytes) : Z := foldl (fun acc b => acc * 256 + b) 0 bs.

(** [l[i:j]] *)
Definition slice {A} (i j : nat) (l : list A) : list A := take (j - i) (drop i l).

(** [copy(l[off:], src)] for a [src] that fits. *)
Definition splice {A} (off : nat) (src l : list A) : list A :=
  take off l ++ src ++ drop (off + length src) l.

(** [var h [n]byte; copy(h[:], src)]: truncates a long source, zero-pads a
    short one. *)
Definition copy_fixed (n : nat) (src : bytes) : bytes :=
  take n src ++ replicate (n - length src) 0.

(** ** Errors: the source's sentinel error values *)

Inductive error :=
| (* chain/transition.go *)
  ErrBadSig | ErrBadNonce | ErrInsufficientBalance | ErrCantAffordGas
| (* chain/feemarket.go *)
  ErrFeeCapBelowBaseFee | ErrTipExceedsFeeCap
| (* chain/chain.go *)
  ErrUnknownParent | ErrDuplicateBlock | ErrBadHeight | ErrBadPoW
| ErrBadTxRoot | ErrBadStateRoot | ErrBadChainID | ErrPoSRequiresValidators
| ErrWrongProposer | ErrBadProposerSig | ErrBadAttestation
| ErrConflictsWithFinalized | ErrBadBaseFee | ErrBadGasUsed
| ErrBlockGasLimitExceeded
| (* vm/stackvm.go, vm/vm.go *)
  ErrOutOfGas | ErrStackUnderflow | ErrStackOverflow | ErrInvalidJump
| ErrInvalidOpcode | ErrCallDepth | ErrMemoryLimit | ErrInsufficientFunds
| ErrNoVM
| (* exchange/exchange.go *)
  ErrBadCalldata | ErrUnknownOp | ErrRejected | ErrBalanceRange
| ErrNotConfigured
| (* an error value made by the order-book engine *)
  ErrEngine
| (* pos/errors.go, pos/validator.go *)
  ErrEmptyValidatorSet | ErrTotalStakeOverflow | ErrNoActiveValidators
| ErrMalformedAttestation
| ErrZeroStake | ErrDuplicateAddress | ErrDuplicatePubKey | ErrInvalidPubKey
| (* trie/node.go *)
  ErrShortInput | ErrBadTag
| (* store: made with fmt.Errorf and errors.New; an error of the database *)
  ErrStoreMissing | ErrStoreCorrupt | ErrStoreHead | ErrDatabase
| (* node/node.go *)
  ErrBadSignature | ErrNodeBadNonce | ErrNodeInsufficientBalance | ErrMempoolFull
| ErrNodeBadChainID | ErrConsensusModeNotPersisted | ErrNotPoSMode | ErrNotMyTurn
| ErrNoValidatorKey | ErrMiningFailed
| (* encoding/hex, strconv, encoding/json *)
  ErrHexByte | ErrHexLength | ErrSyntax | ErrRange | ErrJSON
| (* rpc/server.go: made with fmt.Errorf *)
  ErrBadLength | ErrMissingParam
| (* rpc/client.go: an error object in a response, a failed HTTP exchange *)
  ErrRPC (code : Z) | ErrTransport
| (* cmd/l1/main.go: made with fmt.Errorf and errors.New *)
  ErrUsage | ErrFlagRequired | ErrBadEntry | ErrBadConsensus | ErrBlockMissing
| ErrStateRootMismatch | ErrHeaderPoW | ErrProofRejected | ErrBadSecretKey
| (* the fuel of an unbounded loop ran out *)
  ErrFuel.

#[export] Instance error_eq_dec : EqDecision error.
Proof. solve_decision. Defined.

Inductive result (A : Type) : Type :=
| Ok (a : A)
| Err (e : error).
Arguments Ok {A} a.
Arguments Err {A} e.

#[export] Instance result_eq_dec {A} `{EqDecision A} : EqDecision (result A).
Proof. solve_decision. Defined.

#[export] Instance result_ret : MRet result := fun A a => Ok a.
#[export] Instance result_bind : MBind result :=
  fun A B f r => match r with Ok a => f a | Err e => Err e end.

Definition is_ok {A} (r : result A) : bool :=
  match r with Ok _ => true | Err _ => false end.

(** ** Lengths: the [len] rewrite database *)

Create Rewrite HintDb len.

Lemma length_be n x : length (be n x) = n.
Proof.
  revert x; induction n as [|n IH]; intros x; simpl; [done|].
  rewrite length_app, IH; simpl; lia.
Qed.

Lemma length_copy_fixed n l : length (copy_fixed n l) = n.
Proof.
  unfold copy_fixed. rewrite length_app, length_take, length_replicate. lia.
Qed.

Lemma length_slice {A} i j (l : list A) :
  (i <= j <= length l)%nat -> length (slice i j l) = (j - i)%nat.
Proof. intros ?. unfold slice. rewrite length_take, length_drop. lia. Qed.

Lemma length_splice {A} off (src l : list A) :
  (off + length src <= length l)%nat -> length (splice off src l) = length l.
Proof.
  intros ?. unfold splice. rewrite !length_app, length_take, length_drop. lia.
Qed.

#[export] Hint Rewrite @length_app @length_take @length_drop @length_replicate
  @length_map @length_insert @length_fmap length_be length_copy_fixed
  @length_cons @length_nil : len.

(** membership in a written list *)
Ltac elem := repeat first [apply list_elem_of_here | apply list_elem_of_further].

Ltac len := autorewrite with len in *; simpl in *; try lia.

(** ** Concatenations of known length *)

Lemma take_app_exact {A} n (a b : list A) : length a = n -> take n (a ++ b) = a.
Proof. intros <-. apply take_app_length. Qed.

Lemma drop_app_exact {A} n (a b : list A) : length a = n -> drop n (a ++ b) = b.
Proof. intros <-. apply drop_app_length. Qed.

Lemma slice_app_l {A} n (a b : list A) : length a = n -> slice 0 n (a ++ b) = a.
Proof.
  intros ?. unfold slice. rewrite Nat.sub_0_r, drop_0. by apply take_app_exact.
Qed.

Lemma slice_app_skip {A} k i j (a b : list A) :
  length a = k -> (k <= i)%nat -> slice i j (a ++ b) = slice (i - k) (j - k) b.
Proof.
  intros Ha Hi. unfold slice. rewrite drop_app_ge by lia. rewrite Ha.
  f_equal. lia.
Qed.

Lemma app_split {A} (a b c d : list A) :
  length a = length c -> a ++ b = c ++ d -> a = c /\ b = d.
Proof. intros. by apply app_inj_1. Qed.

Lemma copy_fixed_id n l : length l = n -> copy_fixed n l = l.
Proof.
  intros <-. unfold copy_fixed.
  rewrite firstn_all, Nat.sub_diag. apply app_nil_r.
Qed.

(** ** Big-endian encodings *)

Lemma be_bytes n x : all_bytes (be n x).
Proof.
  revert x; induction n as [|n IH]; intros x; simpl; [constructor|].
  apply Forall_app; split; [done|]. apply Forall_singleton.
  unfold is_byte. apply Z.mod_pos_bound. lia.
Qed.

Lemma be_decode_snoc l b : be_decode (l ++ [b]) = be_decode l * 256 + b.
Proof. unfold be_decode. by rewrite foldl_app. Qed.

Lemma be_decode_app a b :
  be_decode (a ++ b) = be_decode a * 256 ^ Z.of_nat (length b) + be_decode b.
Proof.
  induction b as [|x b IH] using rev_ind.
  - rewrite app_nil_r. change (be_decode []) with 0. simpl. lia.
  - rewrite app_assoc, !be_decode_snoc, IH, length_app. simpl.
    replace (Z.of_nat (length b + 1)) with (Z.of_nat (length b) + 1) by lia.
    rewrite Z.pow_add_r by lia. lia.
Qed.

Lemma be_decode_be n x : be_decode (be n x) = x mod 256 ^ Z.of_nat n.
Proof.
  revert x; induction n as [|n IH]; intros x; simpl be.
  - simpl. rewrite Z.mod_1_r. done.
  - rewrite be_decode_snoc, IH.
    replace (Z.of_nat (S n)) with (1 + Z.of_nat n) by lia.
    rewrite Z.pow_add_r, Z.pow_1_r by lia.
    rewrite Z.rem_mul_r by lia. lia.
Qed.

Lemma be_decode_be_small n x :
  0 <= x < 256 ^ Z.of_nat n -> be_decode (be n x) = x.
Proof. intros. rewrite be_decode_be. by apply Z.mod_small. Qed.

Lemma be_decode_be8 x : is_u64 x -> be_decode (be 8 x) = x.
Proof. intros. by apply be_decode_be_small. Qed.

Lemma be_decode_be4 x : is_u32 x -> be_decode (be 4 x) = x.
Proof. intros. by apply be_decode_be_small. Qed.

Lemma be_inj n x y :
  0 <= x < 256 ^ Z.of_nat n -> 0 <= y < 256 ^ Z.of_nat n ->
  be n x = be n y -> x = y.
Proof.
  intros Hx Hy Heq. rewrite <- (be_decode_be_small n x), Heq by done.
  by apply be_decode_be_small.
Qed.

Lemma be8_inj x y : is_u64 x -> is_u64 y -> be 8 x = be 8 y -> x = y.
Proof. intros. by apply (be_inj 8). Qed.

Lemma be4_inj x y : is_u32 x -> is_u32 y -> be 4 x = be 4 y -> x = y.
Proof. intros. by apply (be_inj 4). Qed.

Lemma be_decode_bound l :
  all_bytes l -> 0 <= be_decode l < 256 ^ Z.of_nat (length l).
Proof.
  induction l as [|x l IH] using rev_ind; intros H; [done|].
  apply Forall_app in H as [Hl Hx]. rewrite Forall_singleton in Hx.
  rewrite be_decode_snoc, length_app. simpl.
  replace (Z.of_nat (length l + 1)) with (Z.of_nat (length l) + 1) by lia.
  rewrite Z.pow_add_r, Z.pow_1_r by lia. unfold is_byte in Hx. specialize (IH Hl). lia.
Qed.

Lemma be_of_decode l : all_bytes l -> be (length l) (be_decode l) = l.
Proof.
  induction l as [|x l IH] using rev_ind; intros H; [done|].
  apply Forall_app in H as [Hl Hx]. rewrite Forall_singleton in Hx.
  unfold is_byte in Hx. rewrite length_app, Nat.add_1_r. simpl.
  rewrite be_decode_snoc.
  rewrite Z.div_add_l by lia. rewrite (Z.div_small x), Z.add_0_r by lia.
  rewrite (IH Hl). f_equal. f_equal.
  rewrite Z.add_comm, Z.mod_add by lia. by apply Z.mod_small.
Qed.

Lemma be_decode_inj a b :
  all_bytes a -> all_bytes b -> length a = length b ->
  be_decode a = be_decode b -> a = b.
Proof.
  intros Ha Hb Hlen Heq. rewrite <- (be_of_decode a Ha), <- (be_of_decode b Hb).
  by rewrite Hlen, Heq.
Qed.

(** ** Wrap-around *)

Lemma u64_range x : is_u64 (u64 x).
Proof. apply Z.mod_pos_bound. done. Qed.

Lemma u64_small x : is_u64 x -> u64 x = x.
Proof. apply Z.mod_small. Qed.

Create HintDb l1.
#[export] Hint Resolve u64_range be_bytes : l1.

(** ** Sums over lists *)

Definition Zsum {A} (f : A -> Z) (l : list A) : Z :=
  foldr (fun x acc => f x + acc) 0 l.

Lemma Zsum_cons {A} (f : A -> Z) x l : Zsum f (x :: l) = f x + Zsum f l.
Proof. done. Qed.

Lemma Zsum_app {A} (f : A -> Z) l1 l2 : Zsum f (l1 ++ l2) = Zsum f l1 + Zsum f l2.
Proof. induction l1; simpl; lia. Qed.

Lemma Zsum_perm {A} (f : A -> Z) l1 l2 : Permutation l1 l2 -> Zsum f l1 = Zsum f l2.
Proof. induction 1; simpl; lia. Qed.

Lemma Zsum_ext {A} (f g : A -> Z) l :
  (forall x, x ∈ l -> f x = g x) -> Zsum f l = Zsum g l.
Proof.
  induction l as [|x l IH]; intros H; [done|]. simpl.
  rewrite (H x), IH; [done| |set_solver]. intros; apply H; set_solver.
Qed.

Lemma Zsum_nonneg {A} (f : A -> Z) l :
  (forall x, x ∈ l -> 0 <= f x) -> 0 <= Zsum f l.
Proof.
  induction l as [|x l IH]; intros H; [done|]. simpl.
  assert (0 <= f x) by (apply H; set_solver).
  assert (0 <= Zsum f l) by (apply IH; intros; apply H; set_solver). lia.
Qed.

Lemma Zsum_elem_le {A} (f : A -> Z) l x :
  (forall y, y ∈ l -> 0 <= f y) -> x ∈ l -> f x <= Zsum f l.
Proof.
  intros Hnn Hx. apply list_elem_of_split in Hx as (l1 & l2 & ->).
  rewrite Zsum_app. simpl.
  assert (0 <= Zsum f l1) by (apply Zsum_nonneg; intros; apply Hnn; set_solver).
  assert (0 <= Zsum f l2) by (apply Zsum_nonneg; intros; apply Hnn; set_solver).
  lia.
Qed.
