(* ===== verification/Sha256.v ===== *)
(** * SHA-256

    The standard library's [crypto/sha256], the only hash function of the
    chain's own data structures ([core.SumHash], [core.HashConcat]).  The
    function is executable, so that node hashes, transaction identities and
    block hashes of the model are the real ones. *)

From S2P Require Import Prelude.

Definition mask32 : Z := 4294967295.

Definition add32 (a b : Z) : Z := Z.land (a + b) mask32.

Definition rotr (n x : Z) : Z :=
  Z.lor (Z.shiftr x n) (Z.land (Z.shiftl x (32 - n)) mask32).

Definition ch (x y z : Z) : Z := Z.lxor (Z.land x y) (Z.land (Z.lxor x mask32) z).
Definition maj (x y z : Z) : Z :=
  Z.lxor (Z.lxor (Z.land x y) (Z.land x z)) (Z.land y z).
Definition bsig0 (x : Z) : Z := Z.lxor (Z.lxor (rotr 2 x) (rotr 13 x)) (rotr 22 x).
Definition bsig1 (x : Z) : Z := Z.lxor (Z.lxor (rotr 6 x) (rotr 11 x)) (rotr 25 x).
Definition ssig0 (x : Z) : Z :=
  Z.lxor (Z.lxor (rotr 7 x) (rotr 18 x)) (Z.shiftr x 3).
Definition ssig1 (x : Z) : Z :=
  Z.lxor (Z.lxor (rotr 17 x) (rotr 19 x)) (Z.shiftr x 10).

Definition k256 : list Z :=
  [1116352408; 1899447441; 3049323471; 3921009573; 961987163; 1508970993;
   2453635748; 2870763221; 3624381080; 310598401; 607225278; 1426881987;
   1925078388; 2162078206; 2614888103; 3248222580; 3835390401; 4022224774;
   264347078; 604807628; 770255983; 1249150122; 1555081692; 1996064986;
   2554220882; 2821834349; 2952996808; 3210313671; 3336571891; 3584528711;
   113926993; 338241895; 666307205; 773529912; 1294757372; 1396182291;
   1695183700; 1986661051; 2177026350; 2456956037; 2730485921; 2820302411;
   3259730800; 3345764771; 3516065817; 3600352804; 4094571909; 275423344;
   430227734; 506948616; 659060556; 883997877; 958139571; 1322822218;
   1537002063; 1747873779; 1955562222; 2024104815; 2227730452; 2361852424;
   2428436474; 2756734187; 3204031479; 3329325298].

Definition h256 : list Z :=
  [1779033703; 3144134277; 1013904242; 2773480762;
   1359893119; 2600822924; 528734635; 1541459225].

(** Message schedule: the window holds the last sixteen words, oldest first. *)
Fixpoint schedule (n : nat) (win : list Z) : list Z :=
  match n with
  | O => []
  | S n' =>
      match win with
      | w0 :: rest =>
          let w1 := nth 0 rest 0 in
          let w9 := nth 8 rest 0 in
          let w14 := nth 13 rest 0 in
          let w := add32 (add32 (ssig1 w14) w9) (add32 (ssig0 w1) w0) in
          w0 :: schedule n' (rest ++ [w])
      | [] => []
      end
  end.

Definition round (st : list Z) (kw : Z * Z) : list Z :=
  match st with
  | [a; b; c; d; e; f; g; h] =>
      let t1 := add32 (add32 (add32 h (bsig1 e)) (add32 (ch e f g) (fst kw))) (snd kw) in
      let t2 := add32 (bsig0 a) (maj a b c) in
      [add32 t1 t2; a; b; c; add32 d t1; e; f; g]
  | _ => st
  end.

Definition compress (st : list Z) (block : list Z) : list Z :=
  zip_with add32 st (foldl round st (zip k256 (schedule 64 block))).

(** Groups of [n] elements; the last group may be shorter. *)
Fixpoint chunks_fuel {A} (fuel n : nat) (l : list A) : list (list A) :=
  match fuel with
  | O => []
  | S fuel' =>
      match l with
      | [] => []
      | _ => take n l :: chunks_fuel fuel' n (drop n l)
      end
  end.
Definition chunks {A} (n : nat) (l : list A) : list (list A) :=
  chunks_fuel (length l) n l.

Definition pad (msg : bytes) : bytes :=
  let len := Z.of_nat (length msg) in
  let zeros := Z.to_nat ((55 - len) mod 64) in
  msg ++ [128] ++ replicate zeros 0 ++ be 8 (8 * len).

Definition block_words (blk : bytes) : list Z := map be_decode (chunks 4 blk).

Definition sha256 (msg : bytes) : bytes :=
  let st := foldl compress h256 (map block_words (chunks 64 (pad msg))) in
  concat (map (be 4) st).

(** ** Shape of the digest *)

Lemma length_round st kw : length (round st kw) = length st.
Proof. do 9 (destruct st as [|? st]; try reflexivity). Qed.

Lemma length_rounds l st : length (foldl round st l) = length st.
Proof.
  revert st; induction l as [|kw l IH]; intros st; simpl; [done|].
  by rewrite IH, length_round.
Qed.

Lemma length_compress st blk : length (compress st blk) = length st.
Proof. unfold compress. rewrite length_zip_with, length_rounds. lia. Qed.

Lemma length_compress_all l st : length (foldl compress st l) = length st.
Proof.
  revert st; induction l as [|b l IH]; intros st; simpl; [done|].
  by rewrite IH, length_compress.
Qed.

Lemma length_concat_be n l : length (concat (map (be n) l)) = (n * length l)%nat.
Proof.
  induction l as [|x l IH]; simpl; [lia|]. rewrite length_app, IH, length_be. lia.
Qed.

Lemma length_sha256 msg : length (sha256 msg) = 32%nat.
Proof.
  unfold sha256. by rewrite length_concat_be, length_compress_all.
Qed.

Lemma sha256_bytes msg : all_bytes (sha256 msg).
Proof.
  unfold sha256. apply Forall_concat, Forall_forall. intros x Hx.
  apply list_elem_of_In, in_map_iff in Hx as (w & <- & _). apply be_bytes.
Qed.

#[export] Hint Rewrite length_sha256 : len.
#[export] Hint Resolve sha256_bytes length_sha256 : l1.

(** The published test vectors of FIPS 180-4. *)
Example sha256_abc :
  be_decode (sha256 [97; 98; 99])
  = 0xba7816bf8f01cfea414140de5dae2223b00361a396177a9cb410ff61f20015ad.
Proof. vm_compute. reflexivity. Qed.

Example sha256_empty :
  be_decode (sha256 [])
  = 0xe3b0c44298fc1c149afbf4c8996fb92427ae41e4649b934ca495991b7852b855.
Proof. vm_compute. reflexivity. Qed.

(** ** Collisions

    SHA-256 is not injective, so no statement assumes that it is: statements
    that depend on collision resistance name the finite list of inputs that are
    hashed and ask that no two of them collide.  The condition is decidable. *)

Definition collision_free (inputs : list bytes) : Prop :=
  forall x y, x ∈ inputs -> y ∈ inputs -> sha256 x = sha256 y -> x = y.

Definition collision_freeb (inputs : list bytes) : bool :=
  bool_decide (NoDup (map sha256 (remove_dups inputs))).

Lemma NoDup_map_inj {A B} (f : A -> B) (l : list A) x y :
  NoDup (map f l) -> x ∈ l -> y ∈ l -> f x = f y -> x = y.
Proof.
  induction l as [|z l IH]; simpl; intros Hnd Hx Hy Heq; [set_solver|].
  apply NoDup_cons in Hnd as [Hz Hnd].
  assert (Hin : forall w, w ∈ l -> f w ∈ map f l).
  { intros w Hw. apply list_elem_of_In, in_map, list_elem_of_In, Hw. }
  apply elem_of_cons in Hx, Hy.
  destruct Hx as [->|Hx], Hy as [->|Hy]; [done|..|by apply IH].
  - exfalso. apply Hz. rewrite Heq. auto.
  - exfalso. apply Hz. rewrite <- Heq. auto.
Qed.

Lemma collision_freeb_sound inputs :
  collision_freeb inputs = true -> collision_free inputs.
Proof.
  unfold collision_freeb. intros H%bool_decide_eq_true x y Hx Hy Heq.
  eapply NoDup_map_inj; eauto; by apply elem_of_remove_dups.
Qed.

Lemma collision_free_subset l1 l2 :
  (forall x, x ∈ l1 -> x ∈ l2) -> collision_free l2 -> collision_free l1.
Proof. intros Hs H x y Hx Hy. apply H; auto. Qed.

#[global] Opaque sha256.
