(* ===== verification/Core.v ===== *)
(** * core: hashes, addresses, transactions, headers, merkle roots

    Models [src/core].  Fixed-size arrays ([Hash], [Address]) are byte lists;
    the predicates [hash_wf] and [addr_wf] state what their Go types
    guarantee. *)

From S2P Require Import Prelude Sha256.

(** ** Hash and Address *)

Definition HashLen : nat := 32.
Definition AddrLen : nat := 20.

Abbreviation Hash := (list Z) (only parsing).
Abbreviation Address := (list Z) (only parsing).

Definition hash_wf (h : Hash) : Prop := length h = HashLen /\ all_bytes h.
Definition addr_wf (a : Address) : Prop := length a = AddrLen /\ all_bytes a.

Definition zero_hash : Hash := replicate HashLen 0.
Definition zero_addr : Address := replicate AddrLen 0.

(** [Hash.IsZero] *)
Definition IsZero (h : Hash) : bool := forallb (fun b => b =? 0) h.

(** [Address.Less]: byte-lexicographic. *)
Fixpoint Less (a b : Address) : bool :=
  match a, b with
  | x :: a', y :: b' => if x =? y then Less a' b' else x <? y
  | _, _ => false
  end.

Definition SumHash (data : bytes) : Hash := sha256 data.

Definition HashConcat (parts : list bytes) : Hash := sha256 (concat parts).

(** ** Transactions *)

Record Transaction := mkTx {
  tx_From : Address;
  tx_To : Address;
  tx_Value : Z;
  tx_Nonce : Z;
  tx_GasLimit : Z;
  tx_ChainID : Z;
  tx_GasFeeCap : Z;
  tx_GasTipCap : Z;
  tx_Data : bytes;
  tx_Signature : bytes }.

#[export] Instance Transaction_eq_dec : EqDecision Transaction.
Proof. solve_decision. Defined.

Definition tx_wf (t : Transaction) : Prop :=
  addr_wf (tx_From t) /\ addr_wf (tx_To t) /\
  is_u64 (tx_Value t) /\ is_u64 (tx_Nonce t) /\ is_u64 (tx_GasLimit t) /\
  is_u64 (tx_ChainID t) /\ is_u64 (tx_GasFeeCap t) /\ is_u64 (tx_GasTipCap t) /\
  all_bytes (tx_Data t) /\ all_bytes (tx_Signature t).

(** [Transaction.preimage(withSig)] *)
Definition tx_preimage (t : Transaction) (withSig : bool) : bytes :=
  tx_From t ++ tx_To t ++ be 8 (tx_Value t) ++ be 8 (tx_Nonce t) ++
  be 8 (tx_GasLimit t) ++ be 8 (tx_ChainID t) ++ be 8 (tx_GasFeeCap t) ++
  be 8 (tx_GasTipCap t) ++ tx_Data t ++ (if withSig then tx_Signature t else []).

Definition tx_SigningHash (t : Transaction) : Hash := SumHash (tx_preimage t false).
Definition tx_Hash (t : Transaction) : Hash := SumHash (tx_preimage t true).

(** ** Merkle root *)

(** [if len(level)%2 == 1 { level = append(level, level[len(level)-1]) }] *)
Definition pad_even (level : list Hash) : list Hash :=
  if Nat.odd (length level) then level ++ [List.last level zero_hash] else level.

(** the inner loop: hash neighbours two by two *)
Fixpoint hash_pairs (level : list Hash) : list Hash :=
  match level with
  | a :: b :: rest => HashConcat [a; b] :: hash_pairs rest
  | _ => []
  end.

(** the outer loop [for len(level) > 1]; [None] when the fuel runs out *)
Fixpoint merkle_loop (fuel : nat) (level : list Hash) : option Hash :=
  match level with
  | [] => None
  | [h] => Some h
  | _ =>
      match fuel with
      | O => None
      | S fuel' => merkle_loop fuel' (hash_pairs (pad_even level))
      end
  end.

Definition MerkleRoot (leaves : list Hash) : Hash :=
  match leaves with
  | [] => zero_hash
  | _ => default zero_hash (merkle_loop (length leaves) leaves)
  end.

(** ** Blocks *)

Record Header := mkHeader {
  h_Height : Z;
  h_PrevHash : Hash;
  h_MerkleRoot : Hash;
  h_StateRoot : Hash;
  h_Coinbase : Address;
  h_Timestamp : Z;   (* int64 *)
  h_Difficulty : Z;  (* uint32 *)
  h_Nonce : Z;
  h_BaseFee : Z;
  h_GasUsed : Z;
  h_ProposerSig : bytes }.

#[export] Instance Header_eq_dec : EqDecision Header.
Proof. solve_decision. Defined.

Definition header_wf (h : Header) : Prop :=
  is_u64 (h_Height h) /\ hash_wf (h_PrevHash h) /\ hash_wf (h_MerkleRoot h) /\
  hash_wf (h_StateRoot h) /\ addr_wf (h_Coinbase h) /\
  - two63 <= h_Timestamp h < two63 /\ is_u32 (h_Difficulty h) /\
  is_u64 (h_Nonce h) /\ is_u64 (h_BaseFee h) /\ is_u64 (h_GasUsed h) /\
  all_bytes (h_ProposerSig h).

Record Block := mkBlock {
  b_Header : Header;
  b_Txs : list Transaction }.

#[export] Instance Block_eq_dec : EqDecision Block.
Proof. solve_decision. Defined.

(** [Block.TxRoot] *)
Definition TxRoot (b : Block) : Hash := MerkleRoot (map tx_Hash (b_Txs b)).

(** [Header.preimage(withSig)] *)
Definition header_preimage (h : Header) (withSig : bool) : bytes :=
  be 8 (h_Height h) ++ h_PrevHash h ++ h_MerkleRoot h ++ h_StateRoot h ++
  h_Coinbase h ++ be 8 (u64 (h_Timestamp h)) ++ be 4 (h_Difficulty h) ++
  be 8 (h_Nonce h) ++ be 8 (h_BaseFee h) ++ be 8 (h_GasUsed h) ++
  (if withSig then h_ProposerSig h else []).

Definition header_SigningHash (h : Header) : Hash := SumHash (header_preimage h false).
Definition header_Hash (h : Header) : Hash := SumHash (header_preimage h true).
Definition block_Hash (b : Block) : Hash := header_Hash (b_Header b).

(** ** Facts about hashes and addresses *)

Lemma length_SumHash d : length (SumHash d) = HashLen.
Proof. apply length_sha256. Qed.

Lemma length_HashConcat ps : length (HashConcat ps) = HashLen.
Proof. apply length_sha256. Qed.

Lemma SumHash_wf d : hash_wf (SumHash d).
Proof. split; [apply length_sha256 | apply sha256_bytes]. Qed.

Lemma zero_hash_wf : hash_wf zero_hash.
Proof.
  split; [done|]. apply Forall_replicate. unfold is_byte; lia.
Qed.

Lemma zero_addr_wf : addr_wf zero_addr.
Proof.
  split; [done|]. apply Forall_replicate. unfold is_byte; lia.
Qed.

#[export] Hint Rewrite length_SumHash length_HashConcat : len.
#[export] Hint Resolve SumHash_wf zero_hash_wf zero_addr_wf length_SumHash : l1.

Lemma forallb_zero_replicate l :
  forallb (fun b => b =? 0) l = true <-> l = replicate (length l) 0.
Proof.
  induction l as [|x l IH]; simpl; [done|].
  rewrite andb_true_iff, Z.eqb_eq, IH. split; [by intros [-> <-]|].
  intros H; injection H; auto.
Qed.

Lemma IsZero_iff h : length h = HashLen -> IsZero h = true <-> h = zero_hash.
Proof.
  intros Hlen. unfold IsZero, zero_hash. rewrite <- Hlen.
  apply forallb_zero_replicate.
Qed.

Lemma IsZero_false h : length h = HashLen -> h <> zero_hash -> IsZero h = false.
Proof.
  intros Hlen Hne. destruct (IsZero h) eqn:E; [|done].
  by apply IsZero_iff in E.
Qed.

Lemma IsZero_zero_hash : IsZero zero_hash = true.
Proof. done. Qed.

Lemma Less_irrefl a : Less a a = false.
Proof. induction a as [|x a IH]; simpl; [done|]. by rewrite Z.eqb_refl. Qed.

Lemma Less_trans a b c : Less a b = true -> Less b c = true -> Less a c = true.
Proof.
  revert b c; induction a as [|x a IH]; intros [|y b] [|z c]; simpl; try done.
  destruct (Z.eqb_spec x y), (Z.eqb_spec y z), (Z.eqb_spec x z); subst;
    rewrite ?Z.ltb_lt; intros; try lia; eauto.
Qed.

Lemma Less_total a b :
  length a = length b -> Less a b = false -> Less b a = false -> a = b.
Proof.
  revert b; induction a as [|x a IH]; intros [|y b]; simpl; try done.
  intros Hlen. destruct (Z.eqb_spec x y) as [->|Hne].
  - rewrite Z.eqb_refl. intros. f_equal. apply IH; auto; lia.
  - destruct (Z.eqb_spec y x); [lia|]. rewrite !Z.ltb_ge. lia.
Qed.

(** ** Injectivity of the signed encodings *)

(** splits an equation between concatenations at a part of known length *)
Ltac peel H :=
  let E := fresh "E" in
  apply app_split in H as [E H]; [|len; congruence].

Theorem tx_preimage_unsigned_inj t1 t2 :
  tx_wf t1 -> tx_wf t2 ->
  tx_preimage t1 false = tx_preimage t2 false ->
  t1 = mkTx (tx_From t2) (tx_To t2) (tx_Value t2) (tx_Nonce t2) (tx_GasLimit t2)
            (tx_ChainID t2) (tx_GasFeeCap t2) (tx_GasTipCap t2) (tx_Data t2)
            (tx_Signature t1).
Proof.
  intros ([F1 _] & [T1 _] & V1 & N1 & G1 & C1 & K1 & P1 & _)
         ([F2 _] & [T2 _] & V2 & N2 & G2 & C2 & K2 & P2 & _) H.
  unfold tx_preimage in H. rewrite !app_nil_r in H.
  do 8 peel H. destruct t1; simpl in *.
  f_equal; auto using be8_inj.
Qed.

Theorem header_preimage_inj h1 h2 :
  header_wf h1 -> header_wf h2 ->
  header_preimage h1 true = header_preimage h2 true -> h1 = h2.
Proof.
  intros (A1 & [B1 _] & [C1 _] & [D1 _] & [E1 _] & T1 & U1 & V1 & W1 & X1 & _)
         (A2 & [B2 _] & [C2 _] & [D2 _] & [E2 _] & T2 & U2 & V2 & W2 & X2 & _) H.
  unfold header_preimage in H. do 10 peel H.
  assert (Ht : u64 (h_Timestamp h1) = u64 (h_Timestamp h2))
    by (apply be8_inj; auto with l1).
  assert (h_Timestamp h1 = h_Timestamp h2).
  { unfold u64, two63, two64 in *. revert Ht. Z.div_mod_to_equations. lia. }
  destruct h1, h2; simpl in *. f_equal; auto using be8_inj, be4_inj.
Qed.

(** ** Merkle tree *)

(** the strings a level hashes, and those a whole tree hashes *)
Fixpoint level_inputs (level : list Hash) : list bytes :=
  match level with
  | a :: b :: rest => (a ++ b) :: level_inputs rest
  | _ => []
  end.

Fixpoint merkle_inputs (fuel : nat) (level : list Hash) : list bytes :=
  match fuel with
  | O => []
  | S fuel' =>
      if (length level <=? 1)%nat then []
      else level_inputs (pad_even level)
           ++ merkle_inputs fuel' (hash_pairs (pad_even level))
  end.

Lemma list_pair_ind {A} (P : list A -> Prop) :
  P [] -> (forall a, P [a]) -> (forall a b l, P l -> P (a :: b :: l)) ->
  forall l, P l.
Proof.
  intros H0 H1 H2. fix IH 1. intros [|a [|b l]]; [done|done|]. apply H2, IH.
Qed.

Lemma length_hash_pairs l : length (hash_pairs l) = Nat.div2 (length l).
Proof. induction l using list_pair_ind; simpl; auto. Qed.

Lemma hash_pairs_wf l : Forall (fun h => length h = HashLen) (hash_pairs l).
Proof.
  induction l using list_pair_ind; simpl; constructor; auto.
  apply length_HashConcat.
Qed.

Lemma length_pad_even l :
  length (pad_even l) = (length l + if Nat.odd (length l) then 1 else 0)%nat.
Proof. unfold pad_even. destruct (Nat.odd _); len. Qed.

Lemma pad_even_even l : Nat.even (length (pad_even l)) = true.
Proof.
  rewrite length_pad_even, <- Nat.negb_odd.
  destruct (Nat.odd (length l)) eqn:E.
  - by rewrite Nat.odd_add, E.
  - by rewrite Nat.add_0_r, E.
Qed.

Lemma Forall_last {A} (P : A -> Prop) l d :
  Forall P l -> P d -> P (List.last l d).
Proof.
  induction l as [|x l IH]; intros H Hd; [done|]. inversion H; subst.
  simpl. destruct l; auto.
Qed.

Lemma pad_even_wf l :
  Forall (fun h => length h = HashLen) l ->
  Forall (fun h => length h = HashLen) (pad_even l).
Proof.
  intros H. unfold pad_even. destruct (Nat.odd _); [|done].
  apply Forall_app; split; [done|]. apply Forall_singleton.
  by apply Forall_last.
Qed.

Lemma pad_even_inj l1 l2 :
  length l1 = length l2 -> pad_even l1 = pad_even l2 -> l1 = l2.
Proof.
  unfold pad_even. intros <-. destruct (Nat.odd _); [|done].
  intros H. by apply app_inj_tail in H as [-> _].
Qed.

Lemma div2_lt_length {A} (l : list A) :
  (1 < length l)%nat ->
  (Nat.div2 (length l + if Nat.odd (length l) then 1 else 0) < length l)%nat.
Proof.
  intros H. rewrite Nat.div2_div. destruct (Nat.odd _).
  all: apply Nat.Div0.div_lt_upper_bound; lia.
Qed.

Lemma next_level_shorter l :
  (1 < length l)%nat -> (length (hash_pairs (pad_even l)) < length l)%nat.
Proof.
  intros. rewrite length_hash_pairs, length_pad_even. by apply div2_lt_length.
Qed.

Lemma next_level_nonempty l :
  (1 < length l)%nat -> hash_pairs (pad_even l) <> [].
Proof.
  intros H E%(f_equal length). rewrite length_hash_pairs, length_pad_even in E.
  rewrite Nat.div2_div in E. apply Nat.div_small_iff in E; lia.
Qed.

Lemma merkle_loop_step f l :
  (1 < length l)%nat ->
  merkle_loop (S f) l = merkle_loop f (hash_pairs (pad_even l)).
Proof. destruct l as [|a [|b l]]; simpl; intros; [lia|lia|done]. Qed.

Lemma merkle_inputs_step f l :
  (1 < length l)%nat ->
  merkle_inputs (S f) l =
  level_inputs (pad_even l) ++ merkle_inputs f (hash_pairs (pad_even l)).
Proof.
  intros H. simpl. destruct (Nat.leb_spec (length l) 1); [lia|done].
Qed.

(** The loop of [MerkleRoot] ends: as many iterations as there are leaves are
    enough, and more change nothing. *)
Lemma merkle_loop_terminates f l :
  l <> [] -> (length l <= f)%nat ->
  exists h, forall f', (length l <= f')%nat -> merkle_loop f' l = Some h.
Proof.
  revert l; induction f as [|f IH]; intros l Hne Hf.
  { destruct l; simpl in *; [done|lia]. }
  destruct (decide (length l <= 1)%nat) as [H1|H1].
  { destruct l as [|h [|]]; simpl in *; [done| |lia].
    exists h. intros [|]; done. }
  destruct (IH (hash_pairs (pad_even l))) as [h Hh].
  - apply next_level_nonempty; lia.
  - pose proof (next_level_shorter l). lia.
  - exists h. intros [|f'] Hf'; [lia|]. rewrite merkle_loop_step by lia.
    apply Hh. pose proof (next_level_shorter l). lia.
Qed.

Lemma MerkleRoot_loop f l :
  l <> [] -> (length l <= f)%nat -> merkle_loop f l = Some (MerkleRoot l).
Proof.
  intros Hne Hf. destruct (merkle_loop_terminates f l Hne Hf) as [h Hh].
  rewrite (Hh f Hf). unfold MerkleRoot. destruct l; [done|].
  by rewrite Hh.
Qed.

Lemma hash_pairs_inj l1 l2 :
  length l1 = length l2 -> Nat.even (length l1) = true ->
  Forall (fun h => length h = HashLen) l1 ->
  Forall (fun h => length h = HashLen) l2 ->
  collision_free (level_inputs l1 ++ level_inputs l2) ->
  hash_pairs l1 = hash_pairs l2 -> l1 = l2.
Proof.
  revert l2; induction l1 as [|a|a b l1 IH] using list_pair_ind;
    intros l2 Hlen He W1 W2 CF Heq.
  - by destruct l2.
  - done.
  - destruct l2 as [|a' [|b' l2]]; try done. simpl in *.
    injection Heq as Hh Hrest. unfold HashConcat in Hh. simpl in Hh.
    rewrite !app_nil_r in Hh.
    apply CF in Hh; [|set_solver|set_solver].
    inversion W1 as [|?? Ha W1']; subst. inversion W1'; subst.
    inversion W2 as [|?? Ha' W2']; subst. inversion W2'; subst.
    apply app_split in Hh as [-> ->]; [|congruence].
    f_equal. f_equal. apply IH; auto; [|eapply collision_free_subset; [|exact CF]; set_solver].
    by injection Hlen.
Qed.

Lemma merkle_loop_inj f l1 l2 h :
  length l1 = length l2 ->
  Forall (fun h => length h = HashLen) l1 ->
  Forall (fun h => length h = HashLen) l2 ->
  collision_free (merkle_inputs f l1 ++ merkle_inputs f l2) ->
  merkle_loop f l1 = Some h -> merkle_loop f l2 = Some h -> l1 = l2.
Proof.
  revert l1 l2; induction f as [|f IH]; intros l1 l2 Hlen W1 W2 CF H1 H2;
    (destruct (decide (length l1 <= 1)%nat) as [Hs|Hs];
     [destruct l1 as [|? [|]], l2 as [|? [|]]; simpl in *; try lia; congruence|]).
  { destruct l1 as [|? [|]]; simpl in *; congruence || lia. }
  rewrite merkle_loop_step in H1, H2 by lia.
  rewrite !merkle_inputs_step in CF by lia.
  apply pad_even_inj; [done|]. apply hash_pairs_inj; auto using pad_even_wf, pad_even_even.
  - by rewrite !length_pad_even, Hlen.
  - eapply collision_free_subset; [|exact CF]. set_solver.
  - apply IH; auto using hash_pairs_wf.
    + by rewrite !length_hash_pairs, !length_pad_even, Hlen.
    + eapply collision_free_subset; [|exact CF]. set_solver.
Qed.

Lemma pad_even_dup l x :
  Nat.even (length l) = true -> pad_even (l ++ [x]) = pad_even (l ++ [x; x]).
Proof.
  intros He. unfold pad_even. rewrite !length_app. simpl.
  rewrite !Nat.odd_add, <- !Nat.negb_even, He. simpl.
  rewrite List.last_last. by rewrite <- app_assoc.
Qed.

(** ** Properties *)

(** A signature commits to the whole transaction.  Two transactions with
    the same [SigningHash] agree on every field but the signature, the chain id
    and the fee fields included, unless their two preimages collide under
    SHA-256. *)
Theorem SigningHash_commits t1 t2 :
  tx_wf t1 -> tx_wf t2 ->
  collision_free [tx_preimage t1 false; tx_preimage t2 false] ->
  tx_SigningHash t1 = tx_SigningHash t2 ->
  t1 = mkTx (tx_From t2) (tx_To t2) (tx_Value t2) (tx_Nonce t2) (tx_GasLimit t2)
            (tx_ChainID t2) (tx_GasFeeCap t2) (tx_GasTipCap t2) (tx_Data t2)
            (tx_Signature t1).
Proof.
  intros W1 W2 CF H. apply tx_preimage_unsigned_inj; auto.
  apply CF; [set_solver|set_solver|exact H].
Qed.

Definition sample_tx : Transaction :=
  mkTx (replicate 20 1) (replicate 20 2) 100 0 21000 1337 7 2 [1; 2; 3] [9].

Lemma SigningHash_commits_witness :
  sample_tx = mkTx (replicate 20 1) (replicate 20 2) 100 0 21000 1337 7 2
                   [1; 2; 3] [9].
Proof.
  apply (SigningHash_commits sample_tx
           (mkTx (replicate 20 1) (replicate 20 2) 100 0 21000 1337 7 2
                 [1; 2; 3] [7; 7])).
  - unfold tx_wf, addr_wf; simpl; repeat split; try lia; try done;
      repeat constructor; lia.
  - unfold tx_wf, addr_wf; simpl; repeat split; try lia; try done;
      repeat constructor; lia.
  - apply collision_freeb_sound. vm_compute. reflexivity.
  - reflexivity.
Defined.

(** The block hash commits to the whole header: every field, the nonce, the
    fee fields and the proposer signature included. *)
Theorem header_Hash_commits h1 h2 :
  header_wf h1 -> header_wf h2 ->
  collision_free [header_preimage h1 true; header_preimage h2 true] ->
  header_Hash h1 = header_Hash h2 -> h1 = h2.
Proof.
  intros W1 W2 CF H. apply header_preimage_inj; auto.
  apply CF; [set_solver|set_solver|exact H].
Qed.

Definition sample_header : Header :=
  mkHeader 1 (replicate 32 3) zero_hash zero_hash (replicate 20 1) (-5) 8 77 10 0 [].

Lemma header_Hash_commits_witness : sample_header = sample_header.
Proof.
  apply (header_Hash_commits sample_header sample_header).
  - unfold header_wf, hash_wf, addr_wf, two63; simpl; repeat split; try lia; try done;
      repeat constructor; lia.
  - unfold header_wf, hash_wf, addr_wf, two63; simpl; repeat split; try lia; try done;
      repeat constructor; lia.
  - apply collision_freeb_sound. vm_compute. reflexivity.
  - reflexivity.
Defined.

(** the merkle root binds the ordered list of leaves of a given length: two
    leaf lists of the same length with the same root are equal, unless two of
    the strings hashed on the way to the roots collide. *)
Theorem MerkleRoot_binding l1 l2 :
  length l1 = length l2 ->
  Forall (fun h => length h = HashLen) l1 ->
  Forall (fun h => length h = HashLen) l2 ->
  collision_free (merkle_inputs (length l1) l1 ++ merkle_inputs (length l2) l2) ->
  MerkleRoot l1 = MerkleRoot l2 -> l1 = l2.
Proof.
  intros Hlen W1 W2 CF H. destruct (decide (l1 = [])) as [->|Hne].
  { by destruct l2. }
  assert (l2 <> []) by (intros ->; destruct l1; done).
  rewrite Hlen in CF.
  eapply (merkle_loop_inj (length l2)); eauto.
  - apply MerkleRoot_loop; [done|lia].
  - rewrite H. apply MerkleRoot_loop; [done|lia].
Qed.

Lemma MerkleRoot_binding_witness :
  [replicate 32 1; replicate 32 2; replicate 32 3]
  = [replicate 32 1; replicate 32 2; replicate 32 3].
Proof.
  apply MerkleRoot_binding.
  - reflexivity.
  - repeat constructor.
  - repeat constructor.
  - apply collision_freeb_sound. vm_compute. reflexivity.
  - reflexivity.
Defined.

(** the root does not bind the number of leaves: a block whose transaction
    count is odd has the same root as the block that repeats its last
    transaction (the duplication of odd levels is visible from outside). *)
Theorem MerkleRoot_duplicate_last l x :
  l <> [] -> Nat.even (length l) = true ->
  MerkleRoot (l ++ [x]) = MerkleRoot (l ++ [x; x]).
Proof.
  intros Hne He. assert (1 < length l)%nat by (destruct l as [|? [|]]; simpl in *; done || lia).
  assert (Some (MerkleRoot (l ++ [x])) = Some (MerkleRoot (l ++ [x; x]))) as [= ->]; [|done].
  rewrite <- (MerkleRoot_loop (S (length l + 2)) (l ++ [x])),
          <- (MerkleRoot_loop (S (length l + 2)) (l ++ [x; x])).
  all: try (len; fail). 2-3: by destruct l.
  rewrite !merkle_loop_step by len. by rewrite pad_even_dup.
Qed.

Lemma MerkleRoot_duplicate_last_witness :
  MerkleRoot ([replicate 32 1; replicate 32 2] ++ [replicate 32 3])
  = MerkleRoot ([replicate 32 1; replicate 32 2] ++ [replicate 32 3; replicate 32 3]).
Proof. apply MerkleRoot_duplicate_last; [discriminate|reflexivity]. Defined.

(** [Transaction.Hash] does not separate [Data] from [Signature]: moving the
    last data byte to the front of the signature gives a different transaction
    with the same identity (the signing hash still tells them apart). *)
Theorem tx_Hash_data_signature_ambiguous from to v n g c k p d x s :
  tx_Hash (mkTx from to v n g c k p (d ++ [x]) s)
  = tx_Hash (mkTx from to v n g c k p d (x :: s))
  /\ mkTx from to v n g c k p (d ++ [x]) s <> mkTx from to v n g c k p d (x :: s).
Proof.
  split.
  - unfold tx_Hash, tx_preimage. simpl. by rewrite <- (app_assoc d).
  - intros H. injection H as H _. apply (f_equal length) in H. len.
Qed.
