(* ===== verification/Pow.v ===== *)
(** * consensus: proof of work

    Models [src/consensus]: the leading-zero-bits target, the mining loop and
    the difficulty adjustment, and the consensus mode. *)

From S2P Require Import Prelude Sha256 Core.

Inductive Mode := PoW | PoS.

#[export] Instance Mode_eq_dec : EqDecision Mode.
Proof. solve_decision. Defined.

Definition MaxDifficulty : Z := 256.
Definition RetargetInterval : Z := 10.
Definition TargetIntervalSeconds : Z := 10.

(** the loop over [mask := 0x80; mask != 0; mask >>= 1]: [inl c] is the early
    return of [c], [inr c] the normal end of the loop *)
Fixpoint mask_loop (n : nat) (b mask count : Z) : Z + Z :=
  match n with
  | O => inr count
  | S n' =>
      if mask =? 0 then inr count
      else if negb (Z.land b mask =? 0) then inl count
      else mask_loop n' b (Z.shiftr mask 1) (count + 1)
  end.

(** the loop over the bytes of the hash; [mask] is a byte, so nine iterations
    of the inner loop are enough to reach [mask == 0] *)
Fixpoint leading_zeros_from (h : Hash) (count : Z) : Z :=
  match h with
  | [] => count
  | b :: h' =>
      if b =? 0 then leading_zeros_from h' (count + 8)
      else
        match mask_loop 9 b 128 count with
        | inl c => c
        | inr c => leading_zeros_from h' c
        end
  end.

Definition leadingZeroBits (h : Hash) : Z := leading_zeros_from h 0.

Definition MeetsTarget (h : Hash) (difficulty : Z) : bool :=
  difficulty <=? leadingZeroBits h.

(** [header.Nonce = i] *)
Definition set_nonce (h : Header) (i : Z) : Header :=
  mkHeader (h_Height h) (h_PrevHash h) (h_MerkleRoot h) (h_StateRoot h)
    (h_Coinbase h) (h_Timestamp h) (h_Difficulty h) i (h_BaseFee h)
    (h_GasUsed h) (h_ProposerSig h).

(** the loop of [Mine]; [None] when the fuel runs out, which only an unbounded
    search ([maxIters == 0]) can need more of than [maxIters + 1] *)
Fixpoint mine_loop (fuel : nat) (i : Z) (header : Header) (hash : Hash)
    (maxIters : Z) : option (Header * Hash * bool) :=
  if (maxIters =? 0) || (i <? maxIters) then
    match fuel with
    | O => None
    | S fuel' =>
        let header' := set_nonce header i in
        let hash' := header_Hash header' in
        if MeetsTarget hash' (h_Difficulty header') then Some (header', hash', true)
        else mine_loop fuel' (u64 (i + 1)) header' hash' maxIters
    end
  else Some (header, hash, false).

(** [Mine]: the mutated header, the hash and [found] *)
Definition Mine (fuel : nat) (header : Header) (maxIters : Z)
    : option (Header * Hash * bool) :=
  mine_loop fuel 0 header zero_hash maxIters.

Definition NextDifficulty (current actualSeconds expectedSeconds : Z) : Z :=
  if expectedSeconds <=? 0 then current
  else if actualSeconds <? Z.quot expectedSeconds 2 then
    if current <? MaxDifficulty then current + 1 else current
  else if i64_of (expectedSeconds * 2) <? actualSeconds then
    if 1 <? current then current - 1 else current
  else current.

(** ** The target as a number *)

(** the number of bits of a natural number *)
Definition bitlen (v : Z) : Z := if v =? 0 then 0 else Z.log2 v + 1.

Lemma bitlen_le v k : 0 <= v -> 0 <= k -> bitlen v <= k <-> v < 2 ^ k.
Proof.
  intros Hv Hk. unfold bitlen. destruct (Z.eqb_spec v 0) as [->|Hne].
  - split; [|lia]. intros _. apply Z.pow_pos_nonneg; lia.
  - pose proof (Z.log2_lt_pow2 v k). lia.
Qed.

(** every non-zero byte is left by the inner loop at its highest set bit *)
Lemma mask_loop_all :
  forallb (fun b => match mask_loop 9 b 128 0 with
                    | inl c => c =? 7 - Z.log2 b
                    | inr _ => false
                    end) (map Z.of_nat (seq 1 255)) = true.
Proof. vm_compute. reflexivity. Qed.

Lemma mask_loop_count n b mask c :
  mask_loop n b mask c =
  match mask_loop n b mask 0 with inl k => inl (c + k) | inr k => inr (c + k) end.
Proof.
  assert (H : forall c d, mask_loop n b mask (c + d) =
    match mask_loop n b mask d with inl k => inl (c + k) | inr k => inr (c + k) end).
  { clear c. revert mask. induction n as [|n IH]; intros mask c d; simpl; [done|].
    destruct (mask =? 0); [done|]. destruct (negb _); [done|].
    rewrite <- IH. f_equal. lia. }
  rewrite <- H. f_equal. lia.
Qed.

Lemma mask_loop_byte b c :
  0 < b < 256 -> mask_loop 9 b 128 c = inl (c + (7 - Z.log2 b)).
Proof.
  intros Hb. pose proof mask_loop_all as H. rewrite forallb_forall in H.
  specialize (H b). rewrite mask_loop_count.
  destruct (mask_loop 9 b 128 0) as [k|k].
  - do 2 f_equal. apply Z.eqb_eq, H, in_map_iff.
    exists (Z.to_nat b). rewrite in_seq. lia.
  - exfalso. enough (false = true) by done. apply H, in_map_iff.
    exists (Z.to_nat b). rewrite in_seq. lia.
Qed.

Lemma log2_add_small a r k :
  0 < a -> 0 <= k -> 0 <= r < 2 ^ k -> Z.log2 (a * 2 ^ k + r) = Z.log2 a + k.
Proof.
  intros Ha Hk Hr. pose proof (Z.log2_spec a Ha) as [H1 H2].
  pose proof (Z.log2_nonneg a).
  pose proof (Z.pow_pos_nonneg 2 k). unfold Z.succ in H2.
  apply Z.log2_unique; [lia|].
  replace (Z.succ (Z.log2 a + k)) with ((Z.log2 a + 1) + k) by lia.
  rewrite !Z.pow_add_r in * by lia. nia.
Qed.

Lemma be_decode_cons b l :
  be_decode (b :: l) = b * 256 ^ Z.of_nat (length l) + be_decode l.
Proof. change (b :: l) with ([b] ++ l). rewrite be_decode_app. done. Qed.

Lemma leading_zeros_spec h c :
  all_bytes h ->
  leading_zeros_from h c = c + (8 * Z.of_nat (length h) - bitlen (be_decode h)).
Proof.
  revert c; induction h as [|b h IH]; intros c Hb; [unfold bitlen; simpl; lia|].
  inversion Hb as [|?? Hx Hh]; subst. unfold is_byte in Hx.
  pose proof (be_decode_bound h Hh) as Hd. rewrite be_decode_cons.
  assert (E : 256 ^ Z.of_nat (length h) = 2 ^ (8 * Z.of_nat (length h))).
  { rewrite Z.pow_mul_r by lia. done. }
  cbn [leading_zeros_from]. rewrite length_cons. destruct (Z.eqb_spec b 0) as [->|Hne].
  - rewrite IH by done. rewrite Z.mul_0_l, Z.add_0_l. lia.
  - rewrite mask_loop_byte by lia. rewrite E in *. unfold bitlen.
    destruct (Z.eqb_spec (b * 2 ^ (8 * Z.of_nat (length h)) + be_decode h) 0).
    + pose proof (Z.pow_pos_nonneg 2 (8 * Z.of_nat (length h))). nia.
    + rewrite log2_add_small by lia. lia.
Qed.

(** ** The mining loop *)

Lemma set_nonce_set h i j : set_nonce (set_nonce h i) j = set_nonce h j.
Proof. done. Qed.

(** [first_nonce] says what the loop looks for. *)
Definition meets (h : Header) (i : Z) : Prop :=
  MeetsTarget (header_Hash (set_nonce h i)) (h_Difficulty h) = true.

Lemma mine_loop_spec fuel i header hash maxIters h' hash' found :
  0 <= i -> i <= maxIters < two64 ->
  mine_loop fuel i header hash maxIters = Some (h', hash', found) ->
  0 < maxIters ->
  match found with
  | true => i <= h_Nonce h' < maxIters /\ h' = set_nonce header (h_Nonce h') /\
            hash' = header_Hash h' /\ meets header (h_Nonce h') /\
            forall j, i <= j < h_Nonce h' -> ~ meets header j
  | false => forall j, i <= j < maxIters -> ~ meets header j
  end.
Proof.
  revert i header hash; induction fuel as [|fuel IH];
    intros i header hash Hi Hm Hrun Hpos; cbn [mine_loop] in Hrun;
    destruct (Z.eqb_spec maxIters 0); try lia; simpl orb in Hrun;
    destruct (Z.ltb_spec i maxIters).
  1, 2, 4: try discriminate; injection Hrun as <- <- <-; intros; lia.
  destruct (MeetsTarget _ _) eqn:E.
  - injection Hrun as <- <- <-. cbn [h_Nonce set_nonce].
    repeat split; try lia; try done.
  - rewrite u64_small in Hrun by lia.
    apply IH in Hrun; try lia. destruct found.
    + destruct Hrun as (Hn & -> & -> & Hmeet & Hleast).
      rewrite set_nonce_set in *. cbn [h_Nonce set_nonce] in *.
      repeat split; try lia; try done.
      intros j Hj. destruct (decide (j = i)) as [->|].
      * unfold meets. cbn in E. rewrite E. done.
      * apply Hleast. lia.
    + intros j Hj. destruct (decide (j = i)) as [->|].
      * unfold meets. cbn in E. rewrite E. done.
      * apply Hrun. lia.
Qed.

Lemma mine_loop_total fuel i header hash maxIters :
  0 < maxIters < two64 -> 0 <= i <= maxIters -> maxIters - i < Z.of_nat fuel ->
  is_Some (mine_loop fuel i header hash maxIters).
Proof.
  revert i header hash; induction fuel as [|fuel IH]; intros i header hash Hm Hi Hf;
    [simpl in *; lia|].
  cbn [mine_loop]. destruct (Z.eqb_spec maxIters 0); [lia|]. simpl orb.
  destruct (Z.ltb_spec i maxIters); [|eauto].
  destruct (MeetsTarget _ _); [eauto|].
  apply IH; [lia| |]; rewrite u64_small by lia; lia.
Qed.

(** ** Properties *)

(** the proof-of-work test is the usual one.  A 32-byte hash meets a
    difficulty of [d] bits exactly when, read as a big-endian number, it is
    below [2^(256-d)]. *)
Theorem MeetsTarget_iff h d :
  hash_wf h -> 0 <= d <= MaxDifficulty ->
  MeetsTarget h d = true <-> be_decode h < 2 ^ (256 - d).
Proof.
  intros [Hlen Hb] Hd. unfold MaxDifficulty in Hd. unfold MeetsTarget, leadingZeroBits.
  rewrite Z.leb_le, leading_zeros_spec by done. rewrite Hlen.
  change (8 * Z.of_nat HashLen) with 256.
  pose proof (be_decode_bound h Hb).
  rewrite <- bitlen_le by lia. lia.
Qed.

Lemma MeetsTarget_iff_witness :
  MeetsTarget (be 32 (2 ^ 247)) 8 = true <-> be_decode (be 32 (2 ^ 247)) < 2 ^ (256 - 8).
Proof.
  apply MeetsTarget_iff.
  - split; [apply length_be | apply be_bytes].
  - unfold MaxDifficulty. lia.
Defined.

(** a bounded search always ends, and finds the least nonce: with
    [maxIters > 0] the loop returns; when it reports success the header carries
    the smallest nonce below [maxIters] whose hash meets the target, and the
    hash returned is the header's; when it reports failure no nonce below
    [maxIters] does. *)
Theorem Mine_correct header maxIters :
  0 < maxIters < two64 ->
  exists h' hash' found,
    Mine (S (Z.to_nat maxIters)) header maxIters = Some (h', hash', found) /\
    match found with
    | true => 0 <= h_Nonce h' < maxIters /\ h' = set_nonce header (h_Nonce h') /\
              hash' = header_Hash h' /\
              MeetsTarget hash' (h_Difficulty header) = true /\
              forall j, 0 <= j < h_Nonce h' ->
                MeetsTarget (header_Hash (set_nonce header j)) (h_Difficulty header) = false
    | false => forall j, 0 <= j < maxIters ->
                MeetsTarget (header_Hash (set_nonce header j)) (h_Difficulty header) = false
    end.
Proof.
  intros Hm. unfold Mine.
  destruct (mine_loop_total (S (Z.to_nat maxIters)) 0 header zero_hash maxIters)
    as [[[h' hash'] found] Hrun]; try lia.
  exists h', hash', found. split; [done|].
  apply mine_loop_spec in Hrun; try lia. destruct found.
  - destruct Hrun as (Hn & Heq & -> & Hmeet & Hleast). repeat split; try lia; try done.
    + rewrite Heq at 1. exact Hmeet.
    + intros j Hj. specialize (Hleast j Hj). by apply not_true_is_false.
  - intros j Hj. specialize (Hrun j Hj). by apply not_true_is_false.
Qed.

Lemma Mine_correct_witness :
  exists h' hash' found, Mine 9 sample_header 8 = Some (h', hash', found).
Proof.
  destruct (Mine_correct sample_header 8) as (h' & hash' & found & H & _);
    [split; reflexivity|].
  exists h', hash', found. exact H.
Defined.

(** one retarget moves the difficulty by at most one bit and keeps it in
    [1, MaxDifficulty]; it rises only for blocks more than twice too fast and
    falls only for blocks more than twice too slow (the doubled expectation in
    [int64] range). *)
Theorem NextDifficulty_bounds current actual expected :
  1 <= current <= MaxDifficulty -> 0 <= expected < 2 ^ 62 ->
  let d := NextDifficulty current actual expected in
  1 <= d <= MaxDifficulty /\ Z.abs (d - current) <= 1 /\
  (current < d -> 2 * actual < expected) /\
  (d < current -> 2 * expected < actual).
Proof.
  intros Hc He d. subst d. unfold NextDifficulty, MaxDifficulty in *.
  assert (Hi : i64_of (expected * 2) = expected * 2).
  { unfold i64_of, two63 in *. rewrite u64_small by (unfold two64; lia).
    destruct (Z.ltb_spec (expected * 2) 9223372036854775808); lia. }
  rewrite Hi. rewrite Z.quot_div_nonneg by lia.
  destruct (Z.leb_spec expected 0); [lia|].
  destruct (Z.ltb_spec actual (expected / 2)).
  - destruct (Z.ltb_spec current 256); Z.div_mod_to_equations; lia.
  - destruct (Z.ltb_spec (expected * 2) actual); [|lia].
    destruct (Z.ltb_spec 1 current); lia.
Qed.

Lemma NextDifficulty_bounds_witness :
  let d := NextDifficulty 8 10 100 in
  1 <= d <= MaxDifficulty /\ Z.abs (d - 8) <= 1 /\
  (8 < d -> 2 * 10 < 100) /\ (d < 8 -> 2 * 100 < 10).
Proof.
  apply NextDifficulty_bounds; unfold MaxDifficulty; lia.
Defined.
