(* ===== verification/FeeMarket.v ===== *)
(** * chain/feemarket.go: the base fee and the effective gas price

    Models [src/chain/feemarket.go].  All quantities are [uint64]; the products
    of the recurrence wrap as they do in Go. *)

From S2P Require Import Prelude.

Definition BaseFeeMaxChangeDenominator : Z := 8.
Definition ElasticityMultiplier : Z := 2.

Definition GasTarget (gasLimit : Z) : Z := gasLimit / ElasticityMultiplier.

Definition ComputeBaseFee (parentBaseFee parentGasUsed parentGasTarget : Z) : Z :=
  if (parentGasTarget =? 0) || (parentBaseFee =? 0) then parentBaseFee
  else if parentGasUsed =? parentGasTarget then parentBaseFee
  else if parentGasTarget <? parentGasUsed then
    let gasUsedDelta := parentGasUsed - parentGasTarget in
    let delta := u64 (parentBaseFee * gasUsedDelta) / parentGasTarget
                 / BaseFeeMaxChangeDenominator in
    let delta := if delta <? 1 then 1 else delta in
    u64 (parentBaseFee + delta)
  else
    let gasUsedDelta := parentGasTarget - parentGasUsed in
    let delta := u64 (parentBaseFee * gasUsedDelta) / parentGasTarget
                 / BaseFeeMaxChangeDenominator in
    let delta := if parentBaseFee <=? delta then parentBaseFee - 1 else delta in
    parentBaseFee - delta.

Definition ValidateFeeCapTip (feeCap tipCap : Z) : result unit :=
  if feeCap <? tipCap then Err ErrTipExceedsFeeCap else Ok tt.

(** [(effectivePrice, priorityFee, err)] *)
Definition EffectiveGasPrice (baseFee feeCap tipCap : Z) : result (Z * Z) :=
  if feeCap <? baseFee then Err ErrFeeCapBelowBaseFee
  else
    let headroom := feeCap - baseFee in
    let priorityFee := if headroom <? tipCap then headroom else tipCap in
    Ok (u64 (baseFee + priorityFee), priorityFee).

(** ** The recurrence without wrap-around *)

(** EIP-1559's recurrence over unbounded integers. *)
Definition exact_base_fee (fee used target : Z) : Z :=
  if (target =? 0) || (fee =? 0) then fee
  else if target <? used then fee + Z.max 1 (fee * (used - target) / target / 8)
  else fee - fee * (target - used) / target / 8.

Lemma u64_le x : 0 <= x -> u64 x <= x.
Proof. intros. apply Z.mod_le; [done|reflexivity]. Qed.

(** the change of one block, wrapped or not, is at most an eighth *)
Lemma base_fee_delta_bound fee d target :
  0 <= fee -> 0 <= d <= target -> 0 < target ->
  0 <= u64 (fee * d) / target / 8 <= fee / 8.
Proof.
  intros Hf Hd Ht. pose proof (u64_range (fee * d)).
  assert (0 <= fee * d) by nia. pose proof (u64_le (fee * d)).
  assert (u64 (fee * d) / target <= fee).
  { apply Z.div_le_upper_bound; [lia|]. nia. }
  assert (0 <= u64 (fee * d) / target) by (apply Z.div_pos; lia).
  split; [apply Z.div_pos; lia|]. apply Z.div_le_mono; lia.
Qed.

Lemma div8_lt fee : 0 < fee -> fee / 8 < fee.
Proof. intros. apply Z.div_lt; lia. Qed.

(** ** Properties *)

(** the base fee moves by at most one eighth per block (one unit when an
    eighth is less than that): from a positive fee and a parent block within
    twice its target, the next fee is positive, and the [uint64] additions and
    subtractions do not wrap, even when the product inside the recurrence does. *)
Theorem ComputeBaseFee_bounds fee used target :
  0 < fee <= two63 -> 0 < target -> 0 <= used <= 2 * target ->
  let fee' := ComputeBaseFee fee used target in
  0 < fee' /\ Z.abs (fee' - fee) <= Z.max 1 (fee / 8) /\
  (target < used -> fee < fee') /\ (used <= target -> fee' <= fee).
Proof.
  intros Hf Ht Hu fee'. subst fee'.
  unfold ComputeBaseFee, BaseFeeMaxChangeDenominator.
  destruct (Z.eqb_spec target 0); [lia|]. destruct (Z.eqb_spec fee 0); [lia|].
  simpl orb. cbv iota. pose proof (div8_lt fee).
  destruct (Z.eqb_spec used target); [lia|].
  destruct (Z.ltb_spec target used).
  - pose proof (base_fee_delta_bound fee (used - target) target) as Hb.
    destruct (Z.ltb_spec (u64 (fee * (used - target)) / target / 8) 1).
    all: rewrite u64_small by (unfold two63, two64 in *; lia); lia.
  - pose proof (base_fee_delta_bound fee (target - used) target) as Hb.
    destruct (Z.leb_spec fee (u64 (fee * (target - used)) / target / 8)); lia.
Qed.

Lemma ComputeBaseFee_bounds_witness :
  let fee' := ComputeBaseFee 1000 8000000 4000000 in
  0 < fee' /\ Z.abs (fee' - 1000) <= Z.max 1 (1000 / 8) /\
  (4000000 < 8000000 -> 1000 < fee') /\ (8000000 <= 4000000 -> fee' <= 1000).
Proof. apply ComputeBaseFee_bounds; unfold two63; lia. Defined.

(** As long as the product of the fee and the distance from the target fits
    in 64 bits, the code computes EIP-1559's recurrence exactly. *)
Theorem ComputeBaseFee_exact fee used target :
  0 <= fee <= two63 -> 0 <= target -> 0 <= used <= 2 * target ->
  fee * Z.abs (used - target) < two64 ->
  ComputeBaseFee fee used target = exact_base_fee fee used target.
Proof.
  intros Hf Ht Hu Hov. unfold ComputeBaseFee, exact_base_fee, BaseFeeMaxChangeDenominator.
  destruct (Z.eqb_spec target 0); [done|]. destruct (Z.eqb_spec fee 0); [done|].
  simpl orb. cbv iota.
  destruct (Z.eqb_spec used target) as [->|].
  { rewrite Z.ltb_irrefl, Z.sub_diag, Z.mul_0_r. rewrite Z.div_0_l by lia.
    change (0 / 8) with 0. lia. }
  destruct (Z.ltb_spec target used).
  - rewrite (u64_small (fee * _)) by nia.
    pose proof (base_fee_delta_bound fee (used - target) target) as Hb.
    rewrite (u64_small (fee * _)) in Hb by nia.
    assert (fee / 8 <= two63 / 8) by (apply Z.div_le_mono; lia).
    change (two63 / 8) with 1152921504606846976 in *.
    destruct (Z.ltb_spec (fee * (used - target) / target / 8) 1).
    + rewrite u64_small by (unfold two63, two64 in *; lia). lia.
    + rewrite u64_small by (unfold two63, two64 in *; lia). lia.
  - rewrite (u64_small (fee * _)) by nia.
    pose proof (base_fee_delta_bound fee (target - used) target) as Hb.
    rewrite (u64_small (fee * _)) in Hb by nia. pose proof (div8_lt fee).
    destruct (Z.leb_spec fee (fee * (target - used) / target / 8)); lia.
Qed.

Lemma ComputeBaseFee_exact_witness :
  ComputeBaseFee 1000 6000000 4000000 = exact_base_fee 1000 6000000 4000000.
Proof. apply ComputeBaseFee_exact; unfold two63, two64; lia. Defined.

(** beyond that the product wraps and the recurrence is not EIP-1559's: on a
    chain with the default gas limit, a completely full block whose base fee is
    2^45 should raise the fee by an eighth, 2^42, and raises it by less than
    half of that. *)
Theorem ComputeBaseFee_wraps :
  exact_base_fee (2 ^ 45) 8000000 (GasTarget 8000000) = 2 ^ 45 + 2 ^ 42 /\
  ComputeBaseFee (2 ^ 45) 8000000 (GasTarget 8000000) < 2 ^ 45 + 2 ^ 41.
Proof. split; vm_compute; reflexivity. Qed.

(** the price a transaction pays: it is refused exactly when its cap is below
    the base fee; otherwise it pays at least the base fee and at most its cap,
    the sum does not wrap, and the part above the base fee is the smaller of its
    tip and the headroom. *)
Theorem EffectiveGasPrice_spec baseFee feeCap tipCap :
  is_u64 baseFee -> is_u64 feeCap -> is_u64 tipCap ->
  match EffectiveGasPrice baseFee feeCap tipCap with
  | Ok (price, tip) =>
      baseFee <= feeCap /\ price = baseFee + tip /\ baseFee <= price <= feeCap /\
      tip = Z.min tipCap (feeCap - baseFee)
  | Err e => feeCap < baseFee /\ e = ErrFeeCapBelowBaseFee
  end.
Proof.
  intros Hb Hf Ht. unfold EffectiveGasPrice.
  destruct (Z.ltb_spec feeCap baseFee); [done|].
  destruct (Z.ltb_spec (feeCap - baseFee) tipCap);
    rewrite u64_small by lia; lia.
Qed.

Lemma EffectiveGasPrice_spec_witness :
  10 <= 15 /\ 13 = 10 + 3 /\ 10 <= 13 <= 15 /\ 3 = Z.min 3 (15 - 10).
Proof. apply (EffectiveGasPrice_spec 10 15 3); unfold two64; lia. Defined.
