(* ===== verification/TrieNode.v ===== *)
(** * trie/node.go: nodes of the Merkle Patricia trie and their encoding

    Models [src/trie/node.go]: nibble paths, the three node kinds, the tagged
    big-endian encoding, its decoder with every error path, and the
    content-addressed node store. *)

From S2P Require Import Prelude Sha256 Core.

Definition tagLeaf : Z := 1.
Definition tagExtension : Z := 2.
Definition tagBranch : Z := 3.

(** ** Nibbles *)

Definition is_nibble (n : Z) : Prop := 0 <= n < 16.
#[export] Instance is_nibble_dec n : Decision (is_nibble n).
Proof. unfold is_nibble. apply _. Defined.
Abbreviation all_nibbles := (Forall is_nibble) (only parsing).

Definition nibblesOf (b : bytes) : list Z :=
  flat_map (fun x => [Z.shiftr x 4; Z.land x 15]) b.

(** the secure-trie path of a raw key *)
Definition path (key : bytes) : list Z := nibblesOf (SumHash key).

Fixpoint commonPrefixLen (a b : list Z) : nat :=
  match a, b with
  | x :: a', y :: b' => if x =? y then S (commonPrefixLen a' b') else O
  | _, _ => O
  end.

(** two nibbles per byte, high nibble first; [byte(n) << 4] is byte arithmetic *)
Fixpoint packNibbles (ns : list Z) : bytes :=
  match ns with
  | a :: b :: rest => Z.lor (Z.land (Z.shiftl a 4) 255) b :: packNibbles rest
  | [a] => [Z.land (Z.shiftl a 4) 255]
  | [] => []
  end.

(** [count] nibbles of [b]; the callers check that [b] is long enough *)
Fixpoint unpackNibbles (b : bytes) (count : nat) : list Z :=
  match count, b with
  | S (S count'), x :: b' =>
      Z.shiftr x 4 :: Z.land x 15 :: unpackNibbles b' count'
  | S O, x :: _ => [Z.shiftr x 4]
  | _, _ => []
  end.

Definition nibblesEqual (a b : list Z) : bool := bool_decide (a = b).

(** ** Nodes *)

Inductive node :=
| leafNode (nibbles : list Z) (value : bytes)
| extensionNode (nibbles : list Z) (child : Hash)
| branchNode (children : list Hash) (hasValue : bool) (value : bytes).

#[export] Instance node_eq_dec : EqDecision node.
Proof. solve_decision. Defined.

Definition encode (n : node) : bytes :=
  match n with
  | leafNode ns v =>
      [tagLeaf] ++ be 2 (Z.of_nat (length ns)) ++ packNibbles ns ++
      be 4 (Z.of_nat (length v)) ++ v
  | extensionNode ns c =>
      [tagExtension] ++ be 2 (Z.of_nat (length ns)) ++ packNibbles ns ++ c
  | branchNode cs hasValue v =>
      [tagBranch] ++ concat cs ++
      (if hasValue then [1] ++ be 4 (Z.of_nat (length v)) ++ v else [0])
  end.

Definition shorter {A} (l : list A) (n : Z) : bool := Z.of_nat (length l) <? n.

Definition decodeLeaf (b : bytes) : result node :=
  if shorter b 2 then Err ErrShortInput
  else
    let count := be_decode (take 2 b) in
    let b := drop 2 b in
    let packedLen := (count + 1) / 2 in
    if shorter b (packedLen + 4) then Err ErrShortInput
    else
      let nibbles := unpackNibbles (take (Z.to_nat packedLen) b) (Z.to_nat count) in
      let b := drop (Z.to_nat packedLen) b in
      let valLen := be_decode (take 4 b) in
      let b := drop 4 b in
      if shorter b valLen then Err ErrShortInput
      else Ok (leafNode nibbles (take (Z.to_nat valLen) b)).

Definition decodeExtension (b : bytes) : result node :=
  if shorter b 2 then Err ErrShortInput
  else
    let count := be_decode (take 2 b) in
    let b := drop 2 b in
    let packedLen := (count + 1) / 2 in
    if shorter b (packedLen + Z.of_nat HashLen) then Err ErrShortInput
    else
      let nibbles := unpackNibbles (take (Z.to_nat packedLen) b) (Z.to_nat count) in
      let b := drop (Z.to_nat packedLen) b in
      Ok (extensionNode nibbles (take HashLen b)).

(** the sixteen child hashes at the front of [b] *)
Fixpoint read_children (n : nat) (b : bytes) : list Hash :=
  match n with
  | O => []
  | S n' => take HashLen b :: read_children n' (drop HashLen b)
  end.

Definition decodeBranch (b : bytes) : result node :=
  if shorter b (16 * Z.of_nat HashLen + 1) then Err ErrShortInput
  else
    let children := read_children 16 b in
    let b := drop (16 * HashLen) b in
    let hasValue := nth 0 b 0 in
    let b := drop 1 b in
    if hasValue =? 1 then
      if shorter b 4 then Err ErrShortInput
      else
        let valLen := be_decode (take 4 b) in
        let b := drop 4 b in
        if shorter b valLen then Err ErrShortInput
        else Ok (branchNode children true (take (Z.to_nat valLen) b))
    else Ok (branchNode children false []).

Definition decodeNode (enc : bytes) : result node :=
  match enc with
  | [] => Err ErrShortInput
  | tag :: rest =>
      if tag =? tagLeaf then decodeLeaf rest
      else if tag =? tagExtension then decodeExtension rest
      else if tag =? tagBranch then decodeBranch rest
      else Err ErrBadTag
  end.

(** ** The node store *)

Abbreviation nodestore := (gmap (list Z) (list Z)) (only parsing).

(** [store]: hash the encoding, record it under that hash *)
Definition store (nodes : nodestore) (n : node) : nodestore * Hash :=
  let enc := encode n in
  let h := SumHash enc in
  (<[h := enc]> nodes, h).

Arguments store : simpl never.

(** ** Facts *)

Lemma nibble_split x : is_byte x -> is_nibble (Z.shiftr x 4) /\ is_nibble (Z.land x 15).
Proof.
  unfold is_byte, is_nibble. intros H.
  rewrite Z.shiftr_div_pow2 by lia. change 15 with (Z.ones 4).
  rewrite Z.land_ones by lia. change (2 ^ 4) with 16.
  Z.div_mod_to_equations; lia.
Qed.

Lemma nibblesOf_nibbles b : all_bytes b -> all_nibbles (nibblesOf b).
Proof.
  induction 1 as [|x b Hx Hb IH]; simpl; [constructor|].
  apply nibble_split in Hx as [??]. by do 2 (apply Forall_cons; split; [done|]).
Qed.

Lemma length_nibblesOf b : length (nibblesOf b) = (2 * length b)%nat.
Proof. induction b; simpl; lia. Qed.

Lemma path_nibbles key : all_nibbles (path key).
Proof. apply nibblesOf_nibbles, sha256_bytes. Qed.

(** Every path is exactly 64 nibbles, whatever the key. *)
Lemma length_path key : length (path key) = 64%nat.
Proof. unfold path. by rewrite length_nibblesOf, length_SumHash. Qed.

Lemma shiftr_land_inj x y :
  is_byte x -> is_byte y -> Z.shiftr x 4 = Z.shiftr y 4 ->
  Z.land x 15 = Z.land y 15 -> x = y.
Proof.
  unfold is_byte. intros Hx Hy. rewrite !Z.shiftr_div_pow2 by lia.
  change 15 with (Z.ones 4). rewrite !Z.land_ones by lia. change (2 ^ 4) with 16.
  Z.div_mod_to_equations; lia.
Qed.

Lemma nibblesOf_inj a b :
  all_bytes a -> all_bytes b -> nibblesOf a = nibblesOf b -> a = b.
Proof.
  intros Ha. revert b. induction Ha as [|x a Hx Ha IH]; intros [|y b] Hb Heq;
    simpl in *; try done.
  inversion Hb; subst. injection Heq as E1 E2 E3.
  f_equal; auto using shiftr_land_inj.
Qed.

Lemma pack_pair a b :
  is_nibble a -> is_nibble b ->
  Z.lor (Z.land (Z.shiftl a 4) 255) b = a * 16 + b.
Proof.
  unfold is_nibble. intros Ha Hb.
  rewrite Z.shiftl_mul_pow2 by lia. change 255 with (Z.ones 8).
  rewrite Z.land_ones by lia. change (2 ^ 4) with 16. change (2 ^ 8) with 256.
  rewrite Z.mod_small by lia.
  rewrite <- Z.lxor_lor, <- Z.add_nocarry_lxor; [done|..].
  all: change 16 with (2 ^ 4); rewrite <- Z.shiftl_mul_pow2 by lia.
  all: apply Z.bits_inj'; intros n Hn; rewrite Z.land_spec, Z.shiftl_spec, Z.bits_0 by lia.
  all: destruct (decide (n < 4)).
  all: try (rewrite Z.testbit_neg_r by lia; done).
  all: rewrite (Z.bits_above_log2 b n), andb_false_r; try lia; try done.
  all: destruct (decide (b = 0)) as [->|]; [simpl; lia|].
  all: assert (Z.log2 b < 4) by (apply Z.log2_lt_pow2; lia); lia.
Qed.

Lemma unpack_pair a b :
  is_nibble a -> is_nibble b ->
  Z.shiftr (a * 16 + b) 4 = a /\ Z.land (a * 16 + b) 15 = b.
Proof.
  unfold is_nibble. intros. rewrite Z.shiftr_div_pow2 by lia.
  change 15 with (Z.ones 4). rewrite Z.land_ones by lia. change (2 ^ 4) with 16.
  Z.div_mod_to_equations; lia.
Qed.

Lemma length_packNibbles ns :
  Z.of_nat (length (packNibbles ns)) = (Z.of_nat (length ns) + 1) / 2.
Proof.
  induction ns as [|a|a b l IH] using list_pair_ind; [done|done|].
  cbn [packNibbles]. rewrite !length_cons.
  rewrite !Nat2Z.inj_succ, IH. unfold Z.succ.
  replace (Z.of_nat (length l) + 1 + 1 + 1) with (Z.of_nat (length l) + 1 + 1 * 2) by lia.
  rewrite Z.div_add by lia. lia.
Qed.

Lemma unpack_pack ns :
  all_nibbles ns -> unpackNibbles (packNibbles ns) (length ns) = ns.
Proof.
  induction ns as [|a|a b l IH] using list_pair_ind; intros H; [done|..].
  - inversion H; subst. cbn [packNibbles unpackNibbles length].
    rewrite <- (Z.lor_0_r (Z.land _ _)), pack_pair by (done || unfold is_nibble; lia).
    f_equal. apply (unpack_pair a 0); [done|unfold is_nibble; lia].
  - inversion H as [|?? Ha H']; subst. inversion H'; subst.
    cbn [packNibbles unpackNibbles length]. rewrite pack_pair by done.
    edestruct (unpack_pair a b) as [-> ->]; [done|done|]. do 2 f_equal. auto.
Qed.

Lemma nibblesEqual_true a b : nibblesEqual a b = true <-> a = b.
Proof. apply bool_decide_eq_true. Qed.

Lemma read_children_concat (cs : list Hash) rest :
  Forall (fun c => length c = HashLen) cs ->
  read_children (length cs) (concat cs ++ rest) = cs.
Proof.
  induction 1 as [|c cs Hc Hcs IH]; simpl; [done|].
  rewrite <- app_assoc, take_app_exact, drop_app_exact by done. by rewrite IH.
Qed.

Lemma length_concat_hashes (cs : list Hash) :
  Forall (fun c => length c = HashLen) cs ->
  length (concat cs) = (length cs * HashLen)%nat.
Proof.
  induction 1 as [|c cs Hc Hcs IH]; [done|]. cbn [concat].
  rewrite length_app, Hc, IH, length_cons. lia.
Qed.

(** What a node must satisfy for its encoding to keep all of it: counts that
    fit their fields, hashes of 32 bytes. *)
Definition node_wf (n : node) : Prop :=
  match n with
  | leafNode ns v =>
      all_nibbles ns /\ Z.of_nat (length ns) < 65536 /\ Z.of_nat (length v) < two32
  | extensionNode ns c =>
      all_nibbles ns /\ Z.of_nat (length ns) < 65536 /\ length c = HashLen
  | branchNode cs hasValue v =>
      length cs = 16%nat /\ Forall (fun c => length c = HashLen) cs /\
      (if hasValue then Z.of_nat (length v) < two32 else v = [])
  end.

Lemma be_decode_count2 {A} (ns : list A) :
  Z.of_nat (length ns) < 65536 ->
  be_decode (be 2 (Z.of_nat (length ns))) = Z.of_nat (length ns).
Proof. intros. apply be_decode_be_small. simpl. lia. Qed.

Lemma be_decode_count4 {A} (v : list A) :
  Z.of_nat (length v) < two32 ->
  be_decode (be 4 (Z.of_nat (length v))) = Z.of_nat (length v).
Proof. intros. apply be_decode_be4. lia. Qed.

(** drives a decoder over an encoding made of parts of known length *)
Ltac parts := repeat first
  [ rewrite take_app_exact by (len; lia) | rewrite drop_app_exact by (len; lia) ].

Lemma decode_encode_leaf ns v :
  node_wf (leafNode ns v) -> decodeNode (encode (leafNode ns v)) = Ok (leafNode ns v).
Proof.
  intros (Hns & Hc & Hv). pose proof (length_packNibbles ns) as Hp.
  cbn -[be Z.of_nat]. unfold decodeLeaf, shorter. rewrite !length_app, !length_be.
  parts. rewrite be_decode_count2 by done. rewrite <- Hp.
  destruct (Z.ltb_spec (Z.of_nat (2 + (length (packNibbles ns) + (4 + length v)))) 2); [lia|].
  rewrite !length_app, !length_be. rewrite !Nat2Z.id.
  destruct (Z.ltb_spec (Z.of_nat (length (packNibbles ns) + (4 + length v)))
              (Z.of_nat (length (packNibbles ns)) + 4)); [lia|].
  parts. rewrite be_decode_count4, Z.ltb_irrefl, Nat2Z.id, unpack_pack by done.
  by rewrite firstn_all.
Qed.

Lemma decode_encode_extension ns c :
  node_wf (extensionNode ns c) ->
  decodeNode (encode (extensionNode ns c)) = Ok (extensionNode ns c).
Proof.
  intros (Hns & Hcnt & Hc). pose proof (length_packNibbles ns) as Hp.
  cbn -[be Z.of_nat HashLen]. unfold decodeExtension, shorter.
  rewrite !length_app, !length_be. parts. rewrite be_decode_count2 by done.
  rewrite <- Hp.
  destruct (Z.ltb_spec (Z.of_nat (2 + (length (packNibbles ns) + length c))) 2); [lia|].
  rewrite !length_app. rewrite !Nat2Z.id.
  destruct (Z.ltb_spec (Z.of_nat (length (packNibbles ns) + length c))
              (Z.of_nat (length (packNibbles ns)) + Z.of_nat HashLen)); [lia|].
  parts. rewrite unpack_pack by done. rewrite <- Hc. by rewrite firstn_all.
Qed.

Lemma decode_encode_branch cs hv v :
  node_wf (branchNode cs hv v) ->
  decodeNode (encode (branchNode cs hv v)) = Ok (branchNode cs hv v).
Proof.
  intros (H16 & Hcs & Hv). pose proof (length_concat_hashes cs Hcs) as Hlen.
  rewrite H16 in Hlen. change (16 * HashLen)%nat with 512%nat in Hlen.
  cbn -[be Z.of_nat HashLen concat]. unfold decodeBranch, shorter.
  rewrite !length_app, Hlen.
  change (16 * Z.of_nat HashLen + 1) with 513. change (16 * HashLen)%nat with 512%nat.
  pose proof (read_children_concat cs) as Hrc. rewrite H16 in Hrc.
  rewrite Hrc by done. parts.
  rewrite Nat2Z.inj_add. change (Z.of_nat 512) with 512.
  destruct hv.
  - assert (E : (512 + Z.of_nat (length (1 :: be 4 (Z.of_nat (length v)) ++ v)) <? 513)
                = false).
    { apply Z.ltb_ge. rewrite length_cons, length_app, length_be. lia. }
    rewrite E. cbn [app nth drop]. rewrite Z.eqb_refl, !drop_0, !length_app, length_be.
    destruct (Z.ltb_spec (Z.of_nat (4 + length v)) 4); [lia|].
    parts. rewrite be_decode_count4, Z.ltb_irrefl, Nat2Z.id by done.
    by rewrite firstn_all.
  - subst v. reflexivity.
Qed.

(** Decoding undoes encoding, for all three node kinds. *)
Lemma decodeNode_encode n : node_wf n -> decodeNode (encode n) = Ok n.
Proof.
  destruct n; eauto using decode_encode_leaf, decode_encode_extension, decode_encode_branch.
Qed.

Lemma encode_inj n1 n2 : node_wf n1 -> node_wf n2 -> encode n1 = encode n2 -> n1 = n2.
Proof.
  intros H1 H2 E. apply decodeNode_encode in H1, H2. congruence.
Qed.
