(* ===== verification/Trie.v ===== *)
(** * trie/trie.go, trie/proof.go: the operations of the trie

    Models [get], [put], [del] and their helpers over the content-addressed
    node store, and the generation and verification of inclusion proofs.  The
    recursion follows hash pointers, so it carries fuel: the outer [None] says
    that the fuel ran out.  Every recursive call consumes at least one nibble of
    the path (an extension's path is never empty), and a path has 64 nibbles, so
    [trie_fuel = 66] is enough for the public entry points. *)

From S2P Require Import Prelude Sha256 Core TrieNode.

Definition trie_fuel : nat := 66.

Definition empty_children : list Hash := replicate 16 zero_hash.

(** [children[i]] *)
Definition child_at (cs : list Hash) (i : Z) : Hash := nth (Z.to_nat i) cs zero_hash.

(** [len(p) < len(ns) || !nibblesEqual(ns, p[:len(ns)])] *)
Definition path_mismatch (p ns : list Z) : bool :=
  (length p <? length ns)%nat || negb (nibblesEqual ns (take (length ns) p)).

(** ** Get *)

Fixpoint get (fuel : nat) (nodes : nodestore) (root : Hash) (p : list Z)
    : option (option bytes) :=
  match fuel with
  | O => None
  | S fuel' =>
      if IsZero root then Some None
      else
        match nodes !! root with
        | None => Some None
        | Some enc =>
            match decodeNode enc with
            | Err _ => Some None
            | Ok (leafNode ns v) =>
                if nibblesEqual ns p then Some (Some v) else Some None
            | Ok (extensionNode ns child) =>
                if path_mismatch p ns then Some None
                else get fuel' nodes child (drop (length ns) p)
            | Ok (branchNode cs hasValue v) =>
                match p with
                | [] => if hasValue then Some (Some v) else Some None
                | i :: p' => get fuel' nodes (child_at cs i) p'
                end
            end
        end
  end.

Definition Get (nodes : nodestore) (root : Hash) (rawKey : bytes) : option bytes :=
  default None (get trie_fuel nodes root (path rawKey)).

(** ** Put *)

Definition putIntoLeaf (nodes : nodestore) (ns : list Z) (v : bytes)
    (p : list Z) (value : bytes) : nodestore * Hash :=
  let cp := commonPrefixLen p ns in
  if ((cp =? length ns) && (cp =? length p))%nat then store nodes (leafNode p value)
  else
    let '(nodes, cs, hv, bv) :=
      if (cp <? length ns)%nat then
        let '(nodes, h) := store nodes (leafNode (drop (S cp) ns) v) in
        (nodes, <[Z.to_nat (nth cp ns 0) := h]> empty_children, false, [])
      else (nodes, empty_children, true, v) in
    let '(nodes, cs, hv, bv) :=
      if (cp <? length p)%nat then
        let '(nodes, h) := store nodes (leafNode (drop (S cp) p) value) in
        (nodes, <[Z.to_nat (nth cp p 0) := h]> cs, hv, bv)
      else (nodes, cs, true, value) in
    let '(nodes, branchHash) := store nodes (branchNode cs hv bv) in
    if (0 <? cp)%nat then store nodes (extensionNode (take cp p) branchHash)
    else (nodes, branchHash).

(** the part of [putIntoExtension] that splits the extension at [cp] *)
Definition splitExtension (nodes : nodestore) (ns : list Z) (child : Hash)
    (cp : nat) (p : list Z) (value : bytes) : nodestore * Hash :=
  let oldIdx := nth cp ns 0 in
  let oldRem := drop (S cp) ns in
  let '(nodes, cs) :=
    if (length oldRem =? 0)%nat then
      (nodes, <[Z.to_nat oldIdx := child]> empty_children)
    else
      let '(nodes, h) := store nodes (extensionNode oldRem child) in
      (nodes, <[Z.to_nat oldIdx := h]> empty_children) in
  let '(nodes, cs, hv, bv) :=
    if (cp <? length p)%nat then
      let '(nodes, h) := store nodes (leafNode (drop (S cp) p) value) in
      (nodes, <[Z.to_nat (nth cp p 0) := h]> cs, false, [])
    else (nodes, cs, true, value) in
  let '(nodes, branchHash) := store nodes (branchNode cs hv bv) in
  if (0 <? cp)%nat then store nodes (extensionNode (take cp p) branchHash)
  else (nodes, branchHash).

Fixpoint put (fuel : nat) (nodes : nodestore) (root : Hash) (p : list Z)
    (value : bytes) : option (nodestore * Hash) :=
  match fuel with
  | O => None
  | S fuel' =>
      if IsZero root then Some (store nodes (leafNode p value))
      else
        match nodes !! root with
        | None => Some (store nodes (leafNode p value))
        | Some enc =>
            match decodeNode enc with
            | Err _ => Some (store nodes (leafNode p value))
            | Ok (leafNode ns v) => Some (putIntoLeaf nodes ns v p value)
            | Ok (extensionNode ns child) =>
                let cp := commonPrefixLen p ns in
                if (cp =? length ns)%nat then
                  '(nodes, newChild) ← put fuel' nodes child (drop cp p) value;
                  Some (store nodes (extensionNode ns newChild))
                else Some (splitExtension nodes ns child cp p value)
            | Ok (branchNode cs hasValue v) =>
                match p with
                | [] => Some (store nodes (branchNode cs true value))
                | i :: p' =>
                    '(nodes, newChild) ← put fuel' nodes (child_at cs i) p' value;
                    Some (store nodes (branchNode (<[Z.to_nat i := newChild]> cs) hasValue v))
                end
            end
        end
  end.

Definition Put (nodes : nodestore) (root : Hash) (rawKey value : bytes)
    : nodestore * Hash :=
  default (nodes, root) (put trie_fuel nodes root (path rawKey) value).

(** ** Delete *)

Definition mergeIntoExtensionParent (nodes : nodestore) (prefix : list Z)
    (newChild : Hash) : nodestore * Hash :=
  match nodes !! newChild with
  | None => store nodes (extensionNode prefix newChild)
  | Some enc =>
      match decodeNode enc with
      | Err _ => store nodes (extensionNode prefix newChild)
      | Ok (leafNode ns v) => store nodes (leafNode (prefix ++ ns) v)
      | Ok (extensionNode ns c) => store nodes (extensionNode (prefix ++ ns) c)
      | Ok (branchNode _ _ _) => store nodes (extensionNode prefix newChild)
      end
  end.

(** indices of the non-zero children, in increasing order *)
Fixpoint nonzero_children (i : nat) (cs : list Hash) : list nat :=
  match cs with
  | [] => []
  | c :: cs' =>
      if IsZero c then nonzero_children (S i) cs' else i :: nonzero_children (S i) cs'
  end.

(** [count] and [onlyIdx] of the Go loop are the length and the last element of
    [nonzero_children] *)
Definition collapseBranch (nodes : nodestore) (cs : list Hash) (hasValue : bool)
    (value : bytes) : nodestore * Hash :=
  let idxs := nonzero_children 0 cs in
  let count := length idxs in
  let onlyIdx := List.last idxs O in
  if ((count =? 0)%nat && negb hasValue) then (nodes, zero_hash)
  else if ((count =? 0)%nat && hasValue) then store nodes (leafNode [] value)
  else if ((count =? 1)%nat && negb hasValue) then
    mergeIntoExtensionParent nodes [Z.of_nat onlyIdx] (nth onlyIdx cs zero_hash)
  else store nodes (branchNode cs hasValue value).

Fixpoint del (fuel : nat) (nodes : nodestore) (root : Hash) (p : list Z)
    : option (nodestore * Hash) :=
  match fuel with
  | O => None
  | S fuel' =>
      if IsZero root then Some (nodes, root)
      else
        match nodes !! root with
        | None => Some (nodes, root)
        | Some enc =>
            match decodeNode enc with
            | Err _ => Some (nodes, root)
            | Ok (leafNode ns v) =>
                if nibblesEqual ns p then Some (nodes, zero_hash) else Some (nodes, root)
            | Ok (extensionNode ns child) =>
                if path_mismatch p ns then Some (nodes, root)
                else
                  '(nodes, newChild) ← del fuel' nodes child (drop (length ns) p);
                  if IsZero newChild then Some (nodes, zero_hash)
                  else if bool_decide (newChild = child) then Some (nodes, root)
                  else Some (mergeIntoExtensionParent nodes ns newChild)
            | Ok (branchNode cs hasValue v) =>
                match p with
                | [] =>
                    if negb hasValue then Some (nodes, root)
                    else Some (collapseBranch nodes cs false [])
                | i :: p' =>
                    if IsZero (child_at cs i) then Some (nodes, root)
                    else
                      '(nodes, newChild) ← del fuel' nodes (child_at cs i) p';
                      if bool_decide (newChild = child_at cs i) then Some (nodes, root)
                      else Some (collapseBranch nodes (<[Z.to_nat i := newChild]> cs)
                                   hasValue v)
                end
            end
        end
  end.

Definition Delete (nodes : nodestore) (root : Hash) (rawKey : bytes)
    : nodestore * Hash :=
  default (nodes, root) (del trie_fuel nodes root (path rawKey)).

(** ** Proofs *)

Abbreviation Proof_t := (list (list Z)) (only parsing).

(** [genProof]: the node encodings visited, and the value found *)
Fixpoint genProof (fuel : nat) (nodes : nodestore) (root : Hash) (p : list Z)
    (proof : Proof_t) : option (Proof_t * option bytes) :=
  match fuel with
  | O => None
  | S fuel' =>
      if IsZero root then Some (proof, None)
      else
        match nodes !! root with
        | None => Some (proof, None)
        | Some enc =>
            let proof := proof ++ [enc] in
            match decodeNode enc with
            | Err _ => Some (proof, None)
            | Ok (leafNode ns v) =>
                if nibblesEqual ns p then Some (proof, Some v) else Some (proof, None)
            | Ok (extensionNode ns child) =>
                if path_mismatch p ns then Some (proof, None)
                else genProof fuel' nodes child (drop (length ns) p) proof
            | Ok (branchNode cs hasValue v) =>
                match p with
                | [] => if hasValue then Some (proof, Some v) else Some (proof, None)
                | i :: p' => genProof fuel' nodes (child_at cs i) p' proof
                end
            end
        end
  end.

Definition GenerateProof (nodes : nodestore) (root : Hash) (rawKey : bytes)
    : Proof_t * option bytes :=
  default ([], None) (genProof trie_fuel nodes root (path rawKey) []).

(** the loop of [VerifyProof] over the proof elements; [last] is the emptiness of
    the rest *)
Fixpoint verify_from (expected : Hash) (p : list Z) (value : bytes)
    (proof : Proof_t) : bool :=
  match proof with
  | [] => false
  | enc :: rest =>
      let last := match rest with [] => true | _ => false end in
      if negb (bool_decide (SumHash enc = expected)) then false
      else
        match decodeNode enc with
        | Err _ => false
        | Ok (leafNode ns v) =>
            if negb last then false
            else nibblesEqual ns p && bool_decide (v = value)
        | Ok (extensionNode ns child) =>
            if last then false
            else if path_mismatch p ns then false
            else verify_from child (drop (length ns) p) value rest
        | Ok (branchNode cs hasValue v) =>
            match p with
            | [] => if negb last then false else hasValue && bool_decide (v = value)
            | i :: p' =>
                if last then false else verify_from (child_at cs i) p' value rest
            end
        end
  end.

Definition VerifyProof (root : Hash) (rawKey value : bytes) (proof : Proof_t) : bool :=
  verify_from root (path rawKey) value proof.
