(* ===== verification/TrieTree.v ===== *)
(** * The trie as a tree: a reference definition

    The node store of [Trie] holds a tree in content-addressed form.  This file
    defines that tree as an inductive type, its lookup, insertion and deletion
    by structural recursion, the canonical shape ([twf]) that [collapseBranch]
    and [mergeIntoExtensionParent] maintain, and proves that lookup after an
    update is what a map promises, that updates keep the shape canonical, and
    that a canonical tree is determined by its contents. *)

From S2P Require Import Prelude Sha256 Core TrieNode.

#[local] Set Warnings "-register-all".

Inductive tree :=
| TLeaf (ns : list Z) (v : bytes)
| TExt (ns : list Z) (t : tree)
| TBranch (cs : list (option tree)) (v : option bytes).

(** applies [f] to the [n]-th child, if there is one *)
Definition on_child {B} (f : tree -> B) (d : B) :=
  fix go (cs : list (option tree)) (n : nat) {struct cs} : B :=
    match cs with
    | [] => d
    | o :: cs' =>
        match n with
        | O => match o with Some t => f t | None => d end
        | S n' => go cs' n'
        end
    end.

Lemma on_child_lookup {B} (f : tree -> B) d cs n :
  on_child f d cs n = match cs !! n with Some (Some t) => f t | _ => d end.
Proof. revert n; induction cs as [|o cs IH]; intros [|n]; simpl; auto. Qed.

Definition no_children : list (option tree) := replicate 16 None.

Fixpoint tget (t : tree) (p : list Z) : option bytes :=
  match t with
  | TLeaf ns v => if decide (ns = p) then Some v else None
  | TExt ns t' =>
      if decide (ns = take (length ns) p) then tget t' (drop (length ns) p) else None
  | TBranch cs v =>
      match p with
      | [] => v
      | i :: p' => on_child (fun t' => tget t' p') None cs (Z.to_nat i)
      end
  end.

(** a subtree for two diverging suffixes, under their common prefix *)
Definition under (prefix : list Z) (t : tree) : tree :=
  match prefix with [] => t | _ => TExt prefix t end.

(** adds a binding whose path diverges here: to a branch child or the branch's
    own value *)
Definition add_suffix (cs : list (option tree)) (v : option bytes)
    (s : list Z) (value : bytes) : list (option tree) * option bytes :=
  match s with
  | [] => (cs, Some value)
  | i :: s' => (<[Z.to_nat i := Some (TLeaf s' value)]> cs, v)
  end.

Definition split_leaf (ns : list Z) (w : bytes) (p : list Z) (value : bytes) : tree :=
  let cp := commonPrefixLen p ns in
  let '(cs, v) := add_suffix no_children None (drop cp ns) w in
  let '(cs, v) := add_suffix cs v (drop cp p) value in
  under (take cp p) (TBranch cs v).

Definition split_ext (ns : list Z) (t : tree) (cp : nat) (p : list Z) (value : bytes)
    : tree :=
  let cs := <[Z.to_nat (nth cp ns 0) := Some (under (drop (S cp) ns) t)]> no_children in
  let '(cs, v) := add_suffix cs None (drop cp p) value in
  under (take cp p) (TBranch cs v).

Fixpoint tput (t : tree) (p : list Z) (value : bytes) : tree :=
  match t with
  | TLeaf ns w => if decide (ns = p) then TLeaf p value else split_leaf ns w p value
  | TExt ns t' =>
      let cp := commonPrefixLen p ns in
      if (cp =? length ns)%nat then TExt ns (tput t' (drop cp p) value)
      else split_ext ns t' cp p value
  | TBranch cs v =>
      match p with
      | [] => TBranch cs (Some value)
      | i :: p' =>
          TBranch (<[Z.to_nat i :=
                      Some (on_child (fun t' => tput t' p' value) (TLeaf p' value)
                              cs (Z.to_nat i))]> cs) v
      end
  end.

Definition merge (prefix : list Z) (t : tree) : tree :=
  match t with
  | TLeaf ns v => TLeaf (prefix ++ ns) v
  | TExt ns t' => TExt (prefix ++ ns) t'
  | TBranch _ _ => TExt prefix t
  end.

(** the occupied slots of a branch, in increasing order *)
Fixpoint occupied (i : nat) (cs : list (option tree)) : list (nat * tree) :=
  match cs with
  | [] => []
  | Some t :: cs' => (i, t) :: occupied (S i) cs'
  | None :: cs' => occupied (S i) cs'
  end.

Definition collapse (cs : list (option tree)) (v : option bytes) : option tree :=
  match occupied 0 cs, v with
  | [], None => None
  | [], Some w => Some (TLeaf [] w)
  | [(i, t)], None => Some (merge [Z.of_nat i] t)
  | _, _ => Some (TBranch cs v)
  end.

Fixpoint tdel (t : tree) (p : list Z) : option tree :=
  match t with
  | TLeaf ns v => if decide (ns = p) then None else Some t
  | TExt ns t' =>
      if decide (ns = take (length ns) p) then
        match tdel t' (drop (length ns) p) with
        | None => None
        | Some t'' => Some (merge ns t'')
        end
      else Some t
  | TBranch cs v =>
      match p with
      | [] => match v with None => Some t | Some _ => collapse cs None end
      | i :: p' =>
          on_child (fun t' => collapse (<[Z.to_nat i := tdel t' p']> cs) v)
                   (Some t) cs (Z.to_nat i)
      end
  end.

(** ** Canonical shape

    [twf D t]: every key of [t] has at most [D] nibbles; counts fit the fields
    of the encoding; an extension is non-empty and leads to a branch; a branch
    has at least two of its seventeen slots in use. *)

Definition is_branch (t : tree) : Prop :=
  match t with TBranch _ _ => True | _ => False end.

(** counts the branch's own value as a slot *)
Definition has_value (v : option bytes) : nat := match v with Some _ => 1 | None => 0 end.

Definition value_ok (v : bytes) : Prop := Z.of_nat (length v) < two32.

Inductive twf : nat -> tree -> Prop :=
| twf_leaf D ns v :
    all_nibbles ns -> (length ns <= D)%nat -> Z.of_nat D < 65536 -> value_ok v ->
    twf D (TLeaf ns v)
| twf_ext D ns t :
    ns <> [] -> all_nibbles ns -> Z.of_nat (length ns + D) < 65536 ->
    is_branch t -> twf D t -> twf (length ns + D) (TExt ns t)
| twf_branch D cs v :
    length cs = 16%nat -> Z.of_nat (S D) < 65536 ->
    (forall w, v = Some w -> value_ok w) ->
    (2 <= length (occupied 0 cs) + has_value v)%nat ->
    (forall i t, cs !! i = Some (Some t) -> twf D t) ->
    twf (S D) (TBranch cs v).

Lemma tget_branch cs v i p :
  tget (TBranch cs v) (i :: p) =
  match cs !! Z.to_nat i with Some (Some t) => tget t p | _ => None end.
Proof. apply on_child_lookup. Qed.

Lemma tput_branch cs v i p value :
  tput (TBranch cs v) (i :: p) value =
  TBranch (<[Z.to_nat i := Some match cs !! Z.to_nat i with
                                | Some (Some t) => tput t p value
                                | _ => TLeaf p value
                                end]> cs) v.
Proof. simpl. by rewrite on_child_lookup. Qed.

Lemma tdel_branch cs v i p :
  tdel (TBranch cs v) (i :: p) =
  match cs !! Z.to_nat i with
  | Some (Some t) => collapse (<[Z.to_nat i := tdel t p]> cs) v
  | _ => Some (TBranch cs v)
  end.
Proof. simpl. by rewrite on_child_lookup. Qed.

(** lookups at optional trees: [None] is the empty trie *)
Definition oget (o : option tree) (p : list Z) : option bytes :=
  match o with Some t => tget t p | None => None end.

Lemma oget_child cs v i p : oget (mjoin (cs !! Z.to_nat i)) p = tget (TBranch cs v) (i :: p).
Proof. rewrite tget_branch. by destruct (cs !! Z.to_nat i) as [[|]|]. Qed.

Lemma nibble_index i cs (H16 : length cs = 16%nat) :
  is_nibble i -> (Z.to_nat i < length (cs : list (option tree)))%nat.
Proof. unfold is_nibble. lia. Qed.

(** ** Prefixes *)

Lemma commonPrefixLen_le a b :
  (commonPrefixLen a b <= length a /\ commonPrefixLen a b <= length b)%nat.
Proof.
  revert b; induction a as [|x a IH]; intros [|y b]; simpl; try lia.
  destruct (x =? y); simpl; [|lia]. specialize (IH b). lia.
Qed.

Lemma commonPrefixLen_take a b :
  take (commonPrefixLen a b) a = take (commonPrefixLen a b) b.
Proof.
  revert b; induction a as [|x a IH]; intros [|y b]; simpl; try done.
  destruct (Z.eqb_spec x y) as [->|]; simpl; [|done]. by rewrite IH.
Qed.

(** the suffixes after the common prefix diverge at once *)
Definition diverge (s1 s2 : list Z) : Prop :=
  match s1, s2 with
  | x :: _, y :: _ => x <> y
  | _, _ => True
  end.

Lemma commonPrefixLen_diverge a b :
  diverge (drop (commonPrefixLen a b) a) (drop (commonPrefixLen a b) b).
Proof.
  revert b; induction a as [|x a IH]; intros [|y b]; simpl; try done.
  destruct (Z.eqb_spec x y) as [->|]; simpl; [apply IH|done].
Qed.

Lemma commonPrefixLen_full p ns :
  commonPrefixLen p ns = length ns <-> ns = take (length ns) p.
Proof.
  revert p; induction ns as [|n ns IH]; intros [|x p]; simpl.
  1-3: split; intros H; congruence.
  destruct (Z.eqb_spec x n) as [->|Hne]; [|split; intros H; congruence].
  rewrite Nat.succ_inj_wd, IH. split; [by intros <-|]. intros H. by injection H.
Qed.

Lemma commonPrefixLen_refl p : commonPrefixLen p p = length p.
Proof. apply commonPrefixLen_full. by rewrite firstn_all. Qed.

Lemma tget_under prefix t q :
  tget (under prefix t) q =
  if decide (prefix = take (length prefix) q) then tget t (drop (length prefix) q) else None.
Proof. destruct prefix; simpl; [|done]. rewrite drop_0. by destruct q. Qed.

Lemma tget_under_app prefix t q : tget (under prefix t) (prefix ++ q) = tget t q.
Proof.
  rewrite tget_under, take_app_length, drop_app_length. by rewrite decide_True.
Qed.

(** a lookup through a prefix, in terms of the path's own decomposition *)
Lemma prefix_cases (prefix q : list Z) :
  (exists s, q = prefix ++ s) \/ prefix <> take (length prefix) q.
Proof.
  destruct (decide (prefix = take (length prefix) q)) as [E|]; [left|by right].
  exists (drop (length prefix) q). rewrite E at 1. by rewrite take_drop.
Qed.

(** ** Occupied slots *)

Lemma occupied_elem i n t cs :
  (n, t) ∈ occupied i cs <-> (i <= n)%nat /\ cs !! (n - i)%nat = Some (Some t).
Proof.
  revert i; induction cs as [|o cs IH]; intros i; simpl.
  { rewrite lookup_nil. set_solver. }
  assert (Hs : forall k, (i < k)%nat -> (o :: cs) !! (k - i)%nat = cs !! (k - S i)%nat).
  { intros k Hk. replace (k - i)%nat with (S (k - S i)) by lia. done. }
  destruct o as [u|].
  - rewrite elem_of_cons, IH. split.
    + intros [E|[Hle E]]; [|split; [lia|rewrite Hs by lia; done]].
      injection E as -> ->. rewrite Nat.sub_diag. done.
    + intros [Hle E]. destruct (decide (n = i)) as [->|].
      * rewrite Nat.sub_diag in E. simpl in E. left. congruence.
      * right. rewrite Hs in E by lia. split; [lia|done].
  - rewrite IH. split.
    + intros [Hle E]. split; [lia|]. rewrite Hs by lia. done.
    + intros [Hle E]. destruct (decide (n = i)) as [->|].
      * rewrite Nat.sub_diag in E. simpl in E. congruence.
      * rewrite Hs in E by lia. split; [lia|done].
Qed.

Lemma occupied_iff n t cs : (n, t) ∈ occupied 0 cs <-> cs !! n = Some (Some t).
Proof. rewrite occupied_elem, Nat.sub_0_r. naive_solver lia. Qed.

Definition slot (o : option (option tree)) : nat :=
  match o with Some (Some _) => 1 | _ => 0 end.

Lemma occupied_insert i n o cs :
  (n < length cs)%nat ->
  (length (occupied i (<[n := o]> cs)) + slot (cs !! n)
   = length (occupied i cs) + slot (Some o))%nat.
Proof.
  revert i n; induction cs as [|c cs IH]; intros i [|n] Hn; simpl in *; try lia.
  - destruct c, o; simpl; lia.
  - specialize (IH (S i) n). destruct c; simpl; lia.
Qed.

Lemma occupied_none i n : occupied i (replicate n None) = [].
Proof. revert i; induction n; intros i; simpl; auto. Qed.

Lemma lookup_no_children n t : no_children !! n <> Some (Some t).
Proof.
  intros H. apply occupied_iff in H. unfold no_children in H.
  rewrite occupied_none in H. set_solver.
Qed.

(** ** Lookup after insertion *)

Lemma tget_add_suffix cs v s value q :
  length cs = 16%nat -> all_nibbles s -> all_nibbles q ->
  (forall i s' t, s = i :: s' -> cs !! Z.to_nat i <> Some (Some t)) ->
  let '(cs', v') := add_suffix cs v s value in
  tget (TBranch cs' v') q = if decide (q = s) then Some value else tget (TBranch cs v) q.
Proof.
  intros H16 Hs Hq Hfree. destruct s as [|i s]; simpl add_suffix; cbv iota beta.
  - destruct q; [done|]. rewrite decide_False by done. by rewrite !tget_branch.
  - destruct q as [|j q]; [done|]. rewrite !tget_branch.
    inversion Hs; inversion Hq; subst.
    rewrite list_lookup_insert. destruct (decide (i = j)) as [->|Hne].
    + rewrite (decide_True (P := Z.to_nat j = Z.to_nat j /\ _)) by
        (split; [done|by apply nibble_index]).
      simpl. destruct (decide (s = q)) as [->|].
      * by rewrite decide_True.
      * rewrite decide_False by congruence.
        destruct (cs !! Z.to_nat j) as [[t|]|] eqn:E; try done.
        by apply (Hfree j s t) in E.
    + rewrite decide_False; [by rewrite decide_False by congruence|].
      unfold is_nibble in *. intros [E _]. lia.
Qed.

Lemma tget_no_children v q : tget (TBranch no_children v) q = match q with [] => v | _ => None end.
Proof.
  destruct q as [|i q]; [done|]. rewrite tget_branch.
  destruct (no_children !! Z.to_nat i) as [[t|]|] eqn:E; try done.
  by apply lookup_no_children in E.
Qed.

Lemma length_add_suffix cs v s value :
  length (fst (add_suffix cs v s value)) = length cs.
Proof. destruct s; simpl; len. Qed.

Lemma Forall_split {A} (P : A -> Prop) n l :
  Forall P l -> Forall P (take n l) /\ Forall P (drop n l).
Proof. intros H. split; [by apply Forall_take|by apply Forall_drop]. Qed.

(** both paths of a split, as their common prefix and two diverging suffixes *)
Lemma common_split p ns :
  exists pre s1 s2, p = pre ++ s1 /\ ns = pre ++ s2 /\ diverge s1 s2 /\
    pre = take (commonPrefixLen p ns) p /\ length pre = commonPrefixLen p ns /\
    s1 = drop (commonPrefixLen p ns) p /\ s2 = drop (commonPrefixLen p ns) ns.
Proof.
  set (cp := commonPrefixLen p ns).
  exists (take cp p), (drop cp p), (drop cp ns).
  pose proof (commonPrefixLen_le p ns). split; [by rewrite take_drop|].
  split; [subst cp; rewrite commonPrefixLen_take; by rewrite take_drop|].
  split; [apply commonPrefixLen_diverge|]. repeat split. rewrite length_take. lia.
Qed.

Lemma app_eq_prefix (pre s1 s2 : list Z) : pre ++ s1 = pre ++ s2 <-> s1 = s2.
Proof. split; [apply app_inv_head|by intros ->]. Qed.

Lemma tget_split_leaf ns w p value q :
  all_nibbles ns -> all_nibbles p -> all_nibbles q -> ns <> p ->
  tget (split_leaf ns w p value) q =
  if decide (q = p) then Some value else if decide (ns = q) then Some w else None.
Proof.
  intros Hns Hp Hq Hne. unfold split_leaf.
  destruct (common_split p ns) as (pre & s1 & s2 & Ep & En & Hdiv & Epre & Elen & <- & <-).
  rewrite <- Epre.
  destruct (add_suffix no_children None s2 w) as [cs v] eqn:E1.
  destruct (add_suffix cs v s1 value) as [cs' v'] eqn:E2.
  subst p ns. apply Forall_app in Hns as [_ Hs2]. apply Forall_app in Hp as [_ Hs1].
  destruct (prefix_cases pre q) as [[q' ->]|Hno].
  2: { rewrite tget_under, decide_False by done.
       rewrite !decide_False; [done|intros <-|intros ->];
         apply Hno; by rewrite take_app_length. }
  apply Forall_app in Hq as [_ Hq']. rewrite tget_under_app.
  pose proof (tget_add_suffix no_children None s2 w q') as G1.
  rewrite E1 in G1. rewrite tget_no_children in G1.
  pose proof (tget_add_suffix cs v s1 value q') as G2. rewrite E2 in G2.
  rewrite G2; auto.
  - rewrite G1; auto.
    + destruct (decide (q' = s1)) as [->|]; [by rewrite decide_True|].
      rewrite (decide_False (P := pre ++ q' = _)) by (rewrite app_eq_prefix; done).
      destruct (decide (q' = s2)) as [->|]; [by rewrite decide_True|].
      rewrite decide_False by (rewrite app_eq_prefix; done). by destruct q'.
    + intros. apply lookup_no_children.
  - pose proof (length_add_suffix no_children None s2 w) as L. by rewrite E1 in L.
  - intros i s' t -> E. destruct s2 as [|j s2]; simpl in E1; injection E1 as <- <-.
    + by apply lookup_no_children in E.
    + inversion Hs1; inversion Hs2; subst. simpl in Hdiv.
      rewrite list_lookup_insert_ne in E by (unfold is_nibble in *; lia).
      by apply lookup_no_children in E.
Qed.

Lemma tget_split_ext ns t p value q :
  all_nibbles ns -> all_nibbles p -> all_nibbles q ->
  commonPrefixLen p ns <> length ns ->
  tget (split_ext ns t (commonPrefixLen p ns) p value) q =
  if decide (q = p) then Some value else tget (TExt ns t) q.
Proof.
  intros Hns Hp Hq Hcp. unfold split_ext.
  destruct (common_split p ns) as (pre & s1 & s2 & Ep & En & Hdiv & Epre & Elen & <- & Es2).
  rewrite <- Epre. pose proof (commonPrefixLen_le p ns).
  destruct s2 as [|c rem].
  { rewrite app_nil_r in En. subst ns. lia. }
  assert (nth (commonPrefixLen p ns) ns 0 = c) as ->.
  { rewrite <- Elen, En, app_nth2, Nat.sub_diag by lia. done. }
  assert (drop (S (commonPrefixLen p ns)) ns = rem) as ->.
  { rewrite <- Elen, En. rewrite drop_app_ge by lia.
    replace (S (length pre) - length pre)%nat with 1%nat by lia. done. }
  clear Es2 Elen Epre H Hcp. subst p ns.
  set (cs := <[Z.to_nat c := Some (under rem t)]> no_children).
  destruct (add_suffix cs None s1 value) as [cs' v'] eqn:E2.
  apply Forall_app in Hns as [_ Hs2]. apply Forall_app in Hp as [_ Hs1].
  destruct (prefix_cases pre q) as [[q' ->]|Hno].
  2: { rewrite tget_under, decide_False by done.
       rewrite decide_False by (intros ->; apply Hno; by rewrite take_app_length).
       simpl. rewrite decide_False; [done|]. intros E. apply Hno.
       rewrite length_app in E. apply (f_equal (take (length pre))) in E.
       rewrite take_app_length, take_take in E.
       by rewrite Nat.min_l in E by lia. }
  apply Forall_app in Hq as [_ Hq']. rewrite tget_under_app.
  inversion Hs2 as [|?? Hc Hrem]; subst.
  assert (Hslot : cs !! Z.to_nat c = Some (Some (under rem t))).
  { subst cs. apply list_lookup_insert_eq. by apply (nibble_index c no_children). }
  assert (Hother : forall i u, is_nibble i -> i <> c -> cs !! Z.to_nat i <> Some (Some u)).
  { intros i u Hi Hic. subst cs. unfold is_nibble in *.
    rewrite list_lookup_insert_ne by lia. apply lookup_no_children. }
  pose proof (tget_add_suffix cs None s1 value q') as G2. rewrite E2 in G2.
  rewrite G2; auto.
  - rewrite (decide_ext (pre ++ q' = pre ++ s1) (q' = s1)) by apply app_eq_prefix.
    destruct (decide (q' = s1)); [done|].
    replace (tget (TExt (pre ++ c :: rem) t) (pre ++ q')) with (tget (TExt (c :: rem) t) q').
    2: { simpl. rewrite length_app, take_app_add, drop_app_add. simpl.
         rewrite (decide_ext (pre ++ c :: rem = pre ++ take (S (length rem)) q')
                    (c :: rem = take (S (length rem)) q')); [done|apply app_eq_prefix]. }
    destruct q' as [|j q']; [done|]. rewrite tget_branch. simpl.
    inversion Hq'; subst. destruct (decide (j = c)) as [->|Hjc].
    + rewrite Hslot, tget_under.
      rewrite (decide_ext (c :: rem = c :: take (length rem) q') (rem = take (length rem) q'));
        [done|]. split; congruence.
    + rewrite decide_False by congruence.
      destruct (cs !! Z.to_nat j) as [[u|]|] eqn:E; try done. by apply Hother in E.
  - subst cs. by rewrite length_insert.
  - intros i s' u -> E. inversion Hs1; subst. simpl in Hdiv. by apply Hother in E.
Qed.

Lemma tput_get D t p value q :
  twf D t -> all_nibbles p -> (length p <= D)%nat -> all_nibbles q ->
  tget (tput t p value) q = if decide (q = p) then Some value else tget t q.
Proof.
  intros Hwf. revert p q. induction Hwf as
    [D ns v Hns Hlen HD Hv | D ns t Hne Hns HD Hbr Hwf IH | D cs v H16 HD Hv Hocc Hcs IH];
    intros p q Hp Hlp Hq.
  - simpl. destruct (decide (ns = p)) as [->|Hnp].
    + simpl. destruct (decide (p = q)) as [->|]; [by rewrite decide_True|].
      by rewrite decide_False.
    + by apply tget_split_leaf.
  - cbn [tput]. destruct (Nat.eqb_spec (commonPrefixLen p ns) (length ns)) as [E|E].
    2: by apply tget_split_ext.
    rewrite E. apply commonPrefixLen_full in E.
    cbn [tget]. destruct (decide (ns = take (length ns) q)) as [E'|E'].
    + rewrite IH; [|by apply Forall_drop|len|by apply Forall_drop].
      rewrite (decide_ext (drop (length ns) q = drop (length ns) p) (q = p)); [done|].
      split; [|by intros ->]. intros Hd.
      rewrite <- (take_drop (length ns) q), <- (take_drop (length ns) p). congruence.
    + rewrite decide_False; [done|]. by intros ->.
  - destruct p as [|i p].
    + simpl. destruct q; [done|]. by rewrite decide_False.
    + rewrite tput_branch. inversion Hp as [|?? Hi Hp']; subst. simpl in Hlp.
      destruct q as [|j q]; [done|]. inversion Hq as [|?? Hj Hq']; subst.
      rewrite !tget_branch. destruct (decide (i = j)) as [->|Hij].
      * rewrite list_lookup_insert_eq by (by apply nibble_index).
        rewrite (decide_ext (j :: q = j :: p) (q = p)) by (split; congruence).
        destruct (cs !! Z.to_nat j) as [[t|]|] eqn:E.
        -- apply (IH (Z.to_nat j)); auto. lia.
        -- simpl. rewrite (decide_ext (p = q) (q = p)) by (split; congruence). done.
        -- simpl. rewrite (decide_ext (p = q) (q = p)) by (split; congruence). done.
      * rewrite list_lookup_insert_ne by (unfold is_nibble in *; lia).
        rewrite decide_False by congruence. done.
Qed.

(** ** Insertion keeps the shape *)

Lemma twf_under pre D cs v :
  all_nibbles pre -> Z.of_nat (length pre + D) < 65536 ->
  twf D (TBranch cs v) -> twf (length pre + D) (under pre (TBranch cs v)).
Proof.
  intros Hpre HD Hwf. destruct pre as [|x pre]; [done|].
  simpl under. by constructor.
Qed.

Lemma twf_under_is_branch rem D t :
  all_nibbles rem -> Z.of_nat (length rem + D) < 65536 -> is_branch t -> twf D t ->
  twf (length rem + D) (under rem t).
Proof. intros. destruct t; simpl in *; try done. by apply twf_under. Qed.

(** adding a suffix keeps the children well-formed and counts one more slot *)
Lemma add_suffix_wf D cs v s value :
  length cs = 16%nat -> all_nibbles s -> (length s <= S D)%nat -> Z.of_nat (S D) < 65536 ->
  value_ok value ->
  (forall i s' t, s = i :: s' -> cs !! Z.to_nat i <> Some (Some t)) ->
  (s = [] -> v = None) ->
  (forall i t, cs !! i = Some (Some t) -> twf D t) ->
  (forall w, v = Some w -> value_ok w) ->
  let '(cs', v') := add_suffix cs v s value in
  length cs' = 16%nat /\
  (forall i t, cs' !! i = Some (Some t) -> twf D t) /\
  (forall w, v' = Some w -> value_ok w) /\
  (length (occupied 0 cs') + has_value v' = S (length (occupied 0 cs) + has_value v))%nat.
Proof.
  intros H16 Hs Hls HD Hval Hfree Hv0 Hcs Hv. destruct s as [|i s]; simpl.
  - rewrite Hv0 by done. split_and!; [done|done|by intros w [= <-]|simpl; lia].
  - inversion Hs as [|?? Hi Hs']; subst. simpl in Hls.
    assert (Hlt : (Z.to_nat i < length cs)%nat) by (by apply nibble_index).
    split_and!; [len|..|done|].
    + intros j t. rewrite list_lookup_insert. case_decide; [|apply Hcs].
      intros [= <-]. constructor; auto; lia.
    + pose proof (occupied_insert 0 (Z.to_nat i) (Some (TLeaf s value)) cs Hlt) as Ho.
      simpl in Ho. destruct (cs !! Z.to_nat i) as [[u|]|] eqn:E; simpl in Ho; try lia.
      by apply (Hfree i s u) in E.
Qed.

Lemma split_leaf_wf D ns w p value :
  all_nibbles ns -> all_nibbles p -> ns <> p ->
  (length ns <= D)%nat -> (length p <= D)%nat -> Z.of_nat D < 65536 ->
  value_ok w -> value_ok value -> twf D (split_leaf ns w p value).
Proof.
  intros Hns Hp Hne Hln Hlp HD Hw Hv. unfold split_leaf.
  destruct (common_split p ns) as (pre & s1 & s2 & Ep & En & Hdiv & Epre & Elen & <- & <-).
  rewrite <- Epre. clear Epre Elen. subst p ns.
  apply Forall_app in Hns as [Hpre Hs2]. apply Forall_app in Hp as [_ Hs1].
  rewrite !length_app in *.
  assert (exists E, D = length pre + S E /\ length s1 <= S E /\ length s2 <= S E)%nat
    as (E & -> & L1 & L2).
  { exists (D - length pre - 1)%nat. destruct s1, s2; simpl in *; try lia. done. }
  pose proof (add_suffix_wf E no_children None s2 w) as G1.
  destruct (add_suffix no_children None s2 w) as [cs v] eqn:E1.
  destruct G1 as (H16 & Hcs & Hvv & Hocc); auto; try lia; try done.
  { intros. apply lookup_no_children. }
  { intros i t Ht. by apply lookup_no_children in Ht. }
  pose proof (add_suffix_wf E cs v s1 value) as G2.
  destruct (add_suffix cs v s1 value) as [cs' v'] eqn:E2.
  destruct G2 as (H16' & Hcs' & Hvv' & Hocc'); auto; try lia.
  { intros i s' t -> Hl. destruct s2 as [|j s2]; simpl in E1; injection E1 as <- <-.
    - by apply lookup_no_children in Hl.
    - inversion Hs1; inversion Hs2; subst. simpl in Hdiv.
      rewrite list_lookup_insert_ne in Hl by (unfold is_nibble in *; lia).
      by apply lookup_no_children in Hl. }
  { intros ->. destruct s2; [done|]. simpl in E1. by injection E1. }
  apply twf_under; [done|lia|]. constructor; auto; try lia.
Qed.

Lemma split_ext_wf D ns t p value :
  all_nibbles ns -> all_nibbles p -> commonPrefixLen p ns <> length ns ->
  (length p <= length ns + D)%nat -> Z.of_nat (length ns + D) < 65536 ->
  is_branch t -> twf D t -> value_ok value ->
  twf (length ns + D) (split_ext ns t (commonPrefixLen p ns) p value).
Proof.
  intros Hns Hp Hcp Hlp HD Hbr Hwf Hv. unfold split_ext.
  destruct (common_split p ns) as (pre & s1 & s2 & Ep & En & Hdiv & Epre & Elen & <- & Es2).
  rewrite <- Epre. destruct s2 as [|c rem].
  { rewrite app_nil_r in En. subst ns. lia. }
  assert (nth (commonPrefixLen p ns) ns 0 = c) as ->.
  { rewrite <- Elen, En, app_nth2, Nat.sub_diag by lia. done. }
  assert (drop (S (commonPrefixLen p ns)) ns = rem) as ->.
  { rewrite <- Elen, En. rewrite drop_app_ge by lia.
    replace (S (length pre) - length pre)%nat with 1%nat by lia. done. }
  clear Es2 Elen Epre Hcp. subst p ns.
  apply Forall_app in Hns as [Hpre Hs2]. apply Forall_app in Hp as [_ Hs1].
  inversion Hs2 as [|?? Hc Hrem]; subst. rewrite !length_app in *. simpl in *.
  pose proof (add_suffix_wf (length rem + D)
    (<[Z.to_nat c := Some (under rem t)]> no_children) None s1 value) as G.
  destruct (add_suffix _ None s1 value) as [cs' v'] eqn:E2.
  pose proof (occupied_insert 0 (Z.to_nat c) (Some (under rem t)) no_children) as Ho.
  assert (Hlt : (Z.to_nat c < 16)%nat) by (unfold is_nibble in *; lia).
  specialize (Ho Hlt).
  assert (Hnc : no_children !! Z.to_nat c = Some None) by (by apply lookup_replicate_2).
  rewrite Hnc in Ho. change (occupied 0 no_children) with (@nil (nat * tree)) in Ho.
  simpl in Ho.
  destruct G as (H16' & Hcs' & Hvv' & Hocc'); auto; try lia; try done.
  { by rewrite length_insert. }
  { intros i s' u -> Hl. inversion Hs1; subst. simpl in Hdiv.
    rewrite list_lookup_insert_ne in Hl by (unfold is_nibble in *; lia).
    by apply lookup_no_children in Hl. }
  { intros i u Hl. rewrite list_lookup_insert in Hl. case_decide.
    - injection Hl as <-. apply twf_under_is_branch; auto. lia.
    - by apply lookup_no_children in Hl. }
  replace (length pre + S (length rem) + D)%nat with (length pre + S (length rem + D))%nat by lia.
  apply twf_under; [done|lia|]. constructor; auto; simpl in *; try lia.
Qed.

Lemma tput_is_branch t p value : is_branch t -> is_branch (tput t p value).
Proof. destruct t, p; simpl; done. Qed.

Lemma tput_wf D t p value :
  twf D t -> all_nibbles p -> (length p <= D)%nat -> value_ok value ->
  twf D (tput t p value).
Proof.
  intros Hwf. revert p. induction Hwf as
    [D ns v Hns Hlen HD Hv | D ns t Hne Hns HD Hbr Hwf IH | D cs v H16 HD Hv Hocc Hcs IH];
    intros p Hp Hlp Hval.
  - simpl. case_decide; [by constructor|by apply split_leaf_wf].
  - cbn [tput]. destruct (Nat.eqb_spec (commonPrefixLen p ns) (length ns)) as [E|E].
    + constructor; auto using tput_is_branch. apply IH; [by apply Forall_drop|len|done].
    + by apply split_ext_wf.
  - destruct p as [|i p].
    + simpl. constructor; auto; [by intros w [= <-]|]. destruct v; simpl in *; lia.
    + rewrite tput_branch. inversion Hp as [|?? Hi Hp']; subst. simpl in Hlp.
      assert (Hlt : (Z.to_nat i < length cs)%nat) by (by apply nibble_index).
      match goal with |- twf _ (TBranch (<[_ := Some ?u]> _) _) => set (c := u) end.
      constructor; auto; [len| |].
      * pose proof (occupied_insert 0 _ (Some c) cs Hlt) as Ho. simpl in Ho.
        destruct (cs !! Z.to_nat i) as [[u|]|]; simpl in Ho; lia.
      * intros j t. rewrite list_lookup_insert. case_decide; [|apply Hcs].
        intros [= <-]. subst c.
        destruct (cs !! Z.to_nat i) as [[u|]|] eqn:E.
        -- apply (IH (Z.to_nat i)); auto; lia.
        -- constructor; auto; lia.
        -- constructor; auto; lia.
Qed.

(** ** Deletion *)

Lemma tget_ext_app ns ms t q : tget (TExt (ns ++ ms) t) q = tget (TExt ns (TExt ms t)) q.
Proof.
  destruct (prefix_cases ns q) as [[q' ->]|Hno].
  - simpl. rewrite length_app, take_app_add, drop_app_add, take_app_length, drop_app_length.
    rewrite (decide_ext (ns ++ ms = ns ++ take (length ms) q') (ms = take (length ms) q'))
      by apply app_eq_prefix.
    by rewrite (decide_True (P := ns = ns)).
  - simpl. rewrite (decide_False (P := ns = _)) by done. rewrite decide_False; [done|].
    intros E. apply Hno. rewrite length_app in E.
    apply (f_equal (take (length ns))) in E.
    rewrite take_app_length, take_take in E. by rewrite Nat.min_l in E by lia.
Qed.

Lemma tget_merge pre t q : tget (merge pre t) q = tget (TExt pre t) q.
Proof.
  destruct t as [ms v|ms t|]; [|apply tget_ext_app|done].
  destruct (prefix_cases pre q) as [[q' ->]|Hno]; simpl.
  - rewrite take_app_length, drop_app_length. rewrite (decide_True (P := pre = pre)) by done.
    by rewrite (decide_ext (pre ++ ms = pre ++ q') (ms = q')) by apply app_eq_prefix.
  - rewrite (decide_False (P := pre = _)) by done. rewrite decide_False; [done|].
    intros <-. apply Hno. by rewrite take_app_length.
Qed.

Lemma merge_wf D pre t :
  pre <> [] -> all_nibbles pre -> Z.of_nat (length pre + D) < 65536 ->
  twf D t -> twf (length pre + D) (merge pre t).
Proof.
  intros Hne Hpre HD Hwf. destruct Hwf; simpl.
  - constructor; auto; [by apply Forall_app|len].
  - rewrite Nat.add_assoc, <- length_app. constructor; auto.
    + by destruct pre.
    + by apply Forall_app.
    + rewrite length_app. lia.
  - constructor; auto; [done|by constructor].
Qed.

Lemma collapse_get cs v q :
  length cs = 16%nat -> all_nibbles q -> oget (collapse cs v) q = tget (TBranch cs v) q.
Proof.
  intros H16 Hq. pose proof (fun n t => occupied_iff n t cs) as Hocc.
  assert (Hnone : occupied 0 cs = [] -> forall i p, tget (TBranch cs v) (i :: p) = None).
  { intros E i p. rewrite tget_branch.
    destruct (cs !! Z.to_nat i) as [[t|]|] eqn:El; try done.
    apply Hocc in El. rewrite E in El. set_solver. }
  unfold collapse. destruct (occupied 0 cs) as [|[i t] [|]] eqn:E, v as [w|]; try done.
  - simpl oget. destruct q; [done|]. rewrite Hnone by done. done.
  - simpl oget. destruct q; [done|]. by rewrite Hnone by done.
  - simpl oget. rewrite tget_merge.
    assert (Hi : cs !! i = Some (Some t)) by (apply Hocc; set_solver).
    apply lookup_lt_Some in Hi as Hlt.
    destruct q as [|j q]; [done|].
    inversion Hq as [|?? Hj Hq']; subst. rewrite tget_branch. simpl. rewrite drop_0, take_0.
    destruct (decide ([Z.of_nat i] = [j])) as [[= <-]|Hne].
    + rewrite Nat2Z.id, Hi. done.
    + destruct (cs !! Z.to_nat j) as [[u|]|] eqn:Ej; try done.
      apply Hocc in Ej. rewrite list_elem_of_singleton in Ej. injection Ej as Ej _.
      exfalso. apply Hne. f_equal. unfold is_nibble in Hj. lia.
Qed.

Lemma collapse_wf D cs v t :
  length cs = 16%nat -> Z.of_nat (S D) < 65536 ->
  (forall w, v = Some w -> value_ok w) ->
  (forall i u, cs !! i = Some (Some u) -> twf D u) ->
  collapse cs v = Some t -> twf (S D) t.
Proof.
  intros H16 HD Hv Hcs. pose proof (fun n t => occupied_iff n t cs) as Hocc.
  unfold collapse. destruct (occupied 0 cs) as [|[i u] [|]] eqn:E, v as [w|]; intros [= <-].
  - apply twf_leaf; [constructor|simpl; lia|lia|by apply Hv].
  - constructor; auto. rewrite E. simpl. lia.
  - assert (Hi : cs !! i = Some (Some u)) by (apply Hocc; set_solver).
    apply lookup_lt_Some in Hi as Hlt.
    apply (merge_wf D [Z.of_nat i]); eauto.
    apply Forall_singleton. unfold is_nibble. lia.
  - constructor; auto. rewrite E. simpl. lia.
  - constructor; auto. rewrite E. simpl. lia.
Qed.

Lemma tdel_get D t p q :
  twf D t -> all_nibbles p -> all_nibbles q ->
  oget (tdel t p) q = if decide (q = p) then None else tget t q.
Proof.
  intros Hwf. revert p q. induction Hwf as
    [D ns v Hns Hlen HD Hv | D ns t Hne Hns HD Hbr Hwf IH | D cs v H16 HD Hv Hocc Hcs IH];
    intros p q Hp Hq.
  - simpl. destruct (decide (ns = p)) as [->|Hnp]; simpl.
    + case_decide; [done|]. by rewrite decide_False.
    + destruct (decide (q = p)) as [->|]; [by rewrite decide_False|done].
  - cbn [tdel]. destruct (decide (ns = take (length ns) p)) as [E|E].
    + assert (Hgoal : oget (match tdel t (drop (length ns) p) with
                       | Some t'' => Some (merge ns t'') | None => None end) q
              = if decide (ns = take (length ns) q)
                then oget (tdel t (drop (length ns) p)) (drop (length ns) q) else None).
      { destruct (tdel t _); simpl oget; [rewrite tget_merge; done|by case_decide]. }
      rewrite Hgoal. cbn [tget]. destruct (decide (ns = take (length ns) q)) as [E'|E'].
      * rewrite IH by (by apply Forall_drop).
        rewrite (decide_ext (drop (length ns) q = drop (length ns) p) (q = p)); [done|].
        split; [|by intros ->]. intros Hd.
        rewrite <- (take_drop (length ns) q), <- (take_drop (length ns) p). congruence.
      * by case_decide.
    + simpl oget. destruct (decide (q = p)) as [->|]; [|done].
      simpl. by rewrite decide_False.
  - destruct p as [|i p].
    + simpl. destruct v as [w|].
      * rewrite collapse_get by done. by destruct q.
      * simpl. by destruct q.
    + rewrite tdel_branch. inversion Hp as [|?? Hi Hp']; subst.
      destruct (cs !! Z.to_nat i) as [[t|]|] eqn:El.
      * rewrite collapse_get by (done || len).
        destruct q as [|j q]; [done|]. inversion Hq as [|?? Hj Hq']; subst.
        rewrite !tget_branch. destruct (decide (i = j)) as [->|Hij].
        -- rewrite list_lookup_insert_eq by (by apply nibble_index). rewrite El.
           rewrite (decide_ext (j :: q = j :: p) (q = p)) by (split; congruence).
           rewrite <- (IH _ _ El p q) by done. by destruct (tdel t p).
        -- rewrite list_lookup_insert_ne by (unfold is_nibble in *; lia).
           by rewrite decide_False by congruence.
      * cbn [oget]. destruct (decide (q = i :: p)) as [->|]; [|done].
        by rewrite tget_branch, El.
      * cbn [oget]. destruct (decide (q = i :: p)) as [->|]; [|done].
        by rewrite tget_branch, El.
Qed.

Lemma tdel_wf D t p t' :
  twf D t -> all_nibbles p -> tdel t p = Some t' -> twf D t'.
Proof.
  intros Hwf. revert p t'. induction Hwf as
    [D ns v Hns Hlen HD Hv | D ns t Hne Hns HD Hbr Hwf IH | D cs v H16 HD Hv Hocc Hcs IH];
    intros p t' Hp.
  - simpl. case_decide; intros [= <-]. by constructor.
  - cbn [tdel]. case_decide.
    + destruct (tdel t _) as [t''|] eqn:E; intros [= <-]. apply merge_wf; auto.
      eapply IH; [|done]. by apply Forall_drop.
    + intros [= <-]. by constructor.
  - destruct p as [|i p].
    + simpl. destruct v as [w|].
      * apply collapse_wf; auto. done.
      * intros [= <-]. by constructor.
    + rewrite tdel_branch. inversion Hp as [|?? Hi Hp']; subst.
      destruct (cs !! Z.to_nat i) as [[t|]|] eqn:El.
      * apply collapse_wf; auto; [len|]. intros j u. rewrite list_lookup_insert.
        case_decide; [|apply Hcs]. intros [= Hu]. eapply (IH _ _ El); eauto.
      * intros [= <-]. by constructor.
      * intros [= <-]. by constructor.
Qed.

(** ** A canonical tree is determined by its contents *)

Definition has_key (t : tree) (q : list Z) : Prop := all_nibbles q /\ is_Some (tget t q).

Lemma occupied_tail_lt i n u cs k t rest :
  occupied k cs = (i, u) :: rest -> (n, t) ∈ rest -> (i < n)%nat.
Proof.
  revert k; induction cs as [|[c|] cs IH]; intros k; simpl; [done| |apply IH].
  intros [= <- <- <-] Hin. apply occupied_elem in Hin. lia.
Qed.

(** the slots in use: two children, or a child and the value *)
Lemma branch_slots D cs v :
  twf D (TBranch cs v) ->
  (exists i j t u, i <> j /\ cs !! i = Some (Some t) /\ cs !! j = Some (Some u)) \/
  (exists i t w, cs !! i = Some (Some t) /\ v = Some w).
Proof.
  intros Hwf. inversion Hwf as [| |? ? ? ? ? ? Hocc]; subst.
  destruct (occupied 0 cs) as [|[i t] rest] eqn:E; [destruct v; simpl in *; lia|].
  assert (Hi : cs !! i = Some (Some t)) by (apply occupied_iff; rewrite E, elem_of_cons; auto).
  destruct rest as [|[j u] rest].
  - destruct v as [w|]; simpl in *; [|lia]. right. eauto.
  - left. exists i, j, t, u. split_and!; [|done|].
    + assert (i < j)%nat; [|lia]. eapply occupied_tail_lt; [exact E|apply list_elem_of_here].
    + apply occupied_iff. rewrite E, !elem_of_cons. auto.
Qed.

Lemma has_key_child D cs v i t q :
  length cs = 16%nat -> twf D (TBranch cs v) -> cs !! i = Some (Some t) -> has_key t q ->
  has_key (TBranch cs v) (Z.of_nat i :: q).
Proof.
  intros H16 Hwf Hi [Hq [w Hw]]. apply lookup_lt_Some in Hi as Hlt. split.
  - constructor; [unfold is_nibble; lia|done].
  - rewrite tget_branch, Nat2Z.id, Hi. eauto.
Qed.

Lemma twf_inhabited D t : twf D t -> exists q, has_key t q.
Proof.
  induction 1 as [D ns v Hns | D ns t Hne Hns HD Hbr Hwf [q [Hq Hs]] | D cs v H16 HD Hv Hocc Hcs IH].
  - exists ns. split; [done|]. simpl. by rewrite decide_True.
  - exists (ns ++ q). split; [by apply Forall_app|].
    simpl. rewrite take_app_length, drop_app_length. by rewrite decide_True.
  - assert (Hwf : twf (S D) (TBranch cs v)) by (by constructor).
    destruct (branch_slots _ _ _ Hwf) as [(i & _ & t & _ & _ & Hi & _)|(i & t & _ & Hi & _)];
      destruct (IH _ _ Hi) as [q Hq]; eauto using has_key_child.
Qed.

Lemma branch_length D cs v : twf D (TBranch cs v) -> length cs = 16%nat.
Proof. by inversion 1. Qed.

Lemma branch_child_wf D cs v i t :
  twf D (TBranch cs v) -> cs !! i = Some (Some t) -> exists E, twf E t.
Proof. inversion 1; subst; eauto. Qed.

(** the keys of a branch do not all start with the same nibble *)
Lemma branch_key_not_under D b c :
  is_branch b -> twf D b -> exists q, has_key b q /\ head q <> Some c.
Proof.
  destruct b as [| |cs v]; try done. intros _ Hwf.
  pose proof (branch_length _ _ _ Hwf) as H16.
  assert (Hch : forall i t, cs !! i = Some (Some t) -> Z.of_nat i <> c ->
                exists q, has_key (TBranch cs v) q /\ head q <> Some c).
  { intros i t Hi Hne. destruct (branch_child_wf _ _ _ _ _ Hwf Hi) as [E Hwt].
    destruct (twf_inhabited _ _ Hwt) as [q Hq].
    exists (Z.of_nat i :: q). split; [by eapply has_key_child|simpl; congruence]. }
  destruct (branch_slots _ _ _ Hwf) as [(i & j & t & u & Hij & Hi & Hj)|(i & t & w & Hi & ->)].
  - destruct (decide (Z.of_nat i = c)); [apply (Hch j u Hj); lia|eauto].
  - exists []. split; [split; [constructor|eauto]|done].
Qed.

Lemma branch_two_keys D b :
  is_branch b -> twf D b -> exists q1 q2, q1 <> q2 /\ has_key b q1 /\ has_key b q2.
Proof.
  destruct b as [| |cs v]; try done. intros _ Hwf.
  pose proof (branch_length _ _ _ Hwf) as H16.
  assert (Hch : forall i t, cs !! i = Some (Some t) ->
                exists q, has_key (TBranch cs v) (Z.of_nat i :: q)).
  { intros i t Hi. destruct (branch_child_wf _ _ _ _ _ Hwf Hi) as [E Hwt].
    destruct (twf_inhabited _ _ Hwt) as [q Hq]. eauto using has_key_child. }
  destruct (branch_slots _ _ _ Hwf) as [(i & j & t & u & Hij & Hi & Hj)|(i & t & w & Hi & ->)].
  - destruct (Hch i t Hi) as [q1 H1], (Hch j u Hj) as [q2 H2].
    exists (Z.of_nat i :: q1), (Z.of_nat j :: q2). split_and!; auto. intros [= E]. lia.
  - destruct (Hch i t Hi) as [q1 H1]. exists (Z.of_nat i :: q1), [].
    split_and!; [done|done|]. split; [constructor|eauto].
Qed.

Lemma has_key_under pre b q : all_nibbles pre -> has_key b q -> has_key (under pre b) (pre ++ q).
Proof.
  intros Hp [Hq Hs]. split; [by apply Forall_app|]. by rewrite tget_under_app.
Qed.

(** the prefix above a branch is the longest common prefix of the keys, so the
    contents determine it *)
Lemma under_prefix_le D ns ms b1 b2 s c :
  all_nibbles ns -> is_branch b1 -> twf D b1 ->
  (forall q, all_nibbles q -> tget (under ns b1) q = tget (under ms b2) q) ->
  ms = ns ++ c :: s -> False.
Proof.
  intros Hns Hbr Hwf Heq ->.
  destruct (branch_key_not_under _ _ c Hbr Hwf) as (q & Hq & Hhead).
  apply (has_key_under ns) in Hq as [Hnib [w Hw]]; [|done].
  rewrite Heq, tget_under in Hw by done. case_decide as E; [|done].
  apply Hhead. rewrite length_app, take_app_add in E. apply app_eq_prefix in E.
  destruct q; simpl in E; [done|]. injection E as <- _. done.
Qed.

Lemma under_prefix_unique D1 D2 ns ms b1 b2 :
  all_nibbles ns -> all_nibbles ms -> is_branch b1 -> is_branch b2 ->
  twf D1 b1 -> twf D2 b2 ->
  (forall q, all_nibbles q -> tget (under ns b1) q = tget (under ms b2) q) ->
  ns = ms.
Proof.
  intros Hns Hms Hb1 Hb2 W1 W2 Heq.
  destruct (common_split ns ms) as (pre & s1 & s2 & E1 & E2 & Hdiv & _).
  destruct s1 as [|c s1], s2 as [|d s2].
  - congruence.
  - exfalso. rewrite app_nil_r in E1. subst pre.
    exact (under_prefix_le D1 ns ms b1 b2 s2 d Hns Hb1 W1 Heq E2).
  - exfalso. rewrite app_nil_r in E2. subst pre.
    eapply (under_prefix_le D2 ms ns b2 b1); eauto. intros. symmetry. auto.
  - exfalso. destruct (twf_inhabited _ _ W1) as [q Hq].
    apply (has_key_under ns) in Hq as [Hnib [w Hw]]; [|done].
    rewrite Heq, tget_under in Hw by done. case_decide as E; [|done].
    rewrite E1, E2, length_app, <- app_assoc, take_app_add in E.
    apply app_eq_prefix in E. simpl in *. congruence.
Qed.

Lemma leaf_one_key ns v t q1 q2 :
  (forall q, all_nibbles q -> tget (TLeaf ns v) q = tget t q) ->
  has_key t q1 -> has_key t q2 -> q1 = q2.
Proof.
  intros Heq [H1 [w1 E1]] [H2 [w2 E2]]. rewrite <- Heq in E1, E2 by done.
  simpl in *. repeat case_decide; congruence.
Qed.

Lemma ext_two_keys D ns t :
  twf D t -> is_branch t -> all_nibbles ns ->
  exists q1 q2, q1 <> q2 /\ has_key (under ns t) q1 /\ has_key (under ns t) q2.
Proof.
  intros Hwf Hbr Hns. destruct (branch_two_keys _ _ Hbr Hwf) as (q1 & q2 & Hne & H1 & H2).
  exists (ns ++ q1), (ns ++ q2). split_and!; auto using has_key_under.
  rewrite app_eq_prefix. done.
Qed.

(** the three node kinds, seen as a leaf or a branch under a prefix *)
Lemma twf_cases D t :
  twf D t ->
  (exists ns v, t = TLeaf ns v /\ all_nibbles ns) \/
  (exists ns b E, t = under ns b /\ all_nibbles ns /\ is_branch b /\ twf E b).
Proof.
  intros Hwf. destruct Hwf as [D ns v|D ns t Hne Hns HD Hbr Hwf|D cs v].
  - left. eauto.
  - right. exists ns, t, D. split; [by destruct ns|done].
  - right. exists [], (TBranch cs v), (S D). split_and!; [done|constructor|done|by constructor].
Qed.

Lemma leaf_not_under D ns v pre b :
  all_nibbles pre -> is_branch b -> twf D b ->
  (forall q, all_nibbles q -> tget (TLeaf ns v) q = tget (under pre b) q) -> False.
Proof.
  intros Hpre Hbr Hwf Heq.
  destruct (ext_two_keys D pre b) as (q1 & q2 & Hne & H1 & H2); [done..|].
  apply Hne. by eapply leaf_one_key.
Qed.

Lemma twf_unique D1 D2 t1 t2 :
  twf D1 t1 -> twf D2 t2 ->
  (forall q, all_nibbles q -> tget t1 q = tget t2 q) -> t1 = t2.
Proof.
  intros W1. revert D2 t2. induction W1 as
    [D ns v Hns Hlen HD Hv | D ns t Hne Hns HD Hbr W1 IH | D cs v H16 HD Hv Hocc Hcs IH];
    intros D2 t2 W2 Heq; destruct (twf_cases _ _ W2)
      as [(ms & w & -> & Hms)|(ms & b & E & -> & Hms & Hbr2 & Wb)].
  - specialize (Heq ns Hns). simpl in Heq. rewrite decide_True in Heq by done.
    case_decide; congruence.
  - exfalso. by eapply (leaf_not_under E ns v ms b).
  - exfalso. eapply (leaf_not_under D ms w ns t); eauto.
    intros q Hq. destruct ns; [done|]. symmetry. by apply Heq.
  - assert (Hu : TExt ns t = under ns t) by (by destruct ns).
    rewrite Hu in Heq |- *.
    assert (ns = ms) as <- by (by apply (under_prefix_unique D E ns ms t b)).
    f_equal. eapply IH; [exact Wb|]. intros q Hq.
    rewrite <- (tget_under_app ns), <- (tget_under_app ns b). apply Heq.
    by apply Forall_app.
  - exfalso. eapply (leaf_not_under (S D) ms w [] (TBranch cs v)); [constructor|done|by constructor|].
    intros q Hq. symmetry. by apply Heq.
  - assert (Hwf : twf (S D) (TBranch cs v)) by (by constructor).
    assert ([] = ms) as <-.
    { by apply (under_prefix_unique (S D) E [] ms (TBranch cs v) b). }
    simpl under in *. destruct b as [| |cs' v']; try done.
    f_equal; [|exact (Heq [] (Forall_nil_2 is_nibble))].
    pose proof (branch_length _ _ _ Wb) as H16'.
    apply list_eq_same_length with 16%nat; [done..|].
    intros i o o' Hi Ho Ho'.
    assert (Hq : forall q, all_nibbles q -> oget o q = oget o' q).
    { intros q Hq. specialize (Heq (Z.of_nat i :: q)).
      rewrite !tget_branch, Nat2Z.id, Ho, Ho' in Heq. apply Heq.
      constructor; [unfold is_nibble; lia|done]. }
    destruct o as [u|], o' as [u'|]; [|exfalso..|done].
    + f_equal. destruct (branch_child_wf _ _ _ _ _ Wb Ho') as [F Wu'].
      eapply (IH _ _ Ho); eauto.
    + destruct (twf_inhabited _ _ (Hcs _ _ Ho)) as [q [Hn [w Hw]]].
      specialize (Hq q Hn). simpl in Hq. congruence.
    + destruct (branch_child_wf _ _ _ _ _ Wb Ho') as [F Wu'].
      destruct (twf_inhabited _ _ Wu') as [q [Hn [w Hw]]].
      specialize (Hq q Hn). simpl in Hq. congruence.
Qed.
