(* ===== verification/TrieRefine.v ===== *)
(** * The node store implements the tree

    Relates [Trie] (hash pointers, encodings, fuel) to [TrieTree] (an inductive
    tree): the operations of the store compute the tree's, with the root hash of
    the tree.  The statements are relative to a finite list [U] of encodings
    that contains everything stored: no two elements of [U] collide and none
    hashes to the empty-trie sentinel. *)

From S2P Require Import Prelude Sha256 Core TrieNode Trie TrieTree.

(** ** Encoding and hash of a tree *)

Fixpoint tenc (t : tree) : bytes :=
  encode
    match t with
    | TLeaf ns v => leafNode ns v
    | TExt ns t' => extensionNode ns (SumHash (tenc t'))
    | TBranch cs v =>
        branchNode
          (map (fun o => match o with Some t' => SumHash (tenc t') | None => zero_hash end) cs)
          (match v with Some _ => true | None => false end) (default [] v)
    end.

Definition thash (t : tree) : Hash := SumHash (tenc t).

(** the root of a possibly empty trie *)
Definition oroot (o : option tree) : Hash :=
  match o with Some t => thash t | None => zero_hash end.

Definition hashes (cs : list (option tree)) : list Hash := map oroot cs.

Definition tnode (t : tree) : node :=
  match t with
  | TLeaf ns v => leafNode ns v
  | TExt ns t' => extensionNode ns (thash t')
  | TBranch cs v =>
      branchNode (hashes cs) (match v with Some _ => true | None => false end) (default [] v)
  end.

Lemma tenc_tnode t : tenc t = encode (tnode t).
Proof. by destruct t. Qed.

Lemma hashes_lookup cs i : hashes cs !! i = oroot <$> cs !! i.
Proof.
  unfold hashes. revert i; induction cs as [|o cs IH]; intros [|i]; simpl; auto.
Qed.

Lemma hashes_insert i o cs : hashes (<[i := o]> cs) = <[i := oroot o]> (hashes cs).
Proof.
  unfold hashes. revert i; induction cs as [|c cs IH]; intros [|i]; simpl; try done.
  by rewrite <- IH.
Qed.

Lemma length_hashes cs : length (hashes cs) = length cs.
Proof. apply length_map. Qed.

Lemma length_oroot o : length (oroot o) = HashLen.
Proof. destruct o; [apply length_SumHash|done]. Qed.

Lemma child_at_hashes cs i :
  child_at (hashes cs) i = oroot (mjoin (cs !! Z.to_nat i)).
Proof.
  unfold child_at. rewrite nth_lookup, hashes_lookup.
  by destruct (cs !! Z.to_nat i) as [[|]|].
Qed.

Lemma tnode_wf D t : twf D t -> node_wf (tnode t).
Proof.
  destruct 1 as [D ns v Hns Hlen HD Hv|D ns t Hne Hns HD Hbr Hwf|D cs v H16 HD Hv Hocc Hcs]; simpl.
  - split_and!; [done|lia|exact Hv].
  - split_and!; [done|lia|apply length_SumHash].
  - split_and!; [by rewrite length_hashes| |destruct v; simpl; [by apply Hv|done]].
    apply Forall_forall. intros h Hh. apply list_elem_of_In, in_map_iff in Hh as (o & <- & _).
    apply length_oroot.
Qed.

Lemma decode_tenc D t : twf D t -> decodeNode (tenc t) = Ok (tnode t).
Proof. intros. rewrite tenc_tnode. eapply decodeNode_encode, tnode_wf; eauto. Qed.

Lemma path_mismatch_iff p ns :
  path_mismatch p ns = if decide (ns = take (length ns) p) then false else true.
Proof.
  unfold path_mismatch, nibblesEqual. case_decide as E.
  - rewrite bool_decide_eq_true_2 by done.
    apply (f_equal length) in E. rewrite length_take in E.
    destruct (Nat.ltb_spec (length p) (length ns)); [lia|done].
  - rewrite bool_decide_eq_false_2 by done. apply orb_true_r.
Qed.

(** ** What the store holds *)

(** [stored nodes t]: every node of [t] is in the store, under its hash. *)
Inductive stored (nodes : nodestore) : tree -> Prop :=
| stored_leaf ns v :
    nodes !! thash (TLeaf ns v) = Some (tenc (TLeaf ns v)) -> stored nodes (TLeaf ns v)
| stored_ext ns t :
    nodes !! thash (TExt ns t) = Some (tenc (TExt ns t)) -> stored nodes t ->
    stored nodes (TExt ns t)
| stored_branch cs v :
    nodes !! thash (TBranch cs v) = Some (tenc (TBranch cs v)) ->
    (forall i t, cs !! i = Some (Some t) -> stored nodes t) ->
    stored nodes (TBranch cs v).

Definition kids_stored (nodes : nodestore) (t : tree) : Prop :=
  match t with
  | TLeaf _ _ => True
  | TExt _ t' => stored nodes t'
  | TBranch cs _ => forall i t', cs !! i = Some (Some t') -> stored nodes t'
  end.

Definition ostored (nodes : nodestore) (o : option tree) : Prop :=
  match o with Some t => stored nodes t | None => True end.

Lemma stored_iff nodes t :
  stored nodes t <-> nodes !! thash t = Some (tenc t) /\ kids_stored nodes t.
Proof.
  split.
  - by destruct 1.
  - intros [H K]. destruct t; simpl in K; by constructor.
Qed.

Lemma stored_root nodes t : stored nodes t -> nodes !! thash t = Some (tenc t).
Proof. by intros [? _]%stored_iff. Qed.

Lemma stored_mono nodes nodes' t : nodes ⊆ nodes' -> stored nodes t -> stored nodes' t.
Proof.
  intros Hsub. induction 1; constructor; eauto using lookup_weaken.
Qed.

Lemma kids_stored_mono nodes nodes' t :
  nodes ⊆ nodes' -> kids_stored nodes t -> kids_stored nodes' t.
Proof. intros Hsub. destruct t; simpl; eauto using stored_mono. Qed.

Section Universe.
Context (U : list bytes).
Context (U_cf : collision_free U).
Context (U_nz : forall e, e ∈ U -> SumHash e <> zero_hash).

Definition store_ok (nodes : nodestore) : Prop :=
  forall h e, nodes !! h = Some e -> h = SumHash e /\ e ∈ U.

(** [extends nodes nodes']: nothing is lost, and the new store is consistent *)
Definition extends (nodes nodes' : nodestore) : Prop :=
  nodes ⊆ nodes' /\ store_ok nodes'.

Lemma store_ok_empty : store_ok ∅.
Proof. intros h e H. by rewrite lookup_empty in H. Qed.

Lemma extends_refl nodes : store_ok nodes -> extends nodes nodes.
Proof. by split. Qed.

Lemma extends_trans n1 n2 n3 : extends n1 n2 -> extends n2 n3 -> extends n1 n3.
Proof. intros [H1 _] [H2 ?]. split; [by etrans|done]. Qed.

Lemma extends_stored n1 n2 t : extends n1 n2 -> stored n1 t -> stored n2 t.
Proof. intros [? _]. by apply stored_mono. Qed.

Lemma stored_in_U nodes t : store_ok nodes -> stored nodes t -> tenc t ∈ U.
Proof. intros Hok H%stored_root. by apply Hok in H as [_ ?]. Qed.

Lemma thash_nz t : tenc t ∈ U -> IsZero (thash t) = false.
Proof. intros H. apply IsZero_false; [apply length_SumHash|by apply U_nz]. Qed.

Lemma store_extends nodes n :
  store_ok nodes -> encode n ∈ U -> extends nodes (fst (store nodes n)).
Proof.
  intros Hok Hn. split; simpl.
  - destruct (nodes !! SumHash (encode n)) as [e|] eqn:E;
      [|by apply insert_subseteq].
    apply Hok in E as E'. destruct E' as [E' He].
    apply (U_cf (encode n) e) in E'; [|done|done]. subst e. by rewrite insert_id.
  - intros h e. rewrite lookup_insert. case_decide; [by intros [= <-]|apply Hok].
Qed.

(** *** Get *)

Lemma get_zero fuel nodes p : (0 < fuel)%nat -> get fuel nodes zero_hash p = Some None.
Proof. by destruct fuel; [lia|]. Qed.

Lemma get_refines D t fuel nodes p :
  twf D t -> store_ok nodes -> stored nodes t -> (D < fuel)%nat ->
  get fuel nodes (thash t) p = Some (tget t p).
Proof.
  intros Hwf Hok. revert fuel p. induction Hwf as
    [D ns v Hns Hlen HD Hv|D ns t Hne Hns HD Hbr Hwf IH|D cs v H16 HD Hv Hocc Hcs IH];
    intros [|fuel] p Hst Hf; try lia; cbn [get];
    rewrite thash_nz by (by eapply stored_in_U); rewrite (stored_root _ _ Hst).
  - erewrite decode_tenc by (by constructor). cbn [tnode].
    unfold nibblesEqual. cbn [tget]. case_decide.
    + by rewrite bool_decide_eq_true_2.
    + by rewrite bool_decide_eq_false_2.
  - erewrite decode_tenc by (by constructor). cbn [tnode].
    rewrite path_mismatch_iff. cbn [tget]. case_decide; [|done].
    inversion Hst; subst. apply IH; [done|]. destruct ns; simpl in *; [done|lia].
  - erewrite decode_tenc by (by constructor). cbn [tnode].
    destruct p as [|i p]; [by destruct v|].
    rewrite child_at_hashes, tget_branch. inversion Hst as [| |? ? ? Hkids]; subst.
    destruct (cs !! Z.to_nat i) as [[u|]|] eqn:E; simpl; [|apply get_zero; lia..].
    eapply IH; [exact E|by eapply Hkids|lia].
Qed.

Lemma oget_refines D o fuel nodes p :
  (forall t, o = Some t -> twf D t) -> store_ok nodes -> ostored nodes o ->
  (D < fuel)%nat -> get fuel nodes (oroot o) p = Some (oget o p).
Proof.
  intros Hwf Hok Hst Hf. destruct o as [t|]; [|apply get_zero; lia].
  by eapply get_refines; [apply Hwf| | |].
Qed.

(** *** Storing one node of a tree *)

Lemma store_tree nodes t :
  store_ok nodes -> kids_stored nodes t -> tenc t ∈ U ->
  exists nodes', store nodes (tnode t) = (nodes', thash t) /\
    extends nodes nodes' /\ stored nodes' t.
Proof.
  intros Hok Hk HU.
  assert (Hext : extends nodes (<[thash t := tenc t]> nodes)).
  { rewrite tenc_tnode in HU. pose proof (store_extends nodes (tnode t) Hok HU) as Hx.
    unfold store in Hx. rewrite <- tenc_tnode in Hx. exact Hx. }
  exists (<[thash t := tenc t]> nodes). split; [unfold store; by rewrite <- tenc_tnode|].
  split; [exact Hext|].
  apply stored_iff. split; [apply lookup_insert_eq|].
  eapply kids_stored_mono; [apply Hext|done].
Qed.

(** all the nodes of a tree are in the universe *)
Inductive in_U : tree -> Prop :=
| in_U_leaf ns v : tenc (TLeaf ns v) ∈ U -> in_U (TLeaf ns v)
| in_U_ext ns t : tenc (TExt ns t) ∈ U -> in_U t -> in_U (TExt ns t)
| in_U_branch cs v :
    tenc (TBranch cs v) ∈ U ->
    (forall i t, cs !! i = Some (Some t) -> in_U t) -> in_U (TBranch cs v).

Lemma in_U_root t : in_U t -> tenc t ∈ U.
Proof. by destruct 1. Qed.

Lemma stored_in_U_all nodes t : store_ok nodes -> stored nodes t -> in_U t.
Proof.
  intros Hok Hst. induction Hst; constructor; auto;
    (eapply stored_in_U; [done|by constructor]).
Qed.

Lemma store_tree_pair nodes t nodes' h :
  store_ok nodes -> kids_stored nodes t -> tenc t ∈ U ->
  store nodes (tnode t) = (nodes', h) ->
  h = thash t /\ extends nodes nodes' /\ stored nodes' t.
Proof.
  intros Hok Hk HU E. destruct (store_tree nodes t Hok Hk HU) as (n & E' & Hx & Hs).
  rewrite E in E'. by injection E' as -> ->.
Qed.

(** *** Put *)

(** the two symmetric steps of [putIntoLeaf] and [splitExtension] *)
Definition store_suffix (nodes : nodestore) (cs : list Hash) (hv : bool) (bv : bytes)
    (s : list Z) (value : bytes) : nodestore * list Hash * bool * bytes :=
  match s with
  | [] => (nodes, cs, true, value)
  | i :: s' =>
      let '(nodes, h) := store nodes (leafNode s' value) in
      (nodes, <[Z.to_nat i := h]> cs, hv, bv)
  end.

Definition vflag (v : option bytes) : bool := match v with Some _ => true | None => false end.

Lemma store_suffix_refines nodes cs v s value :
  store_ok nodes -> (forall i s', s = i :: s' -> tenc (TLeaf s' value) ∈ U) ->
  (forall i t, cs !! i = Some (Some t) -> stored nodes t) ->
  let '(cs', v') := add_suffix cs v s value in
  exists nodes',
    store_suffix nodes (hashes cs) (vflag v) (default [] v) s value
      = (nodes', hashes cs', vflag v', default [] v') /\
    extends nodes nodes' /\
    (forall i t, cs' !! i = Some (Some t) -> stored nodes' t).
Proof.
  intros Hok HU Hk. destruct s as [|i s]; cbn [add_suffix store_suffix].
  - exists nodes. split_and!; auto using extends_refl.
  - destruct (store_tree nodes (TLeaf s value)) as (n & E & Hx & Hs); eauto.
    { done. }
    cbn [tnode] in E. rewrite E. exists n. split_and!; [by rewrite hashes_insert|done|].
    intros j t. rewrite list_lookup_insert. case_decide; [by intros [= <-]|].
    intros Hj. eapply extends_stored; eauto.
Qed.

Lemma drop_nth_cons (l : list Z) n :
  (n < length l)%nat -> drop n l = nth n l 0 :: drop (S n) l.
Proof.
  revert n; induction l as [|x l IH]; intros [|n] H; simpl in *; try lia; [done|].
  apply IH. lia.
Qed.

Lemma hashes_no_children : hashes no_children = empty_children.
Proof. done. Qed.

Lemma store_suffix_if nodes cs hv bv cp l value :
  (cp <= length l)%nat ->
  (if (cp <? length l)%nat then
     let '(nodes, h) := store nodes (leafNode (drop (S cp) l) value) in
     (nodes, <[Z.to_nat (nth cp l 0) := h]> cs, hv, bv)
   else (nodes, cs, true, value)) = store_suffix nodes cs hv bv (drop cp l) value.
Proof.
  intros Hle. destruct (Nat.ltb_spec cp (length l)).
  - by rewrite (drop_nth_cons l cp).
  - by rewrite drop_ge by lia.
Qed.

(** the branch and the extension above it *)
Lemma store_under nodes pre cs v :
  store_ok nodes -> (forall i t, cs !! i = Some (Some t) -> stored nodes t) ->
  in_U (under pre (TBranch cs v)) ->
  exists nodes',
    (let '(nodes, branchHash) := store nodes (branchNode (hashes cs) (vflag v) (default [] v)) in
     if (0 <? length pre)%nat then store nodes (extensionNode pre branchHash)
     else (nodes, branchHash)) = (nodes', thash (under pre (TBranch cs v))) /\
    extends nodes nodes' /\ stored nodes' (under pre (TBranch cs v)).
Proof.
  intros Hok Hk HU.
  assert (HB : tenc (TBranch cs v) ∈ U).
  { destruct pre; simpl in HU; inversion HU; subst; [done|by apply in_U_root]. }
  destruct (store_tree nodes (TBranch cs v)) as (n & E & Hx & Hs); [done..|].
  cbn [tnode] in E. unfold vflag. rewrite E. destruct pre as [|x pre]; cbn [under length Nat.ltb Nat.leb].
  - exists n. done.
  - destruct (store_tree n (TExt (x :: pre) (TBranch cs v))) as (n' & E' & Hx' & Hs').
    { apply Hx. } { done. } { by apply in_U_root. }
    cbn [tnode] in E'. rewrite E'. exists n'. split_and!; [done| |done]. by eapply extends_trans.
Qed.

Lemma add_suffix_leaf_in cs v s value i s' :
  s = i :: s' -> is_nibble i -> length cs = 16%nat ->
  fst (add_suffix cs v s value) !! Z.to_nat i = Some (Some (TLeaf s' value)).
Proof.
  intros -> Hi H16. simpl. apply list_lookup_insert_eq. by apply nibble_index.
Qed.

Lemma in_U_under_branch pre cs v : in_U (under pre (TBranch cs v)) -> in_U (TBranch cs v).
Proof. destruct pre; simpl; [done|]. by inversion 1. Qed.

Lemma putIntoLeaf_refines nodes ns w p value :
  store_ok nodes -> all_nibbles ns -> all_nibbles p -> ns <> p ->
  in_U (split_leaf ns w p value) ->
  exists nodes', putIntoLeaf nodes ns w p value = (nodes', thash (split_leaf ns w p value)) /\
    extends nodes nodes' /\ stored nodes' (split_leaf ns w p value).
Proof.
  intros Hok Hns Hp Hne HU. unfold putIntoLeaf.
  pose proof (commonPrefixLen_le p ns) as [L1 L2].
  assert (((commonPrefixLen p ns =? length ns) && (commonPrefixLen p ns =? length p))%nat
          = false) as ->.
  { apply andb_false_iff. rewrite !Nat.eqb_neq.
    destruct (decide (commonPrefixLen p ns = length ns)) as [E|]; [right|by left].
    intros E'. apply Hne. pose proof (commonPrefixLen_take p ns) as Ht.
    rewrite E in Ht at 2. rewrite E' in Ht. by rewrite !firstn_all in Ht. }
  rewrite store_suffix_if by done.
  unfold split_leaf in *. set (cp := commonPrefixLen p ns) in *.
  assert (HU1 : forall i s', drop cp ns = i :: s' -> tenc (TLeaf s' w) ∈ U).
  { intros i s' E. rewrite E in HU. simpl in HU.
    destruct (add_suffix _ None (drop cp p) value) as [cs' v'] eqn:E2.
    apply in_U_under_branch in HU. inversion HU as [| |? ? ? Hk]; subst.
    assert (Hi : is_nibble i).
    { apply (Forall_drop _ cp) in Hns. rewrite E in Hns. by inversion Hns. }
    apply in_U_root, (Hk (Z.to_nat i)).
    destruct (drop cp p) as [|j s1] eqn:E1; simpl in E2; injection E2 as <- <-.
    - apply list_lookup_insert_eq. by apply (nibble_index i no_children).
    - pose proof (commonPrefixLen_diverge p ns) as Hd. fold cp in Hd.
      rewrite E, E1 in Hd. simpl in Hd.
      assert (is_nibble j).
      { apply (Forall_drop _ cp) in Hp. rewrite E1 in Hp. by inversion Hp. }
      rewrite list_lookup_insert_ne by (unfold is_nibble in *; lia).
      apply list_lookup_insert_eq. by apply (nibble_index i no_children). }
  pose proof (store_suffix_refines nodes no_children None (drop cp ns) w Hok HU1) as G1.
  destruct (add_suffix no_children None (drop cp ns) w) as [cs v] eqn:E1.
  destruct G1 as (n1 & Es1 & Hx1 & Hk1).
  { intros i t Hi. by apply lookup_no_children in Hi. }
  rewrite hashes_no_children in Es1. simpl vflag in Es1. simpl default in Es1.
  rewrite Es1. rewrite store_suffix_if by done.
  assert (HU2 : forall i s', drop cp p = i :: s' -> tenc (TLeaf s' value) ∈ U).
  { intros i s' E. rewrite E in HU. simpl in HU. apply in_U_under_branch in HU.
    inversion HU as [| |? ? ? Hk]; subst.
    apply in_U_root, (Hk (Z.to_nat i)), list_lookup_insert_eq.
    apply (Forall_drop _ cp) in Hp. rewrite E in Hp. inversion Hp; subst.
    apply nibble_index; [|done].
    pose proof (length_add_suffix no_children None (drop cp ns) w) as L. by rewrite E1 in L. }
  pose proof (store_suffix_refines n1 cs v (drop cp p) value (proj2 Hx1) HU2 Hk1) as G2.
  destruct (add_suffix cs v (drop cp p) value) as [cs' v'] eqn:E2.
  destruct G2 as (n2 & Es2 & Hx2 & Hk2). rewrite Es2.
  destruct (store_under n2 (take cp p) cs' v' (proj2 Hx2) Hk2 HU) as (n3 & E3 & Hx3 & Hs3).
  assert (length (take cp p) = cp) as Hl by (rewrite length_take; lia).
  rewrite Hl in E3. exists n3. split_and!; [exact E3| |done].
  eapply extends_trans; [|done]. by eapply extends_trans.
Qed.

(** the old child of a split extension, under what is left of its path *)
Lemma store_remainder nodes rem t :
  store_ok nodes -> stored nodes t -> in_U (under rem t) ->
  exists nodes',
    (if (length rem =? 0)%nat then (nodes, thash t)
     else store nodes (extensionNode rem (thash t))) = (nodes', thash (under rem t)) /\
    extends nodes nodes' /\ stored nodes' (under rem t).
Proof.
  intros Hok Hst HU. destruct rem as [|x rem]; cbn [under length Nat.eqb].
  - exists nodes. split_and!; auto using extends_refl.
  - apply (store_tree nodes (TExt (x :: rem) t)); [done|done|by apply in_U_root].
Qed.

Lemma if_pair_map {A B C} (b : bool) (x y : A * B) (f : B -> C) :
  (if b then (fst x, f (snd x)) else let '(n, h) := y in (n, f h))
  = let '(n, h) := if b then x else y in (n, f h).
Proof. by destruct b, x, y. Qed.

Lemma splitExtension_refines nodes ns t p value :
  store_ok nodes -> stored nodes t -> all_nibbles ns -> all_nibbles p ->
  commonPrefixLen p ns <> length ns ->
  in_U (split_ext ns t (commonPrefixLen p ns) p value) ->
  exists nodes',
    splitExtension nodes ns (thash t) (commonPrefixLen p ns) p value
      = (nodes', thash (split_ext ns t (commonPrefixLen p ns) p value)) /\
    extends nodes nodes' /\
    stored nodes' (split_ext ns t (commonPrefixLen p ns) p value).
Proof.
  intros Hok Hst Hns Hp Hcp HU. unfold splitExtension, split_ext in *.
  pose proof (commonPrefixLen_le p ns) as [L1 L2].
  pose proof (commonPrefixLen_diverge p ns) as Hdiv.
  set (cp := commonPrefixLen p ns) in *.
  rewrite (drop_nth_cons ns cp) in Hdiv by lia.
  set (c := nth cp ns 0) in *. set (rem := drop (S cp) ns) in *.
  assert (Hc : is_nibble c).
  { apply (Forall_drop _ cp) in Hns. rewrite (drop_nth_cons ns cp) in Hns by lia.
    by inversion Hns. }
  set (cs := <[Z.to_nat c := Some (under rem t)]> no_children) in *.
  destruct (add_suffix cs None (drop cp p) value) as [cs' v'] eqn:E2.
  pose proof (in_U_under_branch _ _ _ HU) as HB.
  inversion HB as [| |? ? ? Hk]; subst.
  assert (Hcs16 : length cs = 16%nat) by (subst cs; by rewrite length_insert).
  assert (HUr : in_U (under rem t)).
  { apply (Hk (Z.to_nat c)). destruct (drop cp p) as [|j s1] eqn:E1; simpl in E2;
      injection E2 as <- <-; subst cs.
    - apply list_lookup_insert_eq. by apply (nibble_index c no_children).
    - simpl in Hdiv. assert (is_nibble j).
      { apply (Forall_drop _ cp) in Hp. rewrite E1 in Hp. by inversion Hp. }
      rewrite list_lookup_insert_ne by (unfold is_nibble in *; lia).
      apply list_lookup_insert_eq. by apply (nibble_index c no_children). }
  destruct (store_remainder nodes rem t Hok Hst HUr) as (n1 & Er & Hx1 & Hs1).
  rewrite (if_pair_map _ (nodes, thash t) _
             (fun h => <[Z.to_nat c := h]> empty_children)), Er.
  rewrite store_suffix_if by done.
  replace (<[Z.to_nat c := thash (under rem t)]> empty_children) with (hashes cs)
    by (subst cs; rewrite hashes_insert; done).
  pose proof (store_suffix_refines n1 cs None (drop cp p) value (proj2 Hx1)) as G.
  rewrite E2 in G. destruct G as (n2 & Es & Hx2 & Hk2).
  { intros i s' E. rewrite E in E2. simpl in E2. injection E2 as <- <-.
    apply in_U_root, (Hk (Z.to_nat i)), list_lookup_insert_eq.
    apply (Forall_drop _ cp) in Hp. rewrite E in Hp. inversion Hp; subst.
    by apply nibble_index. }
  { intros i u. subst cs. rewrite list_lookup_insert. case_decide; [by intros [= <-]|].
    intros Hi. by apply lookup_no_children in Hi. }
  cbn [vflag default] in Es. change (default [] None) with (@nil Z) in Es. rewrite Es.
  destruct (store_under n2 (take cp p) cs' v' (proj2 Hx2) Hk2 HU) as (n3 & E3 & Hx3 & Hs3).
  assert (length (take cp p) = cp) as Hl by (rewrite length_take; lia).
  rewrite Hl in E3. exists n3. split_and!; [exact E3| |done].
  eapply extends_trans; [|done]. by eapply extends_trans.
Qed.

Lemma put_zero fuel nodes p value :
  (0 < fuel)%nat -> store_ok nodes -> in_U (TLeaf p value) ->
  exists nodes', put fuel nodes zero_hash p value = Some (nodes', thash (TLeaf p value)) /\
    extends nodes nodes' /\ stored nodes' (TLeaf p value).
Proof.
  intros Hf Hok HU. destruct fuel as [|fuel]; [lia|].
  destruct (store_tree nodes (TLeaf p value)) as (n & E & Hx & Hs); [done..|by apply in_U_root|].
  exists n. cbn [put]. rewrite IsZero_zero_hash. cbn [tnode] in E. by rewrite E.
Qed.

(** the tree that [put] produces from a possibly empty trie *)
Definition oput (o : option tree) (p : list Z) (value : bytes) : tree :=
  match o with Some t => tput t p value | None => TLeaf p value end.

Lemma put_refines D t fuel nodes p value :
  twf D t -> store_ok nodes -> stored nodes t -> all_nibbles p -> (D < fuel)%nat ->
  in_U (tput t p value) ->
  exists nodes', put fuel nodes (thash t) p value = Some (nodes', thash (tput t p value)) /\
    extends nodes nodes' /\ stored nodes' (tput t p value).
Proof.
  intros Hwf. revert fuel nodes p. induction Hwf as
    [D ns v Hns Hlen HD Hv|D ns t Hne Hns HD Hbr Hwf IH|D cs v H16 HD Hv Hocc Hcs IH];
    intros [|fuel] nodes p Hok Hst Hp Hf HU; try lia; cbn [put];
    rewrite thash_nz by (by eapply stored_in_U); rewrite (stored_root _ _ Hst).
  - erewrite decode_tenc by (by constructor). cbn [tnode]. cbn [tput] in *.
    destruct (decide (ns = p)) as [->|Hnp].
    + unfold putIntoLeaf. rewrite commonPrefixLen_refl, Nat.eqb_refl. simpl andb.
      destruct (store_tree nodes (TLeaf p value)) as (n & E & Hx & Hs);
        [done..|by apply in_U_root|].
      cbn [tnode] in E. rewrite E. eauto.
    + destruct (putIntoLeaf_refines nodes ns v p value) as (n & E & Hx & Hs); auto.
      rewrite E. eauto.
  - erewrite decode_tenc by (by constructor). cbn [tnode]. cbn [tput] in *.
    inversion Hst; subst.
    destruct (Nat.eqb_spec (commonPrefixLen p ns) (length ns)) as [E|E].
    + inversion HU as [|? ? HUr HUc|]; subst. rewrite E in *.
      destruct (IH fuel nodes (drop (length ns) p)) as (n & Eput & Hx & Hs);
        [done|done|by apply Forall_drop|destruct ns; simpl in *; [done|lia]|done|].
      rewrite Eput. simpl mbind.
      destruct (store_tree n (TExt ns (tput t (drop (length ns) p) value)))
        as (n' & E' & Hx' & Hs'); [apply Hx|done|done|].
      cbn [tnode] in E'. cbn [mbind option_bind]. rewrite E'. exists n'.
      split_and!; [done| |done]. by eapply extends_trans.
    + destruct (splitExtension_refines nodes ns t p value) as (n & Es & Hx & Hs); auto.
      rewrite Es. eauto.
  - erewrite decode_tenc by (by constructor). cbn [tnode].
    inversion Hst as [| |? ? ? Hkids]; subst.
    destruct p as [|i p].
    + cbn [tput] in *. destruct (store_tree nodes (TBranch cs (Some value)))
        as (n & E & Hx & Hs); [done|done|by apply in_U_root|].
      cbn [tnode] in E. change (default [] (Some value)) with value in E.
      rewrite E. eauto.
    + rewrite tput_branch in *. inversion Hp as [|?? Hi Hp']; subst.
      inversion HU as [| |? ? HUr HUc]; subst.
      assert (Hlt : (Z.to_nat i < length cs)%nat) by (by apply nibble_index).
      set (c := match cs !! Z.to_nat i with
                | Some (Some t) => tput t p value | _ => TLeaf p value end) in *.
      assert (HUcc : in_U c).
      { apply (HUc (Z.to_nat i)). by apply list_lookup_insert_eq. }
      rewrite child_at_hashes.
      assert (exists n, put fuel nodes (oroot (mjoin (cs !! Z.to_nat i))) p value
                        = Some (n, thash c) /\ extends nodes n /\ stored n c)
        as (n & Eput & Hx & Hs).
      { subst c. destruct (cs !! Z.to_nat i) as [[u|]|] eqn:El; simpl.
        - eapply IH; eauto. lia.
        - apply put_zero; auto; lia.
        - apply put_zero; auto; lia. }
      rewrite Eput. cbn [mbind option_bind].
      destruct (store_tree n (TBranch (<[Z.to_nat i := Some c]> cs) v))
        as (n' & E' & Hx' & Hs'); [apply Hx| |done|].
      { simpl. intros j u. rewrite list_lookup_insert. case_decide; [by intros [= <-]|].
        intros Hj. eapply extends_stored; eauto. }
      cbn [tnode] in E'. rewrite hashes_insert in E'. simpl oroot in E'.
      rewrite E'. exists n'. split_and!; [done| |done]. by eapply extends_trans.
Qed.

(** *** The root hash determines the tree *)

Lemma oroot_inj_step o1 o2 :
  (forall t, o1 = Some t -> in_U t) -> (forall t, o2 = Some t -> in_U t) ->
  (forall t1 t2, o1 = Some t1 -> o2 = Some t2 -> thash t1 = thash t2 -> t1 = t2) ->
  oroot o1 = oroot o2 -> o1 = o2.
Proof.
  intros H1 H2 Hinj E. destruct o1 as [t1|], o2 as [t2|]; simpl in E; [|exfalso..|done].
  - f_equal. by apply Hinj.
  - exfalso. eapply U_nz; [|exact E]. apply in_U_root. by apply H1.
  - exfalso. eapply U_nz; [|symmetry; exact E]. apply in_U_root. by apply H2.
Qed.

Lemma thash_inj D1 D2 t1 t2 :
  twf D1 t1 -> twf D2 t2 -> in_U t1 -> in_U t2 -> thash t1 = thash t2 -> t1 = t2.
Proof.
  intros W1. revert D2 t2. induction W1 as
    [D ns v Hns Hlen HD Hv|D ns t Hne Hns HD Hbr Hwf IH|D cs v H16 HD Hv Hocc Hcs IH];
    intros D2 t2 W2 U1 U2 E;
    (apply U_cf in E; [|by apply in_U_root|by apply in_U_root]);
    rewrite (tenc_tnode t2), tenc_tnode in E;
    apply encode_inj in E; try (by eapply tnode_wf; eauto);
    try (eapply tnode_wf; econstructor; eauto);
    destruct t2 as [ms w|ms u|cs' v']; simpl in E; try discriminate.
  - congruence.
  - injection E as -> E. f_equal. inversion U1; inversion U2; inversion W2; subst.
    eapply IH; eauto.
  - injection E as Eh Ef Ev. pose proof (branch_length _ _ _ W2) as H16'.
    assert (v = v') as <- by (destruct v, v'; simpl in *; congruence).
    f_equal. apply list_eq_same_length with 16%nat; [done..|].
    intros i o o' Hi Ho Ho'. apply (f_equal (fun l => l !! i)) in Eh.
    rewrite !hashes_lookup, Ho, Ho' in Eh. simpl in Eh. injection Eh as Eh.
    inversion U1 as [| |? ? ? K1]; inversion U2 as [| |? ? ? K2]; subst.
    apply oroot_inj_step; [| | |exact Eh].
    + intros t ->. eauto.
    + intros t ->. eauto.
    + intros t1 t2 -> ->. destruct (branch_child_wf _ _ _ _ _ W2 Ho') as [F WF].
      eapply IH; eauto.
Qed.

(** *** Delete *)

Lemma merge_refines D nodes pre t :
  twf D t -> store_ok nodes -> stored nodes t -> tenc (merge pre t) ∈ U ->
  exists nodes', mergeIntoExtensionParent nodes pre (thash t) = (nodes', thash (merge pre t)) /\
    extends nodes nodes' /\ stored nodes' (merge pre t).
Proof.
  intros Hwf Hok Hst HU. unfold mergeIntoExtensionParent.
  rewrite (stored_root _ _ Hst), (decode_tenc D) by done.
  destruct (store_tree nodes (merge pre t)) as (n & E & Hx & Hs); [done| |done|].
  { destruct t; simpl; [done|by inversion Hst|done]. }
  exists n. destruct t; cbn [merge tnode] in *; by rewrite E.
Qed.

Lemma nonzero_hashes i cs :
  (forall n t, cs !! n = Some (Some t) -> tenc t ∈ U) ->
  nonzero_children i (hashes cs) = map fst (occupied i cs).
Proof.
  revert i; induction cs as [|o cs IH]; intros i H; simpl; [done|].
  assert (H' : forall n t, cs !! n = Some (Some t) -> tenc t ∈ U).
  { intros n t. apply (H (S n)). }
  destruct o as [t|]; cbn [oroot].
  - rewrite thash_nz by (by apply (H 0%nat)). simpl. by rewrite IH.
  - by apply IH.
Qed.

Lemma collapse_refines D nodes cs v :
  length cs = 16%nat -> store_ok nodes ->
  (forall i t, cs !! i = Some (Some t) -> twf D t) ->
  (forall i t, cs !! i = Some (Some t) -> stored nodes t) ->
  (forall t, collapse cs v = Some t -> tenc t ∈ U) ->
  exists nodes', collapseBranch nodes (hashes cs) (vflag v) (default [] v)
                 = (nodes', oroot (collapse cs v)) /\
    extends nodes nodes' /\ ostored nodes' (collapse cs v).
Proof.
  intros H16 Hok Hwf Hst HU. unfold collapseBranch.
  rewrite nonzero_hashes by (intros n t Hn; eapply stored_in_U; eauto).
  pose proof (fun n t => occupied_iff n t cs) as Hocc.
  unfold collapse in *. destruct (occupied 0 cs) as [|[i t] [|x rest]] eqn:E.
  - destruct v as [w|]; cbn [map length Nat.eqb andb negb vflag].
    + change (default [] (Some w)) with w.
      apply (store_tree nodes (TLeaf [] w)); auto. done.
    + exists nodes. split_and!; auto using extends_refl. done.
  - assert (Hi : cs !! i = Some (Some t)) by (apply Hocc; rewrite elem_of_cons; auto).
    destruct v as [w|]; cbn [map length Nat.eqb andb negb vflag List.last fst].
    + apply (store_tree nodes (TBranch cs (Some w))); auto.
    + rewrite nth_lookup, hashes_lookup, Hi. simpl default.
      apply (merge_refines D); eauto.
  - assert (Hgen : exists nodes', store nodes (tnode (TBranch cs v)) = (nodes', thash (TBranch cs v)) /\
      extends nodes nodes' /\ stored nodes' (TBranch cs v)).
    { apply store_tree; auto. }
    destruct v as [w|]; cbn [map length Nat.eqb andb negb vflag]; exact Hgen.
Qed.

(** the tree at each level of a deletion *)
Fixpoint del_results (t : tree) (p : list Z) : list tree :=
  match t with
  | TLeaf _ _ => []
  | TExt ns t' =>
      if decide (ns = take (length ns) p) then
        del_results t' (drop (length ns) p) ++ option_list (tdel t p)
      else []
  | TBranch cs v =>
      match p with
      | [] => option_list (tdel t p)
      | i :: p' =>
          on_child (fun t' => del_results t' p' ++ option_list (tdel t p)) [] cs (Z.to_nat i)
      end
  end.

Lemma collapse_id D cs v :
  twf D (TBranch cs v) -> collapse cs v = Some (TBranch cs v).
Proof.
  inversion 1 as [| |? ? ? ? ? ? Hocc]; subst. unfold collapse.
  destruct (occupied 0 cs) as [|[i t] [|x rest]], v; simpl in *; try lia; done.
Qed.


(** what one call of [del] establishes *)
Definition del_ok (nodes : nodestore) (fuel : nat) (t : tree) (p : list Z) : Prop :=
  exists nodes', del fuel nodes (thash t) p = Some (nodes', oroot (tdel t p)) /\
    extends nodes nodes' /\ ostored nodes' (tdel t p).

Lemma del_unchanged nodes fuel t p :
  del fuel nodes (thash t) p = Some (nodes, thash t) -> tdel t p = Some t ->
  store_ok nodes -> stored nodes t -> del_ok nodes fuel t p.
Proof.
  intros E Ht Hok Hst. exists nodes. rewrite Ht. split_and!; auto using extends_refl.
Qed.

(** a child whose hash did not change is the same tree *)
Lemma del_same_hash D nodes t p :
  twf D t -> all_nibbles p -> in_U t -> store_ok nodes -> ostored nodes (tdel t p) ->
  oroot (tdel t p) = thash t -> tdel t p = Some t.
Proof.
  intros Hwf Hp HU Hok Hst E. destruct (tdel t p) as [t'|] eqn:Et; simpl in *.
  - f_equal. eapply (thash_inj D D); eauto using tdel_wf, stored_in_U_all.
  - exfalso. eapply U_nz; [|symmetry; exact E]. by apply in_U_root.
Qed.

Lemma IsZero_oroot nodes o :
  store_ok nodes -> ostored nodes o ->
  IsZero (oroot o) = match o with Some _ => false | None => true end.
Proof.
  intros Hok Hst. destruct o as [t|]; [|done].
  apply thash_nz. by eapply stored_in_U.
Qed.

Lemma del_ext_refines D ns t fuel nodes p :
  twf (length ns + D) (TExt ns t) -> twf D t -> is_branch t ->
  ns = take (length ns) p -> all_nibbles p ->
  store_ok nodes -> stored nodes (TExt ns t) ->
  (forall t', tdel (TExt ns t) p = Some t' -> tenc t' ∈ U) ->
  del_ok nodes fuel t (drop (length ns) p) -> del_ok nodes (S fuel) (TExt ns t) p.
Proof.
  intros Hwe Hwf Hbr Hpre Hp Hok Hst HU (n & E & Hx & Hs).
  inversion Hst as [|? ? ? Hst'|]; subst.
  assert (Hp' : all_nibbles (drop (length ns) p)) by (by apply Forall_drop).
  assert (Hdel : del (S fuel) nodes (thash (TExt ns t)) p =
    if IsZero (oroot (tdel t (drop (length ns) p))) then Some (n, zero_hash)
    else if bool_decide (oroot (tdel t (drop (length ns) p)) = thash t)
         then Some (n, thash (TExt ns t))
         else Some (mergeIntoExtensionParent n ns (oroot (tdel t (drop (length ns) p))))).
  { cbn [del]. rewrite thash_nz by (by eapply stored_in_U).
    rewrite (stored_root _ _ Hst), (decode_tenc (length ns + D)) by done.
    cbn [tnode]. rewrite path_mismatch_iff, decide_True by done.
    cbn [mbind option_bind]. by rewrite E. }
  assert (Htd : tdel (TExt ns t) p =
    match tdel t (drop (length ns) p) with None => None | Some u => Some (merge ns u) end).
  { cbn [tdel]. by rewrite decide_True. }
  unfold del_ok. rewrite Hdel, (IsZero_oroot n) by (done || apply Hx).
  destruct (tdel t (drop (length ns) p)) as [u|] eqn:Eu; cbn [oroot] in *.
  2: { rewrite Htd. exists n. done. }
  case_bool_decide as Eh.
  - assert (tdel t (drop (length ns) p) = Some t) as Esame.
    { eapply (del_same_hash D n); eauto using stored_in_U_all; [apply Hx| |]; by rewrite Eu. }
    rewrite Eu in Esame. injection Esame as ->.
    assert (merge ns t = TExt ns t) as Em by (destruct t; done).
    rewrite Htd, Em. exists n. split_and!; [done|done|]. by eapply extends_stored.
  - destruct (merge_refines D n ns u) as (n' & E' & Hx' & Hs');
      [by eapply tdel_wf|apply Hx|done|by apply HU|].
    rewrite Htd. exists n'. split_and!; [by rewrite E'| |done]. by eapply extends_trans.
Qed.

Lemma del_branch_refines D cs v i u fuel nodes p :
  twf (S D) (TBranch cs v) -> twf D u -> cs !! Z.to_nat i = Some (Some u) ->
  is_nibble i -> all_nibbles p -> store_ok nodes -> stored nodes (TBranch cs v) ->
  (forall t', tdel (TBranch cs v) (i :: p) = Some t' -> tenc t' ∈ U) ->
  del_ok nodes fuel u p -> del_ok nodes (S fuel) (TBranch cs v) (i :: p).
Proof.
  intros Hwb Hwf El Hi Hp Hok Hst HU (n & E & Hx & Hs).
  inversion Hst as [| |? ? ? Hkids]; subst. pose proof (branch_length _ _ _ Hwb) as H16.
  assert (Hu : stored nodes u) by (by eapply Hkids).
  assert (Hdel : del (S fuel) nodes (thash (TBranch cs v)) (i :: p) =
    if bool_decide (oroot (tdel u p) = thash u) then Some (n, thash (TBranch cs v))
    else Some (collapseBranch n (hashes (<[Z.to_nat i := tdel u p]> cs)) (vflag v) (default [] v))).
  { cbn [del]. rewrite thash_nz by (by eapply stored_in_U).
    rewrite (stored_root _ _ Hst), (decode_tenc (S D)) by done.
    cbn [tnode]. rewrite child_at_hashes, El. cbn [mjoin option_join oroot].
    rewrite thash_nz by (by eapply stored_in_U).
    cbn [mbind option_bind]. rewrite E. by rewrite hashes_insert. }
  rewrite tdel_branch, El in HU. unfold del_ok. rewrite tdel_branch, El, Hdel.
  case_bool_decide as Eh.
  - assert (tdel u p = Some u) as Esame.
    { eapply (del_same_hash D n); eauto using stored_in_U_all. apply Hx. }
    rewrite Esame, list_insert_id, (collapse_id (S D)) by done.
    exists n. split_and!; [done|done|]. by eapply extends_stored.
  - destruct (collapse_refines D n (<[Z.to_nat i := tdel u p]> cs) v)
      as (n' & E' & Hx' & Hs').
    + by rewrite length_insert.
    + apply Hx.
    + intros j t. rewrite list_lookup_insert. case_decide.
      * intros [= Et]. by eapply tdel_wf.
      * inversion Hwb; subst; eauto.
    + intros j t. rewrite list_lookup_insert. case_decide.
      * intros [= Et]. rewrite Et in Hs. done.
      * intros Hj. eapply extends_stored; eauto.
    + done.
    + exists n'. split_and!; [by rewrite E'| |done]. by eapply extends_trans.
Qed.

Lemma del_refines D t fuel nodes p :
  twf D t -> store_ok nodes -> stored nodes t -> all_nibbles p -> (D < fuel)%nat ->
  (forall t', t' ∈ del_results t p -> tenc t' ∈ U) ->
  del_ok nodes fuel t p.
Proof.
  intros Hwf Hok. revert fuel p. induction Hwf as
    [D ns v Hns Hlen HD Hv|D ns t Hne Hns HD Hbr Hwf IH|D cs v H16 HD Hv Hocc Hcs IH];
    intros [|fuel] p Hst Hp Hf HU; try lia.
  - unfold del_ok. cbn [del]. rewrite thash_nz by (by eapply stored_in_U).
    rewrite (stored_root _ _ Hst), (decode_tenc D) by (by constructor).
    cbn [tnode tdel]. unfold nibblesEqual. exists nodes. case_decide.
    + rewrite bool_decide_eq_true_2 by done. split_and!; auto using extends_refl. done.
    + rewrite bool_decide_eq_false_2 by done. split_and!; auto using extends_refl.
  - destruct (decide (ns = take (length ns) p)) as [E|E].
    + cbn [del_results] in HU. rewrite decide_True in HU by done.
      inversion Hst; subst. eapply del_ext_refines; eauto.
      * by constructor.
      * intros t' Ht'. apply HU. apply elem_of_app. right.
        rewrite Ht'. apply list_elem_of_here.
      * apply IH; [done|by apply Forall_drop|destruct ns; simpl in *; [done|lia]|].
        intros t' Ht'. apply HU, elem_of_app. by left.
    + apply del_unchanged; [|cbn [tdel]; by rewrite decide_False|done|done].
      cbn [del]. rewrite thash_nz by (by eapply stored_in_U).
      rewrite (stored_root _ _ Hst), (decode_tenc (length ns + D)) by (by constructor).
      cbn [tnode]. by rewrite path_mismatch_iff, decide_False.
  - assert (Hwb : twf (S D) (TBranch cs v)) by (by constructor).
    inversion Hst as [| |? ? ? Hkids]; subst. destruct p as [|i p].
    + destruct v as [w|].
      * unfold del_ok. cbn [del]. rewrite thash_nz by (by eapply stored_in_U).
        rewrite (stored_root _ _ Hst), (decode_tenc (S D)) by done. cbn [tnode tdel negb].
        destruct (collapse_refines D nodes cs None) as (n & E & Hx & Hs); auto.
        { intros t Ht. apply HU. simpl. rewrite Ht. apply list_elem_of_here. }
        cbn [vflag] in E. change (default [] None) with (@nil Z) in E. rewrite E. eauto.
      * apply del_unchanged; [|done|done|done].
        cbn [del]. rewrite thash_nz by (by eapply stored_in_U).
        by rewrite (stored_root _ _ Hst), (decode_tenc (S D)).
    + inversion Hp as [|?? Hi Hp']; subst.
      cbn [del_results] in HU. rewrite on_child_lookup in HU.
      destruct (cs !! Z.to_nat i) as [[u|]|] eqn:El.
      * eapply del_branch_refines; eauto.
        -- intros t' Ht'. apply HU, elem_of_app. right.
           rewrite Ht'. apply list_elem_of_here.
        -- eapply IH; [exact El|by eapply Hkids|done|lia|].
           intros t' Ht'. apply HU, elem_of_app. by left.
      * apply del_unchanged; [|by rewrite tdel_branch, El|done|done].
        cbn [del]. rewrite thash_nz by (by eapply stored_in_U).
        rewrite (stored_root _ _ Hst), (decode_tenc (S D)) by done.
        cbn [tnode]. by rewrite child_at_hashes, El.
      * apply del_unchanged; [|by rewrite tdel_branch, El|done|done].
        cbn [del]. rewrite thash_nz by (by eapply stored_in_U).
        rewrite (stored_root _ _ Hst), (decode_tenc (S D)) by done.
        cbn [tnode]. by rewrite child_at_hashes, El.
Qed.
End Universe.
