(* ===== verification/TrieProps.v ===== *)
(** * The trie as a map: what [Get], [Put], [Delete] and proofs promise

    Sequences of operations from the empty trie.  [contents] is the abstract
    map (keyed by the secure path), [trie_log] the list of node encodings that
    the sequence stores.  The theorems ask that no two encodings of the log
    collide and that none hashes to the empty-trie sentinel. *)

From S2P Require Import Prelude Sha256 Core TrieNode Trie TrieTree TrieRefine.

Inductive trie_op :=
| OpPut (key value : bytes)
| OpDelete (key : bytes).

Definition run_op (s : nodestore * Hash) (op : trie_op) : nodestore * Hash :=
  match op with
  | OpPut k v => Put (fst s) (snd s) k v
  | OpDelete k => Delete (fst s) (snd s) k
  end.

Definition run_ops (ops : list trie_op) : nodestore * Hash :=
  foldl run_op (∅, zero_hash) ops.

(** ** The abstract map *)

Definition contents_op (m : gmap (list Z) bytes) (op : trie_op) : gmap (list Z) bytes :=
  match op with
  | OpPut k v => <[path k := v]> m
  | OpDelete k => delete (path k) m
  end.

Definition contents (ops : list trie_op) : gmap (list Z) bytes :=
  foldl contents_op ∅ ops.

Definition ops_ok (ops : list trie_op) : Prop :=
  Forall (fun op => match op with OpPut _ v => value_ok v | OpDelete _ => True end) ops.

(** ** The tree of a sequence, and what it stores *)

Definition tree_op (o : option tree) (op : trie_op) : option tree :=
  match op with
  | OpPut k v => Some (oput o (path k) v)
  | OpDelete k => match o with Some t => tdel t (path k) | None => None end
  end.

Definition tree_ops (ops : list trie_op) : option tree := foldl tree_op None ops.

(** the encodings of all nodes of a tree *)
Fixpoint tencs (t : tree) : list bytes :=
  tenc t ::
  match t with
  | TLeaf _ _ => []
  | TExt _ t' => tencs t'
  | TBranch cs _ =>
      concat (map (fun o => match o with Some t' => tencs t' | None => [] end) cs)
  end.

Definition log_op (o : option tree) (op : trie_op) : list bytes :=
  match op with
  | OpPut k v => tencs (oput o (path k) v)
  | OpDelete k =>
      match o with Some t => map tenc (del_results t (path k)) | None => [] end
  end.

Fixpoint log_from (o : option tree) (ops : list trie_op) : list bytes :=
  match ops with
  | [] => []
  | op :: ops' => log_op o op ++ log_from (tree_op o op) ops'
  end.

Definition trie_log (ops : list trie_op) : list bytes := log_from None ops.

(** no collision and no zero digest among the given encodings *)
Definition hash_safe (l : list bytes) : Prop :=
  collision_free l /\ Forall (fun e => SumHash e <> zero_hash) l.

Definition hash_safeb (l : list bytes) : bool :=
  collision_freeb l && bool_decide (Forall (fun e => SumHash e <> zero_hash) l).

Lemma hash_safeb_sound l : hash_safeb l = true -> hash_safe l.
Proof.
  intros [H1 H2]%andb_true_iff. apply bool_decide_eq_true in H2.
  split; [by apply collision_freeb_sound|done].
Qed.

Lemma hash_safe_nz l : hash_safe l -> forall e, e ∈ l -> SumHash e <> zero_hash.
Proof. intros [_ H]. by apply Forall_forall. Qed.

Lemma hash_safe_subset l1 l2 :
  (forall x, x ∈ l1 -> x ∈ l2) -> hash_safe l2 -> hash_safe l1.
Proof.
  intros Hs [H1 H2]. split; [by eapply collision_free_subset|].
  apply Forall_forall. intros e He. rewrite Forall_forall in H2. auto.
Qed.

Lemma tencs_in_U U t D : twf D t -> (forall e, e ∈ tencs t -> e ∈ U) -> in_U U t.
Proof.
  induction 1 as [D ns v|D ns t Hne Hns HD Hbr Hwf IH|D cs v H16 HD Hv Hocc Hcs IH];
    intros HU; constructor; try (apply HU; simpl; apply list_elem_of_here).
  - apply IH. intros e He. apply HU. simpl. by apply list_elem_of_further.
  - intros i t Hi. apply (IH i); [done|]. intros e He. apply HU. simpl.
    apply list_elem_of_further, list_elem_of_In, in_concat.
    exists (tencs t). split; [|by apply list_elem_of_In].
    apply in_map_iff. exists (Some t). split; [done|].
    apply list_elem_of_In, list_elem_of_lookup. eauto.
Qed.

(** ** The invariant of a sequence *)

Section Run.
Context (U : list bytes) (U_safe : hash_safe U).

(** [rep nodes root o]: the store holds the tree [o] under [root]. *)
Definition rep (nodes : nodestore) (root : Hash) (o : option tree) : Prop :=
  store_ok U nodes /\ ostored nodes o /\ (forall t, o = Some t -> twf 64 t) /\
  root = oroot o.

Lemma oput_wf o k v :
  (forall t, o = Some t -> twf 64 t) -> value_ok v -> twf 64 (oput o (path k) v).
Proof.
  intros Hwf Hv. pose proof (length_path k). destruct o as [t|]; simpl.
  - apply tput_wf; auto using path_nibbles. lia.
  - constructor; auto using path_nibbles; lia.
Qed.

Lemma Put_rep nodes root o k v :
  rep nodes root o -> value_ok v -> in_U U (oput o (path k) v) ->
  rep (fst (Put nodes root k v)) (snd (Put nodes root k v)) (Some (oput o (path k) v)) /\
  nodes ⊆ fst (Put nodes root k v).
Proof.
  intros (Hok & Hst & Hwf & ->) Hv HU.
  assert (exists n, put trie_fuel nodes (oroot o) (path k) v = Some (n, thash (oput o (path k) v)) /\
            extends U nodes n /\ stored n (oput o (path k) v)) as (n & E & Hx & Hs).
  { destruct o as [t|]; cbn [oroot oput ostored] in *.
    - eapply (put_refines U); eauto using path_nibbles, hash_safe_nz; [apply U_safe|].
      unfold trie_fuel. lia.
    - apply (put_zero U); auto; [apply U_safe|]. unfold trie_fuel. lia. }
  unfold Put. rewrite E. cbn [fst snd]. split; [|apply Hx].
  split_and!; [apply Hx|done| |done].
  intros t [= <-]. by apply oput_wf.
Qed.

Lemma Delete_rep nodes root o k :
  rep nodes root o ->
  (forall t, o = Some t -> forall t', t' ∈ del_results t (path k) -> tenc t' ∈ U) ->
  rep (fst (Delete nodes root k)) (snd (Delete nodes root k)) (tree_op o (OpDelete k)) /\
  nodes ⊆ fst (Delete nodes root k).
Proof.
  intros (Hok & Hst & Hwf & ->) HU. destruct o as [t|]; cbn [tree_op].
  - destruct (del_refines U (proj1 U_safe) (hash_safe_nz _ U_safe) 64 t trie_fuel nodes (path k))
      as (n & E & Hx & Hs); eauto using path_nibbles.
    { unfold trie_fuel. lia. }
    unfold Delete. cbn [oroot]. rewrite E. cbn [fst snd].
    split; [|apply Hx]. split_and!; [apply Hx|done| |done].
    intros t' Ht'. eapply tdel_wf; eauto using path_nibbles.
  - unfold Delete. simpl. split; [split_and!; done|done].
Qed.

Lemma Get_rep nodes root o k : rep nodes root o -> Get nodes root k = oget o (path k).
Proof.
  intros (Hok & Hst & Hwf & ->). unfold Get.
  erewrite (oget_refines U); eauto using hash_safe_nz. unfold trie_fuel. lia.
Qed.

Lemma op_rep s o op :
  rep (fst s) (snd s) o ->
  match op with OpPut _ v => value_ok v | OpDelete _ => True end ->
  (forall e, e ∈ log_op o op -> e ∈ U) ->
  rep (fst (run_op s op)) (snd (run_op s op)) (tree_op o op) /\
  fst s ⊆ fst (run_op s op).
Proof.
  intros Hrep Hv HU. destruct op as [k v|k]; cbn [run_op tree_op].
  - apply Put_rep; auto. eapply tencs_in_U; [|exact HU].
    apply oput_wf; [apply Hrep|done].
  - apply Delete_rep; [done|]. intros t -> t' Ht'. apply HU. simpl.
    by apply list_elem_of_In, in_map, list_elem_of_In.
Qed.

Lemma ops_rep s o ops :
  rep (fst s) (snd s) o -> ops_ok ops -> (forall e, e ∈ log_from o ops -> e ∈ U) ->
  rep (fst (foldl run_op s ops)) (snd (foldl run_op s ops)) (foldl tree_op o ops).
Proof.
  revert s o; induction ops as [|op ops IH]; intros s o Hrep Hok HU; [done|].
  inversion Hok; subst. simpl. apply IH; [|done|].
  - apply op_rep; [done|done|]. intros e He. apply HU. simpl. apply elem_of_app. by left.
  - intros e He. apply HU. simpl. apply elem_of_app. by right.
Qed.
End Run.

Lemma run_ops_rep U ops :
  hash_safe U -> ops_ok ops -> (forall e, e ∈ trie_log ops -> e ∈ U) ->
  rep U (fst (run_ops ops)) (snd (run_ops ops)) (tree_ops ops).
Proof.
  intros HU Hok Hlog. apply ops_rep; auto.
  split_and!; [apply store_ok_empty|done|done|done].
Qed.

(** ** The tree of a sequence holds the abstract map *)

Lemma tree_op_get o op q :
  (forall t, o = Some t -> twf 64 t) -> all_nibbles q ->
  oget (tree_op o op) q =
  match op with
  | OpPut k v => if decide (q = path k) then Some v else oget o q
  | OpDelete k => if decide (q = path k) then None else oget o q
  end.
Proof.
  intros Hwf Hq. destruct op as [k v|k], o as [t|]; simpl.
  - eapply tput_get; eauto using path_nibbles. rewrite length_path. lia.
  - rewrite (decide_ext (path k = q) (q = path k)); [done|split; congruence].
  - eapply tdel_get; eauto using path_nibbles.
  - by case_decide.
Qed.

Lemma tree_op_wf o op :
  (forall t, o = Some t -> twf 64 t) ->
  match op with OpPut _ v => value_ok v | OpDelete _ => True end ->
  forall t, tree_op o op = Some t -> twf 64 t.
Proof.
  intros Hwf Hv t. destruct op as [k v|k]; simpl.
  - intros [= <-]. by apply oput_wf.
  - destruct o as [u|]; [|done]. intros E. eapply tdel_wf; eauto using path_nibbles.
Qed.

Lemma tree_ops_contents_from o m ops :
  (forall t, o = Some t -> twf 64 t) -> ops_ok ops ->
  (forall q, all_nibbles q -> oget o q = m !! q) ->
  (forall t, foldl tree_op o ops = Some t -> twf 64 t) /\
  forall q, all_nibbles q -> oget (foldl tree_op o ops) q = foldl contents_op m ops !! q.
Proof.
  revert o m; induction ops as [|op ops IH]; intros o m Hwf Hok Hm; [done|].
  inversion Hok; subst. simpl. apply IH; [by apply tree_op_wf|done|].
  - intros q Hq. rewrite tree_op_get by done. destruct op as [k v|k]; simpl.
    + rewrite lookup_insert, (decide_ext (path k = q) (q = path k)) by (split; congruence).
      case_decide; auto.
    + rewrite lookup_delete, (decide_ext (path k = q) (q = path k)) by (split; congruence).
      case_decide; auto.
Qed.

Lemma tree_ops_contents ops :
  ops_ok ops ->
  (forall t, tree_ops ops = Some t -> twf 64 t) /\
  forall q, all_nibbles q -> oget (tree_ops ops) q = contents ops !! q.
Proof. intros Hok. apply tree_ops_contents_from; done. Qed.

Lemma contents_keys_from m ops q v :
  (forall q v, m !! q = Some v -> all_nibbles q) ->
  foldl contents_op m ops !! q = Some v -> all_nibbles q.
Proof.
  revert m; induction ops as [|op ops IH]; intros m Hm; simpl; [eauto|].
  apply IH. intros q' v'. destruct op as [k w|k]; simpl.
  - rewrite lookup_insert. case_decide; [subst; intros; apply path_nibbles|eauto].
  - rewrite lookup_delete. case_decide; [done|eauto].
Qed.

Lemma contents_keys ops q v : contents ops !! q = Some v -> all_nibbles q.
Proof. apply contents_keys_from. done. Qed.

(** ** Proofs against the tree *)

(** the encodings on the path of [p] *)
Fixpoint tproof (t : tree) (p : list Z) : list bytes :=
  tenc t ::
  match t with
  | TLeaf _ _ => []
  | TExt ns t' => if decide (ns = take (length ns) p) then tproof t' (drop (length ns) p) else []
  | TBranch cs _ =>
      match p with
      | [] => []
      | i :: p' =>
          (fix go (cs : list (option tree)) (n : nat) : list bytes :=
             match cs, n with
             | [], _ => []
             | o :: _, O => match o with Some t' => tproof t' p' | None => [] end
             | _ :: cs', S n' => go cs' n'
             end) cs (Z.to_nat i)
      end
  end.

Definition otproof (o : option tree) (p : list Z) : list bytes :=
  match o with Some t => tproof t p | None => [] end.

Lemma tproof_branch cs v i p :
  tproof (TBranch cs v) (i :: p)
  = tenc (TBranch cs v) :: otproof (mjoin (cs !! Z.to_nat i)) p.
Proof.
  cbn [tproof]. f_equal. generalize (Z.to_nat i) as n. clear i.
  induction cs as [|o cs IH]; intros [|n]; cbn; [done|done|by destruct o|apply IH].
Qed.

Lemma tproof_cons t p : exists r, tproof t p = tenc t :: r.
Proof. destruct t; cbn [tproof]; eauto. Qed.

Section Proofs.
Context (U : list bytes) (U_safe : hash_safe U).

Lemma genProof_refines D t fuel nodes p acc :
  twf D t -> store_ok U nodes -> stored nodes t -> (D < fuel)%nat ->
  genProof fuel nodes (thash t) p acc = Some (acc ++ tproof t p, tget t p).
Proof.
  intros Hwf Hok. revert fuel p acc. induction Hwf as
    [D ns v Hns Hlen HD Hv|D ns t Hne Hns HD Hbr Hwf IH|D cs v H16 HD Hv Hocc Hcs IH];
    intros [|fuel] p acc Hst Hf; try lia; cbn [genProof];
    rewrite (thash_nz U (hash_safe_nz _ U_safe)) by (by eapply stored_in_U);
    rewrite (stored_root _ _ Hst).
  - erewrite decode_tenc by (by constructor). cbn [tnode]. unfold nibblesEqual. cbn [tget].
    by case_bool_decide; case_decide.
  - erewrite decode_tenc by (by constructor). cbn [tnode].
    rewrite path_mismatch_iff. cbn [tget tproof]. case_decide; [|done].
    inversion Hst; subst. rewrite IH; [by rewrite <- app_assoc|done|].
    destruct ns; simpl in *; [done|lia].
  - erewrite decode_tenc by (by constructor). cbn [tnode].
    destruct p as [|i p]; [by destruct v|].
    rewrite child_at_hashes, tget_branch, tproof_branch.
    inversion Hst as [| |? ? ? Hkids]; subst.
    destruct (cs !! Z.to_nat i) as [[u|]|] eqn:E; simpl mjoin; cbn [otproof oroot].
    + erewrite IH; [by rewrite <- app_assoc|exact E|by eapply Hkids|lia].
    + by destruct fuel; [lia|].
    + by destruct fuel; [lia|].
Qed.

Lemma verify_tproof D t p v :
  twf D t -> tget t p = Some v -> verify_from (thash t) p v (tproof t p) = true.
Proof.
  intros Hwf. revert p. induction Hwf as
    [D ns w Hns Hlen HD Hw|D ns t Hne Hns HD Hbr Hwf IH|D cs w H16 HD Hw Hocc Hcs IH];
    intros p.
  - cbn [tget]. case_decide; [|done]. intros [= ->]. cbn [tproof verify_from].
    rewrite bool_decide_eq_true_2 by done. erewrite decode_tenc by (by constructor).
    cbn. unfold nibblesEqual. by rewrite !bool_decide_eq_true_2.
  - cbn [tget tproof]. case_decide; [|done]. intros Hg. cbn [verify_from].
    rewrite bool_decide_eq_true_2 by done. erewrite decode_tenc by (by constructor).
    cbn [tnode negb]. rewrite path_mismatch_iff, decide_True by done.
    specialize (IH _ Hg). destruct (tproof_cons t (drop (length ns) p)) as [r E].
    rewrite E in IH |- *. exact IH.
  - destruct p as [|i p].
    + cbn [tget]. intros ->. cbn [tproof verify_from].
      rewrite bool_decide_eq_true_2 by done. erewrite decode_tenc by (by constructor).
      cbn. by rewrite bool_decide_eq_true_2.
    + rewrite tget_branch, tproof_branch. cbn [verify_from].
      rewrite bool_decide_eq_true_2 by done. erewrite decode_tenc by (by constructor).
      cbn [tnode negb]. rewrite child_at_hashes.
      destruct (cs !! Z.to_nat i) as [[u|]|] eqn:E; simpl mjoin; cbn [otproof oroot]; try done.
      intros Hg. specialize (IH _ _ E _ Hg). destruct (tproof_cons u p) as [r E'].
      rewrite E' in IH |- *. exact IH.
Qed.

Lemma verify_zero p v proof :
  (forall e, e ∈ proof -> e ∈ U) -> verify_from zero_hash p v proof = false.
Proof.
  intros Hin. destruct proof as [|e proof]; [done|]. cbn [verify_from].
  rewrite bool_decide_eq_false_2; [done|].
  apply (hash_safe_nz _ U_safe), Hin, list_elem_of_here.
Qed.

Lemma verify_sound D t p v proof :
  twf D t -> in_U U t -> (forall e, e ∈ proof -> e ∈ U) ->
  verify_from (thash t) p v proof = true -> tget t p = Some v.
Proof.
  intros Hwf. revert p proof. induction Hwf as
    [D ns w Hns Hlen HD Hw|D ns t Hne Hns HD Hbr Hwf IH|D cs w H16 HD Hw Hocc Hcs IH];
    intros p [|enc proof] HU Hin; try done; cbn [verify_from];
    (case_bool_decide as Eh; [|done]); cbn [negb];
    (apply (proj1 U_safe) in Eh; [subst enc|apply Hin, list_elem_of_here|by apply in_U_root]);
    (assert (Hin' : forall e, e ∈ proof -> e ∈ U)
      by (intros e He; apply Hin; by apply list_elem_of_further));
    (erewrite decode_tenc by (by constructor)); cbn [tnode].
  - destruct proof; [|done]. cbn [negb tget]. unfold nibblesEqual.
    intros [H1 H2]%andb_true_iff. apply bool_decide_eq_true in H1, H2.
    rewrite decide_True by done. congruence.
  - destruct proof as [|e proof]; [done|]. rewrite path_mismatch_iff. cbn [tget].
    case_decide; [|done]. inversion HU; subst. by apply IH.
  - destruct p as [|i p].
    + destruct proof; [|done]. cbn [negb tget]. intros [H1 H2]%andb_true_iff.
      apply bool_decide_eq_true in H2. destruct w; [|done]. simpl in H2. congruence.
    + destruct proof as [|e proof]; [done|]. rewrite child_at_hashes, tget_branch.
      inversion HU as [| |? ? ? Hkids]; subst.
      destruct (cs !! Z.to_nat i) as [[u|]|] eqn:E; simpl mjoin; cbn [oroot].
      * eapply IH; eauto.
      * by rewrite verify_zero.
      * by rewrite verify_zero.
Qed.

Lemma verify_rep nodes root o key v proof :
  rep U nodes root o -> (forall e, e ∈ proof -> e ∈ U) ->
  verify_from root (path key) v proof = true -> oget o (path key) = Some v.
Proof.
  intros (HN & Hst & Hwf & ->) Hin. destruct o as [t|]; cbn [oroot oget].
  - assert (HI : in_U U t) by exact (stored_in_U_all U _ _ HN Hst).
    apply (verify_sound 64); auto.
  - by rewrite verify_zero.
Qed.
End Proofs.

(** ** Properties *)

(** C3: the trie implements a map.  After any sequence of [Put] and [Delete]
    from the empty trie, [Get] returns, for every key, the value of the last
    [Put] not undone by a [Delete] (and nothing when there is none), whatever
    the splits, merges and collapses the sequence caused. *)
Theorem trie_implements_map ops k :
  ops_ok ops -> hash_safe (trie_log ops) ->
  Get (fst (run_ops ops)) (snd (run_ops ops)) k = contents ops !! path k.
Proof.
  intros Hok Hs. rewrite (Get_rep (trie_log ops) Hs _ _ (tree_ops ops)).
  - apply tree_ops_contents; [done|apply path_nibbles].
  - by apply run_ops_rep.
Qed.

Definition sample_ops : list trie_op :=
  [OpPut [1] [10]; OpPut [2] [20]; OpDelete [1]; OpPut [3] [30]].

Lemma sample_ops_ok : ops_ok sample_ops.
Proof. unfold sample_ops, ops_ok, value_ok, two32. repeat constructor. Qed.

Lemma trie_implements_map_witness :
  Get (fst (run_ops sample_ops)) (snd (run_ops sample_ops)) [2]
  = contents sample_ops !! path [2].
Proof.
  apply trie_implements_map; [exact sample_ops_ok|].
  apply hash_safeb_sound. vm_compute. reflexivity.
Defined.

(** C4: the root does not depend on history.  Two sequences that leave the same
    contents leave the same root hash, in whatever order and with whatever
    insertions and deletions in between they got there. *)
Theorem trie_root_history_independent ops1 ops2 :
  ops_ok ops1 -> ops_ok ops2 ->
  hash_safe (trie_log ops1) -> hash_safe (trie_log ops2) ->
  contents ops1 = contents ops2 ->
  snd (run_ops ops1) = snd (run_ops ops2).
Proof.
  intros Ok1 Ok2 S1 S2 Heq.
  destruct (run_ops_rep _ ops1 S1 Ok1) as (_ & _ & _ & ->); [done|].
  destruct (run_ops_rep _ ops2 S2 Ok2) as (_ & _ & _ & ->); [done|].
  destruct (tree_ops_contents ops1 Ok1) as [W1 G1].
  destruct (tree_ops_contents ops2 Ok2) as [W2 G2].
  assert (Hq : forall q, all_nibbles q -> oget (tree_ops ops1) q = oget (tree_ops ops2) q).
  { intros q Hq. by rewrite G1, G2, Heq. }
  f_equal. destruct (tree_ops ops1) as [t1|], (tree_ops ops2) as [t2|]; [|exfalso..|done].
  - f_equal. eapply (twf_unique 64 64); eauto.
  - destruct (twf_inhabited 64 t1) as (q & Hn & [v Hv]); [eauto|].
    specialize (Hq q Hn). simpl in Hq. congruence.
  - destruct (twf_inhabited 64 t2) as (q & Hn & [v Hv]); [eauto|].
    specialize (Hq q Hn). simpl in Hq. congruence.
Qed.

Lemma trie_root_history_independent_witness :
  snd (run_ops sample_ops) = snd (run_ops [OpPut [3] [30]; OpPut [2] [20]]).
Proof.
  apply trie_root_history_independent.
  - exact sample_ops_ok.
  - unfold ops_ok, value_ok, two32. repeat constructor.
  - apply hash_safeb_sound. vm_compute. reflexivity.
  - apply hash_safeb_sound. vm_compute. reflexivity.
  - vm_compute. reflexivity.
Defined.

(** The root commits to the contents.  Two sequences that end in the same
    root hash end in the same contents. *)
Theorem trie_root_binds_contents ops1 ops2 :
  ops_ok ops1 -> ops_ok ops2 ->
  hash_safe (trie_log ops1 ++ trie_log ops2) ->
  snd (run_ops ops1) = snd (run_ops ops2) ->
  contents ops1 = contents ops2.
Proof.
  intros Ok1 Ok2 HS Hroot. set (U := trie_log ops1 ++ trie_log ops2) in *.
  destruct (run_ops_rep U ops1) as (N1 & S1 & _ & R1); [done|done|set_solver|].
  destruct (run_ops_rep U ops2) as (N2 & S2 & _ & R2); [done|done|set_solver|].
  destruct (tree_ops_contents ops1 Ok1) as [W1 G1].
  destruct (tree_ops_contents ops2 Ok2) as [W2 G2].
  assert (tree_ops ops1 = tree_ops ops2) as Ht.
  { assert (I1 : forall t, tree_ops ops1 = Some t -> in_U U t).
    { intros t Ht. rewrite Ht in S1. exact (stored_in_U_all U _ _ N1 S1). }
    assert (I2 : forall t, tree_ops ops2 = Some t -> in_U U t).
    { intros t Ht. rewrite Ht in S2. exact (stored_in_U_all U _ _ N2 S2). }
    apply (oroot_inj_step U (hash_safe_nz _ HS)); [done|done| |congruence].
    intros t1 t2 E1 E2. eapply (thash_inj U); eauto using hash_safe_nz. apply HS. }
  apply map_eq. intros q. destruct (decide (all_nibbles q)) as [Hq|Hq].
  - rewrite <- G1, <- G2, Ht by done. done.
  - destruct (contents ops1 !! q) eqn:E1; [by apply contents_keys in E1|].
    destruct (contents ops2 !! q) eqn:E2; [by apply contents_keys in E2|done].
Qed.

Lemma trie_root_binds_contents_witness :
  contents [OpPut [1] [10]; OpPut [2] [20]] = contents [OpPut [2] [20]; OpPut [1] [10]].
Proof.
  apply trie_root_binds_contents.
  - unfold ops_ok, value_ok, two32. repeat constructor.
  - unfold ops_ok, value_ok, two32. repeat constructor.
  - apply hash_safeb_sound. vm_compute. reflexivity.
  - vm_compute. reflexivity.
Defined.

(** C19: a proof cannot lie.  Whatever list of byte strings a light client is
    given, when [VerifyProof] accepts it against the root of a trie then the key
    really has that value in the trie (unless the list exhibits a SHA-256
    collision). *)
Theorem VerifyProof_sound ops k v proof :
  ops_ok ops -> hash_safe (trie_log ops ++ proof) ->
  VerifyProof (snd (run_ops ops)) k v proof = true ->
  contents ops !! path k = Some v.
Proof.
  intros Hok HS. set (U := trie_log ops ++ proof) in *. unfold VerifyProof.
  assert (rep U (fst (run_ops ops)) (snd (run_ops ops)) (tree_ops ops)) as Hrep.
  { apply run_ops_rep; [done|done|set_solver]. }
  destruct (tree_ops_contents ops Hok) as [_ G]. rewrite <- G by apply path_nibbles.
  apply (verify_rep U HS _ _ _ _ _ _ Hrep). intros e He. unfold U. set_solver.
Qed.

Definition sample_proof : Proof_t :=
  fst (GenerateProof (fst (run_ops sample_ops)) (snd (run_ops sample_ops)) [2]).

Lemma VerifyProof_sound_witness : contents sample_ops !! path [2] = Some [20].
Proof.
  apply VerifyProof_sound with (proof := sample_proof).
  - exact sample_ops_ok.
  - apply hash_safeb_sound. vm_compute. reflexivity.
  - vm_compute. reflexivity.
Defined.

(** Every present key has a proof.  [GenerateProof] returns the value [Get]
    would, and when there is one [VerifyProof] accepts the proof for it. *)
Theorem GenerateProof_complete ops k :
  ops_ok ops -> hash_safe (trie_log ops) ->
  let '(nodes, root) := run_ops ops in
  let '(proof, found) := GenerateProof nodes root k in
  found = contents ops !! path k /\
  forall v, found = Some v -> VerifyProof root k v proof = true.
Proof.
  intros Hok HS.
  pose proof (run_ops_rep _ ops HS Hok ltac:(done)) as Hrep.
  destruct (run_ops ops) as [nodes root]. cbn [fst snd] in Hrep.
  destruct Hrep as (HN & Hst & Hwf & ->).
  destruct (tree_ops_contents ops Hok) as [_ G]. unfold GenerateProof, VerifyProof.
  rewrite <- G by apply path_nibbles. destruct (tree_ops ops) as [t|]; cbn [oroot oget].
  - rewrite (genProof_refines _ HS 64); [|by apply Hwf|done|done|unfold trie_fuel; lia].
    cbn [default app]. split; [done|]. intros v Hv. eapply verify_tproof; eauto.
  - split; [done|]. intros v [=].
Qed.

Lemma GenerateProof_complete_witness :
  let '(nodes, root) := run_ops sample_ops in
  let '(proof, found) := GenerateProof nodes root [3] in
  found = contents sample_ops !! path [3] /\
  forall v, found = Some v -> VerifyProof root [3] v proof = true.
Proof.
  apply GenerateProof_complete; [exact sample_ops_ok|].
  apply hash_safeb_sound. vm_compute. reflexivity.
Defined.
