(* ===== verification/StateDB.v ===== *)
(** * Account state: the [StateDB] interface and its in-memory implementation

    Models state/statedb.go ([Account], the [StateDB] interface, [memStateDB])
    and the [overlayState] staging layer of chain/transition.go.

    [StateDB] is a class of operations, as the Go interface is; [StateDBLaws]
    is what the clients (the VM, the exchange, the state transition) rely on.
    [memStateDB] and [overlayState] are instances: an overlay reads back what was staged over
    any base ([overlay_laws]), and over a lawful base it also stays fit for [flush]. *)

From stdpp Require Import sorting.
From S2P Require Import Prelude Sha256 Core.

Record Account := mkAccount {
  Balance : Z;
  Nonce : Z;
  CodeHash : Hash;
  StorageRoot_ : Hash;
}.

#[export] Instance Account_eq_dec : EqDecision Account.
Proof. solve_decision. Defined.

Definition empty_account : Account := mkAccount 0 0 zero_hash zero_hash.

Definition set_balance (a : Account) (b : Z) : Account :=
  mkAccount b (Nonce a) (CodeHash a) (StorageRoot_ a).
Definition set_nonce_ (a : Account) (n : Z) : Account :=
  mkAccount (Balance a) n (CodeHash a) (StorageRoot_ a).

(** ** The interface *)

Class StateDB (S : Type) := {
  GetAccount : S -> Address -> Account;
  SetAccount : S -> Address -> Account -> S;
  GetCode : S -> Address -> bytes;
  SetCode : S -> Address -> bytes -> S;
  GetStorage : S -> Address -> Hash -> Hash;
  SetStorage : S -> Address -> Hash -> Hash -> S;
  StateRoot : S -> Hash;
}.

(** [Commit] returns the current root in every implementation. *)
Definition Commit {S} `{StateDB S} (s : S) : Hash := StateRoot s.

Definition balance {S} `{StateDB S} (s : S) (a : Address) : Z := Balance (GetAccount s a).
Definition nonce {S} `{StateDB S} (s : S) (a : Address) : Z := Nonce (GetAccount s a).

(** Writing back an account read from the same state, with another balance or
    nonce: what every caller of [SetAccount] does. *)
Definition same_roots (x y : Account) : Prop :=
  CodeHash x = CodeHash y /\ StorageRoot_ x = StorageRoot_ y.

Class StateDBLaws (S : Type) `{StateDB S} := {
  ok : S -> Prop;
  ok_SetAccount s a x : ok s -> same_roots x (GetAccount s a) -> ok (SetAccount s a x);
  ok_SetCode s a c : ok s -> ok (SetCode s a c);
  ok_SetStorage s a k v : ok s -> length v = HashLen -> ok (SetStorage s a k v);
  GetAccount_SetAccount s a x b :
    GetAccount (SetAccount s a x) b = if decide (b = a) then x else GetAccount s b;
  GetCode_SetAccount s a x b : ok s -> same_roots x (GetAccount s a) ->
    GetCode (SetAccount s a x) b = GetCode s b;
  GetStorage_SetAccount s a x b k : ok s -> same_roots x (GetAccount s a) ->
    GetStorage (SetAccount s a x) b k = GetStorage s b k;
  balance_SetCode s a c b : ok s -> balance (SetCode s a c) b = balance s b;
  nonce_SetCode s a c b : ok s -> nonce (SetCode s a c) b = nonce s b;
  GetCode_SetCode s a c b : ok s ->
    GetCode (SetCode s a c) b = if decide (b = a) then c else GetCode s b;
  GetStorage_SetCode s a c b k : ok s ->
    GetStorage (SetCode s a c) b k = GetStorage s b k;
  balance_SetStorage s a k v b : ok s -> balance (SetStorage s a k v) b = balance s b;
  nonce_SetStorage s a k v b : ok s -> nonce (SetStorage s a k v) b = nonce s b;
  GetCode_SetStorage s a k v b : ok s -> GetCode (SetStorage s a k v) b = GetCode s b;
  GetStorage_SetStorage s a k v b k' : ok s -> length v = HashLen ->
    GetStorage (SetStorage s a k v) b k' =
    if decide (b = a /\ k' = k) then v else GetStorage s b k';
}.

#[export] Hint Resolve ok_SetAccount ok_SetCode ok_SetStorage : l1.

Lemma same_roots_refl x : same_roots x x.
Proof. done. Qed.
Lemma same_roots_sym x y : same_roots x y -> same_roots y x.
Proof. by intros []. Qed.
Lemma same_roots_trans x y z : same_roots x y -> same_roots y z -> same_roots x z.
Proof. intros [] []. split; congruence. Qed.
Lemma same_roots_balance x b : same_roots (set_balance x b) x.
Proof. done. Qed.
Lemma same_roots_nonce x n : same_roots (set_nonce_ x n) x.
Proof. done. Qed.
#[export] Hint Resolve same_roots_refl same_roots_balance same_roots_nonce : l1.

(** ** Total supply

    [supply_of bal N]: the balances are non-negative, zero outside a finite set of
    addresses, and add up to [N]. *)

Definition supply_of (bal : Address -> Z) (N : Z) : Prop :=
  exists L, NoDup L /\ (forall a, a ∉ L -> bal a = 0) /\ (forall a, 0 <= bal a) /\
    Zsum bal L = N.

Definition supply {S} `{StateDB S} (s : S) (N : Z) : Prop := supply_of (balance s) N.

Lemma supply_of_ext bal bal' N : (forall a, bal a = bal' a) -> supply_of bal N -> supply_of bal' N.
Proof.
  intros E (L & Hnd & H0 & Hnn & HN). exists L. split_and!; [done| | |].
  - intros a Ha. rewrite <- E. by apply H0.
  - intros a. rewrite <- E. apply Hnn.
  - rewrite <- HN. apply Zsum_ext. intros. by rewrite E.
Qed.

Lemma supply_of_nonneg bal N a : supply_of bal N -> 0 <= bal a.
Proof. intros (L & _ & _ & Hnn & _). apply Hnn. Qed.

(** the address can be taken at the front of the list *)
Lemma supply_of_focus bal N a :
  supply_of bal N ->
  exists L, NoDup (a :: L) /\ (forall b, b ∉ a :: L -> bal b = 0) /\ bal a + Zsum bal L = N.
Proof.
  intros (L & Hnd & H0 & Hnn & HN). destruct (decide (a ∈ L)) as [Ha|Ha].
  - apply elem_of_Permutation in Ha as [k Hk]. exists k. split_and!.
    + by rewrite <- Hk.
    + intros b. rewrite <- Hk. apply H0.
    + rewrite <- HN, (Zsum_perm _ _ _ Hk). done.
  - exists L. split_and!.
    + by apply NoDup_cons.
    + intros b Hb. apply H0. intros Hin. apply Hb. by apply list_elem_of_further.
    + rewrite (H0 a Ha). lia.
Qed.

Lemma supply_of_le bal N a : supply_of bal N -> bal a <= N.
Proof.
  intros HS. destruct (supply_of_focus _ _ a HS) as (L & _ & _ & <-).
  assert (0 <= Zsum bal L); [|lia]. apply Zsum_nonneg. intros b _.
  by eapply supply_of_nonneg.
Qed.

Lemma supply_of_set bal N a x :
  supply_of bal N -> 0 <= x ->
  supply_of (fun b => if decide (b = a) then x else bal b) (N - bal a + x).
Proof.
  intros HS Hx. destruct (supply_of_focus _ _ a HS) as (L & Hnd & H0 & HN).
  exists (a :: L). split_and!; [done| | |].
  - intros b Hb. rewrite decide_False; [by apply H0|]. intros ->. apply Hb, list_elem_of_here.
  - intros b. case_decide; [done|]. by eapply supply_of_nonneg.
  - rewrite Zsum_cons, decide_True by done. apply NoDup_cons in Hnd as [Ha _].
    rewrite (Zsum_ext _ bal); [lia|]. intros b Hb. rewrite decide_False; [done|]. by intros ->.
Qed.

Lemma supply_of_move bal N from to v :
  supply_of bal N -> from <> to -> 0 <= v <= bal from ->
  supply_of (fun b => if decide (b = to) then bal to + v
                      else if decide (b = from) then bal from - v else bal b) N.
Proof.
  intros HS Hne Hv. pose proof (supply_of_nonneg _ _ to HS).
  apply (supply_of_set _ _ from (bal from - v)) in HS; [|lia].
  apply (supply_of_set _ _ to (bal to + v)) in HS; [|lia].
  cbv beta in HS. rewrite (decide_False (P := to = from)) in HS by congruence.
  eapply supply_of_ext; [|replace N with (N - bal from + (bal from - v) - bal to + (bal to + v)) by lia; exact HS].
  done.
Qed.

Lemma supply_of_two bal N a b : supply_of bal N -> a <> b -> bal a + bal b <= N.
Proof.
  intros HS Hne. pose proof (supply_of_nonneg _ _ a HS).
  pose proof (supply_of_move _ _ a b (bal a) HS Hne ltac:(lia)) as HM.
  apply (supply_of_le _ _ b) in HM. cbv beta in HM. rewrite decide_True in HM by done. lia.
Qed.

(** ** memStateDB *)

Record memStateDB := mkMem {
  m_accounts : gmap Address Account;
  m_code : gmap Address bytes;
  m_storage : gmap Address (gmap Hash Hash);
}.

Definition NewMemStateDB : memStateDB := mkMem ∅ ∅ ∅.

Definition mem_GetAccount (s : memStateDB) (a : Address) : Account :=
  default empty_account (m_accounts s !! a).

Definition mem_SetAccount (s : memStateDB) (a : Address) (x : Account) : memStateDB :=
  mkMem (<[a := x]> (m_accounts s)) (m_code s) (m_storage s).

Definition mem_GetCode (s : memStateDB) (a : Address) : bytes :=
  default [] (m_code s !! a).

Definition mem_SetCode (s : memStateDB) (a : Address) (code : bytes) : memStateDB :=
  if (length code =? 0)%nat then mkMem (m_accounts s) (delete a (m_code s)) (m_storage s)
  else mkMem (m_accounts s) (<[a := code]> (m_code s)) (m_storage s).

Definition mem_GetStorage (s : memStateDB) (a : Address) (key : Hash) : Hash :=
  match m_storage s !! a with
  | None => zero_hash
  | Some m => default zero_hash (m !! key)
  end.

Definition mem_SetStorage (s : memStateDB) (a : Address) (key val : Hash) : memStateDB :=
  if IsZero val then
    match m_storage s !! a with
    | None => s
    | Some m =>
        let m := delete key m in
        if bool_decide (m = ∅) then mkMem (m_accounts s) (m_code s) (delete a (m_storage s))
        else mkMem (m_accounts s) (m_code s) (<[a := m]> (m_storage s))
    end
  else
    let m := default ∅ (m_storage s !! a) in
    mkMem (m_accounts s) (m_code s) (<[a := <[key := val]> m]> (m_storage s)).

(** [hasState]; the code and storage maps never hold empty entries, so a missing
    entry and an empty one are alike *)
Definition hasState (s : memStateDB) (a : Address) : bool :=
  let acct := mem_GetAccount s a in
  if negb (Balance acct =? 0) || negb (Nonce acct =? 0) || negb (IsZero (CodeHash acct))
  then true
  else if negb (length (mem_GetCode s a) =? 0)%nat then true
  else negb (bool_decide (default ∅ (m_storage s !! a) = ∅)).

(** [sort.Slice] by [Less] (addresses) or [bytes.Compare] (keys) *)
Definition byte_le (a b : bytes) : Prop := Less b a = false.
#[export] Instance byte_le_dec a b : Decision (byte_le a b).
Proof. unfold byte_le. apply _. Defined.
Definition sort_bytes (l : list bytes) : list bytes := merge_sort byte_le l.

Definition mem_seen (s : memStateDB) : gset Address :=
  list_to_set (filter (fun a => hasState s a = true) (map fst (map_to_list (m_accounts s))))
  ∪ list_to_set (map fst (filter (fun p : Address * bytes => snd p <> []) (map_to_list (m_code s))))
  ∪ list_to_set (map fst (filter (fun p : Address * gmap Hash Hash => snd p <> ∅) (map_to_list (m_storage s)))).

Definition mem_fold_account (s : memStateDB) (a : Address) : bytes :=
  let acct := mem_GetAccount s a in
  let code := mem_GetCode s a in
  let m := default ∅ (m_storage s !! a) in
  let keys := sort_bytes (map fst (map_to_list m)) in
  a ++ be 8 (Balance acct) ++ be 8 (Nonce acct) ++ CodeHash acct ++ StorageRoot_ acct ++
  be 8 (Z.of_nat (length code)) ++ code ++
  be 8 (Z.of_nat (length keys)) ++
  concat (map (fun k => k ++ default zero_hash (m !! k)) keys).

Definition mem_StateRoot (s : memStateDB) : Hash :=
  SumHash (concat (map (mem_fold_account s) (sort_bytes (elements (mem_seen s))))).

#[export] Instance mem_StateDB : StateDB memStateDB := {
  GetAccount := mem_GetAccount;
  SetAccount := mem_SetAccount;
  GetCode := mem_GetCode;
  SetCode := mem_SetCode;
  GetStorage := mem_GetStorage;
  SetStorage := mem_SetStorage;
  StateRoot := mem_StateRoot;
}.

Lemma mem_GetAccount_SetAccount s a x b :
  mem_GetAccount (mem_SetAccount s a x) b = if decide (b = a) then x else mem_GetAccount s b.
Proof.
  unfold mem_GetAccount, mem_SetAccount. simpl.
  rewrite lookup_insert, (decide_ext (a = b) (b = a)) by (split; congruence).
  by case_decide.
Qed.

Lemma mem_GetCode_SetCode s a c b :
  mem_GetCode (mem_SetCode s a c) b = if decide (b = a) then c else mem_GetCode s b.
Proof.
  unfold mem_GetCode, mem_SetCode. destruct c as [|x c]; simpl.
  - rewrite lookup_delete. repeat case_decide; subst; done.
  - rewrite lookup_insert. repeat case_decide; subst; done.
Qed.

Lemma mem_GetStorage_SetStorage s a k v b k' :
  length v = HashLen ->
  mem_GetStorage (mem_SetStorage s a k v) b k' =
  if decide (b = a /\ k' = k) then v else mem_GetStorage s b k'.
Proof.
  intros Hv. unfold mem_GetStorage, mem_SetStorage.
  destruct (IsZero v) eqn:Ez.
  - apply IsZero_iff in Ez; [|done]. subst v.
    destruct (m_storage s !! a) as [m|] eqn:Em.
    + case_bool_decide as Ed; simpl; [rewrite lookup_delete|rewrite lookup_insert];
        (destruct (decide (a = b)) as [<-|Hab];
          [rewrite Em|rewrite (decide_False (P := b = a /\ _)) by (intros []; congruence); done]).
      * destruct (decide (k' = k)) as [->|Hk].
        { by rewrite decide_True. }
        rewrite decide_False by (intros []; congruence).
        assert (delete k m !! k' = None) as E by (by rewrite Ed).
        rewrite lookup_delete_ne in E by done. by rewrite E.
      * destruct (decide (k' = k)) as [->|Hk].
        { rewrite decide_True by done. by rewrite lookup_delete_eq. }
        rewrite decide_False by (intros []; congruence). by rewrite lookup_delete_ne.
    + case_decide as E; [|done]. destruct E as [-> ->]. by rewrite Em.
  - simpl. rewrite lookup_insert. destruct (decide (a = b)) as [<-|Hab].
    + rewrite lookup_insert. destruct (decide (k = k')) as [<-|Hk].
      * by rewrite decide_True.
      * rewrite (decide_False (P := a = a /\ _)) by (intros []; congruence).
        by destruct (m_storage s !! a).
    + by rewrite decide_False by (intros []; congruence).
Qed.

#[export] Instance mem_laws : StateDBLaws memStateDB.
Proof.
  refine {| ok := fun _ => True |}; try done.
  - intros s a x b. apply mem_GetAccount_SetAccount.
  - intros s a c b _. unfold balance. simpl. unfold mem_SetCode. by destruct c.
  - intros s a c b _. unfold nonce. simpl. unfold mem_SetCode. by destruct c.
  - intros s a c b _. apply mem_GetCode_SetCode.
  - intros s a c b k _. simpl. unfold mem_SetCode. by destruct c.
  - intros s a k v b _. unfold balance. simpl. unfold mem_SetStorage. by repeat case_match.
  - intros s a k v b _. unfold nonce. simpl. unfold mem_SetStorage. by repeat case_match.
  - intros s a k v b _. simpl. unfold mem_SetStorage, mem_GetCode. by repeat case_match.
  - intros s a k v b k' _. apply mem_GetStorage_SetStorage.
Defined.

(** ** overlayState *)

Record overlayState (S : Type) := mkOverlay {
  o_base : S;
  o_dirty : gmap Address Account;
  o_code : gmap Address bytes;
  o_storage : gmap Address (gmap Hash Hash);
}.
Arguments mkOverlay {S}.
Arguments o_base {S}.
Arguments o_dirty {S}.
Arguments o_code {S}.
Arguments o_storage {S}.

Section Overlay.
Context {S : Type} `{HS : StateDB S}.

Definition newOverlay (base : S) : overlayState S := mkOverlay base ∅ ∅ ∅.

Definition ov_GetAccount (o : overlayState S) (a : Address) : Account :=
  match o_dirty o !! a with
  | Some acct => acct
  | None => GetAccount (o_base o) a
  end.

Definition ov_SetAccount (o : overlayState S) (a : Address) (x : Account) : overlayState S :=
  mkOverlay (o_base o) (<[a := x]> (o_dirty o)) (o_code o) (o_storage o).

Definition ov_GetCode (o : overlayState S) (a : Address) : bytes :=
  match o_code o !! a with
  | Some c => c
  | None => GetCode (o_base o) a
  end.

Definition ov_SetCode (o : overlayState S) (a : Address) (code : bytes) : overlayState S :=
  mkOverlay (o_base o) (o_dirty o) (<[a := code]> (o_code o)) (o_storage o).

Definition ov_GetStorage (o : overlayState S) (a : Address) (key : Hash) : Hash :=
  match o_storage o !! a with
  | Some m =>
      match m !! key with
      | Some v => v
      | None => GetStorage (o_base o) a key
      end
  | None => GetStorage (o_base o) a key
  end.

Definition ov_SetStorage (o : overlayState S) (a : Address) (key val : Hash)
    : overlayState S :=
  let m := default ∅ (o_storage o !! a) in
  mkOverlay (o_base o) (o_dirty o) (o_code o) (<[a := <[key := val]> m]> (o_storage o)).

#[export] Instance ov_StateDB : StateDB (overlayState S) := {
  GetAccount := ov_GetAccount;
  SetAccount := ov_SetAccount;
  GetCode := ov_GetCode;
  SetCode := ov_SetCode;
  GetStorage := ov_GetStorage;
  SetStorage := ov_SetStorage;
  StateRoot := fun o => StateRoot (o_base o);
}.

(** The three loops of [flush].  Go iterates over a map in an unspecified
    order: the loops take the order as a list. *)
Definition flush_accounts (base : S) (l : list (Address * Account)) : S :=
  foldl (fun s p => SetAccount s (fst p) (snd p)) base l.
Definition flush_code (base : S) (l : list (Address * bytes)) : S :=
  foldl (fun s p => SetCode s (fst p) (snd p)) base l.
Definition flush_slots (base : S) (a : Address) (l : list (Hash * Hash)) : S :=
  foldl (fun s p => SetStorage s a (fst p) (snd p)) base l.
Definition flush_storage (base : S) (l : list (Address * list (Hash * Hash))) : S :=
  foldl (fun s p => flush_slots s (fst p) (snd p)) base l.

Definition flush_in_order (o : overlayState S) (dirty : list (Address * Account))
    (code : list (Address * bytes)) (storage : list (Address * list (Hash * Hash))) : S :=
  flush_storage (flush_code (flush_accounts (o_base o) dirty) code) storage.

Definition flush (o : overlayState S) : S :=
  flush_in_order o (map_to_list (o_dirty o)) (map_to_list (o_code o))
    (prod_map id map_to_list <$> map_to_list (o_storage o)).
End Overlay.

(** reading after writing, whatever the base is *)
Section OverlayReads.
Context {S : Type} `{HS : StateDB S}.

Lemma ov_GetAccount_SetAccount (o : overlayState S) a x b :
  ov_GetAccount (ov_SetAccount o a x) b = if decide (b = a) then x else ov_GetAccount o b.
Proof.
  unfold ov_GetAccount, ov_SetAccount. simpl.
  rewrite lookup_insert, (decide_ext (a = b) (b = a)) by (split; congruence).
  by case_decide.
Qed.

Lemma ov_GetCode_SetCode (o : overlayState S) a c b :
  ov_GetCode (ov_SetCode o a c) b = if decide (b = a) then c else ov_GetCode o b.
Proof.
  unfold ov_GetCode, ov_SetCode. simpl.
  rewrite lookup_insert, (decide_ext (a = b) (b = a)) by (split; congruence).
  by case_decide.
Qed.

Lemma ov_GetStorage_SetStorage (o : overlayState S) a k v b k' :
  ov_GetStorage (ov_SetStorage o a k v) b k' =
  if decide (b = a /\ k' = k) then v else ov_GetStorage o b k'.
Proof.
  unfold ov_GetStorage, ov_SetStorage. simpl. rewrite lookup_insert.
  destruct (decide (a = b)) as [<-|Hab].
  - rewrite lookup_insert. destruct (decide (k = k')) as [<-|Hk].
    + by rewrite decide_True.
    + rewrite (decide_False (P := a = a /\ _)) by (intros []; congruence).
      destruct (o_storage o !! a); simpl; [done|by rewrite lookup_empty].
  - by rewrite decide_False by (intros []; congruence).
Qed.

(** An overlay is lawful over every base: what is staged is read back exactly, even when
    the base encodes, deletes or hashes what it is given.  [ApplyBlock] stages a block on such
    an overlay, so what is proved of lawful states holds there over the production state
    too; the bare production state is related to the flat one by [Mpt.mpt_refines_mem]. *)
Definition overlay_laws : StateDBLaws (overlayState S).
Proof.
  refine {| ok := fun _ => True |}; try done.
  - intros o a x b. apply ov_GetAccount_SetAccount.
  - intros o a c b _. apply ov_GetCode_SetCode.
  - intros o a k v b k' _ _. apply ov_GetStorage_SetStorage.
Defined.
End OverlayReads.

Section OverlayLaws.
Context {S : Type} `{HL : StateDBLaws S}.

(** The staged accounts carry the base's code hash and storage root: they were
    read from it. *)
Definition ov_ok (o : overlayState S) : Prop :=
  ok (o_base o) /\
  (forall a x, o_dirty o !! a = Some x -> same_roots x (GetAccount (o_base o) a)) /\
  (forall a m k v, o_storage o !! a = Some m -> m !! k = Some v -> length v = HashLen).

Lemma ov_same_roots o a : ov_ok o -> same_roots (ov_GetAccount o a) (GetAccount (o_base o) a).
Proof.
  intros (_ & Hd & _). unfold ov_GetAccount.
  destruct (o_dirty o !! a) eqn:E; [by apply Hd|apply same_roots_refl].
Qed.

Lemma newOverlay_ok s : ok s -> ov_ok (newOverlay s).
Proof.
  intros Hs. split_and!; [done| |].
  - intros a x H1. simpl in H1. by rewrite lookup_empty in H1.
  - intros a m k v H1. simpl in H1. by rewrite lookup_empty in H1.
Qed.

#[export] Instance ov_laws : StateDBLaws (overlayState S).
Proof.
  refine {| ok := ov_ok |}; try done.
  - intros o a x Ho Hr. destruct Ho as (Hb & Hd & Hst). split_and!; [done| |done].
    intros b y. simpl. rewrite lookup_insert. case_decide as E; [|apply Hd].
    intros [= <-]. subst b. eapply same_roots_trans; [exact Hr|].
    apply ov_same_roots. by split_and!.
  - intros o a k v (Hb & Hd & Hst) Hv. split_and!; [done|done|].
    intros b m k' v'. simpl. rewrite lookup_insert. case_decide as E; [|apply Hst].
    intros [= <-]. rewrite lookup_insert. case_decide; [by intros [= <-]|].
    destruct (o_storage o !! a) as [m|] eqn:Em; simpl; [by eapply Hst|].
    by rewrite lookup_empty.
  - intros o a x b. apply ov_GetAccount_SetAccount.
  - intros o a c b _. apply ov_GetCode_SetCode.
  - intros o a k v b k' _ _. apply ov_GetStorage_SetStorage.
Defined.

(** *** flush: the base then reads as the overlay did *)

Lemma flush_accounts_spec s l :
  ok s -> NoDup (l.*1) ->
  (forall a x, (a, x) ∈ l -> same_roots x (GetAccount s a)) ->
  let s' := flush_accounts s l in
  ok s' /\
  (forall a, GetAccount s' a = default (GetAccount s a) ((list_to_map l : gmap Address Account) !! a)) /\
  (forall a, GetCode s' a = GetCode s a) /\
  (forall a k, GetStorage s' a k = GetStorage s a k).
Proof.
  revert s; induction l as [|[a x] l IH]; intros s Hs Hnd Hr; simpl.
  - split_and!; auto.
  - apply NoDup_cons in Hnd as [Ha Hnd].
    assert (Hx : same_roots x (GetAccount s a)) by (apply Hr; apply list_elem_of_here).
    destruct (IH (SetAccount s a x)) as (O & A & C & T); auto with l1.
    { intros b y Hb. rewrite GetAccount_SetAccount by done.
      rewrite decide_False; [apply Hr; by apply list_elem_of_further|].
      intros ->. apply Ha. apply list_elem_of_fmap. by exists (a, y). }
    split_and!; [done| | |].
    + intros b. rewrite A, GetAccount_SetAccount, lookup_insert by done.
      destruct (decide (a = b)) as [<-|Hab].
      * rewrite (decide_True (P := a = a)) by done.
        rewrite not_elem_of_list_to_map_1 by done. done.
      * by rewrite decide_False by congruence.
    + intros b. by rewrite C, GetCode_SetAccount.
    + intros b k. by rewrite T, GetStorage_SetAccount.
Qed.

Lemma flush_code_spec s l :
  ok s -> NoDup (l.*1) ->
  let s' := flush_code s l in
  ok s' /\
  (forall a, balance s' a = balance s a /\ nonce s' a = nonce s a) /\
  (forall a, GetCode s' a = default (GetCode s a) ((list_to_map l : gmap Address bytes) !! a)) /\
  (forall a k, GetStorage s' a k = GetStorage s a k).
Proof.
  revert s; induction l as [|[a c] l IH]; intros s Hs Hnd; simpl.
  - split_and!; auto.
  - apply NoDup_cons in Hnd as [Ha Hnd].
    destruct (IH (SetCode s a c)) as (O & A & C & T); auto with l1.
    split_and!; [done| | |].
    + intros b. destruct (A b) as [-> ->]. by rewrite balance_SetCode, nonce_SetCode.
    + intros b. rewrite C, GetCode_SetCode, lookup_insert by done.
      destruct (decide (a = b)) as [<-|Hab].
      * rewrite (decide_True (P := a = a)) by done.
        rewrite not_elem_of_list_to_map_1 by done. done.
      * by rewrite decide_False by congruence.
    + intros b k. by rewrite T, GetStorage_SetCode.
Qed.

(** the loops over storage write disjoint slots *)
Definition unchanged_but_storage (s s' : S) : Prop :=
  (forall a, balance s' a = balance s a /\ nonce s' a = nonce s a) /\
  (forall a, GetCode s' a = GetCode s a).

Lemma flush_slots_spec s a l :
  ok s -> NoDup (l.*1) -> (forall k v, (k, v) ∈ l -> length v = HashLen) ->
  let s' := flush_slots s a l in
  ok s' /\ unchanged_but_storage s s' /\
  (forall b k, GetStorage s' b k =
     if decide (b = a) then default (GetStorage s b k) ((list_to_map l : gmap Hash Hash) !! k)
     else GetStorage s b k).
Proof.
  revert s; induction l as [|[k v] l IH]; intros s Hs Hnd Hv; simpl.
  - split_and!; try done. intros b k. by case_decide.
  - apply NoDup_cons in Hnd as [Hk Hnd].
    assert (length v = HashLen) by (eapply Hv, list_elem_of_here).
    destruct (IH (SetStorage s a k v)) as (O & [A C] & T); auto with l1.
    { intros k' v' Hin. eapply Hv, list_elem_of_further, Hin. }
    split_and!; [done| |].
    + split; intros b.
      * destruct (A b) as [-> ->]. by rewrite balance_SetStorage, nonce_SetStorage.
      * by rewrite C, GetCode_SetStorage.
    + intros b k'. rewrite T, GetStorage_SetStorage by done.
      destruct (decide (b = a)) as [->|]; [|by rewrite decide_False by (intros []; congruence)].
      rewrite lookup_insert. destruct (decide (k = k')) as [<-|].
      * rewrite (decide_True (P := a = a /\ _)) by done.
        by rewrite not_elem_of_list_to_map_1.
      * by rewrite decide_False by (intros []; congruence).
Qed.

Lemma flush_storage_spec s l :
  ok s -> NoDup (l.*1) ->
  (forall a m, (a, m) ∈ l -> NoDup (m.*1) /\ forall k v, (k, v) ∈ m -> length v = HashLen) ->
  let s' := flush_storage s l in
  ok s' /\ unchanged_but_storage s s' /\
  (forall b k, GetStorage s' b k =
     match (list_to_map l : gmap Address (list (Hash * Hash))) !! b with
     | Some m => default (GetStorage s b k) ((list_to_map m : gmap Hash Hash) !! k)
     | None => GetStorage s b k
     end).
Proof.
  revert s; induction l as [|[a m] l IH]; intros s Hs Hnd Hv; simpl.
  - by split_and!.
  - apply NoDup_cons in Hnd as [Ha Hnd].
    destruct (Hv a m) as [Hm1 Hm2]; [apply list_elem_of_here|].
    destruct (flush_slots_spec s a m) as (O1 & [A1 C1] & T1); [done..|].
    destruct (IH (flush_slots s a m)) as (O & [A C] & T); [done|done| |].
    { intros b m' Hin. eapply Hv, list_elem_of_further, Hin. }
    split_and!; [done| |].
    + split; intros b.
      * destruct (A b) as [-> ->]. apply A1.
      * by rewrite C, C1.
    + intros b k. rewrite T, T1, lookup_insert.
      destruct (decide (a = b)) as [<-|].
      * rewrite not_elem_of_list_to_map_1 by done. by rewrite decide_True.
      * by rewrite decide_False by congruence.
Qed.

(** [l] lists the entries of [m], in some order *)
Definition iterates {A} (l : list (bytes * A)) (m : gmap bytes A) : Prop :=
  Permutation l (map_to_list m).

Definition iterates_storage (l : list (Address * list (Hash * Hash)))
    (m : gmap Address (gmap Hash Hash)) : Prop :=
  exists l', iterates l' m /\
    Forall2 (fun p q => fst p = fst q /\ iterates (snd p) (snd q)) l l'.

Lemma iterates_spec {A} (l : list (bytes * A)) m :
  iterates l m -> NoDup (l.*1) /\ list_to_map l = m /\
  forall k x, (k, x) ∈ l -> m !! k = Some x.
Proof.
  intros Hp. assert (NoDup (l.*1)) as Hnd.
  { rewrite Hp. apply NoDup_fst_map_to_list. }
  split_and!; [done| |].
  - rewrite (list_to_map_proper l (map_to_list m) Hnd Hp). apply list_to_map_to_list.
  - intros k x Hin. rewrite Hp in Hin. by apply elem_of_map_to_list.
Qed.

Lemma iterates_refl {A} (m : gmap bytes A) : iterates (map_to_list m) m.
Proof. unfold iterates. reflexivity. Qed.

Lemma iterates_storage_spec l m :
  iterates_storage l m -> NoDup (l.*1) /\
  (forall a ms, (a, ms) ∈ l -> exists mm, m !! a = Some mm /\ iterates ms mm) /\
  (forall a, (list_to_map l : gmap Address (list (Hash * Hash))) !! a = None <-> m !! a = None).
Proof.
  intros (l' & Hit & HF). destruct (iterates_spec l' m Hit) as (Hnd & Hm & Hin).
  assert (l.*1 = l'.*1) as Hfst.
  { clear -HF. induction HF as [|p q l l' [E _] _ IH]; [done|]. rewrite !fmap_cons. congruence. }
  split_and!.
  - by rewrite Hfst.
  - intros a ms Hl. apply list_elem_of_lookup in Hl as [i Hi].
    destruct (Forall2_lookup_l _ _ _ _ _ HF Hi) as ([b mm] & Hi' & E & Hmm).
    simpl in *. subst b. exists mm. split; [|done].
    apply Hin, list_elem_of_lookup. by exists i.
  - intros a. rewrite <- Hm. split; intros E%not_elem_of_list_to_map;
      apply not_elem_of_list_to_map; congruence.
Qed.

(** [flush] makes the base read as the overlay did, in whatever order. *)
Lemma flush_in_order_spec (o : overlayState S) dl cl sl :
  ok o -> iterates dl (o_dirty o) -> iterates cl (o_code o) ->
  iterates_storage sl (o_storage o) ->
  let s' := flush_in_order o dl cl sl in
  ok s' /\
  (forall a, balance s' a = balance o a /\ nonce s' a = nonce o a) /\
  (forall a, GetCode s' a = GetCode o a) /\
  (forall a k, GetStorage s' a k = GetStorage o a k).
Proof.
  intros (Hb & Hd & Hv) Id Ic Is. unfold flush_in_order.
  apply iterates_spec in Id as (Nd & Md & Ed). apply iterates_spec in Ic as (Nc & Mc & Ec).
  apply iterates_storage_spec in Is as (Ns & Es & Ms).
  destruct (flush_accounts_spec (o_base o) dl) as (O1 & A1 & C1 & T1); [done|done| |].
  { intros a x Hin. by apply Hd, Ed. }
  rewrite Md in A1.
  destruct (flush_code_spec (flush_accounts (o_base o) dl) cl) as (O2 & A2 & C2 & T2);
    [done|done|].
  rewrite Mc in C2.
  destruct (flush_storage_spec (flush_code (flush_accounts (o_base o) dl) cl) sl)
    as (O3 & [A3 C3] & T3); [done|done| |].
  { intros a m Hin. destruct (Es a m Hin) as (mm & Hmm & (Hn & _ & Hm)%iterates_spec).
    split; [done|]. intros k v Hk. eapply Hv; [exact Hmm|by apply Hm]. }
  split_and!; [done| | |].
  - intros a. destruct (A3 a) as [-> ->], (A2 a) as [-> ->]. unfold balance, nonce.
    rewrite A1. simpl. unfold ov_GetAccount. by destruct (o_dirty o !! a).
  - intros a. rewrite C3, C2, C1. simpl. unfold ov_GetCode. by destruct (o_code o !! a).
  - intros a k. rewrite T3, T2, T1. simpl. unfold ov_GetStorage.
    specialize (Ms a). destruct (list_to_map sl !! a) as [ms|] eqn:E.
    + apply elem_of_list_to_map_2 in E. destruct (Es a ms E) as (mm & -> & Hit).
      apply iterates_spec in Hit as (_ & -> & _). by destruct (mm !! k).
    + by rewrite (proj1 Ms eq_refl).
Qed.

Lemma flush_spec (o : overlayState S) :
  ok o ->
  ok (flush o) /\
  (forall a, balance (flush o) a = balance o a /\ nonce (flush o) a = nonce o a) /\
  (forall a, GetCode (flush o) a = GetCode o a) /\
  (forall a k, GetStorage (flush o) a k = GetStorage o a k).
Proof.
  intros Ho. apply flush_in_order_spec; [done|apply iterates_refl..|].
  exists (map_to_list (o_storage o)). split; [apply iterates_refl|].
  induction (map_to_list (o_storage o)) as [|[a m] l IH]; constructor; auto.
  split; [done|apply iterates_refl].
Qed.
End OverlayLaws.

(** ** Property *)

(** Committing a staged block is order-independent and complete.  Whatever
    order Go iterates the staged maps in, [flush] leaves a base state that reads
    exactly as the overlay did: same balances and nonces, same code, same
    storage, for every address and slot. *)
Theorem flush_commits_overlay S `{HL : StateDBLaws S} (o : overlayState S) dl cl sl :
  ok o -> iterates dl (o_dirty o) -> iterates cl (o_code o) ->
  iterates_storage sl (o_storage o) ->
  (forall a, balance (flush_in_order o dl cl sl) a = balance o a /\
             nonce (flush_in_order o dl cl sl) a = nonce o a) /\
  (forall a, GetCode (flush_in_order o dl cl sl) a = GetCode o a) /\
  (forall a k, GetStorage (flush_in_order o dl cl sl) a k = GetStorage o a k).
Proof. intros H1 H2 H3 H4. by apply flush_in_order_spec. Qed.

Definition sample_overlay : overlayState memStateDB :=
  ov_SetStorage (ov_SetCode (ov_SetAccount (ov_SetAccount (newOverlay NewMemStateDB)
    [1] (mkAccount 7 1 zero_hash zero_hash)) [2] (mkAccount 9 0 zero_hash zero_hash))
    [2] [96; 1]) [2] zero_hash (SumHash [5]).

Definition sample_dirty_order : list (Address * Account) :=
  [([2], mkAccount 9 0 zero_hash zero_hash); ([1], mkAccount 7 1 zero_hash zero_hash)].

Lemma flush_commits_overlay_witness :
  balance (flush_in_order sample_overlay sample_dirty_order
             [([2], [96; 1])] [([2], [(zero_hash, SumHash [5])])]) [1] = 7.
Proof.
  destruct (flush_commits_overlay memStateDB sample_overlay sample_dirty_order
             [([2], [96; 1])] [([2], [(zero_hash, SumHash [5])])]) as [Hb _].
  - split_and!; [done| |].
    + intros b x. simpl. rewrite !lookup_insert, lookup_empty.
      destruct (decide ([2] = b)) as [<-|]; [by intros [= <-]|].
      destruct (decide ([1] = b)) as [<-|]; [by intros [= <-]|done].
    + intros b m k v. simpl. rewrite !lookup_insert. case_decide; [|by rewrite lookup_empty].
      intros Em. apply (inj Some) in Em. subst m.
      rewrite lookup_insert. case_decide; [|by rewrite lookup_empty].
      intros Ev. apply (inj Some) in Ev. subst v. apply length_SumHash.
  - vm_compute. constructor.
  - vm_compute. reflexivity.
  - exists (map_to_list (o_storage sample_overlay)). split; [apply iterates_refl|].
    constructor; [|constructor]. split; [done|]. vm_compute. reflexivity.
  - destruct (Hb [1]) as [-> _]. vm_compute. reflexivity.
Defined.
