(* ===== verification/Mpt.v ===== *)
(** * The production state: accounts in a two-level Merkle Patricia trie

    Models state/mpt.go and state/proof.go.  The main theorem relates
    [mptStateDB] to [memStateDB]: along every sequence of operations whose
    hashed byte strings do not collide, the two read the same. *)

From S2P Require Import Prelude Sha256 Core TrieNode Trie TrieTree TrieRefine TrieProps.
From S2P Require Import StateDB.

Record mptStateDB := mkMpt {
  p_nodes : nodestore;
  p_code : gmap Hash bytes;
  p_root : Hash;
}.

Definition New : mptStateDB := mkMpt ∅ ∅ zero_hash.

Definition accountEncLen : nat := 8 + 8 + HashLen + HashLen.

Definition encodeAccount (a : Account) : bytes :=
  be 8 (Balance a) ++ be 8 (Nonce a) ++
  copy_fixed HashLen (CodeHash a) ++ copy_fixed HashLen (StorageRoot_ a).

Definition decodeAccount (b : bytes) : Account :=
  if (length b <? accountEncLen)%nat then empty_account
  else mkAccount (be_decode (slice 0 8 b)) (be_decode (slice 8 16 b))
         (slice 16 (16 + HashLen) b) (slice (16 + HashLen) (16 + 2 * HashLen) b).

Definition isEmpty (a : Account) : bool :=
  (Balance a =? 0) && (Nonce a =? 0) && IsZero (CodeHash a) && IsZero (StorageRoot_ a).

Definition mpt_GetAccount (s : mptStateDB) (a : Address) : Account :=
  match Get (p_nodes s) (p_root s) a with
  | None => empty_account
  | Some val => decodeAccount val
  end.

Definition mpt_SetAccount (s : mptStateDB) (a : Address) (acct : Account) : mptStateDB :=
  if isEmpty acct then
    let '(nodes, root) := Delete (p_nodes s) (p_root s) a in mkMpt nodes (p_code s) root
  else
    let '(nodes, root) := Put (p_nodes s) (p_root s) a (encodeAccount acct) in
    mkMpt nodes (p_code s) root.

Definition mpt_GetCode (s : mptStateDB) (a : Address) : bytes :=
  let acct := mpt_GetAccount s a in
  if IsZero (CodeHash acct) then [] else default [] (p_code s !! CodeHash acct).

Definition set_code_hash (a : Account) (h : Hash) : Account :=
  mkAccount (Balance a) (Nonce a) h (StorageRoot_ a).
Definition set_storage_root (a : Account) (h : Hash) : Account :=
  mkAccount (Balance a) (Nonce a) (CodeHash a) h.

Definition mpt_SetCode (s : mptStateDB) (a : Address) (code : bytes) : mptStateDB :=
  let acct := mpt_GetAccount s a in
  if (length code =? 0)%nat then mpt_SetAccount s a (set_code_hash acct zero_hash)
  else
    let h := SumHash code in
    let codes := match p_code s !! h with
                 | Some _ => p_code s
                 | None => <[h := code]> (p_code s)
                 end in
    mpt_SetAccount (mkMpt (p_nodes s) codes (p_root s)) a (set_code_hash acct h).

Definition mpt_GetStorage (s : mptStateDB) (a : Address) (key : Hash) : Hash :=
  let acct := mpt_GetAccount s a in
  if IsZero (StorageRoot_ acct) then zero_hash
  else match Get (p_nodes s) (StorageRoot_ acct) key with
       | None => zero_hash
       | Some val => copy_fixed HashLen val
       end.

Definition mpt_SetStorage (s : mptStateDB) (a : Address) (key val : Hash) : mptStateDB :=
  let acct := mpt_GetAccount s a in
  let '(nodes, root) :=
    if IsZero val then Delete (p_nodes s) (StorageRoot_ acct) key
    else Put (p_nodes s) (StorageRoot_ acct) key val in
  mpt_SetAccount (mkMpt nodes (p_code s) (p_root s)) a (set_storage_root acct root).

Definition mpt_StateRoot (s : mptStateDB) : Hash := p_root s.

#[export] Instance mpt_StateDB : StateDB mptStateDB := {
  GetAccount := mpt_GetAccount;
  SetAccount := mpt_SetAccount;
  GetCode := mpt_GetCode;
  SetCode := mpt_SetCode;
  GetStorage := mpt_GetStorage;
  SetStorage := mpt_SetStorage;
  StateRoot := mpt_StateRoot;
}.

(** ** Account and storage proofs (state/proof.go) *)

Record AccountProof := mkAccountProof {
  ap_Account : Account;
  ap_Proof : Proof_t;
}.

Record StorageProof := mkStorageProof {
  sp_AccountProof : AccountProof;
  sp_SlotProof : Proof_t;
  sp_Value : Hash;
}.

Definition GenerateAccountProof (nodes : nodestore) (stateRoot : Hash) (a : Address)
    : option AccountProof :=
  let '(proof, value) := GenerateProof nodes stateRoot a in
  match value with
  | None => None
  | Some v => Some (mkAccountProof (decodeAccount v) proof)
  end.

Definition VerifyAccountProof (stateRoot : Hash) (a : Address) (ap : AccountProof) : bool :=
  VerifyProof stateRoot a (encodeAccount (ap_Account ap)) (ap_Proof ap).

Definition GenerateStorageProof (nodes : nodestore) (stateRoot : Hash) (a : Address)
    (key : Hash) : option StorageProof :=
  match GenerateAccountProof nodes stateRoot a with
  | None => None
  | Some ap =>
      if IsZero (StorageRoot_ (ap_Account ap)) then None
      else
        let '(slotProof, value) := GenerateProof nodes (StorageRoot_ (ap_Account ap)) key in
        match value with
        | None => None
        | Some v => Some (mkStorageProof ap slotProof (copy_fixed HashLen v))
        end
  end.

Definition VerifyStorageProof (stateRoot : Hash) (a : Address) (key : Hash)
    (sp : StorageProof) : bool :=
  if negb (VerifyAccountProof stateRoot a (sp_AccountProof sp)) then false
  else VerifyProof (StorageRoot_ (ap_Account (sp_AccountProof sp))) key (sp_Value sp)
         (sp_SlotProof sp).

Definition mpt_AccountProof (s : mptStateDB) (a : Address) : option AccountProof :=
  GenerateAccountProof (p_nodes s) (p_root s) a.

Definition mpt_StorageProof (s : mptStateDB) (a : Address) (key : Hash) : option StorageProof :=
  GenerateStorageProof (p_nodes s) (p_root s) a key.

(** ** Encoding of accounts *)

Definition account_wf (a : Account) : Prop :=
  is_u64 (Balance a) /\ is_u64 (Nonce a) /\
  length (CodeHash a) = HashLen /\ length (StorageRoot_ a) = HashLen.

Lemma length_encodeAccount a : length (encodeAccount a) = accountEncLen.
Proof. unfold encodeAccount. len. done. Qed.

Lemma decode_encodeAccount a : account_wf a -> decodeAccount (encodeAccount a) = a.
Proof.
  intros (Hb & Hn & Hc & Hs). unfold decodeAccount.
  rewrite length_encodeAccount, Nat.ltb_irrefl. unfold encodeAccount.
  rewrite !copy_fixed_id by done.
  change (16 + HashLen)%nat with 48%nat. change (16 + 2 * HashLen)%nat with 80%nat.
  rewrite slice_app_l by apply length_be.
  rewrite (slice_app_skip 8 8 16), (slice_app_skip 8 16 48), (slice_app_skip 8 48 80)
    by (first [apply length_be|lia]). simpl Nat.sub.
  rewrite slice_app_l by apply length_be.
  rewrite (slice_app_skip 8 8 40), (slice_app_skip 8 40 72)
    by (first [apply length_be|lia]). simpl Nat.sub.
  rewrite slice_app_l by done.
  rewrite (slice_app_skip 32 32 64) by (done || lia). simpl Nat.sub.
  rewrite <- (app_nil_r (StorageRoot_ a)), slice_app_l by done.
  rewrite !be_decode_be8 by done. by destruct a.
Qed.

Lemma encodeAccount_ok a : value_ok (encodeAccount a).
Proof. unfold value_ok. rewrite length_encodeAccount. done. Qed.

Lemma isEmpty_iff a : account_wf a -> isEmpty a = true <-> a = empty_account.
Proof.
  intros (Hb & Hn & Hc & Hs). unfold isEmpty. rewrite !andb_true_iff, !Z.eqb_eq.
  rewrite !IsZero_iff by done. destruct a; simpl. split.
  - by intros [[[-> ->] ->] ->].
  - by intros [= -> -> -> ->].
Qed.

(** accounts survive the trie.  [decodeAccount] inverts [encodeAccount] on
    every account (64-bit balance and nonce, 32-byte hashes), so two accounts
    with the same leaf are the same account. *)
Theorem account_roundtrip a :
  account_wf a ->
  decodeAccount (encodeAccount a) = a /\
  forall b, account_wf b -> encodeAccount a = encodeAccount b -> a = b.
Proof.
  intros Ha. split; [by apply decode_encodeAccount|]. intros b Hb E.
  by rewrite <- (decode_encodeAccount a Ha), E, decode_encodeAccount.
Qed.

Lemma account_roundtrip_witness :
  decodeAccount (encodeAccount (mkAccount 1000 7 zero_hash zero_hash))
  = mkAccount 1000 7 zero_hash zero_hash.
Proof. eapply (proj1 (account_roundtrip _ _)). Unshelve. by split_and!. Defined.

(** ** Sequences of state operations *)

Inductive world_op :=
| WAccount (a : Address) (bal non : Z) (** write back with a new balance and nonce *)
| WCode (a : Address) (code : bytes)
| WStorage (a : Address) (key val : Hash)
| WErase (a : Address). (** write [Account{}], as [Finalise] does to delete an account *)

Definition run_world {S} `{StateDB S} (s : S) (op : world_op) : S :=
  match op with
  | WAccount a b n =>
      let acct := GetAccount s a in
      SetAccount s a (mkAccount b n (CodeHash acct) (StorageRoot_ acct))
  | WCode a c => SetCode s a c
  | WStorage a k v => SetStorage s a k v
  | WErase a => SetAccount s a empty_account
  end.

Definition world_op_ok (op : world_op) : Prop :=
  match op with
  | WAccount a b n => is_u64 b /\ is_u64 n
  | WCode a c => True
  | WStorage a k v => length v = HashLen
  | WErase a => True
  end.

(** the flat state in which a deleted account also loses its code and slots *)
Definition mem_erase (m : memStateDB) (a : Address) : memStateDB :=
  mkMem (<[a := empty_account]> (m_accounts m)) (delete a (m_code m)) (delete a (m_storage m)).
Definition mem_op (m : memStateDB) (op : world_op) : memStateDB :=
  match op with
  | WErase a => mem_erase m a
  | _ => run_world m op
  end.

(** no deleted account has code or slots when it is deleted *)
Fixpoint erases_clean (m : memStateDB) (ops : list world_op) : bool :=
  match ops with
  | [] => true
  | op :: ops' =>
      match op with
      | WErase a => bool_decide (m_code m !! a = None) && bool_decide (m_storage m !! a = None)
      | _ => true
      end && erases_clean (run_world m op) ops'
  end.

(** *** Ghost state: the trees, and the byte strings hashed *)

Record ghost := mkGhost {
  g_world : option tree;
  g_slots : gmap Address tree;
  g_mem : memStateDB;
}.

Definition code_hash (c : bytes) : Hash := if (length c =? 0)%nat then zero_hash else SumHash c.

(** the account of [a] as the trie should hold it *)
Definition ghost_account (g : ghost) (a : Address) : Account :=
  let acct := mem_GetAccount (g_mem g) a in
  mkAccount (Balance acct) (Nonce acct) (code_hash (mem_GetCode (g_mem g) a))
    (oroot (g_slots g !! a)).

Definition acct_op (a : Address) (x : Account) : trie_op :=
  if isEmpty x then OpDelete a else OpPut a (encodeAccount x).

Definition slot_op (k v : Hash) : trie_op := if IsZero v then OpDelete k else OpPut k v.

Definition set_slots (m : gmap Address tree) (a : Address) (o : option tree) : gmap Address tree :=
  partial_alter (fun _ => o) a m.

(** the storage trees after an operation, and what writing them hashes *)
Definition slots_op (g : ghost) (op : world_op) : gmap Address tree :=
  match op with
  | WStorage a k v => set_slots (g_slots g) a (tree_op (g_slots g !! a) (slot_op k v))
  | WErase a => set_slots (g_slots g) a None
  | _ => g_slots g
  end.

Definition op_addr (op : world_op) : Address :=
  match op with WAccount a _ _ => a | WCode a _ => a | WStorage a _ _ => a | WErase a => a end.

Definition ghost_op (g : ghost) (op : world_op) : ghost :=
  let g' := mkGhost (g_world g) (slots_op g op) (mem_op (g_mem g) op) in
  let a := op_addr op in
  mkGhost (tree_op (g_world g) (acct_op a (ghost_account g' a))) (g_slots g') (g_mem g').

Definition world_log_op (g : ghost) (op : world_op) : list bytes :=
  let a := op_addr op in
  a :: match op with
       | WAccount _ _ _ | WErase _ => []
       | WCode _ c => [c]
       | WStorage _ k v => k :: log_op (g_slots g !! a) (slot_op k v)
       end ++ log_op (g_world g) (acct_op a (ghost_account (ghost_op g op) a)).

Fixpoint world_log_from (g : ghost) (ops : list world_op) : list bytes :=
  match ops with
  | [] => []
  | op :: ops' => world_log_op g op ++ world_log_from (ghost_op g op) ops'
  end.

Definition ghost0 : ghost := mkGhost None ∅ NewMemStateDB.
Definition world_log (ops : list world_op) : list bytes := world_log_from ghost0 ops.

Section Refinement.
Context (U : list bytes) (U_safe : hash_safe U).

Definition acct_entry (x : Account) : option bytes :=
  if isEmpty x then None else Some (encodeAccount x).

Record winv (s : mptStateDB) (g : ghost) : Prop := {
  w_rep : rep U (p_nodes s) (p_root s) (g_world g);
  w_slots : forall a, rep U (p_nodes s) (oroot (g_slots g !! a)) (g_slots g !! a);
  w_acct : forall a, a ∈ U -> oget (g_world g) (path a) = acct_entry (ghost_account g a);
  w_slot : forall a k, k ∈ U ->
    oget (g_slots g !! a) (path k) = m_storage (g_mem g) !! a ≫= (.!! k);
  w_len : forall a m k v, m_storage (g_mem g) !! a = Some m -> m !! k = Some v ->
    length v = HashLen;
  w_code : forall h c, p_code s !! h = Some c -> h = SumHash c /\ c ∈ U;
  w_mem_code : forall a c, m_code (g_mem g) !! a = Some c ->
    c <> [] /\ p_code s !! SumHash c = Some c;
  w_u64 : forall a, is_u64 (balance (g_mem g) a) /\ is_u64 (nonce (g_mem g) a);
}.

Lemma path_inj a b : a ∈ U -> b ∈ U -> path a = path b -> a = b.
Proof.
  intros Ha Hb E. apply nibblesOf_inj in E; [by apply U_safe|apply SumHash_wf..].
Qed.

Lemma ghost_account_wf s g a : winv s g -> account_wf (ghost_account g a).
Proof.
  intros W. destruct (w_u64 _ _ W a) as [Hb Hn]. split; [exact Hb|]. split; [exact Hn|].
  split; [|apply length_oroot].
  cbn [CodeHash ghost_account]. unfold code_hash.
  destruct (length _ =? 0)%nat; [done|apply length_SumHash].
Qed.

Lemma mpt_GetAccount_ghost s g a :
  winv s g -> a ∈ U -> mpt_GetAccount s a = ghost_account g a.
Proof.
  intros W Ha. unfold mpt_GetAccount.
  rewrite (Get_rep U U_safe _ _ _ _ (w_rep _ _ W)), (w_acct _ _ W) by done.
  pose proof (ghost_account_wf s g a W) as Hwf. unfold acct_entry.
  destruct (isEmpty _) eqn:E; [|by apply decode_encodeAccount].
  symmetry. by apply isEmpty_iff.
Qed.

(** writing one account leaf *)
Lemma SetAccount_step s o a x :
  rep U (p_nodes s) (p_root s) o ->
  (forall e, e ∈ log_op o (acct_op a x) -> e ∈ U) ->
  let s' := mpt_SetAccount s a x in
  rep U (p_nodes s') (p_root s') (tree_op o (acct_op a x)) /\
  p_nodes s ⊆ p_nodes s' /\ p_code s' = p_code s.
Proof.
  intros Hrep HU.
  destruct (op_rep U U_safe (p_nodes s, p_root s) o (acct_op a x)) as [Hr Hsub];
    [done|unfold acct_op; destruct (isEmpty x); [done|apply encodeAccount_ok]|done|].
  unfold mpt_SetAccount, acct_op, run_op in *. simpl fst in *. simpl snd in *.
  destruct (isEmpty x).
  - destruct (Delete _ _ _); simpl in *. by split_and!.
  - destruct (Put _ _ _ _); simpl in *. by split_and!.
Qed.

Lemma rep_mono nodes nodes' root root' o o' :
  nodes ⊆ nodes' -> rep U nodes' root' o' -> rep U nodes root o -> rep U nodes' root o.
Proof.
  intros Hsub (Hok & _) (_ & Hst & Hwf & Hr). split_and!; [done| |done|done].
  destruct o; [by eapply stored_mono|done].
Qed.

Lemma acct_op_get o a x q :
  (forall t, o = Some t -> twf 64 t) -> all_nibbles q ->
  oget (tree_op o (acct_op a x)) q = if decide (q = path a) then acct_entry x else oget o q.
Proof.
  intros Hwf Hq. rewrite tree_op_get by done. unfold acct_op, acct_entry.
  by destruct (isEmpty x).
Qed.

Lemma slot_op_get o k v q :
  (forall t, o = Some t -> twf 64 t) -> all_nibbles q ->
  oget (tree_op o (slot_op k v)) q =
  if decide (q = path k) then (if IsZero v then None else Some v) else oget o q.
Proof.
  intros Hwf Hq. rewrite tree_op_get by done. unfold slot_op. by destruct (IsZero v).
Qed.

Lemma lookup_set_slots m a o b : set_slots m a o !! b = if decide (b = a) then o else m !! b.
Proof.
  unfold set_slots. case_decide as E; [subst; apply lookup_partial_alter_eq|].
  by rewrite lookup_partial_alter_ne by congruence.
Qed.

(** everything but the account leaf: what holds before the final [SetAccount] *)
Record wmid (s : mptStateDB) (g : ghost) (a : Address) : Prop := {
  x_rep : rep U (p_nodes s) (p_root s) (g_world g);
  x_slots : forall b, rep U (p_nodes s) (oroot (g_slots g !! b)) (g_slots g !! b);
  x_acct : forall b, b ∈ U -> b <> a ->
    oget (g_world g) (path b) = acct_entry (ghost_account g b);
  x_slot : forall b k, k ∈ U ->
    oget (g_slots g !! b) (path k) = m_storage (g_mem g) !! b ≫= (.!! k);
  x_len : forall b m k v, m_storage (g_mem g) !! b = Some m -> m !! k = Some v ->
    length v = HashLen;
  x_code : forall h c, p_code s !! h = Some c -> h = SumHash c /\ c ∈ U;
  x_mem_code : forall b c, m_code (g_mem g) !! b = Some c ->
    c <> [] /\ p_code s !! SumHash c = Some c;
  x_u64 : forall b, is_u64 (balance (g_mem g) b) /\ is_u64 (nonce (g_mem g) b);
}.

Lemma SetAccount_winv s g a :
  wmid s g a -> a ∈ U ->
  (forall e, e ∈ log_op (g_world g) (acct_op a (ghost_account g a)) -> e ∈ U) ->
  winv (mpt_SetAccount s a (ghost_account g a))
    (mkGhost (tree_op (g_world g) (acct_op a (ghost_account g a))) (g_slots g) (g_mem g)).
Proof.
  intros X Ha HU.
  destruct (SetAccount_step s (g_world g) a (ghost_account g a)) as (Hr & Hsub & Hc);
    [apply X|done|].
  split; simpl; try apply X; rewrite ?Hc; try apply X.
  - done.
  - intros b. eapply rep_mono; [done|done|apply X].
  - intros b Hb. rewrite acct_op_get; [|apply X|apply path_nibbles].
    case_decide as E.
    + apply path_inj in E; [|done|done]. by subst b.
    + apply X; [done|]. congruence.
Qed.

Lemma WAccount_winv s g a b n :
  winv s g -> is_u64 b -> is_u64 n ->
  (forall e, e ∈ world_log_op g (WAccount a b n) -> e ∈ U) ->
  winv (run_world s (WAccount a b n)) (ghost_op g (WAccount a b n)).
Proof.
  intros W Hb Hn HU.
  assert (Ha : a ∈ U) by (apply HU, list_elem_of_here).
  set (g' := mkGhost (g_world g) (g_slots g) (run_world (g_mem g) (WAccount a b n))).
  assert (Hacct : forall c, mem_GetAccount (g_mem g') c =
            if decide (c = a) then mkAccount b n (CodeHash (mem_GetAccount (g_mem g) a))
              (StorageRoot_ (mem_GetAccount (g_mem g) a)) else mem_GetAccount (g_mem g) c).
  { intros c. exact (mem_GetAccount_SetAccount (g_mem g) a _ c). }
  assert (X : wmid s g' a).
  { split; try apply W.
    - intros c Hc Hca. rewrite (w_acct _ _ W) by done. f_equal.
      unfold ghost_account. by rewrite Hacct, decide_False.
    - intros c. unfold balance, nonce. simpl GetAccount. rewrite Hacct.
      case_decide; [done|apply W]. }
  replace (run_world s (WAccount a b n)) with (mpt_SetAccount s a (ghost_account g' a)).
  - apply (SetAccount_winv s g' a X Ha).
    intros e He. apply HU. simpl. by apply list_elem_of_further.
  - unfold run_world. simpl. rewrite (mpt_GetAccount_ghost s g a W Ha).
    f_equal. unfold ghost_account. by rewrite Hacct, decide_True.
Qed.

Lemma WCode_winv s g a c :
  winv s g -> (forall e, e ∈ world_log_op g (WCode a c) -> e ∈ U) ->
  winv (run_world s (WCode a c)) (ghost_op g (WCode a c)).
Proof.
  intros W HU.
  assert (Ha : a ∈ U) by (apply HU, list_elem_of_here).
  assert (Hc : c ∈ U) by (apply HU, list_elem_of_further, list_elem_of_here).
  set (g' := mkGhost (g_world g) (g_slots g) (run_world (g_mem g) (WCode a c))).
  assert (Hacct : forall b, mem_GetAccount (g_mem g') b = mem_GetAccount (g_mem g) b).
  { intros b. simpl. unfold mem_SetCode. by destruct c. }
  assert (Hst : m_storage (g_mem g') = m_storage (g_mem g)).
  { simpl. unfold mem_SetCode. by destruct c. }
  set (codes := if (length c =? 0)%nat then p_code s else
                match p_code s !! SumHash c with
                | Some _ => p_code s | None => <[SumHash c := c]> (p_code s) end).
  assert (Hcs : forall h d, codes !! h = Some d -> h = SumHash d /\ d ∈ U).
  { intros h d. unfold codes. case_match; [apply W|]. case_match; [apply W|].
    rewrite lookup_insert. case_decide; [by intros [= <-]|apply W]. }
  assert (Hsub : p_code s ⊆ codes).
  { unfold codes. case_match; [done|]. case_match; [done|by apply insert_subseteq]. }
  assert (Hin : c <> [] -> codes !! SumHash c = Some c).
  { intros Hne. unfold codes. destruct c as [|x c]; [done|]. simpl Nat.eqb. cbv iota.
    destruct (p_code s !! SumHash (x :: c)) as [d|] eqn:E; [|apply lookup_insert_eq].
    rewrite E. f_equal. apply (w_code _ _ W) in E as [E Hd]. symmetry. by apply U_safe. }
  assert (X : wmid (mkMpt (p_nodes s) codes (p_root s)) g' a).
  { split; simpl p_nodes; simpl p_root; simpl p_code; try apply W; try done.
    - intros b Hb Hba. rewrite (w_acct _ _ W) by done. f_equal. unfold ghost_account.
      rewrite Hacct. simpl. by rewrite mem_GetCode_SetCode, decide_False.
    - rewrite Hst. apply W.
    - rewrite Hst. apply W.
    - intros b d Hd. destruct (decide (b = a)) as [->|Hba].
      + pose proof (mem_GetCode_SetCode (g_mem g) a c a) as Hg.
        rewrite decide_True in Hg by done. unfold mem_GetCode in Hg.
        simpl in Hd. rewrite Hd in Hg. simpl in Hg. subst d.
        assert (c <> []); [|auto]. intros ->. unfold mem_SetCode in Hd. simpl in Hd.
        by rewrite lookup_delete_eq in Hd.
      + destruct (w_mem_code _ _ W b d) as [H1 H2].
        { simpl in Hd. unfold mem_SetCode in Hd. destruct c; simpl in Hd;
          [rewrite lookup_delete_ne in Hd by congruence
          |rewrite lookup_insert_ne in Hd by congruence]; done. }
        split; [done|]. by eapply lookup_weaken.
    - intros b. unfold balance, nonce. simpl GetAccount. rewrite Hacct. apply W. }
  replace (run_world s (WCode a c))
    with (mpt_SetAccount (mkMpt (p_nodes s) codes (p_root s)) a (ghost_account g' a)).
  - apply (SetAccount_winv _ g' a X Ha).
    intros e He. apply HU. simpl. by apply list_elem_of_further, list_elem_of_further.
  - unfold run_world. simpl. unfold mpt_SetCode. rewrite (mpt_GetAccount_ghost s g a W Ha).
    assert (ghost_account g' a = set_code_hash (ghost_account g a) (code_hash c)) as ->.
    { unfold ghost_account, set_code_hash. rewrite Hacct. simpl.
      by rewrite mem_GetCode_SetCode, decide_True. }
    unfold code_hash, codes. destruct c; simpl; [by destruct s|done].
Qed.

Lemma mem_storage_lookup m a k v b k' :
  length v = HashLen ->
  (m_storage (mem_SetStorage m a k v) !! b ≫= (.!! k')) =
  if decide (b = a /\ k' = k) then (if IsZero v then None else Some v)
  else m_storage m !! b ≫= (.!! k').
Proof.
  intros Hv. unfold mem_SetStorage. destruct (IsZero v) eqn:Ez.
  - destruct (m_storage m !! a) as [ms|] eqn:Em.
    + case_bool_decide as Ed; simpl; [rewrite lookup_delete|rewrite lookup_insert];
        (destruct (decide (a = b)) as [<-|Hab];
          [rewrite Em; simpl|by rewrite (decide_False (P := b = a /\ _)) by (intros []; congruence)]).
      * destruct (decide (k' = k)) as [->|Hk]; [by rewrite decide_True|].
        rewrite decide_False by (intros []; congruence).
        assert (delete k ms !! k' = None) as E by (by rewrite Ed).
        by rewrite lookup_delete_ne in E.
      * destruct (decide (k' = k)) as [->|Hk].
        { rewrite decide_True by done. apply lookup_delete_eq. }
        rewrite decide_False by (intros []; congruence). by rewrite lookup_delete_ne.
    + case_decide as E; [|done]. destruct E as [-> ->]. by rewrite Em.
  - simpl. rewrite lookup_insert. destruct (decide (a = b)) as [<-|Hab].
    + simpl. rewrite lookup_insert. destruct (decide (k = k')) as [<-|Hk].
      * by rewrite decide_True.
      * rewrite (decide_False (P := a = a /\ _)) by (intros []; congruence).
        by destruct (m_storage m !! a).
    + by rewrite decide_False by (intros []; congruence).
Qed.

Lemma mem_SetStorage_len m a k v :
  length v = HashLen ->
  (forall b ms k v, m_storage m !! b = Some ms -> ms !! k = Some v -> length v = HashLen) ->
  forall b ms k' v', m_storage (mem_SetStorage m a k v) !! b = Some ms -> ms !! k' = Some v' ->
  length v' = HashLen.
Proof.
  intros Hv Hm b ms k' v' H1 H2.
  pose proof (mem_storage_lookup m a k v b k' Hv) as Hl. rewrite H1 in Hl. simpl in Hl.
  rewrite H2 in Hl. case_decide.
  - case_match; [done|]. by injection Hl as ->.
  - destruct (m_storage m !! b) as [ms'|] eqn:E; [|done]. simpl in Hl. by eapply Hm.
Qed.

Lemma mem_SetStorage_frame m a k v :
  m_accounts (mem_SetStorage m a k v) = m_accounts m /\
  m_code (mem_SetStorage m a k v) = m_code m.
Proof. unfold mem_SetStorage. by repeat case_match. Qed.

Lemma WStorage_winv s g a k v :
  winv s g -> length v = HashLen ->
  (forall e, e ∈ world_log_op g (WStorage a k v) -> e ∈ U) ->
  winv (run_world s (WStorage a k v)) (ghost_op g (WStorage a k v)).
Proof.
  intros W Hv HU.
  assert (Ha : a ∈ U) by (apply HU, list_elem_of_here).
  assert (Hk : k ∈ U) by (apply HU, list_elem_of_further, list_elem_of_here).
  set (o' := tree_op (g_slots g !! a) (slot_op k v)).
  set (g' := mkGhost (g_world g) (set_slots (g_slots g) a o')
               (mem_SetStorage (g_mem g) a k v)).
  destruct (op_rep U U_safe (p_nodes s, oroot (g_slots g !! a)) (g_slots g !! a) (slot_op k v))
    as [Hr Hsub]; [apply W| | |].
  { unfold slot_op. destruct (IsZero v); [done|]. unfold value_ok. by rewrite Hv. }
  { intros e He. apply HU. simpl. apply list_elem_of_further, list_elem_of_further.
    apply elem_of_app. by left. }
  destruct (run_op _ (slot_op k v)) as [nodes' root'] eqn:Erun. cbn [fst snd] in Hr, Hsub.
  assert (Hroot : root' = oroot o') by apply Hr.
  destruct (mem_SetStorage_frame (g_mem g) a k v) as [Fa Fc].
  assert (X : wmid (mkMpt nodes' (p_code s) (p_root s)) g' a).
  { split; cbn [p_nodes p_root p_code g_world g_slots g_mem g']; try apply W.
    - eapply rep_mono; [done|done|apply W].
    - intros b. rewrite lookup_set_slots. case_decide.
      + rewrite <- Hroot. exact Hr.
      + eapply rep_mono; [done|done|apply W].
    - intros b Hb Hba. rewrite (w_acct _ _ W) by done. f_equal. unfold ghost_account.
      cbn [g_slots g_mem g']. rewrite lookup_set_slots, decide_False by done.
      unfold mem_GetAccount, mem_GetCode. by rewrite Fa, Fc.
    - intros b k' Hk'. rewrite lookup_set_slots, mem_storage_lookup by done.
      destruct (decide (b = a)) as [->|Hba].
      + unfold o'. rewrite slot_op_get; [|apply W|apply path_nibbles].
        rewrite (w_slot _ _ W) by done. destruct (decide (k' = k)) as [->|Hkk].
        * by rewrite !decide_True.
        * rewrite decide_False by (intros E; by apply path_inj in E).
          by rewrite decide_False by (intros []; congruence).
      + rewrite decide_False by (intros []; congruence). by apply W.
    - apply mem_SetStorage_len; [done|apply W].
    - rewrite Fc. apply W.
    - intros b. unfold balance, nonce. simpl GetAccount. unfold mem_GetAccount.
      rewrite Fa. apply W. }
  replace (run_world s (WStorage a k v))
    with (mpt_SetAccount (mkMpt nodes' (p_code s) (p_root s)) a (ghost_account g' a)).
  - apply (SetAccount_winv _ g' a X Ha).
    intros e He. apply HU. simpl. apply list_elem_of_further, list_elem_of_further.
    apply elem_of_app. right. exact He.
  - unfold run_world. cbn [SetStorage mpt_StateDB]. unfold mpt_SetStorage.
    rewrite (mpt_GetAccount_ghost s g a W Ha). cbn [StorageRoot_ ghost_account].
    unfold slot_op, run_op in Erun. cbn [fst snd] in Erun.
    assert ((if IsZero v then Delete (p_nodes s) (oroot (g_slots g !! a)) k
             else Put (p_nodes s) (oroot (g_slots g !! a)) k v) = (nodes', root')) as ->
      by (by destruct (IsZero v)).
    f_equal. unfold ghost_account, set_storage_root. cbn [g_slots g_mem g'].
    rewrite lookup_set_slots, decide_True, Hroot by done.
    unfold mem_GetAccount, mem_GetCode. by rewrite Fa, Fc.
Qed.

Lemma WErase_winv s g a :
  winv s g -> (forall e, e ∈ world_log_op g (WErase a) -> e ∈ U) ->
  winv (run_world s (WErase a)) (ghost_op g (WErase a)).
Proof.
  intros W HU. assert (Ha : a ∈ U) by (apply HU, list_elem_of_here).
  set (g' := mkGhost (g_world g) (set_slots (g_slots g) a None) (mem_erase (g_mem g) a)).
  assert (Hacct : forall b, mem_GetAccount (g_mem g') b =
            if decide (b = a) then empty_account else mem_GetAccount (g_mem g) b).
  { intros b. exact (mem_GetAccount_SetAccount (g_mem g) a empty_account b). }
  assert (Hcode : forall b, b <> a -> mem_GetCode (g_mem g') b = mem_GetCode (g_mem g) b).
  { intros b Hb. unfold mem_GetCode. simpl. by rewrite lookup_delete_ne by congruence. }
  assert (Ea : ghost_account g' a = empty_account).
  { unfold ghost_account. rewrite Hacct, decide_True by done. unfold mem_GetCode. simpl.
    by rewrite lookup_delete_eq, lookup_set_slots, decide_True. }
  assert (X : wmid s g' a).
  { split; cbn [g_world g_slots g_mem g' mem_erase m_code m_storage]; try apply W.
    - intros b. rewrite lookup_set_slots. case_decide; [|apply W].
      destruct (w_rep _ _ W) as [Hst _]. by split_and!.
    - intros b Hb Hba. rewrite (w_acct _ _ W) by done. f_equal. unfold ghost_account.
      rewrite Hacct, decide_False, Hcode by done. cbn [g_slots g'].
      by rewrite lookup_set_slots, decide_False.
    - intros b k Hk. rewrite lookup_set_slots. case_decide as E.
      + subst b. by rewrite lookup_delete_eq.
      + rewrite lookup_delete_ne by congruence. by apply W.
    - intros b m k v Hm. apply lookup_delete_Some in Hm as [_ Hm]. by apply (w_len _ _ W b).
    - intros b c Hc. apply lookup_delete_Some in Hc as [_ Hc]. by apply (w_mem_code _ _ W b).
    - intros b. unfold balance, nonce. cbn [GetAccount mem_StateDB].
      change (mem_GetAccount (mem_erase (g_mem g) a) b) with (mem_GetAccount (g_mem g') b).
      rewrite Hacct. case_decide; [done|apply W]. }
  assert (Es : run_world s (WErase a) = mpt_SetAccount s a (ghost_account g' a)).
  { rewrite Ea. reflexivity. }
  rewrite Es.
  apply (SetAccount_winv s g' a X Ha). intros e He. apply HU. simpl. by apply list_elem_of_further.
Qed.

Lemma world_op_winv s g op :
  winv s g -> world_op_ok op -> (forall e, e ∈ world_log_op g op -> e ∈ U) ->
  winv (run_world s op) (ghost_op g op).
Proof.
  intros W Hok HU. destruct op; simpl in Hok.
  - destruct Hok. by apply WAccount_winv.
  - by apply WCode_winv.
  - by apply WStorage_winv.
  - by apply WErase_winv.
Qed.

Lemma world_ops_winv s g ops :
  winv s g -> Forall world_op_ok ops -> (forall e, e ∈ world_log_from g ops -> e ∈ U) ->
  winv (foldl run_world s ops) (foldl ghost_op g ops).
Proof.
  revert s g; induction ops as [|op ops IH]; intros s g W Hok HU; [done|].
  inversion Hok; subst. simpl. apply IH; [|done|].
  - apply world_op_winv; [done|done|]. intros e He. apply HU. apply elem_of_app. by left.
  - intros e He. apply HU. apply elem_of_app. by right.
Qed.

Lemma winv_New : winv New ghost0.
Proof.
  assert (rep U ∅ zero_hash None) as R by (split_and!; [apply store_ok_empty|done..]).
  split; simpl; try done.
Qed.

(** *** Reading *)

Lemma winv_code s g a : winv s g -> a ∈ U -> mpt_GetCode s a = mem_GetCode (g_mem g) a.
Proof.
  intros W Ha. unfold mpt_GetCode. rewrite (mpt_GetAccount_ghost s g a W Ha).
  cbn [CodeHash ghost_account]. unfold mem_GetCode, code_hash.
  destruct (m_code (g_mem g) !! a) as [c|] eqn:E; [|done]. simpl.
  destruct (w_mem_code _ _ W a c E) as [Hne Hc]. destruct c as [|x c]; [done|].
  simpl Nat.eqb. cbv iota. rewrite IsZero_false.
  - by rewrite Hc.
  - apply length_SumHash.
  - apply (hash_safe_nz _ U_safe). by apply (w_code _ _ W) in Hc as [_ ?].
Qed.

Lemma winv_storage s g a k :
  winv s g -> a ∈ U -> k ∈ U -> mpt_GetStorage s a k = mem_GetStorage (g_mem g) a k.
Proof.
  intros W Ha Hk. unfold mpt_GetStorage. rewrite (mpt_GetAccount_ghost s g a W Ha).
  cbn [StorageRoot_ ghost_account]. unfold mem_GetStorage.
  pose proof (w_slot _ _ W a k Hk) as Hs.
  rewrite (Get_rep U U_safe _ _ _ _ (w_slots _ _ W a)), Hs.
  destruct (IsZero (oroot (g_slots g !! a))) eqn:Ez.
  - destruct (g_slots g !! a) as [t|] eqn:Et.
    + pose proof (w_slots _ _ W a) as Hr. rewrite Et in Hr. destruct Hr as (Hok & Hst & _).
      simpl in Ez. rewrite (thash_nz U (hash_safe_nz _ U_safe)) in Ez; [done|].
      by eapply stored_in_U.
    + simpl in Hs. destruct (m_storage (g_mem g) !! a) as [ms|]; [|done].
      simpl in Hs. by rewrite <- Hs.
  - destruct (m_storage (g_mem g) !! a) as [ms|] eqn:Em; [|done]. simpl.
    destruct (ms !! k) as [v|] eqn:Ev; [|done]. simpl.
    apply copy_fixed_id. by eapply (w_len _ _ W).
Qed.
End Refinement.

Lemma mem_erase_clean m a :
  m_code m !! a = None -> m_storage m !! a = None -> mem_erase m a = run_world m (WErase a).
Proof. intros Hc Hs. unfold mem_erase. by rewrite !delete_id. Qed.

(** the ghost's flat state is the one of the source as long as deletions are clean *)
Lemma ghost_mem_ops g ops :
  erases_clean (g_mem g) ops = true -> g_mem (foldl ghost_op g ops) = foldl run_world (g_mem g) ops.
Proof.
  revert g; induction ops as [|op ops IH]; intros g Hc; [done|]. cbn [erases_clean] in Hc.
  apply andb_true_iff in Hc as [H1 H2]. cbn [foldl].
  assert (E : g_mem (ghost_op g op) = run_world (g_mem g) op).
  { destruct op; [done..|]. apply andb_true_iff in H1 as [Hc Hs].
    apply bool_decide_eq_true_1 in Hc, Hs. by apply mem_erase_clean. }
  rewrite IH, E; [done|]. by rewrite E.
Qed.

(** C5: the production state agrees with the reference implementation.  Run the same
    sequence of writes on the Merkle-Patricia [mptStateDB] and on the flat [memStateDB]:
    code and storage writes, account writes that keep the code hash and storage root they
    read, and deletions ([SetAccount] of the empty account) of accounts that have neither
    code nor slots.  Every later read of a balance, a nonce, code or a storage slot gives
    the same answer on both, provided the byte strings hashed along the way (keys, code,
    trie nodes) do not collide.  (The code hash and storage root fields are not compared:
    the flat state does not maintain them.) *)
Theorem mpt_refines_mem ops a k :
  Forall world_op_ok ops -> erases_clean NewMemStateDB ops = true ->
  hash_safe (a :: k :: world_log ops) ->
  let s := foldl run_world New ops in
  let m := foldl run_world NewMemStateDB ops in
  balance s a = balance m a /\ nonce s a = nonce m a /\
  GetCode s a = GetCode m a /\ GetStorage s a k = GetStorage m a k.
Proof.
  intros Hok Hcl HS. set (U := a :: k :: world_log ops) in *.
  assert (W : winv U (foldl run_world New ops) (foldl ghost_op ghost0 ops)).
  { apply world_ops_winv; [done|apply winv_New|done|].
    intros e He. by apply list_elem_of_further, list_elem_of_further. }
  assert (Ha : a ∈ U) by apply list_elem_of_here.
  assert (Hk : k ∈ U) by apply list_elem_of_further, list_elem_of_here.
  pose proof (ghost_mem_ops ghost0 ops Hcl) as Hm. simpl g_mem in Hm. cbv zeta. rewrite <- Hm.
  unfold balance, nonce. cbn [GetAccount GetCode GetStorage mpt_StateDB mem_StateDB].
  rewrite (mpt_GetAccount_ghost U HS _ _ a W Ha).
  split_and!; [done|done|by apply (winv_code U)|by apply (winv_storage U)].
Qed.

Definition sample_world : list world_op :=
  [WAccount [1] 100 0; WStorage [2] (SumHash [7]) (SumHash [8]); WCode [2] [96; 1; 0];
   WAccount [1] 0 0; WStorage [2] (SumHash [7]) zero_hash; WAccount [3] 5 1; WErase [3]].

Lemma mpt_refines_mem_witness :
  GetCode (foldl run_world New sample_world) [2]
  = GetCode (foldl run_world NewMemStateDB sample_world) [2].
Proof.
  apply (mpt_refines_mem sample_world [2] (SumHash [7])).
  - repeat constructor; try done; apply length_SumHash.
  - vm_compute. reflexivity.
  - apply hash_safeb_sound. vm_compute. reflexivity.
Defined.

(** The two states part when an account with slots is deleted: the Merkle-Patricia state
    forgets the slots with the account, the flat one keeps them, and an account created
    there later reads them again. *)
Definition erased_slot : list world_op :=
  [WStorage [2] (SumHash [7]) (SumHash [8]); WErase [2]].

Theorem erased_slots_survive_in_mem :
  GetStorage (foldl run_world New erased_slot) [2] (SumHash [7]) = zero_hash /\
  GetStorage (foldl run_world NewMemStateDB erased_slot) [2] (SumHash [7]) = SumHash [8] /\
  SumHash [8] <> zero_hash.
Proof. split_and!; [vm_compute; reflexivity..|]. vm_compute. discriminate. Qed.

(** [ApplyBlock] stages a block on an overlay of the production state *)
#[export] Instance mpt_overlay_laws : StateDBLaws (overlayState mptStateDB) := overlay_laws.

(** C20: storage proofs are sound.  When [VerifyStorageProof] accepts a proof
    against the state root reached by some sequence of writes, the slot really
    holds the claimed value in that state; in particular the slot proof is
    checked against the storage root of this account and no other. *)
Theorem VerifyStorageProof_sound ops a k sp :
  Forall world_op_ok ops ->
  hash_safe (a :: k :: world_log ops ++ ap_Proof (sp_AccountProof sp) ++ sp_SlotProof sp) ->
  account_wf (ap_Account (sp_AccountProof sp)) -> length (sp_Value sp) = HashLen ->
  let s := foldl run_world New ops in
  VerifyStorageProof (StateRoot s) a k sp = true ->
  GetAccount s a = ap_Account (sp_AccountProof sp) /\ GetStorage s a k = sp_Value sp.
Proof.
  intros Hok HS Hacct Hval. set (U := a :: k :: _) in *.
  assert (W : winv U (foldl run_world New ops) (foldl ghost_op ghost0 ops)).
  { apply world_ops_winv; [done|apply winv_New|done|].
    intros e He. apply list_elem_of_further, list_elem_of_further, elem_of_app. by left. }
  assert (Ha : a ∈ U) by apply list_elem_of_here.
  assert (Hk : k ∈ U) by apply list_elem_of_further, list_elem_of_here.
  assert (HP : forall e, e ∈ ap_Proof (sp_AccountProof sp) \/ e ∈ sp_SlotProof sp -> e ∈ U).
  { intros e He. apply list_elem_of_further, list_elem_of_further, elem_of_app. right.
    by apply elem_of_app. }
  set (s := foldl run_world New ops) in *. set (g := foldl ghost_op ghost0 ops) in *.
  cbv zeta. unfold VerifyStorageProof, VerifyAccountProof, VerifyProof.
  destruct (verify_from (StateRoot s) _ _ _) eqn:E1; [|done]. simpl negb. cbv iota. intros E2.
  apply (verify_rep U HS _ _ _ _ _ _ (w_rep _ _ _ W)) in E1; [|by auto].
  rewrite (w_acct _ _ _ W) in E1 by done. unfold acct_entry in E1.
  destruct (isEmpty _); [done|]. apply (inj Some) in E1.
  assert (ghost_account g a = ap_Account (sp_AccountProof sp)) as Eg.
  { rewrite <- (decode_encodeAccount (ghost_account g a)) by (by eapply ghost_account_wf).
    rewrite E1. by apply decode_encodeAccount. }
  split; [cbn [GetAccount mpt_StateDB]; by rewrite (mpt_GetAccount_ghost U HS s g)|].
  rewrite <- Eg in E2. cbn [StorageRoot_ ghost_account] in E2.
  apply (verify_rep U HS _ _ _ _ _ _ (w_slots _ _ _ W a)) in E2; [|by auto].
  cbn [GetStorage mpt_StateDB]. rewrite (winv_storage U HS s g) by done.
  rewrite (w_slot _ _ _ W) in E2 by done. unfold mem_GetStorage.
  destruct (m_storage (g_mem g) !! a) as [ms|]; [|done]. simpl in E2. by rewrite E2.
Qed.

Definition sample_storage_proof : StorageProof :=
  match mpt_StorageProof (foldl run_world New (take 3 sample_world)) [2] (SumHash [7]) with
  | Some sp => sp
  | None => mkStorageProof (mkAccountProof empty_account []) [] zero_hash
  end.

Lemma VerifyStorageProof_sound_witness :
  GetStorage (foldl run_world New (take 3 sample_world)) [2] (SumHash [7])
  = sp_Value sample_storage_proof.
Proof.
  apply (VerifyStorageProof_sound (take 3 sample_world) [2] (SumHash [7]) sample_storage_proof).
  - repeat constructor; try done; apply length_SumHash.
  - apply hash_safeb_sound. vm_compute. reflexivity.
  - split_and!; vm_compute; done.
  - vm_compute. reflexivity.
  - vm_compute. reflexivity.
Defined.
