(* ===== verification/MptProofs.v ===== *)
(** * Account proofs of the production state

    What [mptStateDB]'s proof generator and the verifier of state/proof.go do on a state
    reached by any sequence of writes: a touched account has a proof, made of nodes of
    the trie, that verifies; and a proof that verifies shows the account as it is. *)

From S2P Require Import Prelude Sha256 Core TrieNode Trie TrieTree TrieRefine TrieProps.
From S2P Require Import StateDB Mpt.

(** the Go type of an account: words, and arrays of bytes *)
Definition account_typed (a : Account) : Prop :=
  is_u64 (Balance a) /\ is_u64 (Nonce a) /\ hash_wf (CodeHash a) /\ hash_wf (StorageRoot_ a).

Definition account_proof_wf (ap : AccountProof) : Prop :=
  account_typed (ap_Account ap) /\ Forall all_bytes (ap_Proof ap).

Lemma account_typed_wf a : account_typed a -> account_wf a.
Proof. by intros (? & ? & [? _] & [? _]). Qed.

Lemma oroot_wf o : hash_wf (oroot o).
Proof. destruct o; [apply SumHash_wf|apply zero_hash_wf]. Qed.

Lemma code_hash_wf c : hash_wf (code_hash c).
Proof. unfold code_hash. destruct (_ =? _)%nat; [apply zero_hash_wf|apply SumHash_wf]. Qed.

Section Proofs.
Context (U : list bytes) (U_safe : hash_safe U).

Lemma ghost_account_typed s g a : winv U s g -> account_typed (ghost_account g a).
Proof.
  intros W. destruct (w_u64 _ _ _ W a) as [Hb Hn].
  split; [exact Hb|]. split; [exact Hn|]. split; [apply code_hash_wf|apply oroot_wf].
Qed.

Lemma tproof_in_U t p e : in_U U t -> e ∈ tproof t p -> e ∈ U.
Proof.
  intros Ht. revert p; induction Ht as [ns v Hu|ns t Hu _ IH|cs v Hu _ IH]; intros p.
  - cbn [tproof]. by intros ->%list_elem_of_singleton.
  - cbn [tproof]. intros [->|He]%elem_of_cons; [done|]. case_decide; [by eapply IH|].
    by apply not_elem_of_nil in He.
  - destruct p as [|i p].
    { cbn [tproof]. by intros ->%list_elem_of_singleton. }
    rewrite tproof_branch. intros [->|He]%elem_of_cons; [done|].
    destruct (cs !! Z.to_nat i) as [[t|]|] eqn:E; cbn [mjoin option_join otproof] in He;
      [by eapply IH|by apply not_elem_of_nil in He..].
Qed.

(** the proof the state generates *)
Lemma mpt_AccountProof_spec s g a :
  winv U s g -> a ∈ U ->
  match mpt_AccountProof s a with
  | Some ap => ap_Account ap = mpt_GetAccount s a /\ VerifyAccountProof (p_root s) a ap = true /\
               account_typed (ap_Account ap) /\ (forall e, e ∈ ap_Proof ap -> e ∈ U)
  | None => mpt_GetAccount s a = empty_account
  end.
Proof.
  intros W Ha. unfold mpt_AccountProof, GenerateAccountProof, GenerateProof.
  rewrite (mpt_GetAccount_ghost U U_safe s g a W Ha).
  pose proof (w_acct _ _ _ W a Ha) as Hg. pose proof (ghost_account_typed s g a W) as Hty.
  destruct (w_rep _ _ _ W) as (HN & Hst & Hwf & Hr). rewrite Hr.
  assert (Hempty : acct_entry (ghost_account g a) = None -> ghost_account g a = empty_account).
  { unfold acct_entry. destruct (isEmpty _) eqn:E; [|done]. intros _.
    apply isEmpty_iff; [by apply account_typed_wf|done]. }
  destruct (g_world g) as [t|]; cbn [oroot oget] in *; [|by apply Hempty].
  rewrite (genProof_refines U U_safe 64); [|by apply Hwf|done|done|unfold trie_fuel; lia].
  cbn [default app id]. rewrite Hg. unfold id, acct_entry in *.
  destruct (isEmpty _) eqn:E; [by apply Hempty|]. cbn [ap_Account ap_Proof].
  rewrite decode_encodeAccount by (by apply account_typed_wf).
  split_and!; [done| |done|].
  - unfold VerifyAccountProof, VerifyProof. cbn [ap_Account ap_Proof].
    eapply verify_tproof; [by apply Hwf|done].
  - intros e. apply tproof_in_U. by eapply stored_in_U_all.
Qed.

(** a proof that verifies *)
Lemma VerifyAccountProof_true s g a ap :
  winv U s g -> a ∈ U -> (forall e, e ∈ ap_Proof ap -> e ∈ U) -> account_wf (ap_Account ap) ->
  VerifyAccountProof (p_root s) a ap = true -> mpt_GetAccount s a = ap_Account ap.
Proof.
  intros W Ha Hp Hwf E. unfold VerifyAccountProof, VerifyProof in E.
  apply (verify_rep U U_safe _ _ _ _ _ _ (w_rep _ _ _ W)) in E; [|done].
  rewrite (w_acct _ _ _ W) in E by done. unfold acct_entry in E.
  destruct (isEmpty _); [done|]. apply (inj Some) in E.
  rewrite (mpt_GetAccount_ghost U U_safe s g) by done.
  rewrite <- (decode_encodeAccount (ghost_account g a))
    by (by eapply account_typed_wf, ghost_account_typed).
  rewrite E. by apply decode_encodeAccount.
Qed.
End Proofs.

(** the state after a sequence of writes *)
Definition world_of (ops : list world_op) : mptStateDB := foldl run_world New ops.

Lemma world_of_winv U ops :
  hash_safe U -> Forall world_op_ok ops -> (forall e, e ∈ world_log ops -> e ∈ U) ->
  winv U (world_of ops) (foldl ghost_op ghost0 ops).
Proof. intros. apply world_ops_winv; [done|apply winv_New|done|done]. Qed.
