(* ===== verification/Pos.v ===== *)
(** * Proof of stake: validators, proposer selection, attestations, BLS wrapper

    Models pos/validator.go, pos/proposer.go, pos/attestation.go and pos/bls.go.
    The BLS library blst is not part of the repository: it is the class [Blst],
    a parameter of everything that calls it. *)

From Stdlib Require Import String Ascii.
From S2P Require Import Prelude Sha256 Core.

(** ** The wrapper over blst (bls.go) *)

Definition pubKeySize : nat := 48.
Definition sigSize : nat := 96.

(** what bls.go calls: points, decompression, checks and aggregation *)
Class Blst := {
  P1Affine : Type;
  P2Affine : Type;
  P1_Uncompress : bytes -> option P1Affine;
  P2_Uncompress : bytes -> option P2Affine;
  P2_Compress : P2Affine -> bytes;
  KeyValidate : P1Affine -> bool;
  (** [sig.Verify(sigGroupcheck, pk, pkValidate, msg, dst)] *)
  P2_Verify : P2Affine -> bool -> P1Affine -> bool -> bytes -> bytes -> bool;
  (** [agg.AggregateCompressed(sigs, groupcheck)], then [ToAffine] *)
  AggregateCompressed : list bytes -> bool -> option P2Affine;
  (** [sig.FastAggregateVerify(sigGroupcheck, pks, msg, dst)] *)
  FastAggregateVerify : P2Affine -> bool -> list P1Affine -> bytes -> bytes -> bool;
}.

(** secret keys: [new(P1Affine).From(sk)], [Compress], [new(P2Affine).Sign(sk, msg, dst)] *)
Class BlstKeys `{Blst} := {
  SecretKey : Type;
  P1_From : SecretKey -> P1Affine;
  P1_Compress : P1Affine -> bytes;
  P2_Sign : SecretKey -> bytes -> bytes -> P2Affine;
}.

Section BlsKeys.
Context `{BlstKeys}.

Definition PosKey_PubKey (k : SecretKey) : bytes := P1_Compress (P1_From k).
Definition PosKey_Sign (k : SecretKey) (msg dst : bytes) : bytes := P2_Compress (P2_Sign k msg dst).
End BlsKeys.

Section Bls.
Context `{Blst}.

Definition Verify (pubKey msg sig dst : bytes) : bool :=
  if negb (length pubKey =? pubKeySize)%nat || negb (length sig =? sigSize)%nat then false
  else
    match P1_Uncompress pubKey with
    | None => false
    | Some pk =>
        match P2_Uncompress sig with
        | None => false
        | Some s => P2_Verify s true pk true msg dst
        end
    end.

Definition ValidatePubKey (pubKey : bytes) : bool :=
  if negb (length pubKey =? pubKeySize)%nat then false
  else match P1_Uncompress pubKey with
       | None => false
       | Some pk => KeyValidate pk
       end.

Definition Aggregate (sigs : list bytes) : option bytes :=
  if (length sigs =? 0)%nat then None
  else match AggregateCompressed sigs true with
       | None => None
       | Some agg => Some (P2_Compress agg)
       end.

(** the loop over [pubKeys] *)
Fixpoint uncompress_all (pubKeys : list bytes) : option (list P1Affine) :=
  match pubKeys with
  | [] => Some []
  | b :: rest =>
      if negb (length b =? pubKeySize)%nat then None
      else
        match P1_Uncompress b with
        | None => None
        | Some pk => pks ← uncompress_all rest; Some (pk :: pks)
        end
  end.

Definition VerifyAggregate (pubKeys : list bytes) (msg aggSig dst : bytes) : bool :=
  if (length pubKeys =? 0)%nat || negb (length aggSig =? sigSize)%nat then false
  else
    match uncompress_all pubKeys with
    | None => false
    | Some pks =>
        match P2_Uncompress aggSig with
        | None => false
        | Some sig => FastAggregateVerify sig true pks msg dst
        end
    end.
End Bls.

(** [fmt.Sprintf("...%d_", chainID)] *)
Definition str (s : string) : bytes :=
  map (fun c => Z.of_N (N_of_ascii c)) (list_ascii_of_string s).

Fixpoint decimal_digits (fuel : nat) (x : Z) : bytes :=
  match fuel with
  | O => []
  | S fuel' => (if x <? 10 then [] else decimal_digits fuel' (x / 10)) ++ [48 + x mod 10]
  end.

(** a [uint64] has at most 20 digits *)
Definition decimal (x : Z) : bytes := decimal_digits 20 x.

Definition DST (chainID : Z) : bytes :=
  str "BLS_SIG_BLS12381G2_XMD:SHA-256_SSWU_RO_L1CHAIN_POS_CHAIN" ++ decimal chainID ++ str "_".

(** ** Validators (validator.go) *)

Record ValidatorInfo := mkValidator {
  v_Address : Address;
  v_BLSPubKey : bytes;
  v_Stake : Z;
}.

#[export] Instance ValidatorInfo_eq_dec : EqDecision ValidatorInfo.
Proof. solve_decision. Defined.

Record ValidatorSet := mkValidatorSet {
  vs_validators : list ValidatorInfo;
  vs_totalStake : Z;
}.

Section Validators.
Context `{Blst}.

(** the loop of [NewValidatorSet] *)
Fixpoint check_validators (vs : list ValidatorInfo) (seenAddr seenPub : gset bytes)
    (total : Z) : result Z :=
  match vs with
  | [] => Ok total
  | v :: rest =>
      if v_Stake v =? 0 then Err ErrZeroStake
      else if bool_decide (v_Address v ∈ seenAddr) then Err ErrDuplicateAddress
      else if bool_decide (v_BLSPubKey v ∈ seenPub) then Err ErrDuplicatePubKey
      else if negb (ValidatePubKey (v_BLSPubKey v)) then Err ErrInvalidPubKey
      else
        let newTotal := u64 (total + v_Stake v) in
        if newTotal <? total then Err ErrTotalStakeOverflow
        else check_validators rest ({[v_Address v]} ∪ seenAddr) ({[v_BLSPubKey v]} ∪ seenPub)
               newTotal
  end.

Definition NewValidatorSet (vs : list ValidatorInfo) : result ValidatorSet :=
  if (length vs =? 0)%nat then Err ErrEmptyValidatorSet
  else total ← check_validators vs ∅ ∅ 0; Ok (mkValidatorSet vs total).
End Validators.

Definition TotalStake (vs : ValidatorSet) : Z := vs_totalStake vs.
Definition Len (vs : ValidatorSet) : nat := length (vs_validators vs).

Definition ByAddress (vs : ValidatorSet) (a : Address) : option ValidatorInfo :=
  List.find (fun v => bool_decide (v_Address v = a)) (vs_validators vs).

(** [map[core.Address]bool]: [m[a]], false when absent *)
Definition is_jailed (jailed : gmap Address bool) (a : Address) : bool :=
  default false (jailed !! a).

(** the loop of [EffectiveStake] *)
Fixpoint effective_from (vs : list ValidatorInfo) (jailed : gmap Address bool)
    (active : list ValidatorInfo) (total : Z) : list ValidatorInfo * Z :=
  match vs with
  | [] => (active, total)
  | v :: rest =>
      if is_jailed jailed (v_Address v) then effective_from rest jailed active total
      else effective_from rest jailed (active ++ [v]) (u64 (total + v_Stake v))
  end.

Definition EffectiveStake (vs : ValidatorSet) (jailed : gmap Address bool)
    : list ValidatorInfo * Z :=
  effective_from (vs_validators vs) jailed [] 0.

(** ** Proposer selection (proposer.go) *)

Definition ProposerSeed (parentHash : Hash) (height : Z) : Hash :=
  HashConcat [parentHash; be 8 height].

(** the cumulative-stake walk; [None] when it falls through *)
Fixpoint roulette (active : list ValidatorInfo) (cum target : Z) : option ValidatorInfo :=
  match active with
  | [] => None
  | v :: rest =>
      let cum := u64 (cum + v_Stake v) in
      if target <? cum then Some v else roulette rest cum target
  end.

Definition SelectProposer (active : list ValidatorInfo) (totalActiveStake : Z) (seed : Hash)
    : result ValidatorInfo :=
  if (totalActiveStake =? 0) || (length active =? 0)%nat then Err ErrNoActiveValidators
  else
    let target := be_decode seed mod totalActiveStake in
    match roulette active 0 target with
    | Some v => Ok v
    | None => Ok (List.last active (mkValidator zero_addr [] 0))
    end.

(** ** Attestations (attestation.go) *)

Definition AttestAddress : Address :=
  [0x50; 0x4F; 0x53; 0; 0; 0; 0; 0; 0; 0; 0; 0; 0; 0; 0; 0; 0; 0; 0; 1].
Definition CheckpointInterval : Z := 32.
Definition OpAttest : Z := 0xA1.
Definition attestPayloadLen : nat := 1 + 8 + HashLen + sigSize.

Definition EncodeAttest (targetHeight : Z) (targetHash : Hash) (blsSig : bytes) : bytes :=
  [OpAttest] ++ be 8 targetHeight ++ copy_fixed HashLen targetHash ++ copy_fixed sigSize blsSig.

Definition DecodeAttest (data : bytes) : result (Z * Hash * bytes) :=
  if negb (length data =? attestPayloadLen)%nat || negb (nth 0 data 0 =? OpAttest)
  then Err ErrMalformedAttestation
  else Ok (be_decode (slice 1 9 data), slice 9 (9 + HashLen) data, drop (9 + HashLen) data).

Definition IsAttestationTx (tx : Transaction) : bool := bool_decide (tx_To tx = AttestAddress).
Definition CheckpointRound (targetHeight : Z) : Z := targetHeight / CheckpointInterval.

(** ** Validator sets *)

Definition stakes (l : list ValidatorInfo) : Z := Zsum v_Stake l.

Definition stakes_u64 (l : list ValidatorInfo) : Prop :=
  Forall (fun v => is_u64 (v_Stake v)) l.

Lemma stakes_nonneg l : stakes_u64 l -> 0 <= stakes l.
Proof.
  intros Hl. apply Zsum_nonneg. intros v Hv. unfold stakes_u64 in Hl.
  rewrite Forall_forall in Hl. by apply Hl.
Qed.

Lemma Forall_fresh {A} (f : A -> bytes) (v : A) (s : gset bytes) l :
  Forall (fun w => f w ∉ ({[f v]} ∪ s)) l <-> (f v ∉ map f l) /\ Forall (fun w => f w ∉ s) l.
Proof.
  induction l as [|w l IH].
  - split; [split; [apply not_elem_of_nil|constructor]|constructor].
  - simpl map. rewrite !Forall_cons, IH, not_elem_of_union, not_elem_of_singleton, not_elem_of_cons.
    assert (f w <> f v <-> f v <> f w) by (split; congruence). tauto.
Qed.

Section NewValidatorSet.
Context `{Blst}.

(** what [NewValidatorSet] demands *)
Record valid_set (vs : list ValidatorInfo) : Prop := {
  vset_nonempty : vs <> [];
  vset_stake : Forall (fun v => v_Stake v <> 0) vs;
  vset_addr : NoDup (map v_Address vs);
  vset_pub : NoDup (map v_BLSPubKey vs);
  vset_key : Forall (fun v => ValidatePubKey (v_BLSPubKey v) = true) vs;
  vset_total : stakes vs < two64;
}.

Lemma check_validators_spec vs sa sp total t :
  stakes_u64 vs -> is_u64 total ->
  check_validators vs sa sp total = Ok t <->
  t = total + stakes vs /\ total + stakes vs < two64 /\
  Forall (fun v => v_Stake v <> 0) vs /\
  NoDup (map v_Address vs) /\ Forall (fun v => v_Address v ∉ sa) vs /\
  NoDup (map v_BLSPubKey vs) /\ Forall (fun v => v_BLSPubKey v ∉ sp) vs /\
  Forall (fun v => ValidatePubKey (v_BLSPubKey v) = true) vs.
Proof.
  revert sa sp total. induction vs as [|v vs IH]; intros sa sp total Hst Htot.
  { simpl. unfold stakes. simpl. split.
    - intros [= <-]. split_and!; auto using NoDup_nil_2; lia.
    - intros (-> & _). f_equal. lia. }
  apply Forall_cons in Hst as [Hv Hst]. pose proof (stakes_nonneg vs Hst) as Hnn.
  unfold stakes in *. rewrite Zsum_cons. simpl check_validators. simpl map.
  rewrite !Forall_cons, !NoDup_cons.
  destruct (Z.eqb_spec (v_Stake v) 0) as [E|Hs]; [split; [done|]; intros (_ & _ & [? _] & _); done|].
  case_bool_decide as Ha; [split; [done|]; intros (_ & _ & _ & _ & [? _] & _); done|].
  case_bool_decide as Hp; [split; [done|]; intros (_ & _ & _ & _ & _ & _ & [? _] & _); done|].
  destruct (ValidatePubKey (v_BLSPubKey v)) eqn:Hk; simpl negb; cbv iota;
    [|split; [done|]; intros (_ & _ & _ & _ & _ & _ & _ & [? _]); congruence].
  destruct (Z.lt_ge_cases (total + v_Stake v) two64) as [Hlt|Hge].
  - rewrite u64_small by lia. destruct (Z.ltb_spec (total + v_Stake v) total); [lia|].
    rewrite IH by (done || lia).
    rewrite !Z.add_assoc, !Forall_fresh. pose proof (eq_refl true) as Ht.
    clear - Hs Ha Hp Ht. tauto.
  - assert (u64 (total + v_Stake v) = total + v_Stake v - two64) as ->.
    { unfold u64. rewrite <- (Z_mod_plus_full _ (-1)). apply Z.mod_small. lia. }
    destruct (Z.ltb_spec (total + v_Stake v - two64) total); [|lia].
    split; [done|]. intros (_ & ? & _). lia.
Qed.

Lemma NewValidatorSet_valid vs s :
  stakes_u64 vs ->
  NewValidatorSet vs = Ok s <-> valid_set vs /\ s = mkValidatorSet vs (stakes vs).
Proof.
  intros Hst. unfold NewValidatorSet. destruct (Nat.eqb_spec (length vs) 0) as [E|E].
  { split; [done|]. intros [V _]. destruct (vset_nonempty _ V). by apply length_zero_iff_nil. }
  destruct (check_validators vs ∅ ∅ 0) as [t|e] eqn:Ec; simpl.
  - apply check_validators_spec in Ec as (-> & ? & ? & ? & _ & ? & _ & ?); [|done|done].
    rewrite Z.add_0_l in *. split.
    + intros [= <-]. split; [|done]. split; try done. by intros ->.
    + by intros [_ ->].
  - split; [done|]. intros [[Hne Hs Ha Hp Hk Ht] ->].
    assert (check_validators vs ∅ ∅ 0 = Ok (0 + stakes vs)) as G; [|congruence].
    apply check_validators_spec; [done|done|].
    rewrite Z.add_0_l. split_and!; try done; apply Forall_forall; intros; apply not_elem_of_empty.
Qed.
End NewValidatorSet.

(** ** Effective stake and selection *)

Definition active_of (vs : list ValidatorInfo) (jailed : gmap Address bool) : list ValidatorInfo :=
  filter (fun v => is_jailed jailed (v_Address v) = false) vs.

Lemma effective_from_spec vs jailed acc total :
  stakes_u64 vs -> 0 <= total -> total + stakes vs < two64 ->
  effective_from vs jailed acc total
  = (acc ++ active_of vs jailed, total + stakes (active_of vs jailed)).
Proof.
  revert acc total. induction vs as [|v vs IH]; intros acc total Hst H0 Hlt; simpl.
  { rewrite app_nil_r. f_equal. unfold stakes. simpl. lia. }
  apply Forall_cons in Hst as [Hv Hst]. pose proof (stakes_nonneg vs Hst) as Hnn.
  unfold stakes in *. rewrite Zsum_cons in Hlt. unfold active_of in *. rewrite filter_cons.
  destruct (is_jailed jailed (v_Address v)) eqn:E.
  - rewrite decide_False by done. apply IH; [done|done|lia].
  - rewrite decide_True by done. rewrite u64_small by lia.
    rewrite IH by (done || lia). rewrite <- app_assoc, Zsum_cons. f_equal. lia.
Qed.

Lemma EffectiveStake_spec vs total jailed :
  stakes_u64 vs -> stakes vs < two64 ->
  EffectiveStake (mkValidatorSet vs total) jailed
  = (active_of vs jailed, stakes (active_of vs jailed)).
Proof. intros. unfold EffectiveStake. simpl. by rewrite effective_from_spec. Qed.

Lemma stakes_active_le vs jailed : stakes_u64 vs -> stakes (active_of vs jailed) <= stakes vs.
Proof.
  induction vs as [|v vs IH]; intros Hst; [done|].
  apply Forall_cons in Hst as [Hv Hst]. specialize (IH Hst). unfold active_of in *.
  rewrite filter_cons. unfold stakes in *. case_decide; rewrite !Zsum_cons; lia.
Qed.

Lemma active_of_sub vs jailed v : v ∈ active_of vs jailed -> v ∈ vs /\ is_jailed jailed (v_Address v) = false.
Proof. unfold active_of. rewrite list_elem_of_filter. tauto. Qed.

Lemma roulette_at l1 v l2 cum target :
  stakes_u64 (l1 ++ v :: l2) -> 0 <= cum -> cum + stakes (l1 ++ v :: l2) < two64 ->
  cum + stakes l1 <= target < cum + stakes l1 + v_Stake v ->
  roulette (l1 ++ v :: l2) cum target = Some v.
Proof.
  unfold stakes. revert cum. induction l1 as [|w l1 IH]; intros cum Hst H0 Hlt Ht; simpl app in *.
  - apply Forall_cons in Hst as [Hv Hst]. pose proof (stakes_nonneg l2 Hst). unfold stakes in *.
    rewrite Zsum_cons in Hlt. simpl in Ht. cbn [roulette]. cbv zeta. rewrite u64_small by lia.
    by destruct (Z.ltb_spec target (cum + v_Stake v)); [|lia].
  - apply Forall_cons in Hst as [Hw Hst]. rewrite Zsum_cons in *.
    pose proof (stakes_nonneg _ Hst) as Hnn. unfold stakes in Hnn.
    assert (0 <= Zsum v_Stake l1) by (apply stakes_nonneg; by apply Forall_app in Hst as [? _]).
    cbn [roulette]. cbv zeta. rewrite u64_small by lia.
    destruct (Z.ltb_spec target (cum + v_Stake w)); [lia|]. apply IH; [done|lia..].
Qed.

Lemma roulette_split l cum target :
  stakes_u64 l -> cum <= target < cum + stakes l ->
  exists l1 v l2, l = l1 ++ v :: l2 /\ cum + stakes l1 <= target < cum + stakes l1 + v_Stake v.
Proof.
  unfold stakes. revert cum. induction l as [|w l IH]; intros cum Hst Ht.
  - simpl in Ht. lia.
  - apply Forall_cons in Hst as [Hw Hst]. rewrite Zsum_cons in Ht.
    destruct (Z.lt_ge_cases target (cum + v_Stake w)).
    + exists [], w, l. simpl. split; [done|lia].
    + destruct (IH (cum + v_Stake w)) as (l1 & v & l2 & -> & Hr); [done|lia|].
      exists (w :: l1), v, l2. split; [done|]. rewrite Zsum_cons. lia.
Qed.

Lemma NoDup_split_unique {A} (l1 l2 k1 k2 : list A) v :
  NoDup (l1 ++ v :: l2) -> l1 ++ v :: l2 = k1 ++ v :: k2 -> l1 = k1.
Proof.
  revert k1. induction l1 as [|x l1 IH]; intros [|y k1] Hnd E; simpl in *; [done| | |].
  - injection E as <- E. apply NoDup_cons in Hnd as [Hv _]. destruct Hv.
    rewrite E. apply elem_of_app. right. apply list_elem_of_here.
  - injection E as -> E. apply NoDup_cons in Hnd as [Hv _]. destruct Hv.
    apply elem_of_app. right. apply list_elem_of_here.
  - injection E as <- E. apply NoDup_cons in Hnd as [_ Hnd]. f_equal. by eapply IH.
Qed.

Lemma roulette_iff l l1 v l2 target :
  stakes_u64 l -> stakes l < two64 -> NoDup l -> l = l1 ++ v :: l2 -> 0 <= target < stakes l ->
  roulette l 0 target = Some v <-> stakes l1 <= target < stakes l1 + v_Stake v.
Proof.
  intros Hst Hlt Hnd -> Ht. split.
  - intros Hr. destruct (roulette_split (l1 ++ v :: l2) 0 target) as (k1 & w & k2 & E & Hk);
      [done|lia|].
    rewrite E in Hr. rewrite roulette_at in Hr; [|by rewrite <- E|done|by rewrite <- E|lia].
    injection Hr as ->. apply NoDup_split_unique in E; [subst k1; lia|done].
  - intros Hr. apply roulette_at; [done|lia|lia|lia].
Qed.

(** ** Attestation payloads *)

Lemma length_EncodeAttest h t s : length (EncodeAttest h t s) = attestPayloadLen.
Proof. unfold EncodeAttest. len. done. Qed.

Lemma DecodeAttest_ok data h t s :
  DecodeAttest data = Ok (h, t, s) ->
  length data = attestPayloadLen /\ nth 0 data 0 = OpAttest /\
  h = be_decode (slice 1 9 data) /\ t = slice 9 (9 + HashLen) data /\ s = drop (9 + HashLen) data.
Proof.
  unfold DecodeAttest. destruct (Nat.eqb_spec (length data) attestPayloadLen); [|done].
  destruct (Z.eqb_spec (nth 0 data 0) OpAttest); [|done]. simpl. by intros [= <- <- <-].
Qed.

Lemma DecodeAttest_EncodeAttest h t s :
  is_u64 h -> length t = HashLen -> length s = sigSize ->
  DecodeAttest (EncodeAttest h t s) = Ok (h, t, s).
Proof.
  intros Hh Ht Hs. unfold DecodeAttest. rewrite length_EncodeAttest, Nat.eqb_refl.
  unfold EncodeAttest. rewrite !copy_fixed_id by done. simpl negb. simpl orb. cbv iota.
  change (9 + HashLen)%nat with 41%nat.
  rewrite (slice_app_skip 1 1 9), (slice_app_skip 1 9 41) by (done || lia). simpl Nat.sub.
  rewrite slice_app_l by apply length_be.
  rewrite (slice_app_skip 8 8 40) by (apply length_be || lia). simpl Nat.sub.
  rewrite slice_app_l by done. rewrite be_decode_be8 by done.
  rewrite !app_assoc, drop_app_exact; [done|]. rewrite !length_app, length_be, Ht. done.
Qed.

Lemma EncodeAttest_DecodeAttest data h t s :
  all_bytes data -> DecodeAttest data = Ok (h, t, s) -> EncodeAttest h t s = data.
Proof.
  intros Hb (Hlen & H0 & -> & -> & ->)%DecodeAttest_ok.
  unfold attestPayloadLen in Hlen. change (1 + 8 + HashLen + sigSize)%nat with 137%nat in Hlen.
  unfold EncodeAttest. change (9 + HashLen)%nat with 41%nat.
  assert (be 8 (be_decode (slice 1 9 data)) = slice 1 9 data) as ->.
  { assert (length (slice 1 9 data) = 8%nat) as L by (apply length_slice; lia).
    rewrite <- L at 1. apply be_of_decode. unfold slice. by apply Forall_take, Forall_drop. }
  rewrite !copy_fixed_id.
  - destruct data as [|x data]; [done|]. simpl in H0. subst x. simpl app. f_equal.
    unfold slice. simpl drop. simpl Nat.sub.
    rewrite <- (take_drop 8 data) at 4. f_equal.
    rewrite <- (take_drop 32 (drop 8 data)) at 2. by rewrite drop_drop.
  - rewrite length_drop. unfold sigSize. lia.
  - apply length_slice. lia.
Qed.

(** ** Properties *)

(** C39: proposer selection is total, excludes jailed validators and is exactly
    stake-weighted.  For a registered set with at least one validator not
    jailed, [SelectProposer] on the effective stake returns an active validator
    for every seed, and each active validator owns one interval of
    [seed mod total] whose length is its stake: it is chosen exactly there. *)
Theorem SelectProposer_stake_weighted `{Blst} vs s jailed :
  stakes_u64 vs -> NewValidatorSet vs = Ok s ->
  let '(active, total) := EffectiveStake s jailed in
  active <> [] ->
  (forall seed, exists v, SelectProposer active total seed = Ok v /\
     v ∈ vs /\ is_jailed jailed (v_Address v) = false) /\
  (forall v, v ∈ active -> exists lo, 0 <= lo /\ lo + v_Stake v <= total /\
     forall seed, SelectProposer active total seed = Ok v <->
       lo <= be_decode seed mod total < lo + v_Stake v).
Proof.
  intros Hst [V ->]%NewValidatorSet_valid; [|done].
  rewrite EffectiveStake_spec by (done || apply V).
  set (active := active_of vs jailed). intros Hne.
  assert (Hsta : stakes_u64 active).
  { apply Forall_forall. intros v [Hv _]%active_of_sub. unfold stakes_u64 in Hst.
    rewrite Forall_forall in Hst. by apply Hst. }
  pose proof (stakes_active_le vs jailed Hst) as Hle. fold active in Hle.
  pose proof (vset_total _ V) as Hlt.
  assert (Hpos : 0 < stakes active).
  { destruct active as [|v l] eqn:E; [done|]. apply Forall_cons in Hsta as [Hv Hl].
    pose proof (stakes_nonneg l Hl). unfold stakes in *. rewrite Zsum_cons.
    assert (v_Stake v <> 0); [|lia].
    assert (v ∈ active_of vs jailed) as [Hin _]%active_of_sub
      by (fold active; rewrite E; apply list_elem_of_here).
    pose proof (vset_stake _ V) as Hz. rewrite Forall_forall in Hz. by apply Hz. }
  assert (Hnd : NoDup active).
  { apply NoDup_filter. eapply NoDup_fmap_1. exact (vset_addr _ V). }
  assert (Hsel : forall seed, SelectProposer active (stakes active) seed =
            match roulette active 0 (be_decode seed mod stakes active) with
            | Some v => Ok v
            | None => Ok (List.last active (mkValidator zero_addr [] 0))
            end).
  { intros seed. unfold SelectProposer. destruct (Z.eqb_spec (stakes active) 0); [lia|].
    by destruct (Nat.eqb_spec (length active) 0) as [->%length_zero_iff_nil|]. }
  assert (Hmod : forall seed, 0 <= be_decode seed mod stakes active < stakes active).
  { intros seed. by apply Z.mod_pos_bound. }
  assert (Hroul : forall t, 0 <= t < stakes active ->
            exists v, roulette active 0 t = Some v /\ v ∈ active).
  { intros t Ht. destruct (roulette_split active 0 t) as (l1 & v & l2 & E & Hr); [done|lia|].
    exists v. rewrite E. split; [|apply elem_of_app; right; apply list_elem_of_here].
    apply roulette_at; rewrite <- ?E; [done|lia|lia|lia]. }
  split.
  - intros seed. rewrite Hsel. destruct (Hroul _ (Hmod seed)) as (v & -> & Hv).
    exists v. split; [done|]. by apply active_of_sub.
  - intros v (l1 & l2 & E)%list_elem_of_split. exists (stakes l1).
    assert (Hs1 : stakes_u64 l1 /\ stakes_u64 l2).
    { rewrite E in Hsta. apply Forall_app in Hsta as [? [_ ?]%Forall_cons]. by split. }
    pose proof (stakes_nonneg l1 (proj1 Hs1)). pose proof (stakes_nonneg l2 (proj2 Hs1)).
    split_and!; [done|rewrite E; unfold stakes in *; rewrite Zsum_app, Zsum_cons; lia|].
    intros seed. rewrite Hsel.
    rewrite <- (roulette_iff active l1 v l2) by (done || lia).
    destruct (Hroul _ (Hmod seed)) as (w & -> & _). split; congruence.
Qed.

(** a stand-in for blst for the examples: points are their encodings, and a
    signature is valid when it repeats the key's first byte *)
Definition toy_blst : Blst := {|
  P1Affine := bytes;
  P2Affine := bytes;
  P1_Uncompress := Some;
  P2_Uncompress := Some;
  P2_Compress := id;
  KeyValidate := fun _ => true;
  P2_Verify := fun s _ pk _ _ _ => bool_decide (nth 0 s 0 = nth 0 pk 0);
  AggregateCompressed := fun sigs _ => head sigs;
  FastAggregateVerify := fun s _ _ _ _ => true;
|}.

Definition sample_validators : list ValidatorInfo :=
  [mkValidator (replicate 20 1) (replicate 48 1) 10;
   mkValidator (replicate 20 2) (replicate 48 2) 20;
   mkValidator (replicate 20 3) (replicate 48 3) 70].

Lemma SelectProposer_stake_weighted_witness :
  exists v, SelectProposer
    (fst (EffectiveStake (mkValidatorSet sample_validators 100) {[replicate 20 2 := true]}))
    (snd (EffectiveStake (mkValidatorSet sample_validators 100) {[replicate 20 2 := true]}))
    zero_hash = Ok v.
Proof.
  assert (stakes_u64 sample_validators) as Hst by (repeat constructor; done).
  pose proof (@SelectProposer_stake_weighted toy_blst sample_validators
    (mkValidatorSet sample_validators 100) {[replicate 20 2 := true]} Hst eq_refl) as G.
  destruct (EffectiveStake _ _) as [active total] eqn:E. simpl fst. simpl snd.
  destruct G as [G _].
  - intros ->. by vm_compute in E.
  - destruct (G zero_hash) as (v & Hv & _). by exists v.
Defined.

(** C40: registration accepts exactly the well-formed validator sets.
    [NewValidatorSet] succeeds if and only if the list is non-empty, stakes are
    positive, addresses and keys are distinct, every key passes blst's check and
    the stakes sum to less than 2^64; the set then holds the list and its exact
    total. *)
Theorem NewValidatorSet_iff `{Blst} vs s :
  stakes_u64 vs ->
  NewValidatorSet vs = Ok s <-> valid_set vs /\ s = mkValidatorSet vs (stakes vs).
Proof. intros Hst. by apply NewValidatorSet_valid. Qed.

Lemma NewValidatorSet_iff_witness :
  @valid_set toy_blst sample_validators.
Proof.
  apply (@NewValidatorSet_iff toy_blst sample_validators (mkValidatorSet sample_validators 100)).
  - repeat constructor; done.
  - reflexivity.
Defined.

(** attestation payloads round-trip.  Encoding then decoding gives the vote
    back, and any byte string that decodes is the encoding of what it decodes
    to, so a vote has one encoding. *)
Theorem attest_roundtrip h t s data :
  is_u64 h -> length t = HashLen -> length s = sigSize -> all_bytes data ->
  DecodeAttest (EncodeAttest h t s) = Ok (h, t, s) /\
  (DecodeAttest data = Ok (h, t, s) -> EncodeAttest h t s = data).
Proof.
  intros Hh Ht Hs Hd. split; [by apply DecodeAttest_EncodeAttest|].
  by apply EncodeAttest_DecodeAttest.
Qed.

Lemma attest_roundtrip_witness :
  DecodeAttest (EncodeAttest 64 zero_hash (replicate 96 7)) = Ok (64, zero_hash, replicate 96 7).
Proof.
  apply (attest_roundtrip 64 zero_hash (replicate 96 7) []); [done|done|done|constructor].
Defined.
