(* ===== verification/StackVM.v ===== *)
(** * The stack machine

    Models vm/vm.go and vm/stackvm.go: a 256-bit word machine with gas, nested
    calls and a journal of scopes over the backing [StateDB].

    - A word is a [Z] in [0, 2^256); an index is a [Z] bounded before it is used.
    - The Go stack grows at the end of a slice; here its top is the list's head.
    - A chain of [scope]s is the backing state and the list of journals,
      innermost first.
    - [run] takes fuel, one unit per instruction.  Every instruction that does not
      end the frame costs gas, so [GasLimit + 1] units are enough (proved below). *)

From stdpp Require Import sorting.
From S2P Require Import Prelude Sha256 Core StateDB.

Record Message := mkMessage {
  msg_From : Address;
  msg_To : option Address;
  msg_Value : Z;
  msg_GasLimit : Z;
  msg_Nonce : Z;
  msg_Data : bytes;
}.

Record Receipt := mkReceipt {
  r_GasUsed : Z;
  r_Success : bool;
  r_ReturnData : bytes;
  r_ContractAddress : option Address;
  r_Err : option error;
}.

Definition NoopVM_Execute {S} (st : S) (msg : Message) : Receipt :=
  if (length (msg_Data msg) =? 0)%nat then mkReceipt 0 true [] None None
  else mkReceipt 0 false [] None (Some ErrNoVM).

(** ** Limits, costs, opcodes *)

Definition MaxStack : nat := 1024.
Definition MaxCallDepth : Z := 1024.
Definition maxMemBytes : Z := 65536.
Definition GasCreate : Z := 32000.
Definition gasCall : Z := 700.

Definition opSTOP : Z := 0x00.
Definition opADD : Z := 0x01.
Definition opMUL : Z := 0x02.
Definition opSUB : Z := 0x03.
Definition opDIV : Z := 0x04.
Definition opLT : Z := 0x10.
Definition opGT : Z := 0x11.
Definition opEQ : Z := 0x14.
Definition opISZERO : Z := 0x15.
Definition opCALLVALUE : Z := 0x34.
Definition opCALLDATALOAD : Z := 0x35.
Definition opCALLDATASIZE : Z := 0x36.
Definition opPOP : Z := 0x50.
Definition opMLOAD : Z := 0x51.
Definition opMSTORE : Z := 0x52.
Definition opSLOAD : Z := 0x54.
Definition opSSTORE : Z := 0x55.
Definition opJUMP : Z := 0x56.
Definition opJUMPI : Z := 0x57.
Definition opJUMPDEST : Z := 0x5b.
Definition opPUSH1 : Z := 0x60.
Definition opPUSH32 : Z := 0x7f.
Definition opDUP1 : Z := 0x80.
Definition opSWAP1 : Z := 0x90.
Definition opCALL : Z := 0xf1.
Definition opRETURN : Z := 0xf3.

Definition is_push (op : Z) : bool := (opPUSH1 <=? op) && (op <=? opPUSH32).

Definition gasCost (op : Z) : Z :=
  if (op =? opSTOP) || (op =? opRETURN) then 0
  else if (op =? opADD) || (op =? opSUB) then 3
  else if (op =? opMUL) || (op =? opDIV) then 5
  else if (op =? opLT) || (op =? opGT) || (op =? opEQ) || (op =? opISZERO) then 3
  else if (op =? opCALLVALUE) || (op =? opCALLDATASIZE) then 2
  else if op =? opCALLDATALOAD then 3
  else if op =? opPOP then 2
  else if (op =? opMLOAD) || (op =? opMSTORE) then 3
  else if op =? opSLOAD then 200
  else if op =? opSSTORE then 5000
  else if op =? opJUMP then 8
  else if op =? opJUMPI then 10
  else if op =? opJUMPDEST then 1
  else if is_push op then 3
  else if (op =? opDUP1) || (op =? opSWAP1) then 3
  else if op =? opCALL then gasCall
  else 0.

Record gasMeter := mkGas { g_limit : Z; g_used : Z }.

Definition charge (g : gasMeter) (cost : Z) : gasMeter * result unit :=
  let used' := u64 (g_used g + cost) in
  if (g_limit g <? used') || (used' <? g_used g) then
    (mkGas (g_limit g) (g_limit g), Err ErrOutOfGas)
  else (mkGas (g_limit g) used', Ok tt).

Definition finalGas (g : gasMeter) (err : error) : Z :=
  if bool_decide (err = ErrOutOfGas) then g_limit g else g_used g.

(** ** Words *)

Definition wrap (x : Z) : Z := x mod two256.

Definition boolWord (b : bool) : Z := if b then 1 else 0.

(** [big.Int.IsUint64] *)
Definition IsUint64 (v : Z) : bool := (0 <=? v) && (v <? two64).

(** [toIndex]: a word that fits 32 bits *)
Definition toIndex (v : Z) : option Z :=
  if negb (IsUint64 v) then None else if two32 - 1 <? v then None else Some v.

Definition bigToHash (v : Z) : Hash := be HashLen (wrap v).

Definition addrFromWord (v : Z) : Address :=
  copy_fixed AddrLen (drop (HashLen - AddrLen) (bigToHash v)).

Definition readData (data : bytes) (off : Z) : bytes :=
  match toIndex off with
  | None => replicate 32 0
  | Some idx =>
      if Z.of_nat (length data) <=? idx then replicate 32 0
      else copy_fixed 32 (drop (Z.to_nat idx) data)
  end.

Definition ensureMem (mem : bytes) (size : Z) : bytes :=
  if size <=? Z.of_nat (length mem) then mem
  else mem ++ replicate (Z.to_nat size - length mem) 0.

Definition CreateAddress (from : Address) (nonce : Z) : Address :=
  copy_fixed AddrLen (drop (HashLen - AddrLen) (SumHash (from ++ be 8 nonce))).

(** the loop of [validJumpdests]; [i] grows, so [length code] rounds are enough *)
Fixpoint jumpdests_from (fuel : nat) (code : bytes) (i : nat) (dests : gset Z) : gset Z :=
  match fuel with
  | O => dests
  | S fuel' =>
      match code !! i with
      | None => dests
      | Some op =>
          if op =? opJUMPDEST then jumpdests_from fuel' code (S i) ({[Z.of_nat i]} ∪ dests)
          else if is_push op then
            jumpdests_from fuel' code (i + (Z.to_nat (op - opPUSH1) + 2)) dests
          else jumpdests_from fuel' code (S i) dests
      end
  end.

Definition validJumpdests (code : bytes) : gset Z :=
  jumpdests_from (S (length code)) code 0 ∅.

(** ** Stack *)

Definition push (st : list Z) (v : Z) : result (list Z) :=
  if (MaxStack <=? length st)%nat then Err ErrStackOverflow else Ok (v :: st).

Definition pop (st : list Z) : result (Z * list Z) :=
  match st with [] => Err ErrStackUnderflow | v :: st' => Ok (v, st') end.

Definition pop2 (st : list Z) : result (Z * Z * list Z) :=
  '(a, st) ← pop st; '(b, st) ← pop st; Ok (a, b, st).

Definition peek (st : list Z) (n : nat) : result Z :=
  match st !! n with Some v => Ok v | None => Err ErrStackUnderflow end.

Definition swap1 (st : list Z) : result (list Z) :=
  match st with a :: b :: st' => Ok (b :: a :: st') | _ => Err ErrStackUnderflow end.

(** ** Scopes *)

Record journal := mkJournal {
  j_acct : gmap Address Account;
  j_code : gmap Address bytes;
  j_storage : gmap Address (gmap Hash Hash);
}.

Definition empty_journal : journal := mkJournal ∅ ∅ ∅.

(** the journals of a scope and its parents, innermost first *)
Record scope (S : Type) := mkScope { sc_base : S; sc_journals : list journal }.
Arguments mkScope {S}.
Arguments sc_base {S}.
Arguments sc_journals {S}.

Section Scope.
Context {S : Type} `{HS : StateDB S}.

Definition newScope (base : S) : scope S := mkScope base [empty_journal].

Definition child (sc : scope S) : scope S :=
  mkScope (sc_base sc) (empty_journal :: sc_journals sc).

Fixpoint journals_account (base : S) (js : list journal) (a : Address) : Account :=
  match js with
  | [] => GetAccount base a
  | j :: js' => match j_acct j !! a with
                | Some acct => acct
                | None => journals_account base js' a
                end
  end.

Fixpoint journals_code (base : S) (js : list journal) (a : Address) : bytes :=
  match js with
  | [] => GetCode base a
  | j :: js' => match j_code j !! a with
                | Some c => c
                | None => journals_code base js' a
                end
  end.

Fixpoint journals_storage (base : S) (js : list journal) (a : Address) (k : Hash) : Hash :=
  match js with
  | [] => GetStorage base a k
  | j :: js' => match j_storage j !! a ≫= (.!! k) with
                | Some v => v
                | None => journals_storage base js' a k
                end
  end.

Definition getAccount (sc : scope S) := journals_account (sc_base sc) (sc_journals sc).
Definition getCode (sc : scope S) := journals_code (sc_base sc) (sc_journals sc).
Definition getStorage (sc : scope S) := journals_storage (sc_base sc) (sc_journals sc).

(** writes go to the innermost journal *)
Definition on_top (f : journal -> journal) (sc : scope S) : scope S :=
  match sc_journals sc with
  | [] => sc
  | j :: js => mkScope (sc_base sc) (f j :: js)
  end.

Definition setAccount (sc : scope S) (a : Address) (acct : Account) : scope S :=
  on_top (fun j => mkJournal (<[a := acct]> (j_acct j)) (j_code j) (j_storage j)) sc.

Definition setCode (sc : scope S) (a : Address) (c : bytes) : scope S :=
  on_top (fun j => mkJournal (j_acct j) (<[a := c]> (j_code j)) (j_storage j)) sc.

Definition setStorage (sc : scope S) (a : Address) (k v : Hash) : scope S :=
  on_top (fun j => mkJournal (j_acct j) (j_code j)
            (<[a := <[k := v]> (default ∅ (j_storage j !! a))]> (j_storage j))) sc.

(** [commit] of a child: its entries override the parent's.  ([∪] is
    left-biased, so the order of Go's map iteration does not show.) *)
Definition merge_storage (m pm : gmap Address (gmap Hash Hash))
    : gmap Address (gmap Hash Hash) :=
  union_with (fun x y => Some (x ∪ y)) m pm.

Definition commit (sc : scope S) : scope S :=
  match sc_journals sc with
  | j :: p :: js =>
      mkScope (sc_base sc)
        (mkJournal (j_acct j ∪ j_acct p) (j_code j ∪ j_code p)
           (merge_storage (j_storage j) (j_storage p)) :: js)
  | _ => sc
  end.

(** [commit] of the root scope: flush to the backing state *)
Definition commit_root (sc : scope S) : S :=
  match sc_journals sc with
  | [j] => flush (mkOverlay (sc_base sc) (j_acct j) (j_code j) (j_storage j))
  | _ => sc_base sc
  end.

Definition transfer (sc : scope S) (from to : Address) (value : Z) : result (scope S) :=
  if (value =? 0) || bool_decide (from = to) then Ok sc
  else
    let f := getAccount sc from in
    if Balance f <? value then Err ErrInsufficientFunds
    else
      let sc := setAccount sc from (set_balance f (u64 (Balance f - value))) in
      let t := getAccount sc to in
      Ok (setAccount sc to (set_balance t (u64 (Balance t + value)))).

(** ** One instruction *)

(** what an instruction leaves: a machine state to go on with, or a finished
    frame *)
Inductive outcome :=
| Next (sc : scope S) (st : list Z) (mem : bytes) (pc : Z)
| Return (ret : bytes) (sc : scope S).

(** the last cases of [run]'s switch, except [CALL]: jumps, pushes, [DUP1], [SWAP1],
    [RETURN] and the default *)
Definition exec_control (sc : scope S) (code : bytes) (dests : gset Z) (st : list Z) (mem : bytes)
    (pc : Z) (op : Z) : result outcome :=
  if op =? opJUMP then
    '(dest, st) ← pop st;
    match toIndex dest with
    | Some d => if bool_decide (d ∈ dests) then Ok (Next sc st mem d) else Err ErrInvalidJump
    | None => Err ErrInvalidJump
    end
  else if op =? opJUMPI then
    '(dest, st) ← pop st; '(cond, st) ← pop st;
    if cond =? 0 then Ok (Next sc st mem (pc + 1))
    else
      match toIndex dest with
      | Some d => if bool_decide (d ∈ dests) then Ok (Next sc st mem d) else Err ErrInvalidJump
      | None => Err ErrInvalidJump
      end
  else if op =? opJUMPDEST then Ok (Next sc st mem (pc + 1))
  else if is_push op then
    let n := op - opPUSH1 + 1 in
    let start := pc + 1 in
    let buf := copy_fixed (Z.to_nat n) (drop (Z.to_nat start) code) in
    st ← push st (be_decode buf); Ok (Next sc st mem (start + n))
  else if op =? opDUP1 then
    v ← peek st 0; st ← push st v; Ok (Next sc st mem (pc + 1))
  else if op =? opSWAP1 then
    st ← swap1 st; Ok (Next sc st mem (pc + 1))
  else if op =? opRETURN then
    '(off, st) ← pop st; '(size, st) ← pop st;
    match toIndex off, toIndex size with
    | Some oi, Some si =>
        if maxMemBytes <? oi + si then Err ErrMemoryLimit
        else
          let mem := ensureMem mem (oi + si) in
          Ok (Return (slice (Z.to_nat oi) (Z.to_nat (oi + si)) mem) sc)
    | _, _ => Err ErrMemoryLimit
    end
  else Err ErrInvalidOpcode.

(** the cases of [run]'s switch, except [CALL] *)
Definition exec_op (sc : scope S) (code : bytes) (dests : gset Z) (self : Address)
    (callValue : Z) (calldata : bytes) (st : list Z) (mem : bytes) (pc : Z) (op : Z)
    : result outcome :=
  if op =? opSTOP then Ok (Return [] sc)
  else if op =? opADD then
    '(a, b, st) ← pop2 st; st ← push st (wrap (a + b)); Ok (Next sc st mem (pc + 1))
  else if op =? opSUB then
    '(a, b, st) ← pop2 st; st ← push st (wrap (a - b)); Ok (Next sc st mem (pc + 1))
  else if op =? opMUL then
    '(a, b, st) ← pop2 st; st ← push st (wrap (a * b)); Ok (Next sc st mem (pc + 1))
  else if op =? opDIV then
    '(a, b, st) ← pop2 st;
    st ← push st (if b =? 0 then 0 else a / b); Ok (Next sc st mem (pc + 1))
  else if op =? opLT then
    '(a, b, st) ← pop2 st; st ← push st (boolWord (a <? b)); Ok (Next sc st mem (pc + 1))
  else if op =? opGT then
    '(a, b, st) ← pop2 st; st ← push st (boolWord (b <? a)); Ok (Next sc st mem (pc + 1))
  else if op =? opEQ then
    '(a, b, st) ← pop2 st; st ← push st (boolWord (a =? b)); Ok (Next sc st mem (pc + 1))
  else if op =? opISZERO then
    '(a, st) ← pop st; st ← push st (boolWord (a =? 0)); Ok (Next sc st mem (pc + 1))
  else if op =? opCALLVALUE then
    st ← push st callValue; Ok (Next sc st mem (pc + 1))
  else if op =? opCALLDATASIZE then
    st ← push st (Z.of_nat (length calldata)); Ok (Next sc st mem (pc + 1))
  else if op =? opCALLDATALOAD then
    '(off, st) ← pop st;
    st ← push st (be_decode (readData calldata off)); Ok (Next sc st mem (pc + 1))
  else if op =? opPOP then
    '(_, st) ← pop st; Ok (Next sc st mem (pc + 1))
  else if op =? opMLOAD then
    '(off, st) ← pop st;
    match toIndex off with
    | None => Err ErrMemoryLimit
    | Some idx =>
        if maxMemBytes <? idx + 32 then Err ErrMemoryLimit
        else
          let mem := ensureMem mem (idx + 32) in
          st ← push st (be_decode (slice (Z.to_nat idx) (Z.to_nat (idx + 32)) mem));
          Ok (Next sc st mem (pc + 1))
    end
  else if op =? opMSTORE then
    '(off, st) ← pop st; '(val, st) ← pop st;
    match toIndex off with
    | None => Err ErrMemoryLimit
    | Some idx =>
        if maxMemBytes <? idx + 32 then Err ErrMemoryLimit
        else
          let mem := ensureMem mem (idx + 32) in
          Ok (Next sc st (splice (Z.to_nat idx) (bigToHash val) mem) (pc + 1))
    end
  else if op =? opSLOAD then
    '(key, st) ← pop st;
    st ← push st (be_decode (getStorage sc self (bigToHash key)));
    Ok (Next sc st mem (pc + 1))
  else if op =? opSSTORE then
    '(key, st) ← pop st; '(val, st) ← pop st;
    Ok (Next (setStorage sc self (bigToHash key) (bigToHash val)) st mem (pc + 1))
  else exec_control sc code dests st mem pc op.

(** ** CALL *)

(** a frame: gas, scope, depth, code, self, call value, calldata *)
Definition frame_runner : Type :=
  gasMeter -> scope S -> Z -> bytes -> Address -> Z -> bytes ->
  option (gasMeter * result (bytes * scope S)).

(** the seven arguments *)
Definition pop_call (st : list Z) : result (Z * Z * Z * Z * Z * Z * list Z) :=
  '(_, st) ← pop st; '(addrW, st) ← pop st; '(valueW, st) ← pop st;
  '(argsOff, st) ← pop st; '(argsSize, st) ← pop st;
  '(retOff, st) ← pop st; '(retSize, st) ← pop st;
  Ok (addrW, valueW, argsOff, argsSize, retOff, retSize, st).

(** after a successful callee: copy the return data, push 1 *)
Definition finish_call (st : list Z) (mem ret : bytes) (retOff retSize : Z)
    : result (list Z * bytes) :=
  match toIndex retOff, toIndex retSize with
  | Some oi, Some rs =>
      if maxMemBytes <? oi + rs then Err ErrMemoryLimit
      else
        let mem :=
          if 0 <? rs then
            let mem := ensureMem mem (oi + rs) in
            splice (Z.to_nat oi) (take (Z.to_nat (Z.min rs (Z.of_nat (length ret)))) ret) mem
          else mem in
        st ← push st 1; Ok (st, mem)
  | _, _ => Err ErrMemoryLimit
  end.

(** [opCall]; the result is the scope, stack and memory to go on with *)
Definition opCall (run : frame_runner) (g : gasMeter) (sc : scope S) (depth : Z)
    (st : list Z) (mem : bytes) (self : Address)
    : option (gasMeter * result (scope S * list Z * bytes)) :=
  match pop_call st with
  | Err e => Some (g, Err e)
  | Ok (addrW, valueW, argsOff, argsSize, retOff, retSize, st) =>
      let to := addrFromWord addrW in
      let value := if IsUint64 valueW then valueW else 0 in
      if MaxCallDepth <? depth + 1 then
        Some (g, st ← push st 0; Ok (sc, st, mem))
      else
        match toIndex argsOff, toIndex argsSize with
        | Some ai, Some asz =>
            if maxMemBytes <? ai + asz then Some (g, Err ErrMemoryLimit)
            else
              let mem := ensureMem mem (ai + asz) in
              let input := slice (Z.to_nat ai) (Z.to_nat (ai + asz)) mem in
              match transfer (child sc) self to value with
              | Err _ => Some (g, st ← push st 0; Ok (sc, st, mem))
              | Ok ch =>
                  '(g, r) ← run g ch (depth + 1) (getCode ch to) to value input;
                  Some (g,
                    match r with
                    | Err e =>
                        if bool_decide (e = ErrOutOfGas) then Err e
                        else st ← push st 0; Ok (sc, st, mem)
                    | Ok (ret, ch) =>
                        '(st, mem) ← finish_call st mem ret retOff retSize;
                        Ok (commit ch, st, mem)
                    end)
              end
        | _, _ => Some (g, Err ErrMemoryLimit)
        end
  end.

(** ** The loop *)

Fixpoint run_loop (fuel : nat) (g : gasMeter) (sc : scope S) (depth : Z) (code : bytes)
    (dests : gset Z) (self : Address) (callValue : Z) (calldata : bytes)
    (st : list Z) (mem : bytes) (pc : Z) : option (gasMeter * result (bytes * scope S)) :=
  match fuel with
  | O => None
  | Datatypes.S fuel' =>
      if Z.of_nat (length code) <=? pc then Some (g, Ok ([], sc))
      else
        let op := nth (Z.to_nat pc) code 0 in
        let '(g, ok) := charge g (gasCost op) in
        match ok with
        | Err e => Some (g, Err e)
        | Ok _ =>
            if op =? opCALL then
              '(g, r) ← opCall (fun g sc depth code self callValue calldata =>
                           run_loop fuel' g sc depth code (validJumpdests code) self
                             callValue calldata [] [] 0)
                         g sc depth st mem self;
              match r with
              | Err e => Some (g, Err e)
              | Ok (sc, st, mem) =>
                  run_loop fuel' g sc depth code dests self callValue calldata st mem (pc + 1)
              end
            else
              match exec_op sc code dests self callValue calldata st mem pc op with
              | Err e => Some (g, Err e)
              | Ok (Return ret sc) => Some (g, Ok (ret, sc))
              | Ok (Next sc st mem pc) =>
                  run_loop fuel' g sc depth code dests self callValue calldata st mem pc
              end
        end
  end.

Definition run (fuel : nat) : frame_runner :=
  fun g sc depth code self callValue calldata =>
    run_loop fuel g sc depth code (validJumpdests code) self callValue calldata [] [] 0.

(** ** Messages *)

Definition create (st : S) (g : gasMeter) (root : scope S) (msg : Message) : S * Receipt :=
  let '(g, ok) := charge g GasCreate in
  match ok with
  | Err _ => (st, mkReceipt (g_limit g) false [] None (Some ErrOutOfGas))
  | Ok _ =>
      let addr := CreateAddress (msg_From msg) (msg_Nonce msg) in
      match transfer root (msg_From msg) addr (msg_Value msg) with
      | Err e => (st, mkReceipt (g_used g) false [] None (Some e))
      | Ok root =>
          let root := setCode root addr (msg_Data msg) in
          (commit_root root, mkReceipt (g_used g) true [] (Some addr) None)
      end
  end.

(** [Execute]; [None] when the fuel runs out *)
Definition Execute_fuel (fuel : nat) (st : S) (msg : Message) : option (S * Receipt) :=
  let g := mkGas (msg_GasLimit msg) 0 in
  let root := newScope st in
  match msg_To msg with
  | None => Some (create st g root msg)
  | Some self =>
      match transfer root (msg_From msg) self (msg_Value msg) with
      | Err e => Some (st, mkReceipt (g_used g) false [] None (Some e))
      | Ok root =>
          '(g, r) ← run fuel g root 0 (getCode root self) self (msg_Value msg) (msg_Data msg);
          Some match r with
               | Err e => (st, mkReceipt (finalGas g e) false [] None (Some e))
               | Ok (ret, root) =>
                   (commit_root root, mkReceipt (g_used g) true ret None None)
               end
      end
  end.

Definition vm_fuel (gasLimit : Z) : nat := Z.to_nat (gasLimit + 2).

Definition Execute (st : S) (msg : Message) : S * Receipt :=
  default (st, mkReceipt 0 false [] None (Some ErrFuel))
    (Execute_fuel (vm_fuel (msg_GasLimit msg)) st msg).
End Scope.
