(* ===== verification/StackVMProps.v ===== *)
(** * What the stack machine guarantees

    Gas bounds the execution and the fuel; balances are conserved; a failed
    message changes nothing; the machine stays within its limits. *)

From S2P Require Import Prelude Sha256 Core StateDB StackVM.

(** ** Gas *)

Definition gas_ok (g : gasMeter) : Prop := 0 <= g_used g <= g_limit g /\ g_limit g < two64.

(** [gas_le g g']: the same budget, at least as much used *)
Definition gas_le (g g' : gasMeter) : Prop :=
  g_limit g' = g_limit g /\ g_used g <= g_used g' /\ gas_ok g'.

Lemma gasCost_range op : 0 <= gasCost op <= 5000.
Proof. unfold gasCost, gasCall. repeat case_match; lia. Qed.

Lemma charge_spec g c :
  gas_ok g -> 0 <= c < two63 ->
  (exists g', charge g c = (g', Err ErrOutOfGas) /\ gas_le g g') \/
  (exists g', charge g c = (g', Ok tt) /\ gas_le g g' /\ g_used g' = g_used g + c).
Proof.
  intros [Hu Hl] Hc. unfold charge.
  destruct (orb _ _) eqn:E.
  - left. eexists. split; [done|]. split_and!; simpl; try done; [lia|]. split; simpl; lia.
  - right. apply orb_false_iff in E as [E1 E2].
    rewrite Z.ltb_ge in E1. rewrite Z.ltb_ge in E2.
    assert (u64 (g_used g + c) = g_used g + c) as Eu.
    { destruct (Z.lt_ge_cases (g_used g + c) two64); [apply u64_small; lia|].
      assert (u64 (g_used g + c) = g_used g + c - two64) as E.
      { unfold u64. rewrite <- (Z_mod_plus_full _ (-1)). apply Z.mod_small. unfold two63 in *.
        unfold two64 in *. lia. }
      rewrite E in E2. unfold two63, two64 in *. lia. }
    exists (mkGas (g_limit g) (g_used g + c)). rewrite Eu in E1. rewrite Eu.
    split; [done|]. split; [|done]. split_and!; simpl; [done|lia|]. split; simpl; lia.
Qed.

Lemma gas_le_trans g1 g2 g3 : gas_le g1 g2 -> gas_le g2 g3 -> gas_le g1 g3.
Proof. intros (? & ? & _) (? & ? & ?). split_and!; [congruence|lia|done]. Qed.

Lemma gas_le_ok g g' : gas_le g g' -> gas_ok g'.
Proof. by intros (_ & _ & ?). Qed.

Lemma gas_le_refl g : gas_ok g -> gas_le g g.
Proof. intros. split_and!; done || lia. Qed.

Section Machine.
Context {S : Type} `{HS : StateDB S}.

(** case analysis of a monadic chain: destructs the scrutinee of the first match *)
Ltac step_result H :=
  match type of H with
  | context [match ?r with Ok _ => _ | Err _ => _ end] => destruct r eqn:?; try discriminate H
  end.

Ltac mon H :=
  repeat (simpl mbind in H; unfold mbind, result_bind in H; cbv beta iota in H;
          match type of H with
          | context [match ?x with _ => _ end] => destruct x eqn:?; try discriminate H
          end).

(** an instruction that goes on costs gas *)
Lemma exec_op_next_cost sc code dests self cv cd st mem pc op sc' st' mem' pc' :
  exec_op (S := S) sc code dests self cv cd st mem pc op = Ok (Next sc' st' mem' pc') ->
  1 <= gasCost op.
Proof.
  unfold exec_op, exec_control, gasCost. intros E.
  destruct (op =? opSTOP) eqn:E0; [discriminate|].
  destruct (op =? opRETURN) eqn:ER.
  { apply Z.eqb_eq in ER. subst op. simpl in E. mon E. }
  simpl orb. cbv iota.
  repeat (match goal with
          | |- context [if ?b then _ else _] =>
              lazymatch b with
              | orb ?x ?y => destruct x eqn:?; [simpl orb; cbv iota; lia|simpl orb]
              | _ => destruct b eqn:?; [try (unfold gasCall; lia)|]
              end
          end; cbv iota).
  all: repeat match goal with
              | HH : orb _ _ = false |- _ => apply orb_false_iff in HH as [? ?]
              end.
  all: simpl in E; repeat match goal with HH : _ = false |- _ => rewrite HH in E; clear HH end.
  all: simpl in E; discriminate E.
Qed.

(** *** The loop under a spec of the callee *)

(** the callee only adds to the gas used *)
Definition runner_gas (run : frame_runner (S := S)) : Prop :=
  forall g sc d code self cv cd g' r,
    gas_ok g -> run g sc d code self cv cd = Some (g', r) -> gas_le g g'.

(** the callee returns when the gas left is below [n] *)
Definition runner_total (run : frame_runner (S := S)) (n : Z) : Prop :=
  forall g sc d code self cv cd,
    gas_ok g -> g_limit g - g_used g < n -> is_Some (run g sc d code self cv cd).

Lemma opCall_gas run g sc d st mem self g' r :
  runner_gas run -> gas_ok g -> opCall (S := S) run g sc d st mem self = Some (g', r) ->
  gas_le g g'.
Proof.
  intros Hrun Hg. unfold opCall.
  destruct (pop_call st) as [[[[[[[? ?] ?] ?] ?] ?] ?]|]; [|intros [= <- _]; by apply gas_le_refl].
  case_match; [intros [= <- _]; by apply gas_le_refl|].
  case_match; [|intros [= <- _]; by apply gas_le_refl].
  case_match; [|intros [= <- _]; by apply gas_le_refl].
  case_match; [intros [= <- _]; by apply gas_le_refl|].
  destruct (transfer _ _ _ _); [|intros [= <- _]; by apply gas_le_refl].
  destruct (run _ _ _ _ _ _ _) as [[g1 r1]|] eqn:E; [|done]. simpl. intros [= <- _].
  by eapply Hrun.
Qed.

Lemma opCall_total run n g sc d st mem self :
  runner_total run n -> gas_ok g -> g_limit g - g_used g < n ->
  is_Some (opCall (S := S) run g sc d st mem self).
Proof.
  intros Hrun Hg Hn. unfold opCall.
  destruct (pop_call st) as [[[[[[[? ?] ?] ?] ?] ?] ?]|]; [|done].
  case_match; [done|]. case_match; [|done]. case_match; [|done]. case_match; [done|].
  destruct (transfer _ _ _ _) as [ch|]; [|done].
  match goal with |- context [run g ch ?d ?c ?a ?v ?i] =>
    destruct (Hrun g ch d c a v i Hg Hn) as [[g1 r1] E] end.
  rewrite E. done.
Qed.

Lemma run_loop_gas fuel g sc d code dests self cv cd st mem pc g' r :
  gas_ok g -> run_loop (S := S) fuel g sc d code dests self cv cd st mem pc = Some (g', r) ->
  gas_le g g'.
Proof.
  revert g sc d code dests self cv cd st mem pc g' r. induction fuel as [|fuel IH];
    intros g sc d code dests self cv cd st mem pc g' r Hg; [done|]. cbn [run_loop].
  case_match; [intros [= <- _]; by apply gas_le_refl|].
  pose proof (gasCost_range (nth (Z.to_nat pc) code 0)).
  destruct (charge_spec g (gasCost (nth (Z.to_nat pc) code 0))) as
    [(g1 & E & Hle)|(g1 & E & Hle & Hu)]; [done|unfold two63; lia| |]; rewrite E.
  { by intros [= <- _]. }
  destruct (_ =? opCALL).
  - destruct (opCall _ _ _ _ _ _ _) as [[g2 r2]|] eqn:Ec; [|done]. simpl.
    apply opCall_gas in Ec; [|intros ?????????; apply IH|by eapply gas_le_ok].
    destruct r2 as [[[sc2 st2] mem2]|e].
    + intros Hr. apply IH in Hr; [|by eapply gas_le_ok]. eauto using gas_le_trans.
    + intros [= <- _]. eauto using gas_le_trans.
  - destruct (exec_op _ _ _ _ _ _ _ _ _ _) as [[sc2 st2 mem2 pc2|ret sc2]|e].
    + intros Hr. apply IH in Hr; [|by eapply gas_le_ok]. eauto using gas_le_trans.
    + by intros [= <- _].
    + by intros [= <- _].
Qed.

(** the gas left bounds the number of instructions *)
Lemma run_loop_total fuel g sc d code dests self cv cd st mem pc :
  gas_ok g -> g_limit g - g_used g + 1 < Z.of_nat fuel ->
  is_Some (run_loop (S := S) fuel g sc d code dests self cv cd st mem pc).
Proof.
  revert g sc d code dests self cv cd st mem pc. induction fuel as [|fuel IH];
    intros g sc d code dests self cv cd st mem pc Hg Hf; [destruct Hg; lia|]. cbn [run_loop].
  case_match; [done|].
  pose proof (gasCost_range (nth (Z.to_nat pc) code 0)).
  destruct (charge_spec g (gasCost (nth (Z.to_nat pc) code 0))) as
    [(g1 & E & Hle)|(g1 & E & Hle & Hu)]; [done|unfold two63; lia| |]; rewrite E; [done|].
  destruct Hle as (Hl1 & Hu1 & Hg1).
  destruct (Z.eqb_spec (nth (Z.to_nat pc) code 0) opCALL) as [Eop|_].
  - rewrite Eop in Hu. change (gasCost opCALL) with 700 in Hu.
    match goal with |- context [opCall ?R _ _ _ _ _ _] => set (runner := R) end.
    assert (Hgas : runner_gas runner) by (intros ?????????; apply run_loop_gas).
    destruct (opCall_total runner (Z.of_nat fuel - 1) g1 sc d st mem self) as [[g2 r2] Ec].
    { intros ??????? Hg' Hn. apply IH; [done|lia]. }
    { done. }
    { lia. }
    rewrite Ec. simpl. apply opCall_gas in Ec as (Hl2 & Hu2 & Hg2); [|done|done].
    destruct r2 as [[[sc2 st2] mem2]|e]; [|done]. apply IH; [done|lia].
  - destruct (exec_op _ _ _ _ _ _ _ _ _ _) as [[sc2 st2 mem2 pc2|ret sc2]|e] eqn:Eo; try done.
    apply exec_op_next_cost in Eo. apply IH; [done|lia].
Qed.

(** *** Invariants of the scope *)

(** all an instruction does to the scope is one storage write *)
Lemma exec_op_scope sc code dests self cv cd st mem pc op o :
  exec_op (S := S) sc code dests self cv cd st mem pc op = Ok o ->
  match o with
  | Next sc' _ _ _ =>
      sc' = sc \/ exists k v, sc' = setStorage sc self (bigToHash k) (bigToHash v)
  | Return _ sc' => sc' = sc
  end.
Proof.
  unfold exec_op, exec_control. intros E.
  repeat match type of E with
         | (if ?b then _ else _) = _ => destruct b; [mon E; injection E as <-; eauto|]
         end.
  discriminate E.
Qed.

(** An invariant of the scopes with [n] journals, kept by what the machine does
    to a scope, holds of the scope a frame ends with. *)
Definition scope_inv (I : nat -> scope S -> Prop) : Prop :=
  (forall n sc a k v, I n sc -> hash_wf v -> I n (setStorage sc a k v)) /\
  (forall n sc, I n sc -> I (Datatypes.S n) (child sc)) /\
  (forall n sc from to v sc', I n sc -> is_u64 v -> transfer sc from to v = Ok sc' -> I n sc') /\
  (forall n sc, I (Datatypes.S n) sc -> (0 < n)%nat -> I n (commit sc)).

Definition runner_inv (I : nat -> scope S -> Prop) (run : frame_runner (S := S)) : Prop :=
  forall n g sc d code self cv cd g' ret sc', (0 < n)%nat -> I n sc ->
    run g sc d code self cv cd = Some (g', Ok (ret, sc')) -> I n sc'.

Lemma opCall_inv I run n g sc d st mem self g' sc' st' mem' :
  scope_inv I -> runner_inv I run -> (0 < n)%nat -> I n sc ->
  opCall (S := S) run g sc d st mem self = Some (g', Ok (sc', st', mem')) -> I n sc'.
Proof.
  intros (_ & Hch & Htr & Hco) Hrun Hn Hsc. unfold opCall.
  destruct (pop_call st) as [[[[[[[? valueW] ?] ?] ?] ?] st1]|]; [|done].
  assert (Hfail : forall g0 mem1, Some (g0, st2 ← push st1 0; Ok (sc, st2, mem1))
                    = Some (g', Ok (sc', st', mem')) -> I n sc').
  { intros g0 mem1. destruct (push st1 0); [|discriminate]. by intros [= _ <- _ _]. }
  case_match; [apply Hfail|]. case_match; [|discriminate]. case_match; [|discriminate].
  case_match; [discriminate|].
  destruct (transfer _ _ _ _) as [ch|] eqn:Et; [|apply Hfail].
  assert (Hchild : I (Datatypes.S n) ch).
  { eapply Htr; [by apply Hch| |exact Et]. destruct (IsUint64 valueW) eqn:Ev; [|done].
    unfold IsUint64 in Ev. apply andb_true_iff in Ev as [?%Z.leb_le ?%Z.ltb_lt]. lia. }
  destruct (run _ _ _ _ _ _ _) as [[g1 [[ret ch']|e]]|] eqn:Er; simpl; [| |done].
  - destruct (finish_call _ _ _ _ _) as [[st2 mem2]|]; [|done]. simpl. intros [= _ <- _ _].
    apply Hco; [|done]. eapply Hrun; [|exact Hchild|exact Er]. lia.
  - case_bool_decide; [discriminate|]. apply Hfail.
Qed.

Lemma run_loop_inv I fuel n g sc d code dests self cv cd st mem pc g' ret sc' :
  scope_inv I -> (0 < n)%nat -> I n sc ->
  run_loop (S := S) fuel g sc d code dests self cv cd st mem pc = Some (g', Ok (ret, sc')) ->
  I n sc'.
Proof.
  intros HI. revert n g sc d code dests self cv cd st mem pc g' ret sc'.
  induction fuel as [|fuel IH];
    intros n g sc d code dests self cv cd st mem pc g' ret sc' Hn Hsc; [done|]. cbn [run_loop].
  case_match; [by intros [= _ _ <-]|].
  destruct (charge _ _) as [g1 [|]]; [|done]. destruct (_ =? opCALL).
  - destruct (opCall _ _ _ _ _ _ _) as [[g2 [[[sc2 st2] mem2]|e]]|] eqn:Ec; simpl; [|done|done].
    eapply opCall_inv in Ec; [|exact HI| |done|done].
    + intros Hr. by eapply IH in Hr.
    + intros ???????????. apply IH.
  - destruct (exec_op _ _ _ _ _ _ _ _ _ _) as [[sc2 st2 mem2 pc2|ret2 sc2]|e] eqn:Eo; [| |done].
    + apply exec_op_scope in Eo as [->|(k & v & ->)]; intros Hr; eapply IH in Hr; eauto.
      apply HI; [done|]. split; [apply length_be|apply be_bytes].
    + apply exec_op_scope in Eo as ->. by intros [= _ _ <-].
Qed.
End Machine.

(** ** Scopes over a lawful state *)

Section Conservation.
Context {S : Type} `{HL : StateDBLaws S}.

Lemma getAccount_setAccount (sc : scope S) a x b :
  sc_journals sc <> [] ->
  getAccount (setAccount sc a x) b = if decide (b = a) then x else getAccount sc b.
Proof.
  intros Hne. unfold getAccount, setAccount, on_top. destruct (sc_journals sc) as [|j js] eqn:E; [done|].
  simpl. rewrite lookup_insert, (decide_ext (a = b) (b = a)) by (split; congruence).
  by case_decide.
Qed.

Lemma getAccount_setStorage (sc : scope S) a k v b : getAccount (setStorage sc a k v) b = getAccount sc b.
Proof. unfold getAccount, setStorage, on_top. by destruct (sc_journals sc) eqn:E; simpl; rewrite ?E. Qed.

Lemma getAccount_setCode (sc : scope S) a c b : getAccount (setCode sc a c) b = getAccount sc b.
Proof. unfold getAccount, setCode, on_top. by destruct (sc_journals sc) eqn:E; simpl; rewrite ?E. Qed.

Lemma getAccount_commit (sc : scope S) a : getAccount (commit sc) a = getAccount sc a.
Proof.
  unfold getAccount, commit. destruct (sc_journals sc) as [|j [|p js]] eqn:E; simpl; rewrite ?E; [done..|].
  simpl. rewrite lookup_union. by destruct (j_acct j !! a), (j_acct p !! a).
Qed.

(** staged accounts come from the base, staged words are 32 bytes *)
Definition journal_ok (b : S) (j : journal) : Prop :=
  (forall a x, j_acct j !! a = Some x -> same_roots x (GetAccount b a)) /\
  (forall a m k v, j_storage j !! a = Some m -> m !! k = Some v -> length v = HashLen).

Definition sc_balance (sc : scope S) (a : Address) : Z := Balance (getAccount sc a).

Record vm_inv (b : S) (N : Z) (n : nat) (sc : scope S) : Prop := {
  vi_base : sc_base sc = b;
  vi_len : length (sc_journals sc) = n;
  vi_pos : (0 < n)%nat;
  vi_ok : Forall (journal_ok b) (sc_journals sc);
  vi_nonce : forall a, Nonce (getAccount sc a) = nonce b a;
  vi_supply : supply_of (sc_balance sc) N;
}.

Lemma vm_inv_nonempty b N n sc : vm_inv b N n sc -> sc_journals sc <> [].
Proof. intros [_ Hl Hp _ _ _] E. rewrite E in Hl. simpl in Hl. lia. Qed.

Lemma journals_same_roots b js a :
  Forall (journal_ok b) js -> same_roots (journals_account b js a) (GetAccount b a).
Proof.
  induction js as [|j js IH]; intros Hj; [apply same_roots_refl|]. simpl.
  apply Forall_cons in Hj as [[Hj _] Hjs]. destruct (j_acct j !! a) eqn:E; [by apply Hj|auto].
Qed.

Lemma on_top_inv b f (sc : scope S) :
  sc_base sc = b -> Forall (journal_ok b) (sc_journals sc) ->
  (forall j, journal_ok b j -> journal_ok b (f j)) ->
  sc_base (on_top f sc) = b /\ length (sc_journals (on_top f sc)) = length (sc_journals sc) /\
  Forall (journal_ok b) (sc_journals (on_top f sc)).
Proof.
  intros Hb Hj Hf. unfold on_top. destruct (sc_journals sc) as [|j js] eqn:E; simpl.
  - by rewrite E.
  - apply Forall_cons in Hj as [? ?]. split_and!; [done|done|]. constructor; auto.
Qed.

Lemma setAccount_inv b N n sc a x N' :
  vm_inv b N n sc -> same_roots x (GetAccount b a) -> Nonce x = nonce b a -> 0 <= Balance x ->
  N' = N - sc_balance sc a + Balance x -> vm_inv b N' n (setAccount sc a x).
Proof.
  intros V Hr Hn Hx ->. pose proof (vm_inv_nonempty _ _ _ _ V) as Hne. destruct V as [Hb Hl Hp Hj Hno Hs].
  destruct (on_top_inv b (fun j => mkJournal (<[a := x]> (j_acct j)) (j_code j) (j_storage j)) sc)
    as (B & L & J); [done|done| |].
  { intros j [J1 J2]. split; [|exact J2]. simpl. intros a' x'. rewrite lookup_insert.
    case_decide; [|apply J1]. subst a'. by intros [= <-]. }
  split; [exact B|by rewrite <- Hl|done|exact J| |].
  - intros c. rewrite getAccount_setAccount by done. by case_decide; subst.
  - eapply supply_of_ext; [|by apply (supply_of_set _ _ a (Balance x))]. intros c. cbv beta.
    unfold sc_balance. rewrite getAccount_setAccount by done. by case_decide.
Qed.

Lemma getAccount_roots b N n sc a : vm_inv b N n sc -> same_roots (getAccount sc a) (GetAccount b a).
Proof. intros [<- _ _ Hj _ _]. by apply journals_same_roots. Qed.

Lemma transfer_inv b N n sc from to v sc' :
  N < two64 -> vm_inv b N n sc -> is_u64 v -> transfer sc from to v = Ok sc' -> vm_inv b N n sc'.
Proof.
  intros HN V Hv. unfold transfer. destruct (orb _ _) eqn:E; [by intros [= <-]|].
  apply orb_false_iff in E as [_ E]. apply bool_decide_eq_false in E.
  destruct (Z.ltb_spec (Balance (getAccount sc from)) v) as [|Hge]; [done|]. intros [= <-].
  pose proof (supply_of_le _ _ from (vi_supply _ _ _ _ V)) as Hf. unfold sc_balance in Hf.
  pose proof (supply_of_two _ _ from to (vi_supply _ _ _ _ V) E) as Hft. unfold sc_balance in Hft.
  pose proof (supply_of_nonneg _ _ to (vi_supply _ _ _ _ V)) as Ht. unfold sc_balance in Ht.
  assert (Hne : sc_journals sc <> []) by (by eapply vm_inv_nonempty).
  rewrite (getAccount_setAccount sc from _ to), decide_False by congruence.
  rewrite !u64_small by lia.
  assert (V1 : vm_inv b (N - v) n (setAccount sc from (set_balance (getAccount sc from)
                 (Balance (getAccount sc from) - v)))).
  { eapply setAccount_inv; [exact V| | | |].
    - eapply same_roots_trans; [apply same_roots_balance|by eapply getAccount_roots].
    - apply V.
    - simpl. lia.
    - unfold sc_balance. simpl. lia. }
  eapply setAccount_inv; [exact V1| | | |].
  - eapply same_roots_trans; [apply same_roots_balance|by eapply getAccount_roots].
  - apply V.
  - simpl. lia.
  - unfold sc_balance. rewrite getAccount_setAccount, decide_False by congruence. simpl. lia.
Qed.

Lemma transfer_err (sc : scope S) from to v e : transfer sc from to v = Err e -> e = ErrInsufficientFunds.
Proof. unfold transfer. repeat case_match; congruence. Qed.

Lemma vm_inv_scope_inv b N : N < two64 -> scope_inv (vm_inv b N).
Proof.
  intros HN. split_and!.
  - intros n sc a k v [Hb Hl Hp Hj Hno Hs] [Hv _].
    destruct (on_top_inv b (fun j => mkJournal (j_acct j) (j_code j)
      (<[a := <[k := v]> (default ∅ (j_storage j !! a))]> (j_storage j))) sc)
      as (B & L & J); [done|done| |].
    { intros j [J1 J2]. split; [exact J1|]. simpl. intros a' m k' v'. rewrite lookup_insert.
      case_decide as E; [|apply J2]. intros [= <-]. rewrite lookup_insert.
      case_decide; [by intros [= <-]|]. destruct (j_storage j !! a) as [m|] eqn:Em; simpl.
      - by eapply J2.
      - by rewrite lookup_empty. }
    split; [exact B|by rewrite <- Hl|done|exact J| |].
    + intros c. rewrite getAccount_setStorage. apply Hno.
    + eapply supply_of_ext; [|exact Hs]. intros c. unfold sc_balance.
      by rewrite getAccount_setStorage.
  - intros n sc [Hb Hl Hp Hj Hno Hs]. split; simpl; [done|by rewrite Hl|lia| |done|done].
    constructor; [|done]. split; simpl.
    + intros a x Hx. by rewrite lookup_empty in Hx.
    + intros a m k v Hx. by rewrite lookup_empty in Hx.
  - intros n sc from to v sc'. by apply transfer_inv.
  - intros n sc [Hb Hl Hp Hj Hno Hs] Hn.
    assert (Hacc : forall a, getAccount (commit sc) a = getAccount sc a) by apply getAccount_commit.
    destruct (sc_journals sc) as [|j [|p js]] eqn:E; simpl in Hl; [lia|lia|].
    unfold commit in *. rewrite E in *. apply Forall_cons in Hj as [[J1 J2] Hj].
    apply Forall_cons in Hj as [[P1 P2] Hj].
    split; simpl; [done|lia|done| | |].
    + constructor; [|done]. split; simpl.
      * intros a x [Hx|[_ Hx]]%lookup_union_Some_raw; [by apply J1|by apply P1].
      * intros a m k v. unfold merge_storage. rewrite lookup_union_with.
        destruct (j_storage j !! a) as [mj|] eqn:Ej, (j_storage p !! a) as [mp|] eqn:Ep; simpl;
          try done; intros [= <-].
        { intros [Hx|[_ Hx]]%lookup_union_Some_raw; [by eapply J2|by eapply P2]. }
        { by eapply J2. }
        { by eapply P2. }
    + intros a. rewrite Hacc. apply Hno.
    + eapply supply_of_ext; [|exact Hs]. intros a. unfold sc_balance. by rewrite Hacc.
Qed.

(** *** Committing to the backing state *)

Lemma newScope_inv b N : supply b N -> vm_inv b N 1 (newScope b).
Proof.
  intros Hs. split; simpl; [done|done|lia| |done|exact Hs].
  constructor; [|done]. split; simpl.
  - intros a x Hx. by rewrite lookup_empty in Hx.
  - intros a m k v Hx. by rewrite lookup_empty in Hx.
Qed.

Lemma commit_root_spec b N sc :
  ok b -> vm_inv b N 1 sc ->
  ok (commit_root sc) /\ supply (commit_root sc) N /\
  (forall a, balance (commit_root sc) a = sc_balance sc a /\ nonce (commit_root sc) a = nonce b a) /\
  (forall a, GetCode (commit_root sc) a = getCode sc a) /\
  (forall a k, GetStorage (commit_root sc) a k = getStorage sc a k).
Proof.
  intros Hok [Hb Hl _ Hj Hno Hs]. unfold commit_root, getCode, getStorage, sc_balance, getAccount in *.
  destruct (sc_journals sc) as [|j [|]] eqn:E; try done. rewrite Forall_singleton in Hj.
  destruct Hj as [J1 J2]. rewrite Hb in *.
  destruct (flush_spec (mkOverlay b (j_acct j) (j_code j) (j_storage j))) as (O & A & C & T).
  { by split_and!. }
  assert (HA : forall a, GetAccount (mkOverlay b (j_acct j) (j_code j) (j_storage j)) a
                         = journals_account b [j] a) by done.
  split_and!; [done| | | |].
  - eapply supply_of_ext; [|exact Hs]. intros a. destruct (A a) as [-> _]. done.
  - intros a. destruct (A a) as [-> ->]. split; [done|]. rewrite <- Hno. done.
  - intros a. rewrite C. done.
  - intros a k. rewrite T. simpl. unfold ov_GetStorage. simpl. by destruct (j_storage j !! a).
Qed.

(** ** Execute *)

Lemma Execute_terminates st msg :
  is_u64 (msg_GasLimit msg) ->
  Execute_fuel (vm_fuel (msg_GasLimit msg)) st msg = Some (Execute st msg).
Proof.
  intros Hgl. unfold Execute.
  destruct (Execute_fuel (vm_fuel (msg_GasLimit msg)) st msg) as [p|] eqn:E; [done|].
  exfalso. unfold Execute_fuel in E. destruct (msg_To msg); [|done].
  destruct (transfer _ _ _ _) as [root|]; [|done].
  match type of E with context [run ?f ?g ?sc ?d ?c ?a ?v ?i] =>
    destruct (run_loop_total f g sc d c (validJumpdests c) a v i [] [] 0) as [[g' r] Er] end.
  - split; simpl; lia.
  - simpl. unfold vm_fuel. lia.
  - unfold run in E. rewrite Er in E. done.
Qed.

Lemma Execute_gas_bound st msg :
  is_u64 (msg_GasLimit msg) ->
  0 <= r_GasUsed (snd (Execute st msg)) <= msg_GasLimit msg /\
  (r_Err (snd (Execute st msg)) = Some ErrOutOfGas ->
   r_GasUsed (snd (Execute st msg)) = msg_GasLimit msg).
Proof.
  intros Hgl. pose proof (Execute_terminates st msg Hgl) as E. revert E.
  generalize (Execute st msg). intros [st' r]. unfold Execute_fuel.
  assert (Hg : gas_ok (mkGas (msg_GasLimit msg) 0)) by (split; simpl; lia).
  destruct (msg_To msg) as [self|].
  - destruct (transfer _ _ _ _) as [root|e] eqn:Et.
    + destruct (run _ _ _ _ _ _ _ _) as [[g' res]|] eqn:Er; [|done]. simpl.
      apply run_loop_gas in Er as (Hl & Hu & Hok); [|done]. destruct Hok as [Hu' Hl']. simpl in *.
      destruct res as [[ret root']|e]; intros [= <- <-]; simpl; [split; [lia|done]|].
      unfold finalGas. case_bool_decide as Ee.
      * split; [lia|done].
      * split; [lia|]. congruence.
    + apply transfer_err in Et as ->. intros [= <- <-]. simpl. split; [lia|done].
  - unfold create. destruct (charge_spec (mkGas (msg_GasLimit msg) 0) GasCreate)
      as [(g1 & E & Hle)|(g1 & E & Hle & Hu)]; [done|unfold GasCreate, two63; lia| |]; rewrite E.
    + intros [= <- <-]. simpl. destruct Hle as (-> & _ & _). simpl. split; [lia|done].
    + destruct Hle as (Hl & _ & [Hu1 _]). simpl in *. destruct (transfer _ _ _ _) as [root|e] eqn:Et.
      * intros [= <- <-]. simpl. split; [lia|done].
      * intros [= <- <-]. simpl. split; [lia|].
        apply transfer_err in Et as ->. done.
Qed.

Lemma Execute_inv st msg N :
  ok st -> supply st N -> N < two64 -> is_u64 (msg_Value msg) -> is_u64 (msg_GasLimit msg) ->
  let st' := fst (Execute st msg) in
  ok st' /\ supply st' N /\ (forall a, nonce st' a = nonce st a) /\
  (r_Success (snd (Execute st msg)) = false -> st' = st).
Proof.
  intros Hok Hs HN Hv Hgl. pose proof (Execute_terminates st msg Hgl) as E. revert E.
  generalize (Execute st msg). intros [st' r]. unfold Execute_fuel. simpl fst. simpl snd.
  pose proof (newScope_inv st N Hs) as V0.
  assert (Hsame : ok st /\ supply st N /\ (forall a, nonce st a = nonce st a) /\
                  (r_Success r = false -> st = st)) by done.
  destruct (msg_To msg) as [self|].
  - destruct (transfer _ _ _ _) as [root|e] eqn:Et; [|by intros [= <- <-]].
    apply (transfer_inv st N 1) in Et; [|done|done|done].
    destruct (run _ _ _ _ _ _ _ _) as [[g' res]|] eqn:Er; [|done]. simpl.
    destruct res as [[ret root']|e]; intros [= <- <-]; [|done].
    unfold run in Er.
    apply (run_loop_inv _ _ 1%nat _ _ _ _ _ _ _ _ _ _ _ _ _ _ (vm_inv_scope_inv st N HN)
             (Nat.lt_0_succ 0) Et) in Er.
    destruct (commit_root_spec st N root' Hok Er) as (O & Hs' & A & _).
    split_and!; [done|done| |done]. intros a. apply A.
  - unfold create. destruct (charge _ _) as [g1 [u|]]; [|by intros [= <- <-]].
    destruct (transfer _ _ _ _) as [root|e] eqn:Et; [|by intros [= <- <-]].
    intros [= <- <-]. apply (transfer_inv st N 1) in Et; [|done|done|done].
    set (root' := setCode _ _ _).
    assert (V : vm_inv st N 1 root').
    { destruct Et as [Hb Hl Hp Hj Hno Hs'].
      destruct (on_top_inv st (fun j => mkJournal (j_acct j)
        (<[CreateAddress (msg_From msg) (msg_Nonce msg) := msg_Data msg]> (j_code j)) (j_storage j)) root)
        as (B & L & J); [done|done|done|].
      split; [exact B|by rewrite <- Hl|done|exact J| |].
      - intros a. unfold root'. rewrite getAccount_setCode. apply Hno.
      - eapply supply_of_ext; [|exact Hs']. intros a. unfold sc_balance, root'.
        by rewrite getAccount_setCode. }
    destruct (commit_root_spec st N root' Hok V) as (O & Hs' & A & _).
    split_and!; [done|done| |done]. intros a. apply A.
Qed.
End Conservation.

(** ** Properties *)

(** C7: execution terminates and gas bounds it.  For every message and state the
    run returns: [GasLimit + 2] units of fuel are enough, since every instruction
    that goes on costs gas; it reports at most [GasLimit] gas, and exactly [GasLimit] when it
    ran out. *)
Theorem Execute_total S `{StateDB S} (st : S) msg :
  is_u64 (msg_GasLimit msg) ->
  Execute_fuel (vm_fuel (msg_GasLimit msg)) st msg = Some (Execute st msg) /\
  0 <= r_GasUsed (snd (Execute st msg)) <= msg_GasLimit msg /\
  (r_Err (snd (Execute st msg)) = Some ErrOutOfGas ->
   r_GasUsed (snd (Execute st msg)) = msg_GasLimit msg).
Proof.
  intros Hgl. split; [by apply Execute_terminates|]. by apply Execute_gas_bound.
Qed.

Definition sample_state : memStateDB :=
  mem_SetCode (mem_SetAccount (mem_SetAccount NewMemStateDB [1] (mkAccount 500 3 zero_hash zero_hash))
    [2] (mkAccount 40 0 zero_hash zero_hash)) [2] [0x60; 9; 0x60; 1; 0x55; 0x5b; 0x60; 5; 0x56].

(** an endless loop after an SSTORE: it runs out of gas *)
Definition sample_msg : Message := mkMessage [1] (Some [2]) 100 20000 3 [].

Lemma Execute_total_witness :
  r_GasUsed (snd (Execute sample_state sample_msg)) = 20000.
Proof.
  destruct (Execute_total memStateDB sample_state sample_msg) as (_ & _ & H); [done|].
  rewrite H; [done|]. vm_compute. reflexivity.
Defined.

(** C8: within 64 bits, execution creates and destroys no money and keeps nonces; a failed
    message changes nothing.  If the balances of all accounts add up to some [N < 2^64]
    before [Execute], they add up to [N] after it, through any value transfers, nested
    calls and reverts, and no nonce changes; when the receipt reports failure the state is
    the one before.  (The bound is needed: see [Execute_wraps].) *)
Theorem Execute_conserves S `{StateDBLaws S} (st : S) msg N :
  ok st -> supply st N -> N < two64 -> is_u64 (msg_Value msg) -> is_u64 (msg_GasLimit msg) ->
  supply (fst (Execute st msg)) N /\
  (forall a, nonce (fst (Execute st msg)) a = nonce st a) /\
  (r_Success (snd (Execute st msg)) = false -> fst (Execute st msg) = st).
Proof.
  intros Hok Hs HN Hv Hgl. by destruct (Execute_inv st msg N Hok Hs HN Hv Hgl) as (_ & ? & ? & ?).
Qed.

(** Beyond 64 bits coins are lost: crediting a balance wraps around, so a message that moves
    one coin to an account holding [2^64 - 1] succeeds and leaves that account empty. *)
Definition full_state : memStateDB :=
  mem_SetAccount (mem_SetAccount NewMemStateDB [1] (mkAccount 500 3 zero_hash zero_hash))
    [3] (mkAccount (two64 - 1) 0 zero_hash zero_hash).

Theorem Execute_wraps :
  let '(st, receipt) := Execute full_state (mkMessage [1] (Some [3]) 1 20000 3 []) in
  r_Success receipt = true /\ balance st [1] = 499 /\ balance st [3] = 0.
Proof. vm_compute. by split_and!. Qed.

Lemma sample_supply : supply sample_state 540.
Proof.
  exists [[1]; [2]]. split_and!.
  - apply NoDup_cons. split; [by rewrite list_elem_of_singleton|apply NoDup_singleton].
  - intros a Ha. rewrite !not_elem_of_cons in Ha. destruct Ha as (H1 & H2 & _).
    unfold balance. simpl. unfold mem_GetAccount. simpl. by rewrite !lookup_insert_ne by congruence.
  - intros a. unfold balance. simpl. unfold mem_GetAccount. simpl. rewrite !lookup_insert, lookup_empty.
    repeat case_decide; simpl; lia.
  - vm_compute. reflexivity.
Qed.

Lemma Execute_conserves_witness :
  supply (fst (Execute sample_state (mkMessage [1] (Some [3]) 100 20000 3 []))) 540.
Proof.
  apply (Execute_conserves memStateDB sample_state (mkMessage [1] (Some [3]) 100 20000 3 []) 540);
    [done|exact sample_supply|done|done|done].
Defined.
