(* ===== verification/StackVMLimits.v ===== *)
(** * The stack machine stays within its limits

    At every instruction of every frame the stack holds at most 1024 words below
    2^256 and the memory at most 64 KiB of bytes; jumps land on instruction
    boundaries. *)

From S2P Require Import Prelude Sha256 Core StateDB StackVM StackVMProps.

Definition is_word (w : Z) : Prop := 0 <= w < two256.

Record machine_ok (st : list Z) (mem : bytes) : Prop := {
  mo_depth : (length st <= MaxStack)%nat;
  mo_words : Forall is_word st;
  mo_size : Z.of_nat (length mem) <= maxMemBytes;
  mo_bytes : all_bytes mem;
}.

(** ** Words and memory *)

Lemma be_decode_word l : all_bytes l -> (length l <= 32)%nat -> is_word (be_decode l).
Proof.
  intros Hl Hlen. pose proof (be_decode_bound l Hl). unfold is_word, two256.
  change (2 ^ 256) with (256 ^ 32).
  assert (256 ^ Z.of_nat (length l) <= 256 ^ 32) by (apply Z.pow_le_mono_r; lia). lia.
Qed.

Lemma wrap_word x : is_word (wrap x).
Proof. apply Z.mod_pos_bound. done. Qed.

Lemma small_word x : 0 <= x < two64 -> is_word x.
Proof. unfold is_word, two256, two64. lia. Qed.

Lemma boolWord_word b : is_word (boolWord b).
Proof. apply small_word. by destruct b. Qed.

Lemma toIndex_spec v i : toIndex v = Some i -> i = v /\ 0 <= i < two32.
Proof.
  unfold toIndex, IsUint64. destruct (Z.leb_spec 0 v), (Z.ltb_spec v two64); simpl; try done.
  destruct (Z.ltb_spec (two32 - 1) v); [done|]. intros [= <-]. lia.
Qed.

Lemma all_bytes_zeros n : all_bytes (replicate n 0).
Proof. apply Forall_replicate. done. Qed.

Lemma all_bytes_copy_fixed n l : all_bytes l -> all_bytes (copy_fixed n l).
Proof. intros. apply Forall_app. split; [by apply Forall_take|apply all_bytes_zeros]. Qed.

Lemma all_bytes_slice i j l : all_bytes l -> all_bytes (slice i j l).
Proof. intros. by apply Forall_take, Forall_drop. Qed.

Lemma all_bytes_splice off src l : all_bytes src -> all_bytes l -> all_bytes (splice off src l).
Proof. intros. unfold splice. rewrite !Forall_app. auto using Forall_take, Forall_drop. Qed.

Lemma readData_word d off : all_bytes d -> is_word (be_decode (readData d off)).
Proof.
  intros Hd. unfold readData. repeat case_match; apply be_decode_word;
    auto using all_bytes_zeros, all_bytes_copy_fixed, Forall_drop; len.
Qed.

Lemma length_ensureMem mem n :
  0 <= n -> Z.of_nat (length (ensureMem mem n)) = Z.max (Z.of_nat (length mem)) n.
Proof. intros. unfold ensureMem. destruct (Z.leb_spec n (Z.of_nat (length mem))); [lia|]. len. Qed.

Lemma ensureMem_ok mem n :
  all_bytes mem -> Z.of_nat (length mem) <= maxMemBytes -> 0 <= n <= maxMemBytes ->
  all_bytes (ensureMem mem n) /\ n <= Z.of_nat (length (ensureMem mem n)) <= maxMemBytes.
Proof.
  intros Hb Hl Hn. rewrite length_ensureMem by lia. split; [|lia].
  unfold ensureMem. case_match; [done|]. apply Forall_app. split; [done|apply all_bytes_zeros].
Qed.

(** ** Stack operations *)

Lemma push_ok st v st' mem : push st v = Ok st' -> is_word v -> machine_ok st mem -> machine_ok st' mem.
Proof.
  unfold push. destruct (Nat.leb_spec MaxStack (length st)); [done|]. intros [= <-] Hv [D W Sz B].
  split; [simpl; lia|by constructor|done|done].
Qed.

Lemma pop_ok st v st' mem : pop st = Ok (v, st') -> machine_ok st mem -> machine_ok st' mem /\ is_word v.
Proof.
  destruct st as [|x st]; [done|]. simpl. intros [= <- <-] [D W Sz B].
  apply Forall_cons in W as [? ?]. split; [|done]. split; try done. simpl in D. lia.
Qed.

Lemma pop2_ok st a b st' mem :
  pop2 st = Ok (a, b, st') -> machine_ok st mem -> machine_ok st' mem /\ is_word a /\ is_word b.
Proof.
  unfold pop2. intros E M. destruct (pop st) as [[x st1]|] eqn:E1; [|done]. simpl in E.
  destruct (pop st1) as [[y st2]|] eqn:E2; [|done]. simpl in E. injection E as <- <- <-.
  destruct (pop_ok _ _ _ _ E1 M) as [M1 ?]. destruct (pop_ok _ _ _ _ E2 M1). done.
Qed.

Lemma peek_ok st n v mem : peek st n = Ok v -> machine_ok st mem -> is_word v.
Proof.
  unfold peek. destruct (st !! n) eqn:E; [|done]. intros [= <-] M.
  eapply Forall_lookup_1; [apply M|done].
Qed.

Lemma swap1_ok st st' mem : swap1 st = Ok st' -> machine_ok st mem -> machine_ok st' mem.
Proof.
  destruct st as [|a [|b st]]; [done|done|]. intros [= <-] [D W Sz B]. split; [exact D| |done|done].
  inversion W as [|? ? Wa W']; subst. inversion W' as [|? ? Wb Ws]; subst. 
  constructor; [done|]. by constructor.
Qed.

Lemma mem_ok st mem mem' :
  machine_ok st mem -> all_bytes mem' -> Z.of_nat (length mem') <= maxMemBytes -> machine_ok st mem'.
Proof. intros [] ? ?. by split. Qed.

(** ** Instructions *)

Section Limits.
Context {S : Type} `{HS : StateDB S}.

Record frame_env (sc : scope S) (code calldata : bytes) (callValue : Z) : Prop := {
  fe_code : all_bytes code;
  fe_data : all_bytes calldata;
  fe_size : Z.of_nat (length calldata) < two64;
  fe_value : is_u64 callValue;
  fe_storage : forall a k, hash_wf (getStorage sc a k);
}.

Definition outcome_ok (o : outcome (S := S)) : Prop :=
  match o with
  | Next _ st' mem' pc' => machine_ok st' mem' /\ 0 <= pc'
  | Return ret _ => all_bytes ret /\ Z.of_nat (length ret) <= maxMemBytes
  end.

Lemma push_next_ok (sc : scope S) st v mem pc o :
  (st' ← push st v; Ok (Next sc st' mem pc)) = Ok o ->
  is_word v -> machine_ok st mem -> 0 <= pc -> outcome_ok o.
Proof.
  intros E Hv M Hpc. destruct (push st v) as [st'|] eqn:Ep; [|done]. simpl in E. injection E as <-.
  split; [|done]. by eapply push_ok.
Qed.

Lemma pop_bind_ok {A} st mem (f : Z * list Z -> result A) r :
  mbind f (pop st) = Ok r -> machine_ok st mem ->
  exists v st', f (v, st') = Ok r /\ machine_ok st' mem /\ is_word v.
Proof.
  intros E M. destruct (pop st) as [[v st']|] eqn:Ep; [|done]. exists v, st'. split; [done|].
  by eapply pop_ok.
Qed.

Lemma pop2_bind_ok {A} st mem (f : Z * Z * list Z -> result A) r :
  mbind f (pop2 st) = Ok r -> machine_ok st mem ->
  exists a b st', f (a, b, st') = Ok r /\ machine_ok st' mem /\ is_word a /\ is_word b.
Proof.
  intros E M. destruct (pop2 st) as [[[a b] st']|] eqn:Ep; [|done]. exists a, b, st'. split; [done|].
  by eapply pop2_ok.
Qed.

Ltac binary E M :=
  apply (pop2_bind_ok _ _ _ _ E) in M as (a & b & st1 & E1 & M1 & Wa & Wb);
  cbv beta iota in E1; eapply push_next_ok; [exact E1| |exact M1|lia].

Tactic Notation "unary" hyp(E) hyp(M) "as" ident(v) ident(E1) ident(M1) :=
  let st1 := fresh "st" in let Wv := fresh "W" in
  apply (pop_bind_ok _ _ _ _ E) in M as (v & st1 & E1 & M1 & Wv); cbv beta iota in E1.

Lemma jump_ok (sc : scope S) st mem dest (dests : gset Z) o :
  match toIndex dest with
  | Some d => if bool_decide (d ∈ dests) then Ok (Next sc st mem d) else Err ErrInvalidJump
  | None => Err ErrInvalidJump
  end = Ok o -> machine_ok st mem -> outcome_ok o.
Proof.
  intros E M. destruct (toIndex dest) as [d|] eqn:Ei; [|done]. apply toIndex_spec in Ei as [_ ?].
  case_bool_decide; [|done]. injection E as <-. split; [done|lia].
Qed.

Lemma exec_op_ok sc code dests self cv cd st mem pc op o :
  machine_ok st mem -> frame_env sc code cd cv -> 0 <= pc ->
  exec_op (S := S) sc code dests self cv cd st mem pc op = Ok o -> outcome_ok o.
Proof.
  intros M F Hpc. unfold exec_op, exec_control. intros E.
  destruct (op =? opSTOP); [injection E as <-; by split|].
  destruct (op =? opADD); [binary E M; apply wrap_word|].
  destruct (op =? opSUB); [binary E M; apply wrap_word|].
  destruct (op =? opMUL); [binary E M; apply wrap_word|].
  destruct (op =? opDIV).
  { binary E M. destruct (Z.eqb_spec b 0); [by apply small_word|]. unfold is_word in *.
    split; [apply Z.div_pos; lia|]. apply Z.le_lt_trans with a; [|lia].
    apply Z.div_le_upper_bound; [lia|]. nia. }
  destruct (op =? opLT); [binary E M; apply boolWord_word|].
  destruct (op =? opGT); [binary E M; apply boolWord_word|].
  destruct (op =? opEQ); [binary E M; apply boolWord_word|].
  destruct (op =? opISZERO); [unary E M as v E1 M1; eapply push_next_ok; [exact E1|apply boolWord_word|done|lia]|].
  destruct (op =? opCALLVALUE); [eapply push_next_ok; [exact E|apply small_word, F|done|lia]|].
  destruct (op =? opCALLDATASIZE).
  { eapply push_next_ok; [exact E|apply small_word|done|lia]. pose proof (fe_size _ _ _ _ F). lia. }
  destruct (op =? opCALLDATALOAD).
  { unary E M as v E1 M1. eapply push_next_ok; [exact E1|apply readData_word, F|done|lia]. }
  destruct (op =? opPOP); [unary E M as v E1 M1; injection E1 as <-; split; [done|lia]|].
  destruct (op =? opMLOAD).
  { unary E M as v E1 M1. destruct (toIndex v) as [idx|] eqn:Ei; [|done]. apply toIndex_spec in Ei as [_ Hi].
    destruct (Z.ltb_spec maxMemBytes (idx + 32)); [done|].
    destruct (ensureMem_ok mem (idx + 32)) as [Hb Hl]; [apply M1|apply M1|lia|].
    eapply push_next_ok; [exact E1| |eapply mem_ok; [done|done|lia]|lia].
    apply be_decode_word; [by apply all_bytes_slice|].
    unfold slice. rewrite length_take. lia. }
  destruct (op =? opMSTORE).
  { unary E M as v E1 M1. unary E1 M1 as val E2 M2. destruct (toIndex v) as [idx|] eqn:Ei; [|done].
    apply toIndex_spec in Ei as [_ Hi]. destruct (Z.ltb_spec maxMemBytes (idx + 32)); [done|].
    destruct (ensureMem_ok mem (idx + 32)) as [Hb Hl]; [apply M2|apply M2|lia|].
    injection E2 as <-. split; [|lia]. eapply mem_ok; [done| |].
    - apply all_bytes_splice; [apply be_bytes|done].
    - rewrite length_splice; [lia|]. unfold bigToHash. rewrite length_be. unfold HashLen. lia. }
  destruct (op =? opSLOAD).
  { unary E M as v E1 M1. eapply push_next_ok; [exact E1| |done|lia].
    destruct (fe_storage _ _ _ _ F self (bigToHash v)) as [Hl Hb]. apply be_decode_word; [done|].
    rewrite Hl. done. }
  destruct (op =? opSSTORE).
  { unary E M as v E1 M1. unary E1 M1 as v0 E2 M2. injection E2 as <-. split; [done|lia]. }
  destruct (op =? opJUMP); [unary E M as v E1 M1; by eapply jump_ok|].
  destruct (op =? opJUMPI).
  { unary E M as v E1 M1. unary E1 M1 as v0 E2 M2. destruct (_ =? 0); [injection E2 as <-; split; [done|lia]|].
    by eapply jump_ok. }
  destruct (op =? opJUMPDEST); [injection E as <-; split; [done|lia]|].
  destruct (is_push op) eqn:Ep.
  { unfold is_push, opPUSH1, opPUSH32 in Ep. apply andb_true_iff in Ep as [?%Z.leb_le ?%Z.leb_le].
    unfold opPUSH1 in E. eapply push_next_ok; [exact E| |done|lia]. apply be_decode_word.
    - apply all_bytes_copy_fixed, Forall_drop, F.
    - rewrite length_copy_fixed. lia. }
  destruct (op =? opDUP1).
  { destruct (peek st 0) as [v|] eqn:Ev; [|done]. simpl in E.
    eapply push_next_ok; [exact E|by eapply peek_ok|done|lia]. }
  destruct (op =? opSWAP1).
  { destruct (swap1 st) as [st1|] eqn:Ev; [|done]. simpl in E. injection E as <-.
    split; [by eapply swap1_ok|lia]. }
  destruct (op =? opRETURN); [|done].
  unary E M as v E1 M1. unary E1 M1 as v0 E2 M2. destruct (toIndex v) as [oi|] eqn:Eo; [|done].
  destruct (toIndex v0) as [si|] eqn:Es; [|done].
  apply toIndex_spec in Eo as [_ Ho]. apply toIndex_spec in Es as [_ Hs].
  destruct (Z.ltb_spec maxMemBytes (oi + si)); [done|]. injection E2 as <-.
  destruct (ensureMem_ok mem (oi + si)) as [Hb Hl]; [apply M2|apply M2|lia|].
  split; [by apply all_bytes_slice|]. unfold slice. rewrite length_take. lia.
Qed.

(** *** Bytes in the scope *)

Record bytes_inv (n : nat) (sc : scope S) : Prop := {
  bi_len : length (sc_journals sc) = n;
  bi_pos : (0 < n)%nat;
  bi_storage : forall a k, hash_wf (getStorage sc a k);
  bi_code : forall a, all_bytes (getCode sc a);
}.

Lemma getStorage_setStorage (sc : scope S) a k v b k' :
  sc_journals sc <> [] ->
  getStorage (setStorage sc a k v) b k' =
  if decide (b = a /\ k' = k) then v else getStorage sc b k'.
Proof.
  intros Hne. unfold getStorage, setStorage, on_top.
  destruct (sc_journals sc) as [|j js] eqn:E; [done|]. simpl. rewrite lookup_insert.
  destruct (decide (a = b)) as [<-|Hab].
  - simpl. rewrite lookup_insert. destruct (decide (k = k')) as [<-|Hk].
    + by rewrite decide_True.
    + rewrite (decide_False (P := a = a /\ _)) by (intros []; congruence).
      by destruct (j_storage j !! a).
  - by rewrite decide_False by (intros []; congruence).
Qed.

Lemma getStorage_commit (sc : scope S) a k : getStorage (commit sc) a k = getStorage sc a k.
Proof.
  unfold getStorage, commit. destruct (sc_journals sc) as [|j [|p js]] eqn:E; simpl; rewrite ?E; [done..|].
  simpl. unfold merge_storage. rewrite lookup_union_with.
  destruct (j_storage j !! a) as [mj|], (j_storage p !! a) as [mp|]; simpl; try done.
  rewrite lookup_union. by destruct (mj !! k), (mp !! k).
Qed.

Lemma getCode_commit (sc : scope S) a : getCode (commit sc) a = getCode sc a.
Proof.
  unfold getCode, commit. destruct (sc_journals sc) as [|j [|p js]] eqn:E; simpl; rewrite ?E; [done..|].
  simpl. rewrite lookup_union. by destruct (j_code j !! a), (j_code p !! a).
Qed.

Lemma setAccount_frame (sc : scope S) a x :
  length (sc_journals (setAccount sc a x)) = length (sc_journals sc) /\
  (forall b k, getStorage (setAccount sc a x) b k = getStorage sc b k) /\
  (forall b, getCode (setAccount sc a x) b = getCode sc b).
Proof.
  unfold getStorage, getCode, setAccount, on_top.
  by destruct (sc_journals sc) eqn:E; simpl; rewrite ?E.
Qed.

Lemma bytes_inv_setAccount n sc a x : bytes_inv n sc -> bytes_inv n (setAccount sc a x).
Proof.
  intros [Hl Hp Hs Hc]. destruct (setAccount_frame sc a x) as (L & T & C).
  split; [by rewrite L|done| |]; intros; rewrite ?T, ?C; auto.
Qed.

Lemma bytes_inv_scope_inv : scope_inv bytes_inv.
Proof.
  split_and!.
  - intros n sc a k v [Hl Hp Hs Hc] Hv.
    assert (Hne : sc_journals sc <> []) by (intros E; rewrite E in Hl; simpl in Hl; lia).
    split; [|done| |].
    + unfold setStorage, on_top. by destruct (sc_journals sc).
    + intros b k'. rewrite getStorage_setStorage by done. by case_decide.
    + intros b. unfold getCode, setStorage, on_top. specialize (Hc b). unfold getCode in Hc.
      by destruct (sc_journals sc).
  - intros n sc [Hl Hp Hs Hc]. split; simpl; [by rewrite Hl|lia|done|done].
  - intros n sc from to v sc' HI _. unfold transfer. case_match; [by intros [= <-]|].
    case_match; [done|]. intros [= <-]. by do 2 apply bytes_inv_setAccount.
  - intros n sc [Hl Hp Hs Hc] Hn. split; [|done| |].
    + unfold commit. destruct (sc_journals sc) as [|j [|p js]]; simpl in *; lia.
    + intros a k. rewrite getStorage_commit. apply Hs.
    + intros a. rewrite getCode_commit. apply Hc.
Qed.

(** *** Calls *)

Lemma pop_call_ok st mem a v ao az ro rz st' :
  pop_call st = Ok (a, v, ao, az, ro, rz, st') -> machine_ok st mem -> machine_ok st' mem.
Proof.
  unfold pop_call. intros E M.
  unary E M as v1 E1 M1. unary E1 M1 as v2 E2 M2. unary E2 M2 as v3 E3 M3.
  unary E3 M3 as v4 E4 M4. unary E4 M4 as v5 E5 M5. unary E5 M5 as v6 E6 M6.
  unary E6 M6 as v7 E7 M7. by injection E7 as <- <- <- <- <- <- <-.
Qed.

Lemma finish_call_ok st mem ret ro rs st' mem' :
  finish_call st mem ret ro rs = Ok (st', mem') -> machine_ok st mem -> all_bytes ret ->
  machine_ok st' mem'.
Proof.
  unfold finish_call. intros E M Hr.
  destruct (toIndex ro) as [oi|] eqn:Eo; [|done]. destruct (toIndex rs) as [ri|] eqn:Es; [|done].
  apply toIndex_spec in Eo as [_ Ho]. apply toIndex_spec in Es as [_ Hs].
  destruct (Z.ltb_spec maxMemBytes (oi + ri)); [done|].
  destruct (push st 1) as [st1|] eqn:Ep; [|done]. simpl in E. injection E as <- <-.
  apply (push_ok _ _ _ mem) in Ep; [|by apply small_word|done].
  destruct (0 <? ri); [|done].
  destruct (ensureMem_ok mem (oi + ri)) as [Hb Hl]; [apply M|apply M|lia|].
  eapply mem_ok; [exact Ep| |].
  - apply all_bytes_splice; [by apply Forall_take|done].
  - rewrite length_splice; [lia|]. rewrite length_take. lia.
Qed.

Definition ret_ok (ret : bytes) : Prop := all_bytes ret /\ Z.of_nat (length ret) <= maxMemBytes.

Definition runner_ret (run : frame_runner (S := S)) : Prop :=
  forall n g sc d code self cv cd g' ret sc',
    bytes_inv n sc -> frame_env sc code cd cv ->
    run g sc d code self cv cd = Some (g', Ok (ret, sc')) -> ret_ok ret.

Lemma opCall_ok run n g sc d st mem self g' sc' st' mem' :
  runner_ret run -> bytes_inv n sc -> machine_ok st mem ->
  opCall (S := S) run g sc d st mem self = Some (g', Ok (sc', st', mem')) -> machine_ok st' mem'.
Proof.
  intros Hrun HI M. unfold opCall.
  destruct (pop_call st) as [[[[[[[addrW valueW] ao] az] ro] rz] st1]|] eqn:Ep; [|done].
  apply (pop_call_ok _ mem) in Ep; [|done].
  assert (Hfail : forall g0 mem1, machine_ok st1 mem1 ->
                    Some (g0, st2 ← push st1 0; Ok (sc, st2, mem1))
                    = Some (g', Ok (sc', st', mem')) -> machine_ok st' mem').
  { intros g0 mem1 M1. destruct (push st1 0) eqn:Epu; [|discriminate]. intros [= _ _ <- <-].
    eapply push_ok; [exact Epu|by apply small_word|done]. }
  case_match; [by apply Hfail|].
  destruct (toIndex ao) as [ai|] eqn:Ea; [|discriminate].
  destruct (toIndex az) as [asz|] eqn:Ez; [|discriminate].
  apply toIndex_spec in Ea as [_ Ha]. apply toIndex_spec in Ez as [_ Hz].
  destruct (Z.ltb_spec maxMemBytes (ai + asz)); [discriminate|].
  destruct (ensureMem_ok mem (ai + asz)) as [Hb Hl]; [apply Ep|apply Ep|lia|].
  set (mem1 := ensureMem mem (ai + asz)) in *.
  assert (M1 : machine_ok st1 mem1) by (eapply mem_ok; [done|done|lia]).
  destruct (transfer _ _ _ _) as [ch|] eqn:Et; [|by apply Hfail].
  assert (Hv : is_u64 (if IsUint64 valueW then valueW else 0)).
  { destruct (IsUint64 valueW) eqn:Ev; [|done].
    unfold IsUint64 in Ev. apply andb_true_iff in Ev as [?%Z.leb_le ?%Z.ltb_lt]. lia. }
  assert (HC : bytes_inv (Datatypes.S n) ch).
  { destruct bytes_inv_scope_inv as (_ & Hch & Htr & _). eapply Htr; [by apply Hch|exact Hv|exact Et]. }
  destruct (run _ _ _ _ _ _ _) as [[g1 [[ret ch']|e]]|] eqn:Er; simpl; [| |discriminate].
  - apply (Hrun (Datatypes.S n)) in Er as [Hret _]; [|done|].
    { destruct (finish_call _ _ _ _ _) as [[st2 mem2]|] eqn:Ef; [|discriminate]. simpl.
      intros [= _ _ <- <-]. by eapply finish_call_ok. }
    split; [apply HC|by apply all_bytes_slice| |done|apply HC].
    unfold slice. rewrite length_take. unfold two64, maxMemBytes in *. lia.
  - case_bool_decide; [discriminate|]. by apply Hfail.
Qed.

Lemma frame_env_scope sc sc' code cd cv n :
  frame_env sc code cd cv -> bytes_inv n sc' -> frame_env sc' code cd cv.
Proof. intros [] []. by split. Qed.

(** what a frame leaves, whatever it does on the way *)
Lemma exec_op_bytes n sc code dests self cv cd st mem pc op sc' st' mem' pc' :
  bytes_inv n sc -> exec_op (S := S) sc code dests self cv cd st mem pc op = Ok (Next sc' st' mem' pc') ->
  bytes_inv n sc'.
Proof.
  intros HI [->|(k & v & ->)]%exec_op_scope; [done|]. apply bytes_inv_scope_inv; [done|].
  split; [apply length_be|apply be_bytes].
Qed.

Lemma run_loop_ret fuel n g sc d code dests self cv cd st mem pc g' ret sc' :
  machine_ok st mem -> frame_env sc code cd cv -> bytes_inv n sc -> 0 <= pc ->
  run_loop (S := S) fuel g sc d code dests self cv cd st mem pc = Some (g', Ok (ret, sc')) ->
  ret_ok ret.
Proof.
  revert n g sc d code dests self cv cd st mem pc g' ret sc'.
  induction fuel as [|fuel IH];
    intros n g sc d code dests self cv cd st mem pc g' ret sc' M F HI Hpc; [done|]. cbn [run_loop].
  case_match; [intros [= _ <- _]; by split|].
  destruct (charge _ _) as [g1 [u|]]; [|done]. destruct (_ =? opCALL).
  - destruct (opCall _ _ _ _ _ _ _) as [[g2 [[[sc2 st2] mem2]|e]]|] eqn:Ec; simpl; [|done|done].
    assert (HI2 : bytes_inv n sc2).
    { eapply (opCall_inv bytes_inv); [apply bytes_inv_scope_inv| |apply HI|exact HI|exact Ec].
      intros ???????????. apply run_loop_inv, bytes_inv_scope_inv. }
    eapply opCall_ok in Ec; [| |exact HI|done].
    + intros Hr. eapply IH in Hr; [done|done|by eapply frame_env_scope|done|lia].
    + intros ??????????? HI' F' Hr. eapply IH in Hr; [done| |done|done|lia].
      split; simpl; [unfold MaxStack; lia|constructor|unfold maxMemBytes; lia|constructor].
  - destruct (exec_op _ _ _ _ _ _ _ _ _ _) as [[sc2 st2 mem2 pc2|ret2 sc2]|e] eqn:Eo; [| |done].
    + pose proof (exec_op_bytes _ _ _ _ _ _ _ _ _ _ _ _ _ _ _ HI Eo) as HI2.
      apply exec_op_ok in Eo as [M2 Hpc2]; [|done|done|done].
      intros Hr. eapply IH in Hr; [done|done|by eapply frame_env_scope|done|done].
    + apply exec_op_ok in Eo; [|done|done|done]. by intros [= _ <- _].
Qed.

(** *** Frames as a step relation *)

(** gas, scope, stack, memory and program counter *)
Definition config : Type := gasMeter * scope S * list Z * bytes * Z.

(** one instruction of a frame that goes on *)
Inductive frame_step (fuel : nat) (d : Z) (code : bytes) (self : Address) (cv : Z) (cd : bytes)
  : config -> config -> Prop :=
| step_op g g1 sc st mem pc sc' st' mem' pc' :
    pc < Z.of_nat (length code) ->
    nth (Z.to_nat pc) code 0 <> opCALL ->
    charge g (gasCost (nth (Z.to_nat pc) code 0)) = (g1, Ok tt) ->
    exec_op sc code (validJumpdests code) self cv cd st mem pc (nth (Z.to_nat pc) code 0)
      = Ok (Next sc' st' mem' pc') ->
    frame_step fuel d code self cv cd (g, sc, st, mem, pc) (g1, sc', st', mem', pc')
| step_call g g1 g2 sc st mem pc sc' st' mem' :
    pc < Z.of_nat (length code) ->
    nth (Z.to_nat pc) code 0 = opCALL ->
    charge g (gasCost opCALL) = (g1, Ok tt) ->
    opCall (run fuel) g1 sc d st mem self = Some (g2, Ok (sc', st', mem')) ->
    frame_step fuel d code self cv cd (g, sc, st, mem, pc) (g2, sc', st', mem', pc + 1).

(** the relation is the loop's: a step is one unit of fuel *)
Lemma frame_step_run fuel d code self cv cd g sc st mem pc g' sc' st' mem' pc' :
  frame_step fuel d code self cv cd (g, sc, st, mem, pc) (g', sc', st', mem', pc') ->
  run_loop (Datatypes.S fuel) g sc d code (validJumpdests code) self cv cd st mem pc =
  run_loop fuel g' sc' d code (validJumpdests code) self cv cd st' mem' pc'.
Proof.
  inversion 1 as [? ? ? ? ? ? ? ? ? ? Hpc Hop Hch Hex|? ? ? ? ? ? ? ? ? ? Hpc Hop Hch Hex]; subst;
    cbn [run_loop].
  - destruct (Z.leb_spec (Z.of_nat (length code)) pc); [lia|]. rewrite Hch.
    destruct (Z.eqb_spec (nth (Z.to_nat pc) code 0) opCALL); [done|]. by rewrite Hex.
  - destruct (Z.leb_spec (Z.of_nat (length code)) pc); [lia|]. rewrite Hop, Hch.
    simpl Z.eqb. cbv iota. unfold run in Hex. by rewrite Hex.
Qed.

Definition config_ok (n : nat) (code cd : bytes) (cv : Z) (c : config) : Prop :=
  let '(_, sc, st, mem, pc) := c in
  machine_ok st mem /\ 0 <= pc /\ bytes_inv n sc /\ frame_env sc code cd cv.

Lemma frame_step_ok fuel d code self cv cd n c c' :
  frame_step fuel d code self cv cd c c' -> config_ok n code cd cv c -> config_ok n code cd cv c'.
Proof.
  inversion 1 as [? ? ? ? ? ? ? ? ? ? Hpc Hop Hch Hex|? ? ? ? ? ? ? ? ? ? Hpc Hop Hch Hex]; subst;
    intros (M & Hp & HI & F).
  - assert (HI2 : bytes_inv n sc') by (by eapply exec_op_bytes).
    apply exec_op_ok in Hex as [M2 Hp2]; [|done|done|done].
    split_and!; [done|done|done|by eapply frame_env_scope].
  - assert (HI2 : bytes_inv n sc').
    { eapply (opCall_inv bytes_inv); [apply bytes_inv_scope_inv| |apply HI|exact HI|exact Hex].
      intros ???????????. apply run_loop_inv, bytes_inv_scope_inv. }
    eapply opCall_ok in Hex; [| |exact HI|done].
    + split_and!; [done|lia|done|by eapply frame_env_scope].
    + intros ??????????? HI' F' Hr. eapply run_loop_ret in Hr; [done| |done|done|lia].
      split; simpl; [unfold MaxStack; lia|constructor|unfold maxMemBytes; lia|constructor].
Qed.
End Limits.

(** ** Jump destinations *)

(** the instruction after the one at [i] *)
Definition next_pc (i : nat) (op : Z) : nat :=
  if is_push op then (i + (Z.to_nat (op - opPUSH1) + 2))%nat else S i.

Definition instr_step (code : bytes) (i j : nat) : Prop :=
  exists op, code !! i = Some op /\ j = next_pc i op.

(** instruction boundaries: what a walk from offset 0 reaches *)
Definition boundary (code : bytes) (i : nat) : Prop := rtc (instr_step code) 0%nat i.

Lemma next_pc_gt i op : (i < next_pc i op)%nat.
Proof. unfold next_pc. case_match; lia. Qed.

Lemma jumpdests_from_spec fuel code i dests x :
  (length code < fuel + i)%nat ->
  x ∈ jumpdests_from fuel code i dests <->
  x ∈ dests \/ exists k, x = Z.of_nat k /\ rtc (instr_step code) i k /\ code !! k = Some opJUMPDEST.
Proof.
  revert i dests. induction fuel as [|fuel IH]; intros i dests Hf.
  { simpl. split; [by left|]. intros [?|(k & -> & Hr & Hk)]; [done|]. exfalso.
    apply lookup_lt_Some in Hk. assert (i <= k)%nat; [|lia].
    clear -Hr. induction Hr as [|i j k (op & _ & ->) _ IHr]; [done|]. pose proof (next_pc_gt i op). lia. }
  cbn [jumpdests_from]. destruct (code !! i) as [op|] eqn:Ei.
  - assert (Hwalk : forall k, rtc (instr_step code) i k <->
              k = i \/ rtc (instr_step code) (next_pc i op) k).
    { intros k. split.
      - intros [->|(j & (op' & Ho & ->) & Hr)]%rtc_inv; [by left|]. right. congruence.
      - intros [->|Hr]; [reflexivity|]. eapply rtc_l; [|exact Hr]. by exists op. }
    pose proof (next_pc_gt i op) as Hgt.
    assert (Hrest : (op =? opJUMPDEST) = false -> forall d,
      (x ∈ jumpdests_from fuel code (next_pc i op) d <->
       x ∈ d \/ exists k, x = Z.of_nat k /\ rtc (instr_step code) i k /\ code !! k = Some opJUMPDEST)).
    { intros Hno d. rewrite IH by lia. apply Z.eqb_neq in Hno.
      split; (intros [?|(k & -> & Hr & Hk)]; [by left|right; exists k; split_and!; try done]).
      - apply Hwalk. by right.
      - apply Hwalk in Hr as [->|]; [|done]. congruence. }
    destruct (op =? opJUMPDEST) eqn:Ej.
    + apply Z.eqb_eq in Ej. subst op. rewrite IH by lia.
      rewrite elem_of_union, elem_of_singleton. split.
      * intros [[->|?]|(k & -> & Hr & Hk)]; [right; exists i; split_and!; [done|reflexivity|done]|by left|].
        right. exists k. split_and!; [done| |done]. apply Hwalk. by right.
      * intros [?|(k & -> & Hr & Hk)]; [left; by right|]. apply Hwalk in Hr as [->|Hr]; [left; by left|].
        right. by exists k.
    + unfold next_pc in *. destruct (is_push op); by apply Hrest.
  - split; [by left|]. intros [?|(k & -> & Hr & Hk)]; [done|].
    apply rtc_inv in Hr as [->|(j & (op' & Ho & _) & _)]; congruence.
Qed.

(** jumps cannot land inside push data.  An offset is a valid jump
    destination exactly when it holds a JUMPDEST byte and is an instruction
    boundary, i.e. reached by walking the code from offset 0 instruction by
    instruction, skipping the operands of PUSH. *)
Theorem validJumpdests_boundaries code x :
  x ∈ validJumpdests code <->
  exists i, x = Z.of_nat i /\ boundary code i /\ code !! i = Some opJUMPDEST.
Proof.
  unfold validJumpdests. rewrite jumpdests_from_spec by lia. split.
  - intros [[]%not_elem_of_empty|?]; done.
  - by right.
Qed.

(** C38: the machine never exceeds its limits.  Every configuration a frame
    reaches, through any instructions and any nested calls, has at most 1024
    words on the stack, each below 2^256, and at most 64 KiB of memory, and a
    non-negative program counter. *)
Theorem frame_limits S `{StateDB S} fuel d code self cv cd n g (sc : scope S) g' sc' st' mem' pc' :
  bytes_inv n sc -> frame_env sc code cd cv ->
  rtc (frame_step fuel d code self cv cd) (g, sc, [], [], 0) (g', sc', st', mem', pc') ->
  machine_ok st' mem' /\ 0 <= pc'.
Proof.
  intros HI F Hr.
  assert (C0 : config_ok n code cd cv (g, sc, [], [], 0)).
  { split_and!; [|lia|done|done].
    split; simpl; [unfold MaxStack; lia|constructor|unfold maxMemBytes; lia|constructor]. }
  assert (C : config_ok n code cd cv (g', sc', st', mem', pc')).
  { revert C0. induction Hr as [|c1 c2 c3 Hs _ IH]; [done|]. intros C1. apply IH.
    by eapply frame_step_ok. }
  by destruct C as (? & ? & _).
Qed.

(** PUSH1 3; PUSH1 4; ADD; STOP *)
Definition sample_code : bytes := [0x60; 3; 0x60; 4; 0x01; 0x00].

Lemma frame_limits_witness : machine_ok [7] [] /\ 0 <= 5.
Proof.
  apply (frame_limits memStateDB 10 0 sample_code [1] 0 [] 1 (mkGas 100 0)
           (newScope NewMemStateDB) (mkGas 100 9) (newScope NewMemStateDB) [7] [] 5).
  - split; [done|lia| |].
    + intros a k. unfold getStorage. simpl. unfold mem_GetStorage. simpl.
      rewrite lookup_empty. apply zero_hash_wf.
    + intros a. unfold getCode. simpl. unfold mem_GetCode. simpl. rewrite lookup_empty. constructor.
  - split; [|constructor|done|done|].
    + unfold sample_code. repeat (constructor; [done|]). constructor.
    + intros a k. unfold getStorage. simpl. unfold mem_GetStorage. simpl.
      rewrite lookup_empty. apply zero_hash_wf.
  - eapply rtc_l; [eapply step_op; [done|done|reflexivity|reflexivity]|].
    eapply rtc_l; [eapply step_op; [done|done|reflexivity|reflexivity]|].
    eapply rtc_l; [eapply step_op; [done|done|reflexivity|reflexivity]|].
    apply rtc_refl.
Defined.
