(* ===== verification/Exchange.v ===== *)
(** * The exchange: an order book reached by ordinary transactions

    Models exchange/exchange.go, exchange/batch.go and exchange/query.go.  The
    matching engine lives in another repository (onchain-orderbook): it is the
    class [Engine], a parameter.  Of its types only what this package reads and
    writes is modelled: prices and quantities are 64-bit patterns, balances are
    signed 64-bit numbers, an account identifier is a 20-byte address. *)

From S2P Require Import Prelude Sha256 Core StateDB.

(** ** The engine's types *)

Inductive ob_mode := Continuous | BatchAuction.
#[export] Instance ob_mode_eq_dec : EqDecision ob_mode.
Proof. solve_decision. Defined.

Inductive Side := Buy | Sell.
#[export] Instance Side_eq_dec : EqDecision Side.
Proof. solve_decision. Defined.

Abbreviation AccountID := (list Z) (only parsing).

Record OrderID := mkOrderID { oid_Height : Z; oid_Index : Z }.
#[export] Instance OrderID_eq_dec : EqDecision OrderID.
Proof. solve_decision. Defined.

Record Order := mkOrder {
  o_Account : AccountID;
  o_ID : OrderID;
  o_Side : Side;
  o_Price : Z;
  o_Qty : Z;
}.
#[export] Instance Order_eq_dec : EqDecision Order.
Proof. solve_decision. Defined.

(** [obchain.Tx] *)
Inductive ObTx :=
| TxPlace (account : AccountID) (side : Side) (price qty : Z)
| TxCancel (account : AccountID) (cancel : OrderID).
#[export] Instance ObTx_eq_dec : EqDecision ObTx.
Proof. solve_decision. Defined.

(** an entry of [e.State.Snapshot()] *)
Record Bal := mkBal {
  bal_Base : Z;
  bal_Quote : Z;
  bal_LockedBase : Z;
  bal_LockedQuote : Z;
}.

(** [Accepted] and [Err] of a result *)
Record ObResult := mkObResult { res_Accepted : bool; res_Err : option error }.

Record AuctionSummary := mkSummary { as_Cleared : bool; as_Price : Z; as_Volume : Z }.

(** what this package calls *)
Class Engine := {
  Eng : Type;
  NewEngine : ob_mode -> Eng;
  Credit : Eng -> AccountID -> Z -> Z -> Eng;
  Restore : Eng -> list Order -> result Eng;
  BookSnapshot : Eng -> list Order;
  StateSnapshot : Eng -> list (AccountID * Bal);
  ApplyPositioned : Eng -> Z -> Z -> ObTx -> Eng * ObResult;
  StagePlace : Eng -> Z -> Z -> ObTx -> Eng * ObResult * option Order;
  ClearBatch : Eng -> list Order -> result (Eng * AuctionSummary);
}.

(** ** Calldata *)

Definition ExchangeAddress : Address :=
  [0xEC; 0x0B; 0; 0; 0; 0; 0; 0; 0; 0; 0; 0; 0; 0; 0; 0; 0; 0; 0; 1].

Definition OpPlace : Z := 1.
Definition OpCancel : Z := 2.
Definition sideBuy : Z := 0.
Definition sideSell : Z := 1.

Definition side_byte (side : Side) : Z := if bool_decide (side = Sell) then sideSell else 0.

Definition EncodePlace (side : Side) (price qty : Z) : bytes :=
  [OpPlace; side_byte side] ++ be 8 price ++ be 8 qty.

Definition EncodeCancel (id : OrderID) : bytes :=
  [OpCancel] ++ be 8 (oid_Height id) ++ be 4 (oid_Index id).

Definition Decode (from : Address) (data : bytes) : result ObTx :=
  match data with
  | [] => Err ErrBadCalldata
  | op :: _ =>
      let acct := copy_fixed AddrLen from in
      if op =? OpPlace then
        if negb (length data =? 18)%nat then Err ErrBadCalldata
        else
          let b := nth 1 data 0 in
          if (b =? sideSell) || (b =? sideBuy) then
            Ok (TxPlace acct (if b =? sideSell then Sell else Buy)
                  (be_decode (slice 2 10 data)) (be_decode (slice 10 18 data)))
          else Err ErrBadCalldata
      else if op =? OpCancel then
        if negb (length data =? 13)%nat then Err ErrBadCalldata
        else Ok (TxCancel acct (mkOrderID (be_decode (slice 1 9 data)) (be_decode (slice 9 13 data))))
      else Err ErrUnknownOp
  end.

Definition IsExchangeTx (tx : Transaction) : bool := bool_decide (tx_To tx = ExchangeAddress).

(** ** Storage layout *)

Definition nsHoldings : Z := 1.
Definition nsBookSize : Z := 2.
Definition nsOrderA : Z := 3.
Definition nsOrderB : Z := 4.
Definition nsLastAuction : Z := 5.

Definition holdingsKey (a : Address) : Hash := [nsHoldings] ++ replicate 11 0 ++ copy_fixed AddrLen a.
Definition indexKey (ns i : Z) : Hash := [ns] ++ replicate 23 0 ++ be 8 i.

Definition toAccount (a : Address) : AccountID := copy_fixed AddrLen a.
Definition toAddress (id : AccountID) : Address := copy_fixed AddrLen id.

Definition i64 (u : Z) : result Z := if two63 - 1 <? u then Err ErrBalanceRange else Ok u.

Definition order_wordA (o : Order) : Hash :=
  copy_fixed 20 (o_Account o) ++ be 8 (oid_Height (o_ID o)) ++ be 4 (oid_Index (o_ID o)).
Definition order_wordB (o : Order) : Hash :=
  [side_byte (o_Side o)] ++ replicate 7 0 ++ be 8 (o_Price o) ++ be 8 (o_Qty o) ++ replicate 8 0.

Definition order_of_words (a b : Hash) : Order :=
  mkOrder (slice 0 20 a)
    (mkOrderID (be_decode (slice 20 28 a)) (be_decode (slice 28 32 a)))
    (if nth 0 b 0 =? sideSell then Sell else Buy)
    (be_decode (slice 8 16 b)) (be_decode (slice 16 24 b)).

Section Exchange.
Context {S : Type} `{HS : StateDB S} `{HE : Engine}.

Definition ex_get (st : S) (k : Hash) : Hash := GetStorage st ExchangeAddress k.
Definition ex_set (st : S) (k v : Hash) : S := SetStorage st ExchangeAddress k v.

Definition book_size (st : S) : Z := be_decode (slice 24 32 (ex_get st (indexKey nsBookSize 0))).

(** the loop over the stored orders, from slot [i] *)
Fixpoint read_orders (st : S) (n : nat) (i : Z) : list Order :=
  match n with
  | O => []
  | Datatypes.S n' =>
      order_of_words (ex_get st (indexKey nsOrderA i)) (ex_get st (indexKey nsOrderB i))
      :: read_orders st n' (i + 1)
  end.

(** [addrs]: first appearances, in order *)
Fixpoint dedup (l : list Address) (seen : gset Address) : list Address :=
  match l with
  | [] => []
  | a :: l' =>
      if bool_decide (a ∈ seen) then dedup l' seen else a :: dedup l' ({[a]} ∪ seen)
  end.

(** the loop that credits balances *)
Fixpoint credit_all (st : S) (e : Eng) (addrs : list Address) : result Eng :=
  match addrs with
  | [] => Ok e
  | a :: rest =>
      base ← i64 (be_decode (slice 0 8 (ex_get st (holdingsKey a))));
      quote ← i64 (Balance (GetAccount st a));
      credit_all st (Credit e (toAccount a) base quote) rest
  end.

Definition Load (st : S) (mode : ob_mode) (extra : list Address) : result Eng :=
  let orders := read_orders st (Z.to_nat (book_size st)) 0 in
  let addrs := dedup (map (fun o => toAddress (o_Account o)) orders ++ extra) ∅ in
  e ← credit_all st (NewEngine mode) addrs;
  Restore e orders.

(** the loops of [Save] *)
Fixpoint write_orders (st : S) (orders : list Order) (i : Z) : S :=
  match orders with
  | [] => st
  | o :: rest =>
      let st := ex_set st (indexKey nsOrderA i) (order_wordA o) in
      let st := ex_set st (indexKey nsOrderB i) (order_wordB o) in
      write_orders st rest (i + 1)
  end.

(** clears the slots [i, i+n) *)
Fixpoint clear_orders (st : S) (n : nat) (i : Z) : S :=
  match n with
  | O => st
  | Datatypes.S n' =>
      let st := ex_set st (indexKey nsOrderA i) zero_hash in
      let st := ex_set st (indexKey nsOrderB i) zero_hash in
      clear_orders st n' (i + 1)
  end.

Fixpoint write_balances (st : S) (bals : list (AccountID * Bal)) : S * result unit :=
  match bals with
  | [] => (st, Ok tt)
  | (id, bal) :: rest =>
      let addr := toAddress id in
      if bal_Quote bal <? 0 then (st, Err ErrBalanceRange)
      else
        let acct := GetAccount st addr in
        let st := SetAccount st addr (set_balance acct (bal_Quote bal)) in
        if (bal_Base bal <? 0) || (bal_LockedBase bal <? 0) || (bal_LockedQuote bal <? 0)
        then (st, Err ErrBalanceRange)
        else
          let h := be 8 (bal_Base bal) ++ be 8 (bal_LockedBase bal) ++
                   be 8 (bal_LockedQuote bal) ++ replicate 8 0 in
          write_balances (ex_set st (holdingsKey addr) h) rest
  end.

Definition Save (st : S) (e : Eng) : S * result unit :=
  let prev := book_size st in
  let snapshot := BookSnapshot e in
  let n := Z.of_nat (length snapshot) in
  let st := write_orders st snapshot 0 in
  let st := clear_orders st (Z.to_nat (prev - n)) n in
  let st := ex_set st (indexKey nsBookSize 0) (replicate 24 0 ++ be 8 n) in
  write_balances st (StateSnapshot e).

Definition CreditBase (st : S) (addr : Address) (amount : Z) : S :=
  let k := holdingsKey addr in
  let h := ex_get st k in
  ex_set st k (be 8 (be_decode (slice 0 8 h) + amount) ++ drop 8 h).

Definition BaseOf (st : S) (addr : Address) : Z * Z :=
  let h := ex_get st (holdingsKey addr) in
  (be_decode (slice 0 8 h), be_decode (slice 8 16 h)).

Definition LockedQuoteOf (st : S) (addr : Address) : Z :=
  be_decode (slice 16 24 (ex_get st (holdingsKey addr))).

Definition rejection (res : ObResult) : error := default ErrRejected (res_Err res).

Definition Apply (st : S) (tx : Transaction) (height index : Z) : S * result unit :=
  match Decode (tx_From tx) (tx_Data tx) with
  | Err e => (st, Err e)
  | Ok op =>
      match Load st Continuous [tx_From tx] with
      | Err e => (st, Err e)
      | Ok e =>
          let '(e, res) := ApplyPositioned e height index op in
          if res_Accepted res then Save st e else (st, Err (rejection res))
      end
  end.

(** ** Batch auctions (batch.go) *)

Record BatchSession := mkSession {
  bs_engine : Eng;
  bs_staged : list Order;
  bs_touched : bool;
}.

Definition NewBatchSession (st : S) (senders : list Address) : result BatchSession :=
  e ← Load st BatchAuction senders; Ok (mkSession e [] false).

(** [BatchSession.Apply]; the session is updated even on an error *)
Definition session_Apply (s : BatchSession) (height index : Z) (from : Address) (data : bytes)
    : BatchSession * result unit :=
  match Decode from data with
  | Err e => (s, Err e)
  | Ok op =>
      match op with
      | TxCancel _ _ =>
          let '(e, res) := ApplyPositioned (bs_engine s) height index op in
          (mkSession e (bs_staged s) true,
           if res_Accepted res then Ok tt else Err (rejection res))
      | TxPlace _ _ _ _ =>
          let '(e, res, o) := StagePlace (bs_engine s) height index op in
          match o with
          | Some o =>
              if res_Accepted res then (mkSession e (bs_staged s ++ [o]) true, Ok tt)
              else (mkSession e (bs_staged s) true, Err (rejection res))
          | None => (mkSession e (bs_staged s) true, Err (rejection res))
          end
      end
  end.

Definition writeLastAuction (st : S) (price volume height : Z) : S :=
  let st := ex_set st (indexKey nsLastAuction 0) (be 8 price ++ be 8 volume ++ replicate 16 0) in
  ex_set st (indexKey nsLastAuction 1) (replicate 24 0 ++ be 8 height).

Definition LastAuction (st : S) : option (Z * Z * Z) :=
  let a := ex_get st (indexKey nsLastAuction 0) in
  let b := ex_get st (indexKey nsLastAuction 1) in
  if IsZero a && IsZero b then None
  else Some (be_decode (slice 0 8 a), be_decode (slice 8 16 a), be_decode (slice 24 32 b)).

Definition Finish (s : BatchSession) (st : S) (height : Z) : S * result AuctionSummary :=
  if negb (bs_touched s) then (st, Ok (mkSummary false 0 0))
  else
    match ClearBatch (bs_engine s) (bs_staged s) with
    | Err e => (st, Err e)
    | Ok (e, summary) =>
        match Save st e with
        | (st, Err err) => (st, Err err)
        | (st, Ok _) =>
            (if as_Cleared summary
             then writeLastAuction st (as_Price summary) (as_Volume summary) height else st,
             Ok summary)
        end
    end.

(** ** Queries (query.go) *)

Record Level := mkLevel { l_Price : Z; l_Qty : Z }.

Record OrderView := mkOrderView {
  ov_Height : Z;
  ov_Index : Z;
  ov_Account : Address;
  ov_Side : Side;
  ov_Price : Z;
  ov_Qty : Z;
}.

Definition snapshot (st : S) : result (list Order) :=
  e ← Load st Continuous []; Ok (BookSnapshot e).

Definition Snapshot (st : S) : result (list OrderView) :=
  orders ← snapshot st;
  Ok (map (fun o => mkOrderView (oid_Height (o_ID o)) (oid_Index (o_ID o))
                      (toAddress (o_Account o)) (o_Side o) (o_Price o) (o_Qty o)) orders).
End Exchange.

(** one order added to the levels of its side; the last level is at the end *)
Definition add_level (levels : list Level) (o : Order) : list Level :=
  match last levels with
  | Some l =>
      if l_Price l =? o_Price o
      then take (length levels - 1) levels ++ [mkLevel (l_Price l) (u64 (l_Qty l + o_Qty o))]
      else levels ++ [mkLevel (o_Price o) (o_Qty o)]
  | None => levels ++ [mkLevel (o_Price o) (o_Qty o)]
  end.

(** the grouping loop of [Depth] *)
Fixpoint depth_from (orders : list Order) (bids asks : list Level) : list Level * list Level :=
  match orders with
  | [] => (bids, asks)
  | o :: rest =>
      if bool_decide (o_Side o = Sell) then depth_from rest bids (add_level asks o)
      else depth_from rest (add_level bids o) asks
  end.

Section Queries.
Context {S : Type} `{HS : StateDB S} `{HE : Engine}.

Definition Depth (st : S) : result (list Level * list Level) :=
  orders ← snapshot st; Ok (depth_from orders [] []).

(** best bid and best ask, when there is one *)
Definition BestBidAsk (st : S) : result (option (Z * Z) * option (Z * Z)) :=
  '(bids, asks) ← Depth st;
  Ok (match bids with l :: _ => Some (l_Price l, l_Qty l) | [] => None end,
      match asks with l :: _ => Some (l_Price l, l_Qty l) | [] => None end).
End Queries.
