(* ===== verification/ExchangeProps.v ===== *)
(** * What the exchange's storage layout and calldata guarantee *)

From S2P Require Import Prelude Sha256 Core StateDB Exchange.

(** ** Keys *)

Lemma length_indexKey ns i : length (indexKey ns i) = HashLen.
Proof. unfold indexKey. len. done. Qed.

Lemma indexKey_inj ns i ns' j :
  is_u64 i -> is_u64 j -> indexKey ns i = indexKey ns' j -> ns = ns' /\ i = j.
Proof.
  intros Hi Hj E. unfold indexKey in E. apply app_split in E as [E1 E2]; [|done].
  injection E1 as ->. apply app_inv_head in E2. split; [done|by apply be8_inj].
Qed.

Lemma holdingsKey_indexKey a ns i : ns <> nsHoldings -> holdingsKey a <> indexKey ns i.
Proof.
  intros Hns E. unfold holdingsKey, indexKey in E. simpl in E. injection E as E _. congruence.
Qed.

Lemma holdingsKey_inj a b :
  length a = AddrLen -> length b = AddrLen -> holdingsKey a = holdingsKey b -> a = b.
Proof.
  intros Ha Hb E. unfold holdingsKey in E. rewrite !copy_fixed_id in E by done.
  by apply app_inv_head, app_inv_head in E.
Qed.

(** ** Orders in storage words *)

Record order_wf (o : Order) : Prop := {
  ow_account : length (o_Account o) = AddrLen;
  ow_height : is_u64 (oid_Height (o_ID o));
  ow_index : is_u32 (oid_Index (o_ID o));
  ow_price : is_u64 (o_Price o);
  ow_qty : is_u64 (o_Qty o);
}.

Lemma length_wordA o : length (order_wordA o) = HashLen.
Proof. unfold order_wordA. len. done. Qed.

Lemma length_wordB o : length (order_wordB o) = HashLen.
Proof. unfold order_wordB. len. done. Qed.

Lemma order_of_words_ok o : order_wf o -> order_of_words (order_wordA o) (order_wordB o) = o.
Proof.
  intros [Ha Hh Hi Hp Hq]. unfold order_of_words, order_wordA, order_wordB.
  rewrite copy_fixed_id by done. unfold AddrLen in Ha.
  rewrite slice_app_l by done.
  rewrite (slice_app_skip 20 20 28), (slice_app_skip 20 28 32) by (done || lia). simpl Nat.sub.
  rewrite slice_app_l by apply length_be.
  rewrite (slice_app_skip 8 8 12) by (apply length_be || lia). simpl Nat.sub.
  rewrite <- (app_nil_r (be 4 _)), slice_app_l by apply length_be.
  rewrite (slice_app_skip 1 8 16), (slice_app_skip 1 16 24) by (done || lia). simpl Nat.sub.
  rewrite (slice_app_skip 7 7 15), (slice_app_skip 7 15 23) by (done || lia). simpl Nat.sub.
  rewrite slice_app_l by apply length_be.
  rewrite (slice_app_skip 8 8 16) by (apply length_be || lia). simpl Nat.sub.
  rewrite slice_app_l by apply length_be.
  rewrite !be_decode_be8, be_decode_be4 by done.
  destruct o as [acct [h i] side p q]. simpl in *. unfold side_byte. by destruct side.
Qed.

(** ** Reading back what was written *)

Section Storage.
Context {S : Type} `{HL : StateDBLaws S} `{HE : Engine}.

Lemma ex_get_set (st : S) k v k' :
  ok st -> length v = HashLen -> ex_get (ex_set st k v) k' = if decide (k' = k) then v else ex_get st k'.
Proof.
  intros Hok Hv. unfold ex_get, ex_set. rewrite GetStorage_SetStorage by done.
  destruct (decide (k' = k)) as [->|]; [by rewrite decide_True|].
  by rewrite decide_False by (intros []; congruence).
Qed.

Lemma ok_ex_set (st : S) k v : ok st -> length v = HashLen -> ok (ex_set st k v).
Proof. intros. by apply ok_SetStorage. Qed.

Lemma ex_get_SetAccount (st : S) a x k :
  ok st -> same_roots x (GetAccount st a) -> ex_get (SetAccount st a x) k = ex_get st k.
Proof. intros. by apply GetStorage_SetAccount. Qed.

(** [k] is no order slot in [i, j) *)
Definition not_slot (k : Hash) (i j : Z) : Prop :=
  forall t, i <= t < j -> k <> indexKey nsOrderA t /\ k <> indexKey nsOrderB t.

Lemma write_orders_spec (st : S) orders i :
  ok st -> 0 <= i -> i + Z.of_nat (length orders) <= two64 ->
  let st' := write_orders st orders i in
  ok st' /\
  (forall a, balance st' a = balance st a /\ nonce st' a = nonce st a) /\
  (forall k, not_slot k i (i + Z.of_nat (length orders)) -> ex_get st' k = ex_get st k) /\
  (forall t o, orders !! t = Some o ->
     ex_get st' (indexKey nsOrderA (i + Z.of_nat t)) = order_wordA o /\
     ex_get st' (indexKey nsOrderB (i + Z.of_nat t)) = order_wordB o).
Proof.
  revert st i. induction orders as [|o orders IH]; intros st i Hok Hi Hlen; simpl.
  { split_and!; [done|done|done|]. intros t o Ho. by rewrite lookup_nil in Ho. }
  simpl length in Hlen.
  set (st1 := ex_set st (indexKey nsOrderA i) (order_wordA o)).
  set (st2 := ex_set st1 (indexKey nsOrderB i) (order_wordB o)).
  assert (Ok1 : ok st1) by (apply ok_ex_set; [done|apply length_wordA]).
  assert (Ok2 : ok st2) by (apply ok_ex_set; [done|apply length_wordB]).
  assert (Hget : forall k, ex_get st2 k = if decide (k = indexKey nsOrderB i) then order_wordB o
            else if decide (k = indexKey nsOrderA i) then order_wordA o else ex_get st k).
  { intros k. unfold st2, st1. rewrite !ex_get_set by (done || apply length_wordA || apply length_wordB).
    done. }
  destruct (IH st2 (i + 1)) as (O & B & F & T); [done|lia|lia|].
  assert (Hfresh : forall ns, not_slot (indexKey ns i) (i + 1) (i + 1 + Z.of_nat (length orders))).
  { intros ns t Ht. split; intros [_ E]%indexKey_inj; lia. }
  split_and!; [done| | |].
  - intros a. destruct (B a) as [-> ->]. unfold st2, st1, ex_set.
    by rewrite !balance_SetStorage, !nonce_SetStorage.
  - intros k Hk. rewrite F.
    + destruct (Hk i) as [? ?]; [lia|]. rewrite Hget, !decide_False by done. done.
    + intros t Ht. apply Hk. lia.
  - intros [|t] o' Ho'; simpl in Ho'.
    + injection Ho' as <-. rewrite Z.add_0_r, !F, !Hget by apply Hfresh.
      rewrite decide_False by (intros [? _]%indexKey_inj; unfold two64 in *; [done|lia|lia]).
      rewrite !decide_True by done. done.
    + destruct (T t o' Ho') as [TA TB].
      replace (i + Z.of_nat (Datatypes.S t)) with (i + 1 + Z.of_nat t) by lia. done.
Qed.

Lemma clear_orders_spec (st : S) n i :
  ok st -> 0 <= i -> i + Z.of_nat n <= two64 ->
  let st' := clear_orders st n i in
  ok st' /\
  (forall a, balance st' a = balance st a /\ nonce st' a = nonce st a) /\
  (forall k, not_slot k i (i + Z.of_nat n) -> ex_get st' k = ex_get st k) /\
  (forall t, i <= t < i + Z.of_nat n ->
     ex_get st' (indexKey nsOrderA t) = zero_hash /\ ex_get st' (indexKey nsOrderB t) = zero_hash).
Proof.
  revert st i. induction n as [|n IH]; intros st i Hok Hi Hlen; simpl.
  { split_and!; [done|done|done|]. intros t Ht. lia. }
  set (st1 := ex_set st (indexKey nsOrderA i) zero_hash).
  set (st2 := ex_set st1 (indexKey nsOrderB i) zero_hash).
  assert (Ok1 : ok st1) by (by apply ok_ex_set).
  assert (Ok2 : ok st2) by (by apply ok_ex_set).
  assert (Hget : forall k, ex_get st2 k = if decide (k = indexKey nsOrderB i) then zero_hash
            else if decide (k = indexKey nsOrderA i) then zero_hash else ex_get st k).
  { intros k. unfold st2, st1. by rewrite !ex_get_set. }
  destruct (IH st2 (i + 1)) as (O & B & F & T); [done|lia|lia|].
  assert (Hfresh : forall ns, not_slot (indexKey ns i) (i + 1) (i + 1 + Z.of_nat n)).
  { intros ns t Ht. split; intros [_ E]%indexKey_inj; lia. }
  split_and!; [done| | |].
  - intros a. destruct (B a) as [-> ->]. unfold st2, st1, ex_set.
    by rewrite !balance_SetStorage, !nonce_SetStorage.
  - intros k Hk. rewrite F.
    + destruct (Hk i) as [? ?]; [lia|]. rewrite Hget, !decide_False by done. done.
    + intros t Ht. apply Hk. lia.
  - intros t Ht. destruct (decide (t = i)) as [->|]; [|apply T; lia].
    rewrite !F, !Hget by apply Hfresh. by repeat case_decide.
Qed.

(** *** Balances *)

Record bal_wf (p : AccountID * Bal) : Prop := {
  bw_id : length (fst p) = AddrLen;
  bw_quote : 0 <= bal_Quote (snd p) < two63;
  bw_base : 0 <= bal_Base (snd p) < two63;
  bw_lbase : 0 <= bal_LockedBase (snd p) < two63;
  bw_lquote : 0 <= bal_LockedQuote (snd p) < two63;
}.

Definition holdings_word (bal : Bal) : Hash :=
  be 8 (bal_Base bal) ++ be 8 (bal_LockedBase bal) ++ be 8 (bal_LockedQuote bal) ++ replicate 8 0.

Lemma length_holdings_word bal : length (holdings_word bal) = HashLen.
Proof. unfold holdings_word. len. done. Qed.

Lemma write_balances_spec (st : S) bals :
  ok st -> Forall bal_wf bals -> NoDup (bals.*1) ->
  exists st', write_balances st bals = (st', Ok tt) /\ ok st' /\
  (forall k, (forall id, id ∈ bals.*1 -> k <> holdingsKey id) -> ex_get st' k = ex_get st k) /\
  (forall a, a ∉ bals.*1 -> balance st' a = balance st a) /\
  (forall a, nonce st' a = nonce st a) /\
  (forall id bal, (id, bal) ∈ bals ->
     balance st' id = bal_Quote bal /\ ex_get st' (holdingsKey id) = holdings_word bal).
Proof.
  revert st. induction bals as [|[id bal] bals IH]; intros st Hok Hwf Hnd.
  { exists st. split_and!; try done. intros id bal Hin. by apply not_elem_of_nil in Hin. }
  apply Forall_cons in Hwf as [[Hid Hq Hb Hlb Hlq] Hwf]. simpl fst in *. simpl snd in *.
  rewrite fmap_cons in Hnd. apply NoDup_cons in Hnd as [Hnew Hnd]. simpl fst in Hnew.
  cbn [write_balances]. unfold toAddress. rewrite (copy_fixed_id AddrLen id) by done.
  destruct (Z.ltb_spec (bal_Quote bal) 0); [lia|].
  destruct (Z.ltb_spec (bal_Base bal) 0); [lia|].
  destruct (Z.ltb_spec (bal_LockedBase bal) 0); [lia|].
  destruct (Z.ltb_spec (bal_LockedQuote bal) 0); [lia|]. simpl orb. cbv iota.
  set (st1 := SetAccount st id (set_balance (GetAccount st id) (bal_Quote bal))).
  fold (holdings_word bal). set (st2 := ex_set st1 (holdingsKey id) (holdings_word bal)).
  assert (Ok1 : ok st1) by (apply ok_SetAccount; [done|apply same_roots_balance]).
  assert (Ok2 : ok st2) by (apply ok_ex_set; [done|apply length_holdings_word]).
  destruct (IH st2) as (st' & E & O & F & B & N & T); [done|done|done|].
  assert (B2 : forall a, balance st2 a = if decide (a = id) then bal_Quote bal else balance st a).
  { intros a. unfold st2, ex_set. rewrite balance_SetStorage by done. unfold st1, balance.
    rewrite GetAccount_SetAccount by done. by case_decide. }
  assert (G2 : forall k, ex_get st2 k = if decide (k = holdingsKey id) then holdings_word bal else ex_get st k).
  { intros k. unfold st2. rewrite ex_get_set by (done || apply length_holdings_word).
    unfold st1. by rewrite ex_get_SetAccount by (done || apply same_roots_balance). }
  assert (Hfr : forall id', id' ∈ bals.*1 -> holdingsKey id <> holdingsKey id').
  { intros id' Hin Ek. apply Hnew. apply holdingsKey_inj in Ek; [by subst|done|].
    apply list_elem_of_fmap in Hin as ([x y] & -> & Hin). rewrite Forall_forall in Hwf.
    by apply (Hwf _ Hin). }
  exists st'. split_and!; [done|done| | | |].
  - intros k Hk. rewrite F, G2.
    + rewrite decide_False; [done|]. apply Hk. apply list_elem_of_here.
    + intros id' Hin. apply Hk. by apply list_elem_of_further.
  - intros a Ha. rewrite fmap_cons in Ha. apply not_elem_of_cons in Ha as [Ha1 Ha2].
    by rewrite B, B2, decide_False.
  - intros a. rewrite N. unfold st2, ex_set. rewrite nonce_SetStorage by done. unfold st1, nonce.
    rewrite GetAccount_SetAccount by done. by case_decide; subst.
  - intros id' bal' [[= -> ->]|Hin]%elem_of_cons; [|by apply T].
    rewrite B, F, B2, G2, !decide_True by done. done.
Qed.

(** *** Save, then Load *)

Definition read_book (st : S) : list Order := read_orders st (Z.to_nat (book_size st)) 0.

(** the slots from the book's size on are empty *)
Definition book_ok (st : S) : Prop :=
  is_u64 (book_size st) /\
  forall t, book_size st <= t < two64 ->
    ex_get st (indexKey nsOrderA t) = zero_hash /\ ex_get st (indexKey nsOrderB t) = zero_hash.

Record engine_wf (e : Eng) : Prop := {
  ew_orders : Forall order_wf (BookSnapshot e);
  ew_size : Z.of_nat (length (BookSnapshot e)) < two64;
  ew_bals : Forall bal_wf (StateSnapshot e);
  ew_nodup : NoDup ((StateSnapshot e).*1);
}.

Lemma read_orders_spec (st : S) orders i :
  Forall order_wf orders ->
  (forall t o, orders !! t = Some o ->
     ex_get st (indexKey nsOrderA (i + Z.of_nat t)) = order_wordA o /\
     ex_get st (indexKey nsOrderB (i + Z.of_nat t)) = order_wordB o) ->
  read_orders st (length orders) i = orders.
Proof.
  revert i. induction orders as [|o orders IH]; intros i Hwf Hst; [done|].
  apply Forall_cons in Hwf as [Ho Hwf]. simpl. f_equal.
  - destruct (Hst 0%nat o eq_refl) as [HA HB]. rewrite Z.add_0_r in HA, HB. rewrite HA, HB.
    by apply order_of_words_ok.
  - apply IH; [done|]. intros t o' Ho'. destruct (Hst (Datatypes.S t) o' Ho') as [HA HB].
    replace (i + 1 + Z.of_nat t) with (i + Z.of_nat (Datatypes.S t)) by lia. done.
Qed.

Lemma size_word_spec n :
  is_u64 n -> length (replicate 24 0 ++ be 8 n) = HashLen /\
  be_decode (slice 24 32 (replicate 24 0 ++ be 8 n)) = n.
Proof.
  intros Hn. split; [len; done|]. rewrite (slice_app_skip 24) by (done || lia). simpl Nat.sub.
  rewrite <- (app_nil_r (be 8 n)), slice_app_l by apply length_be. by apply be_decode_be8.
Qed.

Lemma Save_spec (st : S) e :
  ok st -> book_ok st -> engine_wf e ->
  exists st', Save st e = (st', Ok tt) /\ ok st' /\ book_ok st' /\
    read_book st' = BookSnapshot e /\
    (forall id bal, (id, bal) ∈ StateSnapshot e ->
       balance st' id = bal_Quote bal /\ ex_get st' (holdingsKey id) = holdings_word bal) /\
    (forall a, a ∉ (StateSnapshot e).*1 -> balance st' a = balance st a) /\
    (forall a, nonce st' a = nonce st a).
Proof.
  intros Hok [Hsz Hcl] [Ho Hn Hb Hd]. unfold Save.
  set (n := Z.of_nat (length (BookSnapshot e))) in *.
  destruct (write_orders_spec st (BookSnapshot e) 0) as (O1 & B1 & F1 & T1); [done|lia|lia|].
  set (st1 := write_orders _ _ _) in *. rewrite Z.add_0_l in F1. fold n in F1.
  destruct (clear_orders_spec st1 (Z.to_nat (book_size st - n)) n) as (O2 & B2 & F2 & T2);
    [done|lia|lia|].
  set (st2 := clear_orders _ _ _) in *.
  destruct (size_word_spec n) as [Ls Ds]; [lia|].
  set (sw := replicate 24 0 ++ be 8 n) in *.
  set (st3 := ex_set st2 (indexKey nsBookSize 0) sw).
  assert (O3 : ok st3) by (by apply ok_ex_set).
  destruct (write_balances_spec st3 (StateSnapshot e)) as (st' & E & O & F & B & N & T); [done..|].
  assert (Hidx : forall ns i, ns <> nsHoldings -> ex_get st' (indexKey ns i) = ex_get st3 (indexKey ns i)).
  { intros ns i Hns. apply F. intros id _ Ek. by apply (holdingsKey_indexKey id ns i). }
  assert (Hsize : book_size st' = n).
  { unfold book_size. rewrite Hidx by done. unfold st3. by rewrite ex_get_set, decide_True. }
  assert (Hslot : forall ns i, is_u64 i -> ns = nsOrderA \/ ns = nsOrderB ->
            ex_get st' (indexKey ns i) = ex_get st2 (indexKey ns i)).
  { intros ns i Hi Hns. rewrite Hidx by (destruct Hns as [-> | ->]; done). unfold st3.
    rewrite ex_get_set, decide_False; [done| |done|done].
    intros [-> _]%indexKey_inj; [|done|done]. by destruct Hns. }
  exists st'. split_and!; [done|done| | | | |].
  - split; rewrite Hsize; [lia|]. intros t Ht. rewrite !Hslot by (lia || auto).
    destruct (Z.lt_ge_cases t (book_size st)) as [Hlt|Hge]; [apply T2; lia|].
    assert (NS : forall ns, not_slot (indexKey ns t) n (n + Z.of_nat (Z.to_nat (book_size st - n)))).
    { intros ns t' Ht'. split; intros [_ Et]%indexKey_inj; lia. }
    assert (NS1 : forall ns, not_slot (indexKey ns t) 0 n).
    { intros ns t' Ht'. split; intros [_ Et]%indexKey_inj; lia. }
    rewrite !F2, !F1 by apply NS || apply NS1. apply Hcl. lia.
  - unfold read_book. rewrite Hsize. unfold n. rewrite Nat2Z.id. apply read_orders_spec; [done|].
    intros t o Ht. pose proof (lookup_lt_Some _ _ _ Ht). rewrite !Hslot by (lia || auto).
    destruct (T1 t o Ht) as [TA TB].
    rewrite !F2; [done|..]; intros t' Ht'; split; intros [_ Et]%indexKey_inj; lia.
  - done.
  - intros a Ha. rewrite B by done. unfold st3, ex_set. rewrite balance_SetStorage by done.
    by rewrite (proj1 (B2 a)), (proj1 (B1 a)).
  - intros a. rewrite N. unfold st3, ex_set. rewrite nonce_SetStorage by done.
    by rewrite (proj2 (B2 a)), (proj2 (B1 a)).
Qed.
End Storage.

(** ** Calldata *)

Lemma Decode_EncodePlace from side p q :
  length from = AddrLen -> is_u64 p -> is_u64 q ->
  Decode from (EncodePlace side p q) = Ok (TxPlace from side p q).
Proof.
  intros Hf Hp Hq.
  assert (length (EncodePlace side p q) = 18%nat) as L by (unfold EncodePlace; len; done).
  unfold EncodePlace in *. cbn [app] in *. unfold Decode. cbv iota. rewrite L.
  change (OpPlace =? OpPlace) with true. cbv iota. simpl negb. cbv iota.
  rewrite copy_fixed_id by done. change (nth 1 (OpPlace :: ?x :: ?r) 0) with x.
  assert (HS : ((side_byte side =? sideSell) || (side_byte side =? sideBuy)) = true) by (by destruct side).
  rewrite HS. change (OpPlace :: side_byte side :: be 8 p ++ be 8 q)
    with ([OpPlace; side_byte side] ++ be 8 p ++ be 8 q).
  rewrite (slice_app_skip 2 2 10), (slice_app_skip 2 10 18) by (done || lia). simpl Nat.sub.
  rewrite slice_app_l by apply length_be.
  rewrite (slice_app_skip 8 8 16) by (apply length_be || lia). simpl Nat.sub.
  rewrite <- (app_nil_r (be 8 q)), slice_app_l by apply length_be.
  rewrite !be_decode_be8 by done. by destruct side.
Qed.

Lemma Decode_EncodeCancel from id :
  length from = AddrLen -> is_u64 (oid_Height id) -> is_u32 (oid_Index id) ->
  Decode from (EncodeCancel id) = Ok (TxCancel from id).
Proof.
  intros Hf Hh Hi.
  assert (length (EncodeCancel id) = 13%nat) as L by (unfold EncodeCancel; len; done).
  unfold EncodeCancel in *. cbn [app] in *. unfold Decode. cbv iota. rewrite L.
  change (OpCancel =? OpPlace) with false. change (OpCancel =? OpCancel) with true. cbv iota.
  simpl negb. cbv iota. rewrite copy_fixed_id by done.
  change (OpCancel :: be 8 (oid_Height id) ++ be 4 (oid_Index id))
    with ([OpCancel] ++ be 8 (oid_Height id) ++ be 4 (oid_Index id)).
  rewrite (slice_app_skip 1 1 9), (slice_app_skip 1 9 13) by (done || lia). simpl Nat.sub.
  rewrite slice_app_l by apply length_be.
  rewrite (slice_app_skip 8 8 12) by (apply length_be || lia). simpl Nat.sub.
  rewrite <- (app_nil_r (be 4 _)), slice_app_l by apply length_be.
  rewrite be_decode_be8, be_decode_be4 by done. by destruct id.
Qed.

(** ** Depth *)

Lemma add_level_total levels o :
  u64 (Zsum l_Qty (add_level levels o)) = u64 (Zsum l_Qty levels + o_Qty o).
Proof.
  unfold add_level. destruct (last levels) as [l|] eqn:E.
  - destruct (Z.eqb_spec (l_Price l) (o_Price o)).
    + apply last_Some in E as [ls ->]. rewrite length_app. simpl length.
      rewrite Nat.add_sub, take_app_length, !Zsum_app. simpl. unfold u64.
      rewrite Z.add_0_r, Zplus_mod_idemp_r. f_equal. lia.
    + rewrite Zsum_app. simpl. f_equal. lia.
  - apply last_None in E as ->. simpl. f_equal. lia.
Qed.

Definition on_side (s : Side) (orders : list Order) : list Order :=
  filter (fun o => o_Side o = s) orders.

Lemma depth_from_total orders bids asks :
  let '(bids', asks') := depth_from orders bids asks in
  u64 (Zsum l_Qty bids') = u64 (Zsum l_Qty bids + Zsum o_Qty (on_side Buy orders)) /\
  u64 (Zsum l_Qty asks') = u64 (Zsum l_Qty asks + Zsum o_Qty (on_side Sell orders)).
Proof.
  revert bids asks. induction orders as [|o orders IH]; intros bids asks; simpl.
  { unfold on_side. simpl. by rewrite !Z.add_0_r. }
  unfold on_side in *. rewrite !filter_cons. case_bool_decide as E.
  - specialize (IH bids (add_level asks o)). destruct (depth_from _ _ _) as [b' a'].
    rewrite decide_False by congruence. rewrite decide_True by done. destruct IH as [-> ->].
    split; [done|]. rewrite Zsum_cons. unfold u64. rewrite <- Zplus_mod_idemp_l.
    fold (u64 (Zsum l_Qty (add_level asks o))). rewrite add_level_total. unfold u64.
    rewrite Zplus_mod_idemp_l. f_equal. lia.
  - specialize (IH (add_level bids o) asks). destruct (depth_from _ _ _) as [b' a'].
    rewrite decide_True by (by destruct (o_Side o)). rewrite decide_False by done.
    destruct IH as [-> ->]. split; [|done]. rewrite Zsum_cons. unfold u64. rewrite <- Zplus_mod_idemp_l.
    fold (u64 (Zsum l_Qty (add_level bids o))). rewrite add_level_total. unfold u64.
    rewrite Zplus_mod_idemp_l. f_equal. lia.
Qed.

(** ** Properties *)

(** calldata round-trips.  A placement or a cancellation encoded for the
    exchange decodes, for the sender, to exactly the order or the identifier it
    was made from. *)
Theorem exchange_calldata_roundtrip from side p q id :
  length from = AddrLen -> is_u64 p -> is_u64 q ->
  is_u64 (oid_Height id) -> is_u32 (oid_Index id) ->
  Decode from (EncodePlace side p q) = Ok (TxPlace from side p q) /\
  Decode from (EncodeCancel id) = Ok (TxCancel from id).
Proof.
  intros. split; [by apply Decode_EncodePlace|by apply Decode_EncodeCancel].
Qed.

Lemma exchange_calldata_roundtrip_witness :
  Decode zero_addr (EncodePlace Sell 100 7) = Ok (TxPlace zero_addr Sell 100 7).
Proof.
  apply (exchange_calldata_roundtrip zero_addr Sell 100 7 (mkOrderID 3 4)); done.
Defined.

(** a stand-in for the matching engine: a book that never matches, and the
    balances credited to it *)
Definition toy_engine : Engine := {|
  Eng := list Order * list (AccountID * Bal);
  NewEngine := fun _ => ([], []);
  Credit := fun e a base quote => (fst e, snd e ++ [(a, mkBal base quote 0 0)]);
  Restore := fun e orders => Ok (orders, snd e);
  BookSnapshot := fst;
  StateSnapshot := snd;
  ApplyPositioned := fun e h i op =>
    match op with
    | TxPlace a s p q => ((fst e ++ [mkOrder a (mkOrderID h i) s p q], snd e), mkObResult true None)
    | TxCancel a id => ((filter (fun o => o_ID o <> id) (fst e), snd e), mkObResult true None)
    end;
  StagePlace := fun e h i op =>
    match op with
    | TxPlace a s p q => (e, mkObResult true None, Some (mkOrder a (mkOrderID h i) s p q))
    | TxCancel a id => (e, mkObResult false None, None)
    end;
  ClearBatch := fun e staged => Ok ((fst e ++ staged, snd e), mkSummary false 0 0);
|}.

(** The book survives the state.  Saving an engine writes its resting orders
    so that they are read back exactly, in order, and every account's quote and
    base holdings and locks; balances of other accounts and all nonces are
    untouched; and no order slot beyond the book's size is left behind, so two
    ways to the same book give the same storage. *)
Theorem Save_reads_back S `{StateDBLaws S} `{Engine} (st : S) e :
  ok st -> book_ok st -> engine_wf e ->
  let st' := fst (Save st e) in
  snd (Save st e) = Ok tt /\ book_ok st' /\ read_book st' = BookSnapshot e /\
  (forall id bal, (id, bal) ∈ StateSnapshot e ->
     balance st' id = bal_Quote bal /\
     BaseOf st' id = (bal_Base bal, bal_LockedBase bal) /\
     LockedQuoteOf st' id = bal_LockedQuote bal) /\
  (forall a, a ∉ (StateSnapshot e).*1 -> balance st' a = balance st a) /\
  (forall a, nonce st' a = nonce st a).
Proof.
  intros Hok Hb He. destruct (Save_spec st e Hok Hb He) as (st' & E & O & B & R & T & F & N).
  rewrite E. simpl. split_and!; try done. intros id bal Hin.
  destruct (T id bal Hin) as [Hq Hh]. unfold BaseOf, LockedQuoteOf. rewrite Hh.
  pose proof (ew_bals _ He) as Hw. rewrite Forall_forall in Hw. destruct (Hw _ Hin) as [_ _ Wb Wlb Wlq].
  simpl in *. unfold holdings_word, two63, two64 in *.
  rewrite slice_app_l by apply length_be.
  rewrite (slice_app_skip 8 8 16), (slice_app_skip 8 16 24) by (apply length_be || lia). simpl Nat.sub.
  rewrite slice_app_l by apply length_be.
  rewrite (slice_app_skip 8 8 16) by (apply length_be || lia). simpl Nat.sub.
  rewrite slice_app_l by apply length_be.
  rewrite !be_decode_be8 by (unfold two64; lia). done.
Qed.

Definition sample_engine : list Order * list (AccountID * Bal) :=
  ([mkOrder (replicate 20 1) (mkOrderID 5 0) Sell 100 7;
    mkOrder (replicate 20 2) (mkOrderID 5 1) Buy 90 3],
   [(replicate 20 1, mkBal 7 1000 7 0); (replicate 20 2, mkBal 0 500 0 270)]).

Lemma Save_reads_back_witness :
  read_book (fst (@Save memStateDB _ toy_engine NewMemStateDB sample_engine)) = fst sample_engine.
Proof.
  apply (@Save_reads_back memStateDB _ _ toy_engine NewMemStateDB sample_engine).
  - done.
  - split; [done|]. intros t Ht. unfold ex_get. simpl. unfold mem_GetStorage. simpl.
    by rewrite lookup_empty.
  - split; simpl.
    + repeat constructor; done.
    + done.
    + repeat constructor; done.
    + apply NoDup_cons. split; [by rewrite list_elem_of_singleton|apply NoDup_singleton].
Defined.

(** the depth view loses no quantity.  For each side of the book the
    quantities of the aggregated price levels add up to those of the resting
    orders (in 64-bit arithmetic, as the source adds them). *)
Theorem Depth_totals S `{StateDB S} `{Engine} (st : S) orders bids asks :
  snapshot st = Ok orders -> Depth st = Ok (bids, asks) ->
  u64 (Zsum l_Qty bids) = u64 (Zsum o_Qty (on_side Buy orders)) /\
  u64 (Zsum l_Qty asks) = u64 (Zsum o_Qty (on_side Sell orders)).
Proof.
  intros Hs Hd. unfold Depth in Hd. rewrite Hs in Hd. simpl in Hd. injection Hd as Hd.
  pose proof (depth_from_total orders [] []) as Ht. rewrite Hd in Ht. exact Ht.
Qed.

Lemma Depth_totals_witness :
  u64 (Zsum l_Qty [mkLevel 90 3]) = u64 (Zsum o_Qty (on_side Buy (fst sample_engine))).
Proof.
  eapply (@Depth_totals memStateDB _ toy_engine
    (fst (@Save memStateDB _ toy_engine NewMemStateDB sample_engine)) (fst sample_engine)
    [mkLevel 90 3] [mkLevel 100 7]); vm_compute; reflexivity.
Defined.

(** the last auction's result can be read back.  After [writeLastAuction],
    [LastAuction] returns the price, volume and height written (an auction at
    height 0 with price and volume 0 excepted, which reads as none). *)
Theorem LastAuction_roundtrip S `{StateDBLaws S} (st : S) price volume height :
  ok st -> is_u64 price -> is_u64 volume -> 0 < height < two64 ->
  LastAuction (writeLastAuction st price volume height) = Some (price, volume, height).
Proof.
  intros Hok Hp Hv Hh. unfold LastAuction, writeLastAuction.
  set (a := be 8 price ++ be 8 volume ++ replicate 16 0).
  set (b := replicate 24 0 ++ be 8 height).
  assert (length a = HashLen) as La by (unfold a; len; done).
  destruct (size_word_spec height) as [Lb Db]; [lia|]. fold b in Lb, Db.
  rewrite !ex_get_set by (done || by apply ok_ex_set).
  rewrite decide_False by (intros [_ E]%indexKey_inj; done).
  rewrite !decide_True by done.
  assert (IsZero b = false) as ->.
  { apply IsZero_false; [done|]. intros E. rewrite E in Db. vm_compute in Db. lia. }
  rewrite andb_false_r, Db. unfold a.
  rewrite slice_app_l by apply length_be.
  rewrite (slice_app_skip 8 8 16) by (apply length_be || lia). simpl Nat.sub.
  rewrite slice_app_l by apply length_be. by rewrite !be_decode_be8.
Qed.

Lemma LastAuction_roundtrip_witness :
  LastAuction (writeLastAuction NewMemStateDB 100 3 9) = Some (100, 3, 9).
Proof. apply (LastAuction_roundtrip memStateDB); done. Defined.
