(* ===== verification/Adapter.v ===== *)
(** * The adapter between the chain's state and the embedded EVM

    Models evm/dispatch.go and evm/adapter (convert.go, journal.go, statedb.go): a
    journaled view of a [StateDB] with numbered snapshots, touched and
    self-destructed sets, access lists, transient storage, logs and refunds.

    - The journal's undo closures are the constructors of [undo_entry].
    - A Go set [map[K]bool] that only ever holds [true] is a [gset].
    - Addresses and hashes of go-ethereum are the same byte arrays, so convert.go's
      copies are identities and 256-bit balances are [Z]s.
    - A log is its payload and the three fields [AddLog] fills in. *)

From S2P Require Import Prelude Sha256 Core StateDB.

(** ** Code tags (evm/dispatch.go) *)

Definition DeployAddress : Address :=
  [0x45; 0x56; 0x4D; 0; 0; 0; 0; 0; 0; 0; 0; 0; 0; 0; 0; 0; 0; 0; 0; 1].

Definition codeMagic : bytes := [0xFE; 76; 49; 69; 86; 77; 49; 0xFE].

Definition TagCode (runtime : bytes) : bytes := codeMagic ++ runtime.

Definition IsTaggedCode (code : bytes) : bool :=
  (length codeMagic <=? length code)%nat &&
  bool_decide (take (length codeMagic) code = codeMagic).

Definition UntagCode (code : bytes) : bytes :=
  if negb (IsTaggedCode code) then code else drop (length codeMagic) code.

(** ** The adapter's state *)

Record Log := mkLog { log_payload : bytes; log_TxHash : Hash; log_TxIndex : Z; log_Index : Z }.

Inductive undo_entry :=
| UTouch (a : Address)
| UNonce (a : Address) (prev : Z)
| UBalance (a : Address) (prev : Z)
| UCode (a : Address) (prev : bytes)
| URefund (prev : Z)
| UNewContract (a : Address)
| USelfDestruct (a : Address)
| UWarmAddr (a : Address)
| UWarmSlot (a : Address) (k : Hash)
| UTransient (a : Address) (k prev : Hash)
| UStorage (a : Address) (k prev : Hash)
| ULog.

Record adb (S : Type) := mkAdb {
  base : S;
  entries : list undo_entry;
  a_err : bool;
  refund : Z;
  touched : gset Address;
  selfDestructed : gset Address;
  newContracts : gset Address;
  warmAddrs : gset Address;
  warmSlots : gset (Address * Hash);
  transient : gmap (Address * Hash) Hash;
  committed : gmap (Address * Hash) Hash;
  logs : list Log;
  thash : Hash;
  txIndex : Z;
  preimages : gmap Hash bytes;
}.
Arguments mkAdb {S}.
Arguments base {S}.
Arguments entries {S}.
Arguments a_err {S}.
Arguments refund {S}.
Arguments touched {S}.
Arguments selfDestructed {S}.
Arguments newContracts {S}.
Arguments warmAddrs {S}.
Arguments warmSlots {S}.
Arguments transient {S}.
Arguments committed {S}.
Arguments logs {S}.
Arguments thash {S}.
Arguments txIndex {S}.
Arguments preimages {S}.

Section Adapter.
Context {S : Type} `{HS : StateDB S}.
Implicit Types s : adb S.

Definition New_adapter (b : S) : adb S :=
  mkAdb b [] false 0 ∅ ∅ ∅ ∅ ∅ ∅ ∅ [] zero_hash 0 ∅.

(** field updates *)
Definition with_base s (b : S) : adb S := mkAdb b (entries s) (a_err s) (refund s) (touched s) (selfDestructed s)
  (newContracts s) (warmAddrs s) (warmSlots s) (transient s) (committed s) (logs s) (thash s)
  (txIndex s) (preimages s).
Definition with_entries s es := mkAdb (base s) es (a_err s) (refund s) (touched s)
  (selfDestructed s) (newContracts s) (warmAddrs s) (warmSlots s) (transient s) (committed s)
  (logs s) (thash s) (txIndex s) (preimages s).
Definition with_err s b := mkAdb (base s) (entries s) b (refund s) (touched s) (selfDestructed s)
  (newContracts s) (warmAddrs s) (warmSlots s) (transient s) (committed s) (logs s) (thash s)
  (txIndex s) (preimages s).
Definition with_refund s r := mkAdb (base s) (entries s) (a_err s) r (touched s)
  (selfDestructed s) (newContracts s) (warmAddrs s) (warmSlots s) (transient s) (committed s)
  (logs s) (thash s) (txIndex s) (preimages s).
Definition with_touched s t := mkAdb (base s) (entries s) (a_err s) (refund s) t
  (selfDestructed s) (newContracts s) (warmAddrs s) (warmSlots s) (transient s) (committed s)
  (logs s) (thash s) (txIndex s) (preimages s).
Definition with_destructed s d := mkAdb (base s) (entries s) (a_err s) (refund s) (touched s) d
  (newContracts s) (warmAddrs s) (warmSlots s) (transient s) (committed s) (logs s) (thash s)
  (txIndex s) (preimages s).
Definition with_new s n := mkAdb (base s) (entries s) (a_err s) (refund s) (touched s)
  (selfDestructed s) n (warmAddrs s) (warmSlots s) (transient s) (committed s) (logs s) (thash s)
  (txIndex s) (preimages s).
Definition with_warm s w ws := mkAdb (base s) (entries s) (a_err s) (refund s) (touched s)
  (selfDestructed s) (newContracts s) w ws (transient s) (committed s) (logs s) (thash s)
  (txIndex s) (preimages s).
Definition with_transient s t := mkAdb (base s) (entries s) (a_err s) (refund s) (touched s)
  (selfDestructed s) (newContracts s) (warmAddrs s) (warmSlots s) t (committed s) (logs s)
  (thash s) (txIndex s) (preimages s).
Definition with_committed s c := mkAdb (base s) (entries s) (a_err s) (refund s) (touched s)
  (selfDestructed s) (newContracts s) (warmAddrs s) (warmSlots s) (transient s) c (logs s)
  (thash s) (txIndex s) (preimages s).
Definition with_logs s l := mkAdb (base s) (entries s) (a_err s) (refund s) (touched s)
  (selfDestructed s) (newContracts s) (warmAddrs s) (warmSlots s) (transient s) (committed s) l
  (thash s) (txIndex s) (preimages s).

(** ** The journal (journal.go) *)

Definition record_ s (e : undo_entry) : adb S := with_entries s (entries s ++ [e]).

(** applying one undo closure *)
Definition undo (e : undo_entry) s : adb S :=
  match e with
  | UTouch a => with_touched s (touched s ∖ {[a]})
  | UNonce a prev =>
      with_base s (SetAccount (base s) a (set_nonce_ (GetAccount (base s) a) prev))
  | UBalance a prev =>
      with_base s (SetAccount (base s) a (set_balance (GetAccount (base s) a) prev))
  | UCode a prev =>
      with_base s (SetCode (base s) a (if (length prev =? 0)%nat then [] else TagCode prev))
  | URefund prev => with_refund s prev
  | UNewContract a => with_new s (newContracts s ∖ {[a]})
  | USelfDestruct a => with_destructed s (selfDestructed s ∖ {[a]})
  | UWarmAddr a => with_warm s (warmAddrs s ∖ {[a]}) (warmSlots s)
  | UWarmSlot a k => with_warm s (warmAddrs s) (warmSlots s ∖ {[(a, k)]})
  | UTransient a k prev => with_transient s (<[(a, k) := prev]> (transient s))
  | UStorage a k prev => with_base s (SetStorage (base s) a k prev)
  | ULog => with_logs s (take (length (logs s) - 1) (logs s))
  end.

Definition Snapshot_ s : nat := length (entries s).

(** undo the entries from [id] on, newest first, then truncate *)
Definition RevertToSnapshot s (id : nat) : adb S :=
  let s' := foldr undo s (drop id (entries s)) in
  with_entries s' (take id (entries s)).

Definition Err_ s : bool := a_err s.

(** ** Existence and mutation *)

Definition touch s (a : Address) : adb S :=
  if bool_decide (a ∈ touched s) then s
  else record_ (with_touched s ({[a]} ∪ touched s)) (UTouch a).

Definition basePersisted (acct : Account) : bool :=
  negb (Balance acct =? 0) || negb (Nonce acct =? 0) || negb (IsZero (CodeHash acct)) ||
  negb (IsZero (StorageRoot_ acct)).

Definition GetNonce s (a : Address) : Z := Nonce (GetAccount (base s) a).

Definition SetNonce s (a : Address) (n : Z) : adb S :=
  let s := touch s a in
  let acct := GetAccount (base s) a in
  record_ (with_base s (SetAccount (base s) a (set_nonce_ acct n))) (UNonce a (Nonce acct)).

Definition GetBalance s (a : Address) : Z := Balance (GetAccount (base s) a).

Definition setBalance s (a : Address) (newBalance : Z) : adb S * Z :=
  let acct := GetAccount (base s) a in
  (record_ (with_base s (SetAccount (base s) a (set_balance acct newBalance)))
     (UBalance a (Balance acct)), Balance acct).

(** [Uint64WithOverflow] *)
Definition fits_u64 (x : Z) : bool := x <? two64.

Definition AddBalance s (a : Address) (amount : Z) : adb S * Z :=
  let s := touch s a in
  let cur := Balance (GetAccount (base s) a) in
  let sum := (cur + amount) mod two256 in
  if fits_u64 sum then setBalance s a sum else (with_err s true, cur).

Definition SubBalance s (a : Address) (amount : Z) : adb S * Z :=
  let s := touch s a in
  let cur := Balance (GetAccount (base s) a) in
  let diff := (cur - amount) mod two256 in
  if fits_u64 diff then setBalance s a diff else (with_err s true, cur).

Definition adapter_GetCode s (a : Address) : bytes := UntagCode (GetCode (base s) a).
Definition GetCodeSize s (a : Address) : Z := Z.of_nat (length (adapter_GetCode s a)).
Definition GetCodeHash s (a : Address) : Hash :=
  let code := adapter_GetCode s a in
  if (length code =? 0)%nat then zero_hash else SumHash code.

Definition adapter_SetCode s (a : Address) (code : bytes) : adb S * bytes :=
  let s := touch s a in
  let prev := UntagCode (GetCode (base s) a) in
  (record_ (with_base s (SetCode (base s) a
      (if (length code =? 0)%nat then [] else TagCode code))) (UCode a prev), prev).

Definition AddRefund s (gas : Z) : adb S :=
  record_ (with_refund s (u64 (refund s + gas))) (URefund (refund s)).

(** [None]: the panic *)
Definition SubRefund s (gas : Z) : option (adb S) :=
  if refund s <? gas then None
  else Some (record_ (with_refund s (refund s - gas)) (URefund (refund s))).

Definition Exist s (a : Address) : bool :=
  bool_decide (a ∈ touched s) || basePersisted (GetAccount (base s) a).

Definition Empty s (a : Address) : bool :=
  let acct := GetAccount (base s) a in
  (Balance acct =? 0) && (Nonce acct =? 0) && IsZero (CodeHash acct).

Definition CreateAccount s (a : Address) : adb S := touch s a.

Definition CreateContract s (a : Address) : adb S :=
  let s := touch s a in
  if bool_decide (a ∈ newContracts s) then s
  else record_ (with_new s ({[a]} ∪ newContracts s)) (UNewContract a).

Definition IsNewContract s (a : Address) : bool := bool_decide (a ∈ newContracts s).

Definition SelfDestruct s (a : Address) : adb S :=
  let s := touch s a in
  if bool_decide (a ∈ selfDestructed s) then s
  else record_ (with_destructed s ({[a]} ∪ selfDestructed s)) (USelfDestruct a).

Definition HasSelfDestructed s (a : Address) : bool := bool_decide (a ∈ selfDestructed s).

(** ** Access lists and transient storage *)

Definition addWarmAddr s (a : Address) : adb S :=
  if bool_decide (a ∈ warmAddrs s) then s
  else record_ (with_warm s ({[a]} ∪ warmAddrs s) (warmSlots s)) (UWarmAddr a).

Definition AddSlotToAccessList s (a : Address) (k : Hash) : adb S :=
  let s := addWarmAddr s a in
  if bool_decide ((a, k) ∈ warmSlots s) then s
  else record_ (with_warm s (warmAddrs s) ({[(a, k)]} ∪ warmSlots s)) (UWarmSlot a k).

Definition AddressInAccessList s (a : Address) : bool := bool_decide (a ∈ warmAddrs s).
Definition SlotInAccessList s (a : Address) (k : Hash) : bool * bool :=
  (bool_decide (a ∈ warmAddrs s), bool_decide ((a, k) ∈ warmSlots s)).

(** the fields of go-ethereum's [params.Rules] that matter here *)
Record Rules := mkRules { IsEIP2929 : bool; IsShanghai : bool; IsEIP158 : bool }.

Definition Prepare s (rules : Rules) (sender coinbase : Address) (dst : option Address)
    (precompiles : list Address) (accessList : list (Address * list Hash)) : adb S :=
  let s :=
    if IsEIP2929 rules then
      let w : gset Address := {[sender]} in
      let w := match dst with Some d => {[d]} ∪ w | None => w end in
      let w := list_to_set precompiles ∪ w in
      let w := list_to_set (map fst accessList) ∪ w in
      let w := if IsShanghai rules then {[coinbase]} ∪ w else w in
      let ws : gset (Address * Hash) :=
        list_to_set (concat (map (fun el => map (fun k => (fst el, k)) (snd el)) accessList)) in
      with_warm s w ws
    else s in
  with_committed (with_transient s ∅) ∅.

Definition GetTransientState s (a : Address) (k : Hash) : Hash :=
  default zero_hash (transient s !! (a, k)).

Definition SetTransientState s (a : Address) (k v : Hash) : adb S :=
  let prev := GetTransientState s a k in
  if bool_decide (prev = v) then s
  else record_ (with_transient s (<[(a, k) := v]> (transient s))) (UTransient a k prev).

(** ** Storage, logs, finalisation *)

Definition GetState s (a : Address) (k : Hash) : Hash := GetStorage (base s) a k.

Definition cacheCommitted s (a : Address) (k : Hash) : adb S :=
  match committed s !! (a, k) with
  | Some _ => s
  | None => with_committed s (<[(a, k) := GetStorage (base s) a k]> (committed s))
  end.

Definition SetState s (a : Address) (k v : Hash) : adb S * Hash :=
  let s := touch s a in
  let s := cacheCommitted s a k in
  let prev := GetStorage (base s) a k in
  (record_ (with_base s (SetStorage (base s) a k v)) (UStorage a k prev), prev).

Definition GetStateAndCommittedState s (a : Address) (k : Hash) : adb S * (Hash * Hash) :=
  let s := cacheCommitted s a k in
  (s, (GetStorage (base s) a k, default zero_hash (committed s !! (a, k)))).

Definition SetTxContext s (h : Hash) (i : Z) : adb S :=
  mkAdb (base s) (entries s) (a_err s) (refund s) (touched s) (selfDestructed s) (newContracts s)
    (warmAddrs s) (warmSlots s) (transient s) (committed s) (logs s) h i (preimages s).

Definition AddLog s (payload : bytes) : adb S :=
  let l := mkLog payload (thash s) (txIndex s) (Z.of_nat (length (logs s))) in
  record_ (with_logs s (logs s ++ [l])) ULog.

Definition AddPreimage s (h : Hash) (preimage : bytes) : adb S :=
  match preimages s !! h with
  | Some _ => s
  | None =>
      mkAdb (base s) (entries s) (a_err s) (refund s) (touched s) (selfDestructed s)
        (newContracts s) (warmAddrs s) (warmSlots s) (transient s) (committed s) (logs s)
        (thash s) (txIndex s) (<[h := preimage]> (preimages s))
  end.

Definition basePersistedEmpty (acct : Account) : bool :=
  (Balance acct =? 0) && (Nonce acct =? 0) && IsZero (CodeHash acct).

(** the body of [Finalise]'s loop *)
Definition finalise_one (deleteEmptyObjects : bool) s (a : Address) : adb S :=
  if bool_decide (a ∈ selfDestructed s) ||
     (deleteEmptyObjects && basePersistedEmpty (GetAccount (base s) a))
  then
    let s := with_base s (SetAccount (base s) a empty_account) in
    let s := with_touched s (touched s ∖ {[a]}) in
    let s := with_destructed s (selfDestructed s ∖ {[a]}) in
    with_new s (newContracts s ∖ {[a]})
  else s.

Definition Finalise s (deleteEmptyObjects : bool) : adb S :=
  foldl (finalise_one deleteEmptyObjects) s (elements (touched s)).
End Adapter.
