(* ===== verification/AdapterProps.v ===== *)
(** * Snapshots of the adapter

    Whatever the embedded EVM does between [Snapshot] and [RevertToSnapshot], the
    state reads afterwards as it did before. *)

From S2P Require Import Prelude Sha256 Core StateDB Adapter.

(** ** The calls the EVM makes *)

Inductive adb_op :=
| OSetNonce (a : Address) (n : Z)
| OAddBalance (a : Address) (amount : Z)
| OSubBalance (a : Address) (amount : Z)
| OSetCode (a : Address) (code : bytes)
| OAddRefund (gas : Z)
| OSubRefund (gas : Z)
| OTouch (a : Address)
| OCreateContract (a : Address)
| OSelfDestruct (a : Address)
| OWarmAddr (a : Address)
| OWarmSlot (a : Address) (k : Hash)
| OSetTransient (a : Address) (k v : Hash)
| OSetState (a : Address) (k v : Hash)
| OGetCommitted (a : Address) (k : Hash)
| OAddLog (payload : bytes)
| OAddPreimage (h : Hash) (preimage : bytes).

Section Revert.
Context {S : Type} `{HL : StateDBLaws S}.
Implicit Types s t : adb S.

Definition run_adb (op : adb_op) s : adb S :=
  match op with
  | OSetNonce a n => SetNonce s a n
  | OAddBalance a x => fst (AddBalance s a x)
  | OSubBalance a x => fst (SubBalance s a x)
  | OSetCode a c => fst (adapter_SetCode s a c)
  | OAddRefund g => AddRefund s g
  | OSubRefund g => default s (SubRefund s g)
  | OTouch a => touch s a
  | OCreateContract a => CreateContract s a
  | OSelfDestruct a => SelfDestruct s a
  | OWarmAddr a => addWarmAddr s a
  | OWarmSlot a k => AddSlotToAccessList s a k
  | OSetTransient a k v => SetTransientState s a k v
  | OSetState a k v => fst (SetState s a k v)
  | OGetCommitted a k => fst (GetStateAndCommittedState s a k)
  | OAddLog p => AddLog s p
  | OAddPreimage h p => AddPreimage s h p
  end.

(** stored code is empty or tagged: what [SetCode]'s undo can restore *)
Definition evm_code (c : bytes) : Prop := c = [] \/ exists r, r <> [] /\ c = TagCode r.

Definition words_wf (b : S) : Prop := forall a k, length (GetStorage b a k) = HashLen.

Definition op_ok (op : adb_op) s : Prop :=
  match op with
  | OSetCode a _ => evm_code (GetCode (base s) a)
  | OSetState _ _ v => length v = HashLen
  | _ => True
  end.

(** ** Reading the same *)

Record reads_as s t : Prop := {
  ra_ok : ok (base s) /\ ok (base t);
  ra_acct : forall a, balance (base s) a = balance (base t) a /\ nonce (base s) a = nonce (base t) a;
  ra_code : forall a, GetCode (base s) a = GetCode (base t) a;
  ra_storage : forall a k, GetStorage (base s) a k = GetStorage (base t) a k;
  ra_refund : refund s = refund t;
  ra_touched : touched s = touched t;
  ra_destructed : selfDestructed s = selfDestructed t;
  ra_new : newContracts s = newContracts t;
  ra_warm : warmAddrs s = warmAddrs t /\ warmSlots s = warmSlots t;
  ra_transient : forall a k, GetTransientState s a k = GetTransientState t a k;
  ra_logs : logs s = logs t;
}.

Lemma reads_as_refl s : ok (base s) -> reads_as s s.
Proof. intros. by split. Qed.

Lemma reads_as_trans s t u : reads_as s t -> reads_as t u -> reads_as s u.
Proof.
  intros [[? ?] A C K R T D N [W1 W2] Tr L] [[? ?] A' C' K' R' T' D' N' [W1' W2'] Tr' L'].
  split; try congruence; try (by split; congruence).
  intros a. destruct (A a), (A' a). split; congruence.
Qed.

(** undoing an entry respects [reads_as] *)
Lemma undo_proper e s t :
  (forall a k prev, e = UStorage a k prev -> length prev = HashLen) ->
  reads_as s t -> reads_as (undo e s) (undo e t).
Proof.
  intros Hlen [[Os Ot] A C K R T D N [W1 W2] Tr L].
  destruct e as [a|a p|a p|a p|p|a|a|a|a k|a k p|a k p|]; simpl;
    (split; simpl; rewrite ?T, ?D, ?N, ?W1, ?W2, ?L; try done).
  - split; apply ok_SetAccount; done.
  - intros b. unfold balance, nonce in *. rewrite !GetAccount_SetAccount by done.
    case_decide; subst; simpl; split; try done; apply A.
  - intros b. by rewrite !GetCode_SetAccount.
  - intros b k. by rewrite !GetStorage_SetAccount.
  - split; apply ok_SetAccount; done.
  - intros b. unfold balance, nonce in *. rewrite !GetAccount_SetAccount by done.
    case_decide; subst; simpl; split; try done; apply A.
  - intros b. by rewrite !GetCode_SetAccount.
  - intros b k. by rewrite !GetStorage_SetAccount.
  - split; by apply ok_SetCode.
  - intros b. by rewrite !balance_SetCode, !nonce_SetCode.
  - intros b. rewrite !GetCode_SetCode by done. by case_decide.
  - intros b k. by rewrite !GetStorage_SetCode.
  - intros b k'. unfold GetTransientState in *. simpl. rewrite !lookup_insert. case_decide; [done|apply Tr].
  - split; apply ok_SetStorage; eauto.
  - intros b. by rewrite !balance_SetStorage, !nonce_SetStorage.
  - intros b. by rewrite !GetCode_SetStorage.
  - intros b k'. rewrite !GetStorage_SetStorage by eauto. by case_decide.
Qed.

(** ** Each call can be undone *)

Definition entry_ok (e : undo_entry) : Prop :=
  forall a k prev, e = UStorage a k prev -> length prev = HashLen.

Definition good s : Prop := ok (base s) /\ words_wf (base s).

(** [s'] is [s] with [es] recorded, and undoing [es] gets back to [s] *)
Record journaled s s' (es : list undo_entry) : Prop := {
  jn_entries : entries s' = entries s ++ es;
  jn_undo : reads_as (foldr undo s' es) s;
  jn_good : good s';
  jn_ok : Forall entry_ok es;
}.

Lemma foldr_undo_proper es s t :
  Forall entry_ok es -> reads_as s t -> reads_as (foldr undo s es) (foldr undo t es).
Proof. induction 1 as [|e es He _ IH]; intros; simpl; [done|]. apply undo_proper; auto. Qed.

Lemma journaled_trans s1 s2 s3 es1 es2 :
  journaled s1 s2 es1 -> journaled s2 s3 es2 -> journaled s1 s3 (es1 ++ es2).
Proof.
  intros [E1 U1 G1 O1] [E2 U2 G2 O2]. split; [by rewrite E2, E1, app_assoc| |done|by apply Forall_app].
  rewrite foldr_app. eapply reads_as_trans; [|exact U1]. by apply foldr_undo_proper.
Qed.

Lemma journaled_refl s : good s -> journaled s s [].
Proof. intros G. split; [by rewrite app_nil_r|apply reads_as_refl, G|done|done]. Qed.

(** one recorded mutation *)
Lemma journaled_one s s' e :
  entries s' = entries s -> good s' -> entry_ok e -> reads_as (undo e s') s ->
  journaled s (record_ s' e) [e].
Proof.
  intros E G O U. split; [by simpl; rewrite E| |done|by constructor].
  simpl. destruct U as [U1 U2 U3 U4 U5 U6 U7 U8 U9 U10 U11]. by destruct e.
Qed.

(** a change of the fields that are never undone *)
Lemma journaled_quiet s s' :
  good s -> entries s' = entries s -> reads_as s' s -> good s' -> journaled s s' [].
Proof. intros G E R G'. split; [by rewrite app_nil_r|done|done|done]. Qed.

Lemma reads_as_intro s s' :
  good s -> base s' = base s -> refund s' = refund s -> touched s' = touched s ->
  selfDestructed s' = selfDestructed s -> newContracts s' = newContracts s ->
  warmAddrs s' = warmAddrs s -> warmSlots s' = warmSlots s ->
  (forall a k, GetTransientState s' a k = GetTransientState s a k) -> logs s' = logs s ->
  reads_as s' s.
Proof. intros [G _] B R T D N W1 W2 Tr L. split; rewrite ?B; try done. Qed.

Lemma gset_remove_add `{Countable A} (x : A) (X : gset A) : x ∉ X -> ({[x]} ∪ X) ∖ {[x]} = X.
Proof.
  intros Hx. apply set_eq. intros y. rewrite elem_of_difference, elem_of_union, elem_of_singleton.
  split; [by intros [[->|?] ?]|]. intros Hy. split; [by right|]. by intros ->.
Qed.

Lemma touch_journaled s a : good s -> exists es, journaled s (touch s a) es.
Proof.
  intros G. unfold touch. case_bool_decide as E; [exists []; by apply journaled_refl|].
  eexists. apply journaled_one; [done|done|done|]. apply reads_as_intro; try done. simpl.
  by rewrite gset_remove_add.
Qed.

(** *** Mutations of the base *)

Lemma SetAccount_reads s a x y :
  good s -> same_roots x (GetAccount (base s) a) -> same_roots y (GetAccount (base s) a) ->
  Balance y = balance (base s) a -> Nonce y = nonce (base s) a ->
  reads_as (with_base s (SetAccount (SetAccount (base s) a x) a y)) s.
Proof.
  intros [G W] Hx Hy Hb Hn.
  assert (O1 : ok (SetAccount (base s) a x)) by (by apply ok_SetAccount).
  assert (Hy1 : same_roots y (GetAccount (SetAccount (base s) a x) a)).
  { rewrite GetAccount_SetAccount, decide_True by done.
    eapply same_roots_trans; [exact Hy|by apply same_roots_sym]. }
  split; simpl; try done.
  - split; [by apply ok_SetAccount|done].
  - intros b. unfold balance, nonce in *. rewrite !GetAccount_SetAccount by done.
    case_decide; [subst; by rewrite Hb, Hn|done].
  - intros b. by rewrite !GetCode_SetAccount.
  - intros b k. by rewrite !GetStorage_SetAccount.
Qed.

Lemma good_SetAccount s a x :
  good s -> same_roots x (GetAccount (base s) a) -> good (with_base s (SetAccount (base s) a x)).
Proof.
  intros [G W] Hx. split; simpl; [by apply ok_SetAccount|]. intros b k.
  rewrite GetStorage_SetAccount by done. apply W.
Qed.

Lemma SetNonce_journaled s a n : good s -> exists es, journaled s (SetNonce s a n) es.
Proof.
  intros G. destruct (touch_journaled s a G) as [es J]. pose proof (jn_good _ _ _ J) as G1.
  eexists. eapply journaled_trans; [exact J|]. unfold SetNonce. cbv zeta. set (s1 := touch s a) in *.
  apply journaled_one; [done|apply good_SetAccount; [done|apply same_roots_nonce]|done|].
  simpl. rewrite GetAccount_SetAccount, decide_True by (apply G1 || done).
  by apply (SetAccount_reads s1).
Qed.

Lemma setBalance_journaled s a x : good s -> exists es, journaled s (fst (setBalance s a x)) es.
Proof.
  intros G. eexists. apply journaled_one; [done|apply good_SetAccount; [done|apply same_roots_balance]|done|].
  simpl. rewrite GetAccount_SetAccount, decide_True by (apply G || done).
  by apply (SetAccount_reads s).
Qed.

Lemma err_journaled s b : good s -> journaled s (with_err s b) [].
Proof. intros G. apply journaled_quiet; [done|done| |done]. by apply reads_as_intro. Qed.

Lemma AddBalance_journaled s a x : good s -> exists es, journaled s (fst (AddBalance s a x)) es.
Proof.
  intros G. destruct (touch_journaled s a G) as [es J]. pose proof (jn_good _ _ _ J) as G1.
  unfold AddBalance. cbv zeta. destruct (fits_u64 _).
  - destruct (setBalance_journaled (touch s a) a
      ((Balance (GetAccount (base (touch s a)) a) + x) mod two256)) as [es2 J2]; [done|].
    eexists. by eapply journaled_trans.
  - eexists. eapply journaled_trans; [exact J|]. by apply err_journaled.
Qed.

Lemma SubBalance_journaled s a x : good s -> exists es, journaled s (fst (SubBalance s a x)) es.
Proof.
  intros G. destruct (touch_journaled s a G) as [es J]. pose proof (jn_good _ _ _ J) as G1.
  unfold SubBalance. cbv zeta. destruct (fits_u64 _).
  - destruct (setBalance_journaled (touch s a) a
      ((Balance (GetAccount (base (touch s a)) a) - x) mod two256)) as [es2 J2]; [done|].
    eexists. by eapply journaled_trans.
  - eexists. eapply journaled_trans; [exact J|]. by apply err_journaled.
Qed.

Lemma IsTaggedCode_TagCode r : IsTaggedCode (TagCode r) = true.
Proof.
  unfold IsTaggedCode, TagCode. rewrite take_app_length, bool_decide_eq_true_2 by done.
  rewrite length_app. destruct (Nat.leb_spec (length codeMagic) (length codeMagic + length r)); [done|lia].
Qed.

Lemma UntagCode_TagCode r : UntagCode (TagCode r) = r.
Proof. unfold UntagCode. rewrite IsTaggedCode_TagCode. simpl negb. cbv iota. apply drop_app_length. Qed.

(** what [SetCode]'s undo writes is the code that was there *)
Lemma evm_code_restore c :
  evm_code c -> (if (length (UntagCode c) =? 0)%nat then [] else TagCode (UntagCode c)) = c.
Proof.
  intros [->|(r & Hr & ->)]; [done|]. rewrite UntagCode_TagCode.
  destruct r as [|x r]; [done|]. done.
Qed.

Lemma base_touch s a : base (touch s a) = base s.
Proof. unfold touch. by case_bool_decide. Qed.

Lemma SetCode_journaled s a c :
  good s -> evm_code (GetCode (base s) a) -> exists es, journaled s (fst (adapter_SetCode s a c)) es.
Proof.
  intros G Hc. destruct (touch_journaled s a G) as [es J]. pose proof (jn_good _ _ _ J) as [G1 W1].
  rewrite <- (base_touch s a) in Hc.
  eexists. eapply journaled_trans; [exact J|]. unfold adapter_SetCode. cbv zeta. simpl fst.
  set (s1 := touch s a) in *. set (c' := if (length c =? 0)%nat then [] else TagCode c).
  assert (O1 : ok (SetCode (base s1) a c')) by (by apply ok_SetCode).
  apply journaled_one; [done| |done|].
  - split; simpl; [done|]. intros b k. rewrite GetStorage_SetCode by done. apply W1.
  - simpl. rewrite evm_code_restore by done. split; simpl; try done.
    + split; [by apply ok_SetCode|done].
    + intros b. by rewrite !balance_SetCode, !nonce_SetCode.
    + intros b. rewrite !GetCode_SetCode by done. case_decide; by subst.
    + intros b k. by rewrite !GetStorage_SetCode.
Qed.

Lemma cacheCommitted_journaled s a k : good s -> journaled s (cacheCommitted s a k) [].
Proof.
  intros G. unfold cacheCommitted. case_match; [by apply journaled_refl|].
  apply journaled_quiet; [done|done| |done]. by apply reads_as_intro.
Qed.

Lemma SetState_journaled s a k v :
  good s -> length v = HashLen -> exists es, journaled s (fst (SetState s a k v)) es.
Proof.
  intros G Hv. destruct (touch_journaled s a G) as [es J]. pose proof (jn_good _ _ _ J) as G1.
  pose proof (cacheCommitted_journaled (touch s a) a k G1) as J2.
  pose proof (jn_good _ _ _ J2) as [G2 W2].
  eexists. eapply journaled_trans; [exact J|]. eapply journaled_trans; [exact J2|].
  unfold SetState. cbv zeta. simpl fst. set (s1 := cacheCommitted (touch s a) a k) in *.
  assert (O1 : ok (SetStorage (base s1) a k v)) by (by apply ok_SetStorage).
  apply journaled_one; [done| | |].
  - split; simpl; [done|]. intros b k'. rewrite GetStorage_SetStorage by done.
    case_decide; [done|apply W2].
  - intros a' k' prev [= -> -> <-]. apply W2.
  - simpl. assert (Hp : length (GetStorage (base s1) a k) = HashLen) by apply W2.
    split; simpl; try done.
    + split; [by apply ok_SetStorage|done].
    + intros b. by rewrite !balance_SetStorage, !nonce_SetStorage.
    + intros b. by rewrite !GetCode_SetStorage.
    + intros b k'. rewrite !GetStorage_SetStorage by done. case_decide as E; [by destruct E as [-> ->]|done].
Qed.

Lemma addWarmAddr_journaled s a : good s -> exists es, journaled s (addWarmAddr s a) es.
Proof.
  intros G. unfold addWarmAddr. case_bool_decide; [exists []; by apply journaled_refl|].
  eexists. apply journaled_one; [done|done|done|]. apply reads_as_intro; try done. simpl.
  by rewrite gset_remove_add.
Qed.

Lemma run_adb_journaled op s : good s -> op_ok op s -> exists es, journaled s (run_adb op s) es.
Proof.
  intros G Hop. destruct op as [a n|a x|a x|a c|g|g|a|a|a|a|a k|a k v|a k v|a k|p|h p]; simpl in *.
  - by apply SetNonce_journaled.
  - by apply AddBalance_journaled.
  - by apply SubBalance_journaled.
  - by apply SetCode_journaled.
  - eexists. apply journaled_one; [done|done|done|]. by apply reads_as_intro.
  - unfold SubRefund. case_match; simpl; [exists []; by apply journaled_refl|].
    eexists. apply journaled_one; [done|done|done|]. by apply reads_as_intro.
  - by apply touch_journaled.
  - destruct (touch_journaled s a G) as [es J]. pose proof (jn_good _ _ _ J) as G1.
    unfold CreateContract. cbv zeta. case_bool_decide; [by exists es|].
    eexists. eapply journaled_trans; [exact J|]. apply journaled_one; [done|done|done|].
    apply reads_as_intro; try done. simpl. by rewrite gset_remove_add.
  - destruct (touch_journaled s a G) as [es J]. pose proof (jn_good _ _ _ J) as G1.
    unfold SelfDestruct. cbv zeta. case_bool_decide; [by exists es|].
    eexists. eapply journaled_trans; [exact J|]. apply journaled_one; [done|done|done|].
    apply reads_as_intro; try done. simpl. by rewrite gset_remove_add.
  - by apply addWarmAddr_journaled.
  - destruct (addWarmAddr_journaled s a G) as [es J]. pose proof (jn_good _ _ _ J) as G1.
    unfold AddSlotToAccessList. cbv zeta. case_bool_decide; [by exists es|].
    eexists. eapply journaled_trans; [exact J|]. apply journaled_one; [done|done|done|].
    apply reads_as_intro; try done. simpl. by rewrite gset_remove_add.
  - unfold SetTransientState. cbv zeta. case_bool_decide; [exists []; by apply journaled_refl|].
    eexists. apply journaled_one; [done|done|done|]. apply reads_as_intro; try done.
    intros b k'. unfold GetTransientState. simpl. rewrite !lookup_insert.
    destruct (decide ((a, k) = (b, k'))) as [[= <- <-]|]; [done|done].
  - by apply SetState_journaled.
  - exists []. by apply cacheCommitted_journaled.
  - eexists. apply journaled_one; [done|done|done|]. apply reads_as_intro; try done. simpl.
    rewrite length_app. simpl. by rewrite Nat.add_sub, take_app_length.
  - unfold AddPreimage. exists []. case_match; [by apply journaled_refl|].
    apply journaled_quiet; [done|done| |done]. by apply reads_as_intro.
Qed.

(** a sequence of calls, each allowed where it is made; an inner call frame that
    fails is a run followed by a revert to where it started *)
Inductive adb_run : adb S -> adb S -> Prop :=
| adb_run_nil s : adb_run s s
| adb_run_cons s op s' : op_ok op s -> adb_run (run_adb op s) s' -> adb_run s s'
| adb_run_revert s s1 s' :
    adb_run s s1 -> adb_run (RevertToSnapshot s1 (Snapshot_ s)) s' -> adb_run s s'.

(** reverting what [es] recorded *)
Lemma journaled_revert s s' es :
  good s -> journaled s s' es ->
  let r := RevertToSnapshot s' (Snapshot_ s) in
  reads_as r s /\ entries r = entries s /\ good r.
Proof.
  intros G [E U _ _] r. subst r. unfold RevertToSnapshot, Snapshot_.
  rewrite E, drop_app_length, take_app_length.
  destruct U as [U1 U2 U3 U4 U5 U6 U7 U8 U9 U10 U11]. split_and!; [by split|done|].
  split; [apply U1|]. intros a k. simpl. rewrite U4. apply G.
Qed.

Lemma adb_run_journaled s s' : adb_run s s' -> good s -> exists es, journaled s s' es.
Proof.
  induction 1 as [s|s op s' Hop _ IH|s s1 s' _ IH1 _ IH2]; intros G.
  - exists []. by apply journaled_refl.
  - destruct (run_adb_journaled op s G Hop) as [es1 J1]. destruct (IH (jn_good _ _ _ J1)) as [es2 J2].
    eexists. by eapply journaled_trans.
  - destruct (IH1 G) as [es1 J1]. destruct (journaled_revert s s1 es1 G J1) as (R & E & G').
    destruct (IH2 G') as [es2 J2]. eexists. eapply journaled_trans; [|exact J2].
    by apply journaled_quiet.
Qed.
End Revert.

(** ** Property *)

(** C9: reverting to a snapshot undoes everything.  Take a snapshot, let the EVM
    make any sequence of state calls (balances, nonces, code, storage, refunds,
    self-destructs, contract creations, access lists, transient storage, logs),
    with inner frames that are themselves reverted and code only written over empty or
    tagged code (the interpreter writes code only for a new contract), then revert to the snapshot: every balance, nonce,
    code and storage slot, and all the bookkeeping, read as before, and the
    journal has its old length. *)
Theorem RevertToSnapshot_restores S `{StateDBLaws S} (s s' : adb S) :
  good s -> adb_run s s' ->
  reads_as (RevertToSnapshot s' (Snapshot_ s)) s /\
  entries (RevertToSnapshot s' (Snapshot_ s)) = entries s.
Proof.
  intros G Hr. destruct (adb_run_journaled s s' Hr G) as [es J].
  by destruct (journaled_revert s s' es G J) as (R & E & _).
Qed.

Definition sample_adapter : adb memStateDB :=
  New_adapter (mem_SetAccount NewMemStateDB [1] (mkAccount 100 0 zero_hash zero_hash)).

Definition sample_calls : adb memStateDB :=
  run_adb (OSelfDestruct [1]) (run_adb (OAddBalance [2] 40)
    (run_adb (OSubBalance [1] 40) (run_adb (OSetCode [2] [0x60]) sample_adapter))).

Lemma RevertToSnapshot_restores_witness :
  reads_as (RevertToSnapshot sample_calls (Snapshot_ sample_adapter)) sample_adapter.
Proof.
  apply (RevertToSnapshot_restores memStateDB sample_adapter sample_calls).
  - split; [done|]. intros a k. simpl. unfold mem_GetStorage. simpl. by rewrite lookup_empty.
  - unfold sample_calls.
    apply (adb_run_cons _ (OSetCode [2] [0x60])); [left; reflexivity|].
    apply (adb_run_cons _ (OSubBalance [1] 40)); [exact I|].
    apply (adb_run_cons _ (OAddBalance [2] 40)); [exact I|].
    apply (adb_run_cons _ (OSelfDestruct [1])); [exact I|]. apply adb_run_nil.
Defined.
