(* ===== verification/Transition.v ===== *)
(** * The state transition: transactions and blocks

    Models chain/transition.go (less the overlay, which is in StateDB.v) and
    chain/evm_wiring.go.  go-ethereum's EVM is not part of the repository: it is
    the class [GethEVM], a parameter that runs on the adapter's [adb].

    A Go function that mutates [st] and returns an error is a function to the
    state it leaves behind and a [result]. *)

From S2P Require Import Prelude Sha256 Core FeeMarket StateDB Pos StackVM Exchange Adapter.

Definition BlockReward : Z := 50.

Definition AcceptNonEmptySig (tx : Transaction) : bool := (0 <? length (tx_Signature tx))%nat.

(** a [func(core.Transaction) bool]; [None] is Go's [nil] *)
Definition verifier : Type := option (Transaction -> bool).

Definition verify_sig (v : verifier) (tx : Transaction) : bool :=
  match v with Some f => f tx | None => false end.

(** what evm_wiring.go takes from go-ethereum *)
Class GethEVM := {
  (** [evm.ModernChainConfig().Rules(height, true, 1)] *)
  ChainConfig_Rules : Z -> Rules;
  ActivePrecompiles : Rules -> list Address;
  (** [e.Create(from, data, gas, value)] and [e.Call(from, to, data, gas, value)] of
      an EVM made for a block height and base fee: the adapter's state afterwards
      and [result.Used(budget)] *)
  evm_Create : forall S `{StateDB S}, Z -> Z -> adb S -> Address -> bytes -> Z -> Z -> adb S * Z;
  evm_Call : forall S `{StateDB S},
    Z -> Z -> adb S -> Address -> Address -> bytes -> Z -> Z -> adb S * Z;
}.

(** ** Gas reservation *)

Definition gas_reserve (tx : Transaction) : Z := u64 (tx_GasLimit tx * tx_GasFeeCap tx).

Definition reserve_overflows (tx : Transaction) : bool :=
  negb (tx_GasFeeCap tx =? 0) && negb (tx_GasLimit tx =? 0) &&
  negb (gas_reserve tx / tx_GasFeeCap tx =? tx_GasLimit tx).

(** the checks at the head of [applyContractTx] and [applyEVMTx]; the effective
    gas price *)
Definition check_fees (tx : Transaction) (from : Account) (baseFee : Z) : result Z :=
  _ ← ValidateFeeCapTip (tx_GasFeeCap tx) (tx_GasTipCap tx);
  if reserve_overflows tx then Err ErrCantAffordGas
  else if Balance from <? gas_reserve tx then Err ErrCantAffordGas
  else
    '(effectivePrice, _) ← EffectiveGasPrice baseFee (tx_GasFeeCap tx) (tx_GasTipCap tx);
    Ok effectivePrice.

Definition priority_fee (tx : Transaction) (baseFee : Z) : Z :=
  match EffectiveGasPrice baseFee (tx_GasFeeCap tx) (tx_GasTipCap tx) with
  | Ok (_, p) => p
  | Err _ => 0
  end.

Section Transition.
Context {S : Type} `{HS : StateDB S} `{HE : Engine} `{HG : GethEVM}.

(** ** Contract transactions (the StackVM) *)

Definition isContractTx (st : S) (tx : Transaction) : bool :=
  if bool_decide (tx_To tx = zero_addr) then true
  else if (0 <? length (tx_Data tx))%nat then true
  else (0 <? length (GetCode st (tx_To tx)))%nat.

Definition applyContractTx (st : S) (tx : Transaction) (from : Account) (baseFee : Z)
    : S * result Z :=
  match check_fees tx from baseFee with
  | Err e => (st, Err e)
  | Ok effectivePrice =>
      let gasReserve := gas_reserve tx in
      let from := set_balance from (Balance from - gasReserve) in
      let from := set_nonce_ from (u64 (Nonce from + 1)) in
      let st := SetAccount st (tx_From tx) from in
      let to := if bool_decide (tx_To tx = zero_addr) then None else Some (tx_To tx) in
      let '(st, receipt) :=
        Execute st (mkMessage (tx_From tx) to (tx_Value tx) (tx_GasLimit tx) (tx_Nonce tx)
                      (tx_Data tx)) in
      let refund := u64 (gasReserve - u64 (r_GasUsed receipt * effectivePrice)) in
      let acct := GetAccount st (tx_From tx) in
      (SetAccount st (tx_From tx) (set_balance acct (u64 (Balance acct + refund))),
       Ok (r_GasUsed receipt))
  end.

(** ** EVM transactions (evm_wiring.go) *)

Definition isEVMTx (st : S) (tx : Transaction) : bool :=
  if bool_decide (tx_To tx = DeployAddress) then true
  else IsTaggedCode (GetCode st (tx_To tx)).

(** the adapter as it is when [Create] or [Call] starts *)
Definition evm_start (st : S) (tx : Transaction) (rules : Rules) (toAddr : option Address) : adb S :=
  Prepare (New_adapter st) rules (tx_From tx) zero_addr toAddr (ActivePrecompiles rules) [].

Definition applyEVMTx (st : S) (tx : Transaction) (from : Account) (height baseFee : Z)
    : S * result Z :=
  match check_fees tx from baseFee with
  | Err e => (st, Err e)
  | Ok effectivePrice =>
      let gasReserve := gas_reserve tx in
      let preNonce := Nonce from in
      let st := SetAccount st (tx_From tx) (set_balance from (Balance from - gasReserve)) in
      let rules := ChainConfig_Rules height in
      let isDeploy := bool_decide (tx_To tx = DeployAddress) in
      let toAddr := if isDeploy then None else Some (tx_To tx) in
      let sdb := evm_start st tx rules toAddr in
      let preCall := Snapshot_ sdb in
      let '(sdb, gasUsed) :=
        match toAddr with
        | None => evm_Create S height baseFee sdb (tx_From tx) (tx_Data tx) (tx_GasLimit tx)
                    (tx_Value tx)
        | Some to => evm_Call S height baseFee sdb (tx_From tx) to (tx_Data tx) (tx_GasLimit tx)
                       (tx_Value tx)
        end in
      let '(sdb, gasUsed) :=
        if Err_ sdb then (RevertToSnapshot sdb preCall, tx_GasLimit tx) else (sdb, gasUsed) in
      let sdb := Finalise sdb (IsEIP158 rules) in
      let refund := u64 (gasReserve - u64 (gasUsed * effectivePrice)) in
      let st := base sdb in
      let acct := GetAccount st (tx_From tx) in
      let acct := set_nonce_ acct (u64 (preNonce + 1)) in
      let acct := set_balance acct (u64 (Balance acct + refund)) in
      (SetAccount st (tx_From tx) acct, Ok gasUsed)
  end.

(** ** One transaction *)

(** gas used and tip, after a fee-priced path *)
Definition priced (r : result Z) (tx : Transaction) (baseFee : Z) : result (Z * Z) :=
  gasUsed ← r; Ok (gasUsed, u64 (gasUsed * priority_fee tx baseFee)).

Definition applyTxAtSession (st : S) (tx : Transaction) (verifySig : verifier) (height index : Z)
    (session : option BatchSession) (baseFee : Z) : S * option BatchSession * result (Z * Z) :=
  if negb (verify_sig verifySig tx) then (st, session, Err ErrBadSig)
  else
    let from := GetAccount st (tx_From tx) in
    if negb (tx_Nonce tx =? Nonce from) then (st, session, Err ErrBadNonce)
    else
      let bumped := set_nonce_ from (u64 (Nonce from + 1)) in
      if IsExchangeTx tx then
        if Balance from <? tx_Value tx then (st, session, Err ErrInsufficientBalance)
        else
          let st := SetAccount st (tx_From tx) bumped in
          match session with
          | Some s =>
              let '(s, r) := session_Apply s height index (tx_From tx) (tx_Data tx) in
              (st, Some s, _ ← r; Ok (0, 0))
          | None =>
              let '(st, r) := Apply st tx height index in
              (st, None, _ ← r; Ok (0, 0))
          end
      else if isEVMTx st tx then
        let '(st, r) := applyEVMTx st tx from height baseFee in
        (st, session, priced r tx baseFee)
      else if IsAttestationTx tx then (SetAccount st (tx_From tx) bumped, session, Ok (0, 0))
      else if isContractTx st tx then
        let '(st, r) := applyContractTx st tx from baseFee in
        (st, session, priced r tx baseFee)
      else if Balance from <? tx_Value tx then (st, session, Err ErrInsufficientBalance)
      else if bool_decide (tx_From tx = tx_To tx) then
        (SetAccount st (tx_From tx) bumped, session, Ok (0, 0))
      else
        let to := GetAccount st (tx_To tx) in
        let from := set_balance bumped (Balance from - tx_Value tx) in
        let to := set_balance to (u64 (Balance to + tx_Value tx)) in
        (SetAccount (SetAccount st (tx_From tx) from) (tx_To tx) to, session, Ok (0, 0)).

Definition ApplyTxAt (st : S) (tx : Transaction) (verifySig : verifier) (height index : Z)
    : S * result unit :=
  let '(st, _, r) := applyTxAtSession st tx verifySig height index None 0 in
  (st, _ ← r; Ok tt).

Definition ApplyTx (st : S) (tx : Transaction) (verifySig : verifier) : S * result unit :=
  ApplyTxAt st tx verifySig 0 0.

(** ** The transactions of a block *)

(** the loop of [applyTxsAt], with the running totals *)
Fixpoint apply_txs (st : S) (txs : list Transaction) (verifySig : verifier) (height : Z) (i : nat)
    (session : option BatchSession) (baseFee totalGasUsed totalTip : Z)
    : S * option BatchSession * result (Z * Z) :=
  match txs with
  | [] => (st, session, Ok (totalGasUsed, totalTip))
  | tx :: rest =>
      match applyTxAtSession st tx verifySig height (u32 (Z.of_nat i)) session baseFee with
      | (st, session, Err e) => (st, session, Err e)
      | (st, session, Ok (gasUsed, tip)) =>
          apply_txs st rest verifySig height (Datatypes.S i) session baseFee
            (u64 (totalGasUsed + gasUsed)) (u64 (totalTip + tip))
      end
  end.

(** the senders of the block's orders *)
Definition exchange_senders (txs : list Transaction) : list Address :=
  map tx_From (List.filter IsExchangeTx txs).

(** the session a block runs with, if any *)
Definition open_session (st : S) (txs : list Transaction) (mode : ob_mode)
    : result (option BatchSession) :=
  if bool_decide (mode = BatchAuction) then
    let senders := exchange_senders txs in
    if (0 <? length senders)%nat then s ← NewBatchSession st senders; Ok (Some s) else Ok None
  else Ok None.

Definition applyTxsAt (st : S) (txs : list Transaction) (verifySig : verifier) (height : Z)
    (mode : ob_mode) (baseFee : Z) : S * result (Z * Z) :=
  match open_session st txs mode with
  | Err e => (st, Err e)
  | Ok session =>
      let '(st, session, r) := apply_txs st txs verifySig height 0 session baseFee 0 0 in
      match r with
      | Err e => (st, Err e)
      | Ok (totalGasUsed, totalTip) =>
          match session with
          | Some s =>
              match Finish s st height with
              | (st, Err e) => (st, Err e)
              | (st, Ok _) => (st, Ok (totalGasUsed, totalTip))
              end
          | None => (st, Ok (totalGasUsed, totalTip))
          end
      end
  end.

(** [m.Balance += BlockReward + tip] *)
Definition reward (st : S) (miner : Address) (tip : Z) : S :=
  let m := GetAccount st miner in
  SetAccount st miner (set_balance m (u64 (Balance m + u64 (BlockReward + tip)))).

(** [applyBlockRewarded] of chain.go *)
Definition applyBlockRewarded (st : S) (b : Block) (verifySig : verifier) (mode : ob_mode)
    (baseFee : Z) : S * result Z :=
  match applyTxsAt st (b_Txs b) verifySig (h_Height (b_Header b)) mode baseFee with
  | (st, Err e) => (st, Err e)
  | (st, Ok (gasUsed, tip)) =>
      (if h_Height (b_Header b) =? 0 then st else reward st (h_Coinbase (b_Header b)) tip,
       Ok gasUsed)
  end.
End Transition.

Section ApplyBlock.
Context {S : Type} `{HS : StateDB S} `{HE : Engine} `{HG : GethEVM}.

Definition ApplyBlockWithMode (st : S) (b : Block) (miner : Address) (verifySig : verifier)
    (mode : ob_mode) : S * result unit :=
  let ov := newOverlay st in
  match applyTxsAt ov (b_Txs b) verifySig (h_Height (b_Header b)) mode (h_BaseFee (b_Header b)) with
  | (_, Err e) => (st, Err e)
  | (ov, Ok (_, tip)) => (flush (reward ov miner tip), Ok tt)
  end.

Definition ApplyBlock (st : S) (b : Block) (miner : Address) (verifySig : verifier)
    : S * result unit :=
  ApplyBlockWithMode st b miner verifySig Continuous.
End ApplyBlock.
