(* ===== verification/TransitionProps.v ===== *)
(** * Transactions: fees, nonces, conservation

    What a successful or failed transaction does to balances and nonces, on every
    route of [applyTxAtSession]. *)

From S2P Require Import Prelude Sha256 Core FeeMarket StateDB Pos StackVM StackVMProps.
From S2P Require Import Exchange ExchangeProps Adapter AdapterProps Transition.

(** ** Fees *)

(** the overflow test of the source is exact *)
Lemma reserve_exact tx :
  is_u64 (tx_GasLimit tx) -> is_u64 (tx_GasFeeCap tx) -> reserve_overflows tx = false ->
  gas_reserve tx = tx_GasLimit tx * tx_GasFeeCap tx.
Proof.
  intros HL HF. unfold reserve_overflows, gas_reserve.
  set (L := tx_GasLimit tx) in *. set (F := tx_GasFeeCap tx) in *.
  destruct (Z.eqb_spec F 0) as [E|E]; [rewrite E, Z.mul_0_r; done|].
  destruct (Z.eqb_spec L 0) as [E'|E']; [rewrite E'; done|]. simpl.
  destruct (Z.eqb_spec (u64 (L * F) / F) L) as [Eq|]; [|done]. intros _.
  apply u64_small. split; [nia|].
  destruct (Z.lt_ge_cases (L * F) two64) as [|Hge]; [done|exfalso].
  assert (u64 (L * F) <= L * F - two64).
  { unfold u64. pose proof (Z.div_mod (L * F) two64 ltac:(done)).
    assert (1 <= L * F / two64) by (apply Z.div_le_lower_bound; unfold two64 in *; lia).
    unfold two64 in *; nia. }
  pose proof (Z.mul_div_le (u64 (L * F)) F ltac:(lia)). rewrite Eq in *. nia.
Qed.

Record fee_view (tx : Transaction) (from : Account) (baseFee price : Z) : Prop := {
  fv_reserve : gas_reserve tx = tx_GasLimit tx * tx_GasFeeCap tx;
  fv_afford : gas_reserve tx <= Balance from;
  fv_tip : tx_GasTipCap tx <= tx_GasFeeCap tx;
  fv_price : price = baseFee + priority_fee tx baseFee;
  fv_cap : price <= tx_GasFeeCap tx;
  fv_priority : 0 <= priority_fee tx baseFee;
}.

Lemma EffectiveGasPrice_view baseFee feeCap tipCap price tip :
  is_u64 baseFee -> is_u64 feeCap -> is_u64 tipCap ->
  EffectiveGasPrice baseFee feeCap tipCap = Ok (price, tip) ->
  price = baseFee + tip /\ 0 <= tip /\ price <= feeCap.
Proof.
  intros HB HF HT. unfold EffectiveGasPrice. destruct (Z.ltb_spec feeCap baseFee); [done|].
  intros [= <- <-]. destruct (Z.ltb_spec (feeCap - baseFee) tipCap);
    rewrite u64_small by (unfold two64 in *; lia); lia.
Qed.

Lemma check_fees_view tx from baseFee price :
  tx_wf tx -> is_u64 baseFee -> check_fees tx from baseFee = Ok price ->
  fee_view tx from baseFee price.
Proof.
  intros (_ & _ & _ & _ & HL & _ & HF & HT & _) HB. unfold check_fees, ValidateFeeCapTip, priority_fee.
  destruct (Z.ltb_spec (tx_GasFeeCap tx) (tx_GasTipCap tx)); [done|]. simpl.
  destruct (reserve_overflows tx) eqn:Eo; [done|].
  destruct (Z.ltb_spec (Balance from) (gas_reserve tx)); [done|].
  destruct (EffectiveGasPrice _ _ _) as [[p t]|] eqn:Ep; [|done]. intros [= <-].
  destruct (EffectiveGasPrice_view _ _ _ _ _ HB HF HT Ep) as (E1 & E2 & E3).
  split; unfold priority_fee; rewrite ?Ep; [by apply reserve_exact|done..].
Qed.

(** the refund is what is left of the reservation, without wrap-around *)
Lemma refund_exact tx from baseFee price gasUsed :
  tx_wf tx -> is_u64 baseFee -> fee_view tx from baseFee price -> 0 <= gasUsed <= tx_GasLimit tx ->
  u64 (gas_reserve tx - u64 (gasUsed * price)) = gas_reserve tx - gasUsed * price /\
  0 <= gas_reserve tx - gasUsed * price <= gas_reserve tx /\
  u64 (gasUsed * priority_fee tx baseFee) = gasUsed * priority_fee tx baseFee /\
  0 <= gasUsed * priority_fee tx baseFee <= gasUsed * price.
Proof.
  intros (_ & _ & _ & _ & HL & _ & HF & _) HB [HR _ _ HP HC HT] Hg.
  assert (is_u64 (gas_reserve tx)) as HR' by apply u64_range.
  assert (0 <= gasUsed * price <= gas_reserve tx) by nia.
  assert (0 <= gasUsed * priority_fee tx baseFee <= gasUsed * price) by nia.
  rewrite (u64_small (gasUsed * price)) by lia. rewrite !u64_small by lia. lia.
Qed.

(** ** Writing one account *)

Section Writes.
Context {S : Type} `{HL : StateDBLaws S}.

Lemma supply_SetAccount (st : S) N a x :
  supply st N -> 0 <= Balance x -> supply (SetAccount st a x) (N - balance st a + Balance x).
Proof.
  intros Hs Hx. eapply supply_of_ext; [|by apply (supply_of_set _ _ a (Balance x) Hs)].
  intros b. unfold balance. rewrite GetAccount_SetAccount. by case_decide.
Qed.

Lemma balance_SetAccount (st : S) a x b :
  balance (SetAccount st a x) b = if decide (b = a) then Balance x else balance st b.
Proof. unfold balance. rewrite GetAccount_SetAccount. by case_decide. Qed.

Lemma nonce_SetAccount (st : S) a x b :
  nonce (SetAccount st a x) b = if decide (b = a) then Nonce x else nonce st b.
Proof. unfold nonce. rewrite GetAccount_SetAccount. by case_decide. Qed.

Lemma supply_u64 (st : S) N a : supply st N -> N < two64 -> is_u64 (balance st a).
Proof.
  intros Hs HN. pose proof (supply_of_nonneg _ _ a Hs). pose proof (supply_of_le _ _ a Hs). lia.
Qed.
End Writes.

(** ** Native transactions: transfers, contracts, attestations *)

Section Native.
Context {S : Type} `{HL : StateDBLaws S} `{HE : Engine} `{HG : GethEVM}.

(** the nonces after a transaction of [a] *)
Definition nonce_bumped (st st' : S) (a : Address) : Prop :=
  forall b, nonce st' b = if decide (b = a) then u64 (nonce st a + 1) else nonce st b.

Lemma bump_SetAccount (st : S) a x :
  Nonce x = u64 (nonce st a + 1) -> nonce_bumped st (SetAccount st a x) a.
Proof. intros Hx b. rewrite nonce_SetAccount. by case_decide. Qed.

Lemma applyContractTx_spec (st : S) tx baseFee N :
  ok st -> supply st N -> N < two64 -> tx_wf tx -> is_u64 baseFee ->
  match applyContractTx st tx (GetAccount st (tx_From tx)) baseFee with
  | (st', Ok g) =>
      exists price, check_fees tx (GetAccount st (tx_From tx)) baseFee = Ok price /\
        fee_view tx (GetAccount st (tx_From tx)) baseFee price /\
        ok st' /\ 0 <= g <= tx_GasLimit tx /\ supply st' (N - g * price) /\
        nonce_bumped st st' (tx_From tx)
  | (st', Err e) => st' = st /\ check_fees tx (GetAccount st (tx_From tx)) baseFee = Err e
  end.
Proof.
  intros Hok Hs HN Hwf HB. unfold applyContractTx.
  set (from := GetAccount st (tx_From tx)).
  destruct (check_fees tx from baseFee) as [price|e] eqn:Ec; [|done].
  pose proof (check_fees_view _ _ _ _ Hwf HB Ec) as V.
  pose proof (supply_u64 st N (tx_From tx) Hs HN) as Hbal.
  change (balance st (tx_From tx)) with (Balance from) in Hbal.
  pose proof (fv_afford _ _ _ _ V) as Haff.
  assert (HRu : is_u64 (gas_reserve tx)) by apply u64_range.
  set (x := set_nonce_ _ _). set (st1 := SetAccount st (tx_From tx) x).
  assert (O1 : ok st1) by (apply ok_SetAccount; [done|by split]).
  assert (S1 : supply st1 (N - gas_reserve tx)).
  { replace (N - gas_reserve tx) with (N - balance st (tx_From tx) + Balance x).
    - apply supply_SetAccount; [done|]. simpl. lia.
    - unfold balance. fold from. simpl. lia. }
  set (msg := mkMessage _ _ _ _ _ _).
  pose proof Hwf as (_ & _ & WV & _ & WL & _).
  destruct (Execute_inv st1 msg (N - gas_reserve tx)) as (O2 & S2 & N2 & _); [done|done|lia|done|done|].
  destruct (Execute_gas_bound st1 msg WL) as [Hg _].
  change (msg_GasLimit msg) with (tx_GasLimit tx) in Hg.
  destruct (Execute st1 msg) as [st2 receipt]. simpl fst in *. simpl snd in *.
  destruct (refund_exact tx from baseFee price (r_GasUsed receipt)) as (-> & Hr & _);
    [done|done|done|done|].
  set (r := gas_reserve tx - r_GasUsed receipt * price) in *.
  pose proof (supply_of_nonneg _ _ (tx_From tx) S2). pose proof (supply_of_le _ _ (tx_From tx) S2).
  exists price. split_and!; [done|done| |lia|lia| |].
  - apply ok_SetAccount; [done|apply same_roots_balance].
  - replace (N - r_GasUsed receipt * price)
      with (N - gas_reserve tx - balance st2 (tx_From tx)
            + Balance (set_balance (GetAccount st2 (tx_From tx)) (u64 (balance st2 (tx_From tx) + r)))).
    + apply supply_SetAccount; [done|]. apply u64_range.
    + simpl. rewrite u64_small by lia. unfold r. lia.
  - intros b. rewrite nonce_SetAccount. simpl. fold (nonce st2 (tx_From tx)). rewrite !N2.
    unfold st1. rewrite !nonce_SetAccount. by repeat case_decide.
Qed.

(** what a route must not be for the theorems on native transactions *)
Definition native (st : S) (tx : Transaction) : bool :=
  negb (IsExchangeTx tx) && negb (isEVMTx st tx).

Lemma native_tx_spec (st : S) tx v h i session baseFee N :
  ok st -> supply st N -> N < two64 -> tx_wf tx -> is_u64 baseFee -> native st tx = true ->
  match applyTxAtSession st tx v h i session baseFee with
  | (st', session', Ok (g, t)) =>
      session' = session /\ ok st' /\ tx_Nonce tx = nonce st (tx_From tx) /\
      nonce_bumped st st' (tx_From tx) /\
      0 <= g <= tx_GasLimit tx /\ 0 <= t /\ 0 <= g * baseFee /\ supply st' (N - g * baseFee - t)
  | (st', session', Err _) => st' = st /\ session' = session
  end.
Proof.
  intros Hok Hs HN Hwf HB Hnat. unfold native in Hnat.
  apply andb_true_iff in Hnat as [Hx%negb_true_iff He%negb_true_iff].
  unfold applyTxAtSession. destruct (verify_sig v tx); simpl negb; cbv iota; [|done].
  set (from := GetAccount st (tx_From tx)).
  destruct (Z.eqb_spec (tx_Nonce tx) (Nonce from)) as [Hn|]; simpl negb; cbv iota; [|done].
  rewrite Hx, He. pose proof Hwf as (_ & _ & WV & _ & WL & _).
  assert (Hbump : forall x, Nonce x = u64 (Nonce from + 1) -> Balance x = Balance from -> same_roots x from ->
    let st' := SetAccount st (tx_From tx) x in
    ok st' /\ nonce_bumped st st' (tx_From tx) /\ supply st' N).
  { intros x Hxn Hxb Hxr. split_and!; [by apply ok_SetAccount|by apply bump_SetAccount|].
    replace N with (N - balance st (tx_From tx) + Balance x) by (unfold balance; fold from; lia).
    apply supply_SetAccount; [done|]. rewrite Hxb. apply (supply_of_nonneg _ _ _ Hs). }
  destruct (IsAttestationTx tx).
  { destruct (Hbump (set_nonce_ from (u64 (Nonce from + 1)))) as (O & B & S'); [done|done|done|].
    replace (N - 0 * baseFee - 0) with N by lia. split_and!; try done; lia. }
  destruct (isContractTx st tx).
  { pose proof (applyContractTx_spec st tx baseFee N Hok Hs HN Hwf HB) as C. fold from in C.
    destruct (applyContractTx st tx from baseFee) as [st' [g|e]]; simpl; [|by destruct C].
    destruct C as (price & _ & V & O & Hg & S' & B).
    destruct (refund_exact tx from baseFee price g) as (_ & _ & -> & Ht); [done..|].
    pose proof (fv_price _ _ _ _ V). split_and!; try done; try lia.
    replace (N - g * baseFee - g * priority_fee tx baseFee) with (N - g * price) by nia. done. }
  destruct (Z.ltb_spec (Balance from) (tx_Value tx)); [done|].
  case_bool_decide as Eself.
  { destruct (Hbump (set_nonce_ from (u64 (Nonce from + 1)))) as (O & B & S'); [done|done|done|].
    replace (N - 0 * baseFee - 0) with N by lia. split_and!; try done; lia. }
  set (x := set_balance _ _). set (st1 := SetAccount st (tx_From tx) x).
  set (to := GetAccount st (tx_To tx)).
  assert (O1 : ok st1) by (apply ok_SetAccount; [done|by split]).
  assert (Hto : GetAccount st1 (tx_To tx) = to).
  { unfold st1. rewrite GetAccount_SetAccount. rewrite decide_False by congruence. done. }
  pose proof (supply_of_two _ _ (tx_From tx) (tx_To tx) Hs Eself) as H2.
  pose proof (supply_of_nonneg _ _ (tx_To tx) Hs) as H3.
  unfold balance in H2, H3. fold from to in H2, H3.
  split_and!; try done; try lia.
  - apply ok_SetAccount; [done|]. rewrite Hto. apply same_roots_balance.
  - intros b. rewrite nonce_SetAccount. simpl. unfold st1. rewrite nonce_SetAccount.
    destruct (decide (b = tx_To tx)) as [->|]; [by rewrite decide_False by congruence|done].
  - rewrite u64_small by lia.
    replace (N - 0 * baseFee - 0) with
      (N - balance st (tx_From tx) + Balance x - balance st1 (tx_To tx)
       + Balance (set_balance to (Balance to + tx_Value tx))).
    + apply supply_SetAccount; [apply supply_SetAccount; [done|simpl; lia]|simpl; lia].
    + unfold balance. rewrite Hto. fold from. simpl. lia.
Qed.
End Native.

(** ** Nonces on every route *)

Section Nonces.
Context {S : Type} `{HL : StateDBLaws S} `{HE : Engine} `{HG : GethEVM}.

(** [st'] is a lawful state with the nonces of [st] *)
Definition keeps_nonces (st st' : S) : Prop := ok st' /\ forall a, nonce st' a = nonce st a.

Lemma keeps_refl st : ok st -> keeps_nonces st st.
Proof. done. Qed.

Lemma keeps_trans st1 st2 st3 : keeps_nonces st1 st2 -> keeps_nonces st2 st3 -> keeps_nonces st1 st3.
Proof. intros [_ H1] [O H2]. split; [done|]. intros a. by rewrite H2. Qed.

Lemma keeps_ex_set st k v : ok st -> length v = HashLen -> keeps_nonces st (ex_set st k v).
Proof. intros O Hv. split; [by apply ok_ex_set|]. intros a. by apply nonce_SetStorage. Qed.

Lemma keeps_write_orders st orders i : ok st -> keeps_nonces st (write_orders st orders i).
Proof.
  revert st i. induction orders as [|o orders IH]; intros st i O; [done|]. simpl.
  eapply keeps_trans; [apply keeps_ex_set; [done|apply length_wordA]|].
  eapply keeps_trans; [apply keeps_ex_set; [|apply length_wordB]|].
  - apply ok_ex_set; [done|apply length_wordA].
  - apply IH. apply ok_ex_set; [|apply length_wordB]. apply ok_ex_set; [done|apply length_wordA].
Qed.

Lemma keeps_clear_orders st n i : ok st -> keeps_nonces st (clear_orders st n i).
Proof.
  revert st i. induction n as [|n IH]; intros st i O; [done|]. simpl.
  pose proof (keeps_ex_set st (indexKey nsOrderA i) zero_hash O eq_refl) as K1.
  pose proof (keeps_ex_set _ (indexKey nsOrderB i) zero_hash (proj1 K1) eq_refl) as K2.
  eapply keeps_trans; [exact K1|]. eapply keeps_trans; [exact K2|]. apply IH, K2.
Qed.

Lemma keeps_write_balances st bals : ok st -> keeps_nonces st (fst (write_balances st bals)).
Proof.
  revert st. induction bals as [|[id bal] bals IH]; intros st O; [done|]. cbn [write_balances].
  destruct (bal_Quote bal <? 0); [done|].
  set (st1 := SetAccount _ _ _).
  assert (K1 : keeps_nonces st st1).
  { split; [apply ok_SetAccount; [done|apply same_roots_balance]|].
    intros a. unfold st1. rewrite nonce_SetAccount. by case_decide; subst. }
  destruct (_ || _); [exact K1|]. eapply keeps_trans; [exact K1|].
  eapply keeps_trans; [|apply IH].
  - apply keeps_ex_set; [apply K1|]. fold (holdings_word bal). apply length_holdings_word.
  - apply ok_ex_set; [apply K1|]. fold (holdings_word bal). apply length_holdings_word.
Qed.

Lemma keeps_Save st e : ok st -> keeps_nonces st (fst (Save st e)).
Proof.
  intros O. unfold Save. cbv zeta. set (n := Z.of_nat _).
  assert (Lw : length (replicate 24 0 ++ be 8 n) = HashLen) by (rewrite length_app, length_be; done).
  pose proof (keeps_write_orders st (BookSnapshot e) 0 O) as K1.
  eapply keeps_trans; [exact K1|].
  pose proof (keeps_clear_orders _ (Z.to_nat (book_size st - n)) n (proj1 K1)) as K2.
  eapply keeps_trans; [exact K2|].
  pose proof (keeps_ex_set _ (indexKey nsBookSize 0) _ (proj1 K2) Lw) as K3.
  eapply keeps_trans; [exact K3|]. apply keeps_write_balances. apply K3.
Qed.

Lemma keeps_Apply st tx h i : ok st -> keeps_nonces st (fst (Apply st tx h i)).
Proof.
  intros O. unfold Apply. destruct (Decode _ _) as [op|]; [|done].
  destruct (Load _ _ _) as [e|]; [|done].
  destruct (ApplyPositioned _ _ _ _) as [e' res]. destruct (res_Accepted res); [|done].
  by apply keeps_Save.
Qed.

Lemma applyEVMTx_nonce st tx from h baseFee st' g :
  applyEVMTx st tx from h baseFee = (st', Ok g) -> nonce st' (tx_From tx) = u64 (Nonce from + 1).
Proof.
  unfold applyEVMTx. destruct (check_fees tx from baseFee) as [price|]; [|done]. cbv zeta.
  match goal with |- match ?t with _ => _ end = _ -> _ => destruct t as [sdb used] end.
  destruct (if Err_ sdb then _ else _) as [sdb' used'].
  intros [= <- _]. by rewrite nonce_SetAccount, decide_True.
Qed.

(** a transaction that is applied had its sender's nonce, and advances it *)
Lemma applied_nonce st tx v h i session baseFee N st' session' r :
  ok st -> supply st N -> N < two64 -> tx_wf tx -> is_u64 baseFee ->
  applyTxAtSession st tx v h i session baseFee = (st', session', Ok r) ->
  verify_sig v tx = true /\ tx_Nonce tx = nonce st (tx_From tx) /\
  nonce st' (tx_From tx) = u64 (tx_Nonce tx + 1).
Proof.
  intros Hok Hs HN Hwf HB. destruct (native st tx) eqn:En.
  { pose proof (native_tx_spec st tx v h i session baseFee N Hok Hs HN Hwf HB En) as C. intros E.
    rewrite E in C. destruct r as [g t]. destruct C as (_ & _ & Hn & B & _).
    assert (verify_sig v tx = true).
    { revert E. unfold applyTxAtSession. by destruct (verify_sig v tx). }
    by rewrite (B (tx_From tx)), decide_True, Hn. }
  unfold applyTxAtSession. destruct (verify_sig v tx); simpl negb; cbv iota; [|done].
  set (from := GetAccount st (tx_From tx)).
  destruct (Z.eqb_spec (tx_Nonce tx) (Nonce from)) as [Hn|]; simpl negb; cbv iota; [|done].
  unfold native in En. destruct (IsExchangeTx tx).
  - destruct (Z.ltb_spec (Balance from) (tx_Value tx)); [done|].
    set (st1 := SetAccount _ _ _). assert (O1 : ok st1) by (apply ok_SetAccount; [done|by split]).
    assert (N1 : nonce st1 (tx_From tx) = u64 (tx_Nonce tx + 1)).
    { unfold st1. rewrite nonce_SetAccount, decide_True by done. simpl. by rewrite Hn. }
    destruct session as [s|].
    + destruct (session_Apply _ _ _ _ _) as [s' r']. by intros [= <- _ _].
    + pose proof (keeps_Apply st1 tx h i O1) as [_ K]. destruct (Apply st1 tx h i) as [st2 r'].
      intros [= <- _ _]. by rewrite K.
  - destruct (isEVMTx st tx); [|done].
    destruct (applyEVMTx st tx from h baseFee) as [st2 [g|]] eqn:Ee; [|by intros [=]].
    intros [= <- _ _]. rewrite (applyEVMTx_nonce _ _ _ _ _ _ _ Ee), <- Hn. done.
Qed.
End Nonces.

(** ** Blocks of native transactions *)

Section Blocks.
Context {S : Type} `{HL : StateDBLaws S} `{HE : Engine} `{HG : GethEVM}.

(** every transaction is native in the state it runs in *)
Fixpoint native_block (st : S) (txs : list Transaction) (v : verifier) (h : Z) (i : nat)
    (baseFee : Z) : bool :=
  match txs with
  | [] => true
  | tx :: rest =>
      native st tx &&
      match applyTxAtSession st tx v h (u32 (Z.of_nat i)) None baseFee with
      | (st', _, Ok _) => native_block st' rest v h (Datatypes.S i) baseFee
      | _ => forallb (fun tx => negb (IsExchangeTx tx)) rest
      end
  end.

Definition gas_limits (txs : list Transaction) : Z := foldr (fun tx n => tx_GasLimit tx + n) 0 txs.

Lemma gas_limits_nonneg txs : Forall tx_wf txs -> 0 <= gas_limits txs.
Proof.
  induction 1 as [|tx txs Hwf _ IH]; simpl; [done|]. destruct Hwf as (_ & _ & _ & _ & HL' & _). lia.
Qed.

Lemma apply_txs_supply st txs v h i baseFee gas0 tip0 N st' session' g t :
  ok st -> supply st N -> Forall tx_wf txs -> is_u64 baseFee ->
  native_block st txs v h i baseFee = true ->
  0 <= gas0 -> gas0 + gas_limits txs < two64 -> 0 <= tip0 -> tip0 + N < two64 ->
  apply_txs st txs v h i None baseFee gas0 tip0 = (st', session', Ok (g, t)) ->
  session' = None /\ ok st' /\ gas0 <= g <= gas0 + gas_limits txs /\ tip0 <= t /\
  supply st' (N - (g - gas0) * baseFee - (t - tip0)) /\ t + (N - (g - gas0) * baseFee - (t - tip0)) < two64.
Proof.
  intros Hok Hs Hwf HB. revert st i gas0 tip0 N Hok Hs.
  induction Hwf as [|tx txs Htx Hwf IH]; intros st i gas0 tip0 N Hok Hs Hnat Hg0 Hg Ht0 Ht E.
  { simpl in E, Hg. injection E as <- <- <- <-.
    replace (N - (gas0 - gas0) * baseFee - (tip0 - tip0)) with N by lia.
    split_and!; try done; simpl; lia. }
  cbn [native_block] in Hnat. apply andb_true_iff in Hnat as [Hn Hnat]. simpl gas_limits in *.
  cbn [apply_txs] in E. assert (HN : N < two64) by lia.
  pose proof (gas_limits_nonneg txs Hwf) as Hnn.
  pose proof (native_tx_spec st tx v h (u32 (Z.of_nat i)) None baseFee N Hok Hs HN Htx HB Hn) as C.
  destruct (applyTxAtSession _ _ _ _ _ _ _) as [[st1 session1] [[g1 t1]|]]; [|done].
  destruct C as (-> & O1 & _ & _ & Hg1 & Ht1 & Hgb & S1).
  pose proof (supply_of_nonneg _ _ [] S1). pose proof (supply_of_le _ _ [] S1).
  rewrite (u64_small (gas0 + g1)), (u64_small (tip0 + t1)) in E by lia.
  destruct (IH st1 (Datatypes.S i) (gas0 + g1) (tip0 + t1) (N - g1 * baseFee - t1))
    as (E1 & E2 & E3 & E4 & E5 & E6); [done|done|done|lia|lia|lia|lia|exact E|].
  replace (N - (g - gas0) * baseFee - (t - tip0)) with
    (N - g1 * baseFee - t1 - (g - (gas0 + g1)) * baseFee - (t - (tip0 + t1))) by lia.
  split_and!; try done; lia.
Qed.

Lemma no_orders_no_senders txs :
  forallb (fun tx => negb (IsExchangeTx tx)) txs = true -> exchange_senders txs = [].
Proof.
  unfold exchange_senders. induction txs as [|tx txs IH]; simpl; [done|].
  intros [H1%negb_true_iff H2]%andb_true_iff. rewrite H1. by apply IH.
Qed.

Lemma native_no_senders st txs v h i baseFee :
  native_block st txs v h i baseFee = true -> exchange_senders txs = [].
Proof.
  intros Hn. apply no_orders_no_senders. revert st i Hn.
  induction txs as [|tx txs IH]; intros st i Hn; [done|].
  cbn [native_block] in Hn. apply andb_true_iff in Hn as [Hn Hrest]. unfold native in Hn.
  apply andb_true_iff in Hn as [Hx _]. simpl. rewrite Hx. simpl.
  destruct (applyTxAtSession _ _ _ _ _ _ _) as [[st1 session1] [r|]]; [by eapply IH|done].
Qed.

Lemma open_session_native st txs v h i baseFee mode :
  native_block st txs v h i baseFee = true -> open_session st txs mode = Ok None.
Proof.
  intros Hn. unfold open_session. rewrite (native_no_senders _ _ _ _ _ _ Hn). by case_bool_decide.
Qed.

Lemma applyTxsAt_supply st txs v h mode baseFee N st' g t :
  ok st -> supply st N -> N < two64 -> Forall tx_wf txs -> is_u64 baseFee ->
  native_block st txs v h 0 baseFee = true -> gas_limits txs < two64 ->
  applyTxsAt st txs v h mode baseFee = (st', Ok (g, t)) ->
  ok st' /\ 0 <= g <= gas_limits txs /\ 0 <= t /\ supply st' (N - g * baseFee - t) /\
  t + (N - g * baseFee - t) < two64.
Proof.
  intros Hok Hs HN Hwf HB Hn Hg. unfold applyTxsAt. rewrite (open_session_native _ _ _ _ _ _ _ Hn).
  destruct (apply_txs _ _ _ _ _ _ _ _ _) as [[st1 session1] [[g1 t1]|]] eqn:E; [|done].
  destruct (apply_txs_supply st txs v h 0 baseFee 0 0 N st1 session1 g1 t1) as (-> & O & A & B & C & D);
    [done|done|done|done|done|lia|lia|lia|lia|exact E|].
  intros [= <- <- <-]. replace (g1 - 0) with g1 in * by lia. replace (t1 - 0) with t1 in * by lia.
  split_and!; try done; lia.
Qed.

(** the coinbase is credited the reward and the tips *)
Lemma reward_supply st miner tip N :
  ok st -> supply st N -> 0 <= tip -> BlockReward + tip + N < two64 ->
  supply (reward st miner tip) (N + BlockReward + tip).
Proof.
  intros Hok Hs Ht Hb. unfold reward.
  pose proof (supply_of_nonneg _ _ miner Hs) as H0. pose proof (supply_of_le _ _ miner Hs) as H1.
  unfold balance in H0, H1. unfold BlockReward in *.
  rewrite (u64_small (50 + tip)) by lia. rewrite u64_small by lia.
  set (x := set_balance _ _).
  replace (N + 50 + tip) with (N - balance st miner + Balance x) by (unfold balance; simpl; lia).
  apply supply_SetAccount; [done|simpl; lia].
Qed.
End Blocks.

(** ** The embedded EVM *)

(** what go-ethereum's EVM promises: it reaches the state only through the
    adapter's calls, and uses at most the gas it is given *)
Class GethEVMLaws `{GethEVM} := {
  evm_Create_run S `{StateDBLaws S} h bf (s : adb S) from data gas value :
    good s -> adb_run s (fst (evm_Create S h bf s from data gas value));
  evm_Create_gas S `{StateDB S} h bf (s : adb S) from data gas value :
    0 <= gas -> 0 <= snd (evm_Create S h bf s from data gas value) <= gas;
  evm_Call_run S `{StateDBLaws S} h bf (s : adb S) from to data gas value :
    good s -> adb_run s (fst (evm_Call S h bf s from to data gas value));
  evm_Call_gas S `{StateDB S} h bf (s : adb S) from to data gas value :
    0 <= gas -> 0 <= snd (evm_Call S h bf s from to data gas value) <= gas;
}.

Section Evm.
Context {S : Type} `{HL : StateDBLaws S} `{HGL : GethEVMLaws}.

(** the run of the EVM inside [applyEVMTx] *)
Definition evm_result (st : S) (tx : Transaction) (h baseFee : Z) : adb S * Z :=
  let rules := ChainConfig_Rules h in
  let toAddr := if bool_decide (tx_To tx = DeployAddress) then None else Some (tx_To tx) in
  let from := GetAccount st (tx_From tx) in
  let st := SetAccount st (tx_From tx) (set_balance from (Balance from - gas_reserve tx)) in
  let sdb := evm_start st tx rules toAddr in
  match toAddr with
  | None => evm_Create S h baseFee sdb (tx_From tx) (tx_Data tx) (tx_GasLimit tx) (tx_Value tx)
  | Some to => evm_Call S h baseFee sdb (tx_From tx) to (tx_Data tx) (tx_GasLimit tx) (tx_Value tx)
  end.

Lemma evm_start_fields (st : S) tx rules toAddr :
  base (evm_start st tx rules toAddr) = st /\ touched (evm_start st tx rules toAddr) = ∅ /\
  entries (evm_start st tx rules toAddr) = [].
Proof. unfold evm_start, Prepare. by destruct (IsEIP2929 rules). Qed.

Lemma Finalise_untouched (s : adb S) b : touched s = ∅ -> Finalise s b = s.
Proof. intros E. unfold Finalise. by rewrite E, elements_empty. Qed.

Lemma applyEVMTx_overflow (st : S) tx h baseFee price :
  good (New_adapter st) -> tx_wf tx -> is_u64 baseFee -> balance st (tx_From tx) < two64 ->
  check_fees tx (GetAccount st (tx_From tx)) baseFee = Ok price ->
  Err_ (fst (evm_result st tx h baseFee)) = true ->
  exists st', applyEVMTx st tx (GetAccount st (tx_From tx)) h baseFee = (st', Ok (tx_GasLimit tx)) /\
    (forall a, GetCode st' a = GetCode st a) /\
    (forall a k, GetStorage st' a k = GetStorage st a k) /\
    (forall a, balance st' a =
       if decide (a = tx_From tx) then balance st a - tx_GasLimit tx * price else balance st a) /\
    (forall a, nonce st' a =
       if decide (a = tx_From tx) then u64 (nonce st a + 1) else nonce st a).
Proof.
  intros [Hok Hw] Hwf HB Hbal Hc Herr. simpl in Hok, Hw. unfold applyEVMTx. rewrite Hc. cbv zeta.
  pose proof (check_fees_view _ _ _ _ Hwf HB Hc) as V. pose proof (fv_afford _ _ _ _ V) as Haff.
  set (from := GetAccount st (tx_From tx)) in *.
  set (toAddr := if bool_decide (tx_To tx = DeployAddress) then None else Some (tx_To tx)).
  set (st1 := SetAccount st (tx_From tx) (set_balance from (Balance from - gas_reserve tx))).
  set (s0 := evm_start st1 tx (ChainConfig_Rules h) toAddr).
  assert (Hrun : exists r, evm_result st tx h baseFee = r /\ (good s0 -> adb_run s0 (fst r)) /\
    match toAddr with
    | None => evm_Create S h baseFee s0 (tx_From tx) (tx_Data tx) (tx_GasLimit tx) (tx_Value tx)
    | Some to => evm_Call S h baseFee s0 (tx_From tx) to (tx_Data tx) (tx_GasLimit tx) (tx_Value tx)
    end = r).
  { eexists. split; [reflexivity|]. unfold evm_result. fold from st1 toAddr s0.
    destruct toAddr; (split; [|done]); intros G; [by apply (evm_Call_run S)|by apply (evm_Create_run S)]. }
  destruct Hrun as ([sdb used] & Er & Hrun & ->). rewrite Er in Herr. simpl in Herr, Hrun.
  rewrite Herr. destruct (evm_start_fields st1 tx (ChainConfig_Rules h) toAddr) as (B0 & T0 & E0).
  fold s0 in B0, T0, E0.
  assert (O1 : ok st1) by (apply ok_SetAccount; [done|by split]).
  assert (G0 : good s0).
  { split; rewrite B0; [done|]. intros a k. unfold st1.
    rewrite GetStorage_SetAccount by (done || by split). apply Hw. }
  destruct (adb_run_journaled s0 sdb (Hrun G0) G0) as [es J].
  destruct (journaled_revert s0 sdb es G0 J) as ([[Or _] A C K R T D N W Tr L] & _ & _).
  rewrite Finalise_untouched by congruence.
  set (st2 := base (RevertToSnapshot sdb (Snapshot_ s0))) in *. rewrite B0 in *.
  destruct (refund_exact tx from baseFee price (tx_GasLimit tx)) as (-> & Hr & _);
    [done|done|done|destruct Hwf as (_ & _ & _ & _ & ? & _); lia|].
  assert (Hb2 : balance st2 (tx_From tx) = Balance from - gas_reserve tx).
  { destruct (A (tx_From tx)) as [-> _]. unfold st1. by rewrite balance_SetAccount, decide_True. }
  eexists. split; [reflexivity|]. split_and!.
  - intros a. rewrite GetCode_SetAccount by (done || by split). rewrite C. unfold st1.
    by rewrite GetCode_SetAccount by (done || by split).
  - intros a k. rewrite GetStorage_SetAccount by (done || by split). rewrite K. unfold st1.
    by rewrite GetStorage_SetAccount by (done || by split).
  - intros a. rewrite balance_SetAccount. simpl. fold (balance st2 (tx_From tx)). rewrite Hb2.
    unfold balance in Hbal. fold from in Hbal.
    destruct (decide (a = tx_From tx)) as [->|].
    + rewrite u64_small by lia. unfold balance. fold from. lia.
    + destruct (A a) as [-> _]. unfold st1. by rewrite balance_SetAccount, decide_False.
  - intros a. rewrite nonce_SetAccount. simpl. destruct (decide (a = tx_From tx)) as [->|]; [done|].
    destruct (A a) as [_ ->]. unfold st1. by rewrite nonce_SetAccount, decide_False.
Qed.
End Evm.
