(* ===== verification/TransitionTheorems.v ===== *)
(** * The state transition: theorems

    Replay protection, the accounting of fees, conservation of the supply over a
    block, and three consequences of how the parts are put together. *)

From S2P Require Import Prelude Sha256 Core FeeMarket StateDB Mpt Pos StackVM StackVMProps.
From S2P Require Import Exchange ExchangeProps Adapter AdapterProps Transition TransitionProps.

(** ** Witness instances *)

(** a stand-in for go-ethereum's EVM: it moves the value (a deployment moves it
    back) and costs 100 gas *)
Definition toy_evm : GethEVM := {|
  ChainConfig_Rules := fun _ => mkRules true true true;
  ActivePrecompiles := fun _ => [];
  evm_Create := fun S _ _ _ s from data gas value =>
    (fst (AddBalance (fst (SubBalance s from value)) from value), Z.min gas 100);
  evm_Call := fun S _ _ _ s from to data gas value =>
    (fst (AddBalance (fst (SubBalance s from value)) to value), Z.min gas 100);
|}.

#[local] Existing Instance toy_engine.
#[local] Existing Instance toy_evm.

Definition alice : Address := replicate 20 1.
Definition bob : Address := replicate 20 2.

Definition accept_all : verifier := Some AcceptNonEmptySig.

Definition simple_tx (from to : Address) (value n gas cap tip : Z) (data : bytes) : Transaction :=
  mkTx from to value n gas 1337 cap tip data [1].

Definition two_accounts : memStateDB :=
  mem_SetAccount (mem_SetAccount NewMemStateDB alice (mkAccount 100000 0 zero_hash zero_hash))
    bob (mkAccount 500 0 zero_hash zero_hash).

Lemma two_accounts_supply : supply two_accounts 100500.
Proof.
  exists [alice; bob]. split_and!.
  - apply NoDup_cons. split; [by rewrite list_elem_of_singleton|apply NoDup_singleton].
  - intros a Ha. rewrite !not_elem_of_cons in Ha. destruct Ha as (H1 & H2 & _).
    unfold balance. simpl. unfold mem_GetAccount. simpl. by rewrite !lookup_insert_ne by congruence.
  - intros a. unfold balance. simpl. unfold mem_GetAccount. simpl. rewrite !lookup_insert.
    by repeat case_decide.
  - reflexivity.
Qed.

(** a transfer, and a contract creation *)
Definition sample_transfer : Transaction := simple_tx alice bob 70 0 0 0 0 [].
Definition sample_create : Transaction := simple_tx alice zero_addr 30 1 40000 2 1 [0x60; 1].

(** closes [tx_wf] of a concrete transaction *)
Ltac tx_wf_tac :=
  unfold tx_wf, addr_wf, is_byte; split_and!;
  lazymatch goal with
  | |- Forall _ _ => cbn; repeat (apply Forall_cons; split; [unfold is_byte; lia|]); constructor
  | |- _ = _ => reflexivity
  | |- _ => vm_compute; first [reflexivity | discriminate]
  end.

(** ** Replay protection *)

(** C6: an applied transaction cannot be applied again.  Whatever its kind
    (transfer, order, EVM call or deployment, attestation, contract), a
    transaction that succeeds carried a valid signature and its sender's exact
    nonce, and the state it leaves refuses the same transaction with
    [ErrBadNonce], at any height, position and base fee. *)
Theorem applied_tx_cannot_replay S `{StateDBLaws S} `{Engine} `{GethEVM} (st : S) tx v h i session
    baseFee N st' session' r :
  ok st -> supply st N -> N < two64 -> tx_wf tx -> is_u64 baseFee -> tx_Nonce tx < two64 - 1 ->
  applyTxAtSession st tx v h i session baseFee = (st', session', Ok r) ->
  tx_Nonce tx = nonce st (tx_From tx) /\ nonce st' (tx_From tx) = tx_Nonce tx + 1 /\
  forall h' i' session2 baseFee',
    applyTxAtSession st' tx v h' i' session2 baseFee' = (st', session2, Err ErrBadNonce).
Proof.
  intros Hok Hs HN Hwf HB Hlast E.
  destruct (applied_nonce _ _ _ _ _ _ _ _ _ _ _ Hok Hs HN Hwf HB E) as (Hv & Hn & Hn').
  pose proof Hwf as (_ & _ & _ & WN & _).
  rewrite u64_small in Hn' by lia. split_and!; [done|done|]. intros h' i' session2 baseFee'.
  unfold applyTxAtSession. rewrite Hv. simpl negb. cbv iota.
  fold (nonce st' (tx_From tx)). rewrite Hn'.
  destruct (Z.eqb_spec (tx_Nonce tx) (tx_Nonce tx + 1)); [lia|done].
Qed.

Lemma applied_tx_cannot_replay_witness :
  let out := applyTxAtSession two_accounts sample_transfer accept_all 1 0 None 7 in
  snd out = Ok (0, 0) /\
  applyTxAtSession (fst (fst out)) sample_transfer accept_all 2 5 None 8 =
    (fst (fst out), None, Err ErrBadNonce).
Proof.
  split; [vm_compute; reflexivity|].
  eapply (applied_tx_cannot_replay memStateDB two_accounts sample_transfer accept_all 1 0 None 7 100500).
  - done.
  - apply two_accounts_supply.
  - done.
  - tx_wf_tac.
  - done.
  - done.
  - vm_compute. reflexivity.
Defined.

(** ** Transfers *)

(** what a plain transfer does to the state, when it is not to the sender itself *)
Definition moved {S} `{StateDB S} (st : S) (tx : Transaction) : S :=
  let from := GetAccount st (tx_From tx) in
  let to := GetAccount st (tx_To tx) in
  SetAccount
    (SetAccount st (tx_From tx)
       (set_balance (set_nonce_ from (u64 (Nonce from + 1))) (Balance from - tx_Value tx)))
    (tx_To tx) (set_balance to (u64 (Balance to + tx_Value tx))).

Lemma moved_roots {S} `{StateDBLaws S} (st : S) tx x :
  tx_From tx <> tx_To tx ->
  same_roots (set_balance (GetAccount st (tx_To tx)) x)
    (GetAccount (SetAccount st (tx_From tx) (set_balance (set_nonce_ (GetAccount st (tx_From tx))
       (u64 (Nonce (GetAccount st (tx_From tx)) + 1))) (Balance (GetAccount st (tx_From tx)) - tx_Value tx)))
       (tx_To tx)).
Proof. intros Hne. rewrite GetAccount_SetAccount, decide_False by congruence. apply same_roots_balance. Qed.

Lemma moved_spec {S} `{StateDBLaws S} (st : S) tx :
  ok st -> tx_From tx <> tx_To tx ->
  nonce_bumped st (moved st tx) (tx_From tx) /\
  balance (moved st tx) (tx_From tx) = balance st (tx_From tx) - tx_Value tx /\
  balance (moved st tx) (tx_To tx) = u64 (balance st (tx_To tx) + tx_Value tx) /\
  (forall a, a <> tx_From tx -> a <> tx_To tx -> GetAccount (moved st tx) a = GetAccount st a) /\
  (forall a, GetCode (moved st tx) a = GetCode st a) /\
  (forall a k, GetStorage (moved st tx) a k = GetStorage st a k).
Proof.
  intros Hok Hne. unfold moved. set (x := set_balance (set_nonce_ _ _) _).
  assert (O : ok (SetAccount st (tx_From tx) x)) by (apply ok_SetAccount; [done|by split]).
  pose proof (moved_roots st tx (u64 (Balance (GetAccount st (tx_To tx)) + tx_Value tx)) Hne) as R.
  fold x in R. split_and!.
  - intros b. rewrite !nonce_SetAccount. cbn [Nonce set_balance].
    destruct (decide (b = tx_To tx)) as [->|]; [by rewrite decide_False by congruence|done].
  - rewrite balance_SetAccount, decide_False, balance_SetAccount, decide_True by done. done.
  - rewrite balance_SetAccount, decide_True by done. done.
  - intros a E1 E2. by rewrite !GetAccount_SetAccount, !decide_False.
  - intros a. rewrite GetCode_SetAccount by done. by apply GetCode_SetAccount.
  - intros a k. rewrite GetStorage_SetAccount by done. by apply GetStorage_SetAccount.
Qed.

(** C22: a plain transfer.  It is refused, with nothing changed, exactly when the signature is
    bad, the nonce is not the sender's, or the sender has less than the value.  Otherwise
    the sender loses the value and the recipient gains it modulo 2^64 (neither changes when
    they are the same account), no fee is paid, the sender's nonce alone advances, by one,
    and every other account, all code and all storage are as before.  While all balances
    add up to less than 2^64, nothing wraps and the total is unchanged. *)
Theorem transfer_moves_value S `{StateDBLaws S} `{Engine} `{GethEVM} (st : S) tx v h i session baseFee :
  ok st -> tx_wf tx ->
  native st tx = true -> IsAttestationTx tx = false -> isContractTx st tx = false ->
  let from := tx_From tx in let to := tx_To tx in
  match applyTxAtSession st tx v h i session baseFee with
  | (st', session', Ok r) =>
      verify_sig v tx = true /\ tx_Nonce tx = nonce st from /\ tx_Value tx <= balance st from /\
      r = (0, 0) /\ session' = session /\ nonce_bumped st st' from /\
      (from <> to -> balance st' from = balance st from - tx_Value tx /\
                     balance st' to = u64 (balance st to + tx_Value tx)) /\
      (from = to -> balance st' from = balance st from) /\
      (forall a, a <> from -> a <> to -> GetAccount st' a = GetAccount st a) /\
      (forall a, GetCode st' a = GetCode st a) /\ (forall a k, GetStorage st' a k = GetStorage st a k) /\
      (forall N, supply st N -> N < two64 ->
         supply st' N /\ (from <> to -> balance st' to = balance st to + tx_Value tx))
  | (st', session', Err e) =>
      st' = st /\ session' = session /\
      (verify_sig v tx = false /\ e = ErrBadSig \/
       tx_Nonce tx <> nonce st from /\ e = ErrBadNonce \/
       balance st from < tx_Value tx /\ e = ErrInsufficientBalance)
  end.
Proof.
  intros Hok Hwf Hnat Ha Hc from to. unfold native in Hnat.
  apply andb_true_iff in Hnat as [Hx%negb_true_iff He%negb_true_iff].
  pose proof Hwf as (_ & _ & WV & _).
  unfold applyTxAtSession. destruct (verify_sig v tx); simpl negb; cbv iota; [|by split_and!; [..|left]].
  fold from to. change (Nonce (GetAccount st from)) with (nonce st from).
  change (Balance (GetAccount st from)) with (balance st from).
  destruct (Z.eqb_spec (tx_Nonce tx) (nonce st from)); simpl negb; cbv iota; [|by split_and!; [..|right; left]].
  rewrite Hx, He, Ha, Hc. destruct (Z.ltb_spec (balance st from) (tx_Value tx));
    [by split_and!; [..|right; right]|].
  case_bool_decide as Eself.
  - set (x := set_nonce_ _ _). assert (R : same_roots x (GetAccount st from)) by by split.
    assert (B : forall a, balance (SetAccount st from x) a = balance st a).
    { intros a. rewrite balance_SetAccount. by case_decide; [subst a|]. }
    split_and!; try done.
    + by apply bump_SetAccount.
    + intros a E1 _. by rewrite GetAccount_SetAccount, decide_False.
    + intros a. by apply GetCode_SetAccount.
    + intros a k. by apply GetStorage_SetAccount.
    + intros N Hs _. split; [|done]. eapply supply_of_ext; [|exact Hs]. done.
  - destruct (moved_spec st tx Hok Eself) as (Hn & Hb & Ht & Hacc & Hcode & Hst).
    change (SetAccount _ to _) with (moved st tx). split_and!; try done.
    intros N Hs HN. pose proof (supply_of_two _ _ from to Hs Eself). pose proof (supply_of_nonneg _ _ to Hs).
    fold to in Ht. rewrite u64_small in Ht by lia. split; [|done].
    eapply supply_of_ext; [|apply (supply_of_move _ _ from to (tx_Value tx) Hs Eself); lia].
    intros a. cbv beta. destruct (decide (a = to)) as [->|]; [done|].
    destruct (decide (a = from)) as [->|]; [done|]. unfold balance. by rewrite Hacc.
Qed.

Lemma transfer_moves_value_witness :
  let st' := fst (fst (applyTxAtSession two_accounts sample_transfer accept_all 1 0 None 7)) in
  balance st' bob = 570 /\ supply st' 100500.
Proof.
  pose proof (transfer_moves_value memStateDB two_accounts sample_transfer accept_all 1 0 None 7) as T.
  destruct (applyTxAtSession two_accounts sample_transfer accept_all 1 0 None 7)
    as [[st' session'] [r|e]] eqn:E.
  - destruct T as (_ & _ & _ & _ & _ & _ & _ & _ & _ & _ & _ & T).
    + done.
    + tx_wf_tac.
    + vm_compute. reflexivity.
    + vm_compute. reflexivity.
    + vm_compute. reflexivity.
    + destruct (T 100500 two_accounts_supply eq_refl) as [Hs Hb]. split; [|exact Hs]. by apply Hb.
  - exfalso. vm_compute in E. discriminate E.
Defined.

(** An overflowing credit destroys 2^64 coins.  A transfer to an account whose balance and
    the value together pass 2^64 is accepted like any other, and the total of all balances
    drops by 2^64: the credit wraps around and nothing checks it.  (A genesis allocation may
    hold such balances: every amount is a 64-bit number and their sum is not checked.) *)
Theorem overflowing_transfer_destroys_coins S `{StateDBLaws S} `{Engine} `{GethEVM}
    (st : S) tx v h i session baseFee N :
  ok st -> supply st N -> tx_wf tx ->
  native st tx = true -> IsAttestationTx tx = false -> isContractTx st tx = false ->
  verify_sig v tx = true -> tx_Nonce tx = nonce st (tx_From tx) -> tx_From tx <> tx_To tx ->
  tx_Value tx <= balance st (tx_From tx) -> is_u64 (balance st (tx_To tx)) ->
  two64 <= balance st (tx_To tx) + tx_Value tx ->
  exists st', applyTxAtSession st tx v h i session baseFee = (st', session, Ok (0, 0)) /\
    supply st' (N - two64).
Proof.
  intros Hok Hs Hwf Hnat Ha Hc Hv Hn Hne Hb Hu Hov. unfold native in Hnat.
  apply andb_true_iff in Hnat as [Hx%negb_true_iff He%negb_true_iff].
  pose proof Hwf as (_ & _ & WV & _). exists (moved st tx). split.
  - unfold applyTxAtSession. rewrite Hv. cbn [negb]. fold (nonce st (tx_From tx)).
    rewrite Hn, Z.eqb_refl. cbn [negb]. rewrite Hx, He, Ha, Hc. fold (balance st (tx_From tx)).
    rewrite (proj2 (Z.ltb_ge _ _) Hb), bool_decide_eq_false_2 by done. done.
  - unfold moved. set (x := set_balance (set_nonce_ _ _) _).
    assert (Et : u64 (balance st (tx_To tx) + tx_Value tx) = balance st (tx_To tx) + tx_Value tx - two64).
    { unfold u64. symmetry. apply (Zmod_unique _ _ 1); lia. }
    replace (N - two64) with (N - balance st (tx_From tx) + Balance x
      - balance (SetAccount st (tx_From tx) x) (tx_To tx) + u64 (balance st (tx_To tx) + tx_Value tx)).
    + apply (supply_SetAccount (SetAccount st (tx_From tx) x) _ (tx_To tx)
        (set_balance (GetAccount st (tx_To tx)) (u64 (balance st (tx_To tx) + tx_Value tx)))).
      * apply supply_SetAccount; [done|]. unfold x. cbn [Balance set_balance].
        fold (balance st (tx_From tx)). lia.
      * apply u64_range.
    + rewrite Et, balance_SetAccount, decide_False by congruence. unfold x. cbn [Balance set_balance].
      fold (balance st (tx_From tx)). lia.
Qed.

(** two accounts that a genesis allocation can hold *)
Definition full_accounts : memStateDB :=
  mem_SetAccount (mem_SetAccount NewMemStateDB alice (mkAccount (two64 - 1) 0 zero_hash zero_hash))
    bob (mkAccount (two64 - 1) 0 zero_hash zero_hash).

Example full_accounts_overflow :
  let '(st', _, r) := applyTxAtSession full_accounts (simple_tx alice bob 1 0 0 0 0 []) accept_all 1 0 None 7 in
  r = Ok (0, 0) /\ balance st' alice = two64 - 2 /\ balance st' bob = 0.
Proof. vm_compute. by split_and!. Qed.

(** ** Fees *)

(** the state in which a contract transaction executes: the gas limit at the fee cap is
    reserved, the nonce is used *)
Definition reserved {S} `{StateDB S} (st : S) (tx : Transaction) : S :=
  let from := GetAccount st (tx_From tx) in
  SetAccount st (tx_From tx)
    (mkAccount (Balance from - tx_GasLimit tx * tx_GasFeeCap tx) (u64 (Nonce from + 1))
       (CodeHash from) (StorageRoot_ from)).

Definition tx_message (tx : Transaction) : Message :=
  mkMessage (tx_From tx) (if bool_decide (tx_To tx = zero_addr) then None else Some (tx_To tx))
    (tx_Value tx) (tx_GasLimit tx) (tx_Nonce tx) (tx_Data tx).

Lemma applyContractTx_unfold {S} `{StateDB S} (st : S) tx baseFee price :
  gas_reserve tx = tx_GasLimit tx * tx_GasFeeCap tx ->
  check_fees tx (GetAccount st (tx_From tx)) baseFee = Ok price ->
  applyContractTx st tx (GetAccount st (tx_From tx)) baseFee =
    let '(ran, receipt) := Execute (reserved st tx) (tx_message tx) in
    let refund := u64 (gas_reserve tx - u64 (r_GasUsed receipt * price)) in
    (SetAccount ran (tx_From tx) (set_balance (GetAccount ran (tx_From tx))
       (u64 (balance ran (tx_From tx) + refund))), Ok (r_GasUsed receipt)).
Proof.
  intros Hr Hc. unfold applyContractTx. rewrite Hc. unfold reserved. rewrite <- Hr. reflexivity.
Qed.

(** the refund, in the account of the sender and nowhere else *)
Lemma refunded {S} `{StateDBLaws S} (ran : S) a x :
  ok ran ->
  let st' := SetAccount ran a (set_balance (GetAccount ran a) x) in
  balance st' a = x /\ (forall b, b <> a -> GetAccount st' b = GetAccount ran b) /\
  (forall b, GetCode st' b = GetCode ran b) /\ (forall b k, GetStorage st' b k = GetStorage ran b k).
Proof.
  intros Hok. cbv zeta. split_and!.
  - by rewrite balance_SetAccount, decide_True.
  - intros b Hb. by rewrite GetAccount_SetAccount, decide_False.
  - intros b. apply GetCode_SetAccount; [done|apply same_roots_balance].
  - intros b k. apply GetStorage_SetAccount; [done|apply same_roots_balance].
Qed.

(** C23: the accounting of a contract transaction, while all balances add up to less than
    2^64.  It is refused, with nothing changed, exactly when the fee checks fail.  Otherwise
    the message is executed with the gas limit at the fee cap reserved; the sender ends
    with what the execution left it, less the gas used at the effective price (the base fee
    plus the tip, at most its cap) and nothing else; every other account, and all code and
    storage, are as the execution left them; the gas used is at most the gas limit, the
    refund does not wrap, and the sender's nonce alone advances, by one.  When the
    execution fails, the fee is the only change. *)
Theorem contract_tx_accounting S `{StateDBLaws S} `{Engine} `{GethEVM} (st : S) tx baseFee N :
  ok st -> supply st N -> N < two64 -> tx_wf tx -> is_u64 baseFee ->
  let from := tx_From tx in
  match applyContractTx st tx (GetAccount st from) baseFee with
  | (st', Ok g) =>
      exists price, check_fees tx (GetAccount st from) baseFee = Ok price /\
        price = baseFee + priority_fee tx baseFee /\ price <= tx_GasFeeCap tx /\
        0 <= g <= tx_GasLimit tx /\ nonce_bumped st st' from /\
        supply st' (N - g * price) /\
        let '(ran, receipt) := Execute (reserved st tx) (tx_message tx) in
        g = r_GasUsed receipt /\
        balance st' from =
          balance st from - g * price + (balance ran from - balance (reserved st tx) from) /\
        (forall a, a <> from -> GetAccount st' a = GetAccount ran a) /\
        (forall a, GetCode st' a = GetCode ran a) /\
        (forall a k, GetStorage st' a k = GetStorage ran a k) /\
        (r_Success receipt = false ->
           balance st' from = balance st from - g * price /\
           (forall a, a <> from -> GetAccount st' a = GetAccount st a) /\
           (forall a, GetCode st' a = GetCode st a) /\
           (forall a k, GetStorage st' a k = GetStorage st a k))
  | (st', Err e) => st' = st /\ check_fees tx (GetAccount st from) baseFee = Err e
  end.
Proof.
  intros Hok Hs HN Hwf HB from. pose proof (applyContractTx_spec st tx baseFee N Hok Hs HN Hwf HB) as C.
  fold from in C. destruct (applyContractTx st tx (GetAccount st from) baseFee) as [st' [g|e]] eqn:E; [|done].
  destruct C as (price & Hc & V & O & Hg & S' & B). exists price.
  pose proof (fv_reserve _ _ _ _ V) as Hr. pose proof (fv_price _ _ _ _ V). pose proof (fv_cap _ _ _ _ V).
  pose proof (fv_afford _ _ _ _ V) as Haff. change (Balance (GetAccount st from)) with (balance st from) in Haff.
  destruct (refund_exact tx (GetAccount st from) baseFee price g) as (Ef & Hf & _); [done..|].
  pose proof (supply_u64 st N from Hs HN) as Hu.
  assert (HR : same_roots (GetAccount (reserved st tx) from) (GetAccount st from) /\
               balance (reserved st tx) from = balance st from - gas_reserve tx).
  { unfold balance, reserved. fold from. rewrite GetAccount_SetAccount, decide_True, Hr by done. by split. }
  destruct HR as [_ HRb].
  assert (O1 : ok (reserved st tx)) by (apply ok_SetAccount; [done|by split]).
  assert (S1 : supply (reserved st tx) (N - gas_reserve tx)).
  { replace (N - gas_reserve tx) with (N - balance st from + Balance (GetAccount (reserved st tx) from))
      by (fold (balance (reserved st tx) from); lia).
    unfold reserved at 2. fold from. rewrite GetAccount_SetAccount, decide_True by done.
    apply supply_SetAccount; [done|]. cbn [Balance]. fold (balance st from). lia. }
  pose proof Hwf as (_ & _ & WV & _ & WL & _). assert (0 <= gas_reserve tx) by apply u64_range.
  pose proof (Execute_inv (reserved st tx) (tx_message tx) (N - gas_reserve tx) O1 S1 ltac:(lia) WV WL) as X.
  unfold from in E. rewrite (applyContractTx_unfold st tx baseFee price Hr Hc) in E. fold from in E.
  destruct (Execute (reserved st tx) (tx_message tx)) as [ran receipt]. cbn [fst snd] in X.
  destruct X as (O2 & S2 & _ & Hfail). cbv zeta in E. injection E as E <-. subst st'. rewrite Ef in *.
  set (refund := gas_reserve tx - r_GasUsed receipt * price) in *.
  pose proof (supply_of_nonneg _ _ from S2). pose proof (supply_of_le _ _ from S2).
  destruct (refunded ran from (u64 (balance ran from + refund)) O2) as (Rb & Ra & Rc & Rs).
  fold from. assert (Eu : u64 (balance ran from + refund) = balance ran from + refund)
    by (apply u64_small; unfold balance in *; lia).
  split_and!; try done; try lia.
  intros Hno. pose proof (Hfail Hno) as ->. split_and!.
  - rewrite Rb, Eu, HRb. unfold refund. lia.
  - intros a Ha. rewrite Ra by done. unfold reserved. by rewrite GetAccount_SetAccount, decide_False.
  - intros a. rewrite Rc. unfold reserved. apply GetCode_SetAccount; [done|by split].
  - intros a k. rewrite Rs. unfold reserved. apply GetStorage_SetAccount; [done|by split].
Qed.

Definition two_accounts_1 : memStateDB :=
  mem_SetAccount two_accounts alice (mkAccount 100000 1 zero_hash zero_hash).

Lemma two_accounts_1_supply : supply two_accounts_1 100500.
Proof.
  apply (supply_SetAccount two_accounts 100500 alice (mkAccount 100000 1 zero_hash zero_hash)
    two_accounts_supply). done.
Qed.

Lemma contract_tx_accounting_witness :
  supply (fst (applyContractTx two_accounts_1 sample_create
                 (GetAccount two_accounts_1 (tx_From sample_create)) 1))
    (100500 - 32000 * 2).
Proof.
  assert (W : tx_wf sample_create) by tx_wf_tac. assert (B : is_u64 1) by done.
  pose proof (contract_tx_accounting memStateDB two_accounts_1 sample_create 1 100500
    I two_accounts_1_supply eq_refl W B) as T. cbv zeta in T.
  assert (E : snd (applyContractTx two_accounts_1 sample_create
                 (GetAccount two_accounts_1 (tx_From sample_create)) 1) = Ok 32000)
    by (vm_compute; reflexivity).
  destruct (applyContractTx _ _ _ _) as [st' r]. simpl in E. subst r.
  destruct T as (price & Hc & _ & _ & _ & _ & T & _).
  assert (price = 2) as -> by (vm_compute in Hc; congruence). exact T.
Defined.

(** ** The supply over a block *)

(** C24: monetary policy of a block.  Let all balances add up to [N], with [N] and the block
    reward together below 2^64, and the declared gas limits too.  When a block above
    genesis of transfers, StackVM transactions and attestations (no exchange orders, no EVM
    transactions) is applied, all balances together grow by the block reward and shrink by
    the base fee of all the gas used: tips move to the coinbase, base fees are burned, and
    nothing else is created or destroyed. *)
Theorem block_reward_minus_burn S `{StateDBLaws S} `{Engine} `{GethEVM} (st : S) b v mode baseFee N st' g :
  ok st -> supply st N -> N + BlockReward < two64 -> Forall tx_wf (b_Txs b) -> is_u64 baseFee ->
  gas_limits (b_Txs b) < two64 -> h_Height (b_Header b) <> 0 ->
  native_block st (b_Txs b) v (h_Height (b_Header b)) 0 baseFee = true ->
  applyBlockRewarded st b v mode baseFee = (st', Ok g) ->
  supply st' (N + BlockReward - g * baseFee).
Proof.
  intros Hok Hs HN Hwf HB Hg Hh Hn. unfold applyBlockRewarded, BlockReward in *.
  destruct (applyTxsAt _ _ _ _ _ _) as [st1 [[g1 t1]|]] eqn:E; [|done].
  destruct (Z.eqb_spec (h_Height (b_Header b)) 0); [done|]. intros [= <- <-].
  destruct (applyTxsAt_supply st (b_Txs b) v (h_Height (b_Header b)) mode baseFee N st1 g1 t1)
    as (O & G & T & S1 & B); [done|done|lia|done|done|done|done|exact E|].
  replace (N + 50 - g1 * baseFee) with (N - g1 * baseFee - t1 + BlockReward + t1)
    by (unfold BlockReward; lia).
  apply reward_supply; [done|done|done|]. unfold BlockReward.
  assert (0 <= g1 * baseFee) by nia. lia.
Qed.

Definition header_at (height baseFee gasUsed : Z) (coinbase : Address) : Header :=
  mkHeader height zero_hash zero_hash zero_hash coinbase 0 0 0 baseFee gasUsed [].

Definition sample_block : Block := mkBlock (header_at 1 1 0 bob) [sample_transfer; sample_create].

(** the same accounts staged over the production state *)
Definition two_staged : overlayState mptStateDB :=
  SetAccount (SetAccount (newOverlay New) alice (mkAccount 100000 0 zero_hash zero_hash))
    bob (mkAccount 500 0 zero_hash zero_hash).

Lemma two_staged_balance a : balance two_staged a = balance two_accounts a.
Proof.
  unfold two_staged, two_accounts, balance. cbn [GetAccount SetAccount mem_StateDB ov_StateDB].
  rewrite !ov_GetAccount_SetAccount, !mem_GetAccount_SetAccount. by repeat case_decide.
Qed.

Lemma block_reward_minus_burn_witness :
  supply (fst (applyBlockRewarded two_staged sample_block accept_all Continuous 1))
    (100500 + BlockReward - 32000 * 1).
Proof.
  assert (E : snd (applyBlockRewarded two_staged sample_block accept_all Continuous 1) = Ok 32000)
    by (vm_compute; reflexivity).
  assert (W : Forall tx_wf (b_Txs sample_block)).
  { apply Forall_cons. split; [tx_wf_tac|]. apply Forall_cons. split; [tx_wf_tac|]. constructor. }
  assert (Nt : native_block two_staged (b_Txs sample_block) accept_all 1 0 1 = true)
    by (vm_compute; reflexivity).
  apply (block_reward_minus_burn (overlayState mptStateDB) two_staged sample_block accept_all Continuous 1
    100500 _ 32000).
  - exact I.
  - apply (supply_of_ext (balance two_accounts)); [|apply two_accounts_supply].
    intros a. symmetry. apply two_staged_balance.
  - clear. done.
  - exact W.
  - clear. done.
  - vm_compute. reflexivity.
  - clear. done.
  - exact Nt.
  - destruct (applyBlockRewarded _ _ _ _ _) as [st' r]. simpl in E |- *. by subst r.
Defined.

(** ** The embedded EVM *)

(** C25: an EVM call that overflows a 64-bit balance is discarded whole.  When the
    adapter reports the overflow after the EVM has run (whatever the EVM did, inner
    reverted frames included), every storage slot, every code and every other
    account's balance and nonce are what they were; the sender pays for the whole
    gas limit at the effective price, and its nonce advances by one. *)
Theorem evm_overflow_discarded S `{StateDBLaws S} `{GethEVMLaws} (st : S) tx h baseFee price :
  good (New_adapter st) -> tx_wf tx -> is_u64 baseFee -> balance st (tx_From tx) < two64 ->
  check_fees tx (GetAccount st (tx_From tx)) baseFee = Ok price ->
  Err_ (fst (evm_result st tx h baseFee)) = true ->
  exists st', applyEVMTx st tx (GetAccount st (tx_From tx)) h baseFee = (st', Ok (tx_GasLimit tx)) /\
    (forall a, GetCode st' a = GetCode st a) /\
    (forall a k, GetStorage st' a k = GetStorage st a k) /\
    (forall a, balance st' a =
       if decide (a = tx_From tx) then balance st a - tx_GasLimit tx * price else balance st a) /\
    (forall a, nonce st' a = if decide (a = tx_From tx) then u64 (nonce st a + 1) else nonce st a).
Proof. by apply applyEVMTx_overflow. Qed.

#[local] Instance toy_evm_laws : GethEVMLaws.
Proof.
  split; simpl; intros; try lia.
  - apply (adb_run_cons _ (OSubBalance from value)); [exact I|].
    apply (adb_run_cons _ (OAddBalance from value)); [exact I|]. apply adb_run_nil.
  - apply (adb_run_cons _ (OSubBalance from value)); [exact I|].
    apply (adb_run_cons _ (OAddBalance to value)); [exact I|]. apply adb_run_nil.
Qed.

(** bob has so much that 30 more would overflow *)
Definition rich_bob : memStateDB :=
  mem_SetAccount two_accounts bob (mkAccount (two64 - 10) 0 zero_hash zero_hash).
Definition evm_call : Transaction := simple_tx alice bob 30 0 200 9 2 [].

Lemma evm_overflow_discarded_witness :
  balance (fst (applyEVMTx rich_bob evm_call (GetAccount rich_bob alice) 4 5)) alice = 98600.
Proof.
  destruct (evm_overflow_discarded memStateDB rich_bob evm_call 4 5 7) as (st' & E & _ & _ & B & _).
  - split; [done|]. intros a k. simpl. unfold mem_GetStorage. simpl. by rewrite lookup_empty.
  - tx_wf_tac.
  - done.
  - vm_compute. reflexivity.
  - vm_compute. reflexivity.
  - vm_compute. reflexivity.
  - change alice with (tx_From evm_call). rewrite E. simpl fst. rewrite B, decide_True by done.
    vm_compute. reflexivity.
Defined.

(** ** Where the parts do not fit together *)

(** settling a batch forgets the block's other transactions.  At the end of a
    batch-auction block, the balance of every account the engine knows is set to
    what the engine computed from the balances at the start of the block, whatever
    the state holds by then: two states that differ in what those accounts spent,
    received or paid for gas in the meantime end with the same balances. *)
Theorem Finish_overwrites_balances S `{StateDBLaws S} `{HE : Engine} (s : BatchSession) h e summary
    (st1 st2 : S) st1' st2' :
  ok st1 -> ok st2 -> book_ok st1 -> book_ok st2 -> bs_touched s = true ->
  ClearBatch (bs_engine s) (bs_staged s) = Ok (e, summary) -> engine_wf e ->
  fst (Finish s st1 h) = st1' -> fst (Finish s st2 h) = st2' ->
  forall id bal, (id, bal) ∈ StateSnapshot e ->
    balance st1' id = bal_Quote bal /\ balance st2' id = bal_Quote bal.
Proof.
  intros O1 O2 B1 B2 Ht Hc He.
  assert (F : forall st, ok st -> book_ok st -> forall id bal, (id, bal) ∈ StateSnapshot e ->
    balance (fst (Finish s st h)) id = bal_Quote bal).
  { intros st O B id bal Hin. unfold Finish. rewrite Ht, Hc. simpl negb. cbv iota.
    destruct (Save_spec st e O B He) as (st' & -> & O' & _ & _ & T & _).
    destruct (T id bal Hin) as [T' _]. cbn [fst]. destruct (as_Cleared summary); [|done].
    unfold writeLastAuction, ex_set. rewrite !balance_SetStorage; [done|done|].
    apply ok_SetStorage; [done|]. rewrite !length_app, !length_be. done. }
  intros <- <- id bal Hin. split; by apply F.
Qed.

Definition sample_session : BatchSession :=
  mkSession (HE := toy_engine) ([], [(alice, mkBal 0 100000 0 0)]) [mkOrder alice (mkOrderID 1 0) Buy 5 2] true.

Lemma mem_book_ok (st : memStateDB) : m_storage st = ∅ -> book_ok st.
Proof.
  intros E. unfold book_ok, book_size, ex_get. simpl. unfold mem_GetStorage. rewrite E.
  split; [done|]. intros t _. by rewrite lookup_empty.
Qed.

Definition settled : list Order * list (AccountID * Bal) :=
  ([mkOrder alice (mkOrderID 1 0) Buy 5 2], [(alice, mkBal 0 100000 0 0)]).

Lemma settled_wf : engine_wf settled.
Proof.
  split; simpl; [repeat constructor; done|done|repeat constructor; done|apply NoDup_singleton].
Qed.

Definition spent : memStateDB := mem_SetAccount two_accounts alice (mkAccount 30 0 zero_hash zero_hash).

Lemma Finish_overwrites_balances_witness :
  balance (fst (Finish sample_session spent 1)) alice = 100000.
Proof.
  exact (proj1 (Finish_overwrites_balances memStateDB sample_session 1 settled (mkSummary false 0 0)
    spent two_accounts (fst (Finish sample_session spent 1)) (fst (Finish sample_session two_accounts 1))
    I I (mem_book_ok spent eq_refl) (mem_book_ok two_accounts eq_refl) eq_refl eq_refl settled_wf
    eq_refl eq_refl alice (mkBal 0 100000 0 0) (list_elem_of_here _ _))).
Defined.

(** so a batch-auction block can create money: with an engine that changes no
    balance, a block in which alice places an order and then sends bob 70 of her
    100000 ends with alice at 100000 and bob at 570. *)
Theorem batch_block_creates_money :
  let order := simple_tx alice ExchangeAddress 0 0 0 0 0 (EncodePlace Buy 5 2) in
  let transfer := simple_tx alice bob 70 1 0 0 0 [] in
  let out := applyTxsAt two_accounts [order; transfer] accept_all 1 BatchAuction 0 in
  balance two_accounts alice = 100000 /\ balance two_accounts bob = 500 /\
  snd out = Ok (0, 0) /\ balance (fst out) alice = 100000 /\ balance (fst out) bob = 570.
Proof. vm_compute. done. Qed.

(** code that was not deployed through [DeployAddress] can carry the EVM tag: a
    StackVM contract creation stores its data as code unchecked, so one whose data
    starts with the tag makes later calls of the new contract EVM calls, although
    its code never ran as EVM init code. *)
Theorem stackvm_creation_can_tag_code :
  let create := simple_tx alice zero_addr 0 0 32000 1 0 (TagCode [0x60; 1]) in
  let st := fst (ApplyTx two_accounts create accept_all) in
  snd (ApplyTx two_accounts create accept_all) = Ok tt /\
  isEVMTx st (simple_tx bob (CreateAddress alice 0) 0 0 0 0 0 []) = true.
Proof. vm_compute. done. Qed.

(** finalising an EVM transaction that touched the exchange's address (a
    zero-value call is enough) deletes the order book.  The exchange's account has
    no balance, nonce or code, so it counts as empty although it holds the whole
    book in its storage; on the trie-backed state its storage goes with it. *)
Theorem finalise_deletes_order_book :
  let st := fst (@Save mptStateDB _ toy_engine New sample_engine) in
  let sdb := fst (AddBalance (New_adapter st) ExchangeAddress 0) in
  read_book st = fst sample_engine /\ read_book (base (Finalise sdb true)) = [].
Proof. vm_compute. done. Qed.
