(* ===== verification/Chain.v ===== *)
(** * The chain: block store, fork choice, finality

    Models chain/chain.go and chain/genesis.go.  The state behind a chain is the
    trie-backed one ([state.New]).  The order in which Go ranges over a genesis
    allocation is [map_to_list]'s.

    Loops that follow [PrevHash] links take fuel, one more than the number of known
    blocks; [ErrFuel] is shown unreachable for every chain the operations build. *)

From S2P Require Import Prelude Sha256 Core Pow FeeMarket StateDB Mpt Pos StackVM Exchange.
From S2P Require Import Adapter Transition.

Definition DefaultChainID : Z := 1337.
Definition DefaultGasLimit : Z := 8000000.

Record Chain := mkChain {
  c_blocks : gmap Hash Block;
  c_td : gmap Hash Z;
  c_genesisHash : Hash;
  c_genesisAlloc : gmap Address Z;
  c_genesisBaseAlloc : gmap Address Z;
  c_head : Hash;
  c_headState : mptStateDB;
  c_heightIndex : gmap Z Hash;
  c_chainID : Z;
  c_gasLimit : Z;
  c_exchangeMode : ob_mode;
  c_consensusMode : Mode;
  c_validatorSet : option ValidatorSet;
  c_attestedRound : gmap Z (gmap Address Hash);
  c_checkpointStake : gmap Hash Z;
  c_finalizedHash : Hash;
  c_finalizedHeight : Z;
  c_jailed : gmap Address bool;
  c_proposedAtHeight : gmap Hash (gmap Address Hash);
}.

(** groups of fields that are assigned together *)
Definition with_block (c : Chain) (hash : Hash) (b : Block) (td : Z) : Chain :=
  mkChain (<[hash := b]> (c_blocks c)) (<[hash := td]> (c_td c)) (c_genesisHash c)
    (c_genesisAlloc c) (c_genesisBaseAlloc c) (c_head c) (c_headState c) (c_heightIndex c)
    (c_chainID c) (c_gasLimit c) (c_exchangeMode c) (c_consensusMode c) (c_validatorSet c)
    (c_attestedRound c) (c_checkpointStake c) (c_finalizedHash c) (c_finalizedHeight c)
    (c_jailed c) (c_proposedAtHeight c).
Definition with_head (c : Chain) (head : Hash) (st : mptStateDB) (index : gmap Z Hash) : Chain :=
  mkChain (c_blocks c) (c_td c) (c_genesisHash c) (c_genesisAlloc c) (c_genesisBaseAlloc c)
    head st index (c_chainID c) (c_gasLimit c) (c_exchangeMode c) (c_consensusMode c)
    (c_validatorSet c) (c_attestedRound c) (c_checkpointStake c) (c_finalizedHash c)
    (c_finalizedHeight c) (c_jailed c) (c_proposedAtHeight c).
Definition with_config (c : Chain) (chainID gasLimit : Z) (xm : ob_mode) (cm : Mode)
    (vs : option ValidatorSet) : Chain :=
  mkChain (c_blocks c) (c_td c) (c_genesisHash c) (c_genesisAlloc c) (c_genesisBaseAlloc c)
    (c_head c) (c_headState c) (c_heightIndex c) chainID gasLimit xm cm vs
    (c_attestedRound c) (c_checkpointStake c) (c_finalizedHash c) (c_finalizedHeight c)
    (c_jailed c) (c_proposedAtHeight c).
Definition with_votes (c : Chain) (rounds : gmap Z (gmap Address Hash)) (stake : gmap Hash Z)
    (finalizedHash : Hash) (finalizedHeight : Z) (jailed : gmap Address bool) : Chain :=
  mkChain (c_blocks c) (c_td c) (c_genesisHash c) (c_genesisAlloc c) (c_genesisBaseAlloc c)
    (c_head c) (c_headState c) (c_heightIndex c) (c_chainID c) (c_gasLimit c) (c_exchangeMode c)
    (c_consensusMode c) (c_validatorSet c) rounds stake finalizedHash finalizedHeight jailed
    (c_proposedAtHeight c).
Definition with_proposals (c : Chain) (jailed : gmap Address bool)
    (proposed : gmap Hash (gmap Address Hash)) : Chain :=
  mkChain (c_blocks c) (c_td c) (c_genesisHash c) (c_genesisAlloc c) (c_genesisBaseAlloc c)
    (c_head c) (c_headState c) (c_heightIndex c) (c_chainID c) (c_gasLimit c) (c_exchangeMode c)
    (c_consensusMode c) (c_validatorSet c) (c_attestedRound c) (c_checkpointStake c)
    (c_finalizedHash c) (c_finalizedHeight c) jailed proposed.

(** ** Configuration and accessors *)

Definition SetExchangeMode (c : Chain) (m : ob_mode) : Chain :=
  with_config c (c_chainID c) (c_gasLimit c) m (c_consensusMode c) (c_validatorSet c).
Definition ExchangeMode (c : Chain) : ob_mode := c_exchangeMode c.

Definition SetConsensusMode (c : Chain) (mode : Mode) (vs : option ValidatorSet)
    : Chain * result unit :=
  if bool_decide (mode = PoS) && match vs with None => true | Some vs => (Len vs =? 0)%nat end
  then (c, Err ErrPoSRequiresValidators)
  else (with_config c (c_chainID c) (c_gasLimit c) (c_exchangeMode c) mode vs, Ok tt).
Definition ConsensusMode (c : Chain) : Mode := c_consensusMode c.

Definition SetChainID (c : Chain) (id : Z) : Chain :=
  with_config c id (c_gasLimit c) (c_exchangeMode c) (c_consensusMode c) (c_validatorSet c).
Definition ChainID (c : Chain) : Z := c_chainID c.

Definition SetGasLimit (c : Chain) (limit : Z) : Chain :=
  with_config c (c_chainID c) limit (c_exchangeMode c) (c_consensusMode c) (c_validatorSet c).
Definition GasLimit (c : Chain) : Z := c_gasLimit c.

Definition FinalizedHeight (c : Chain) : Z := c_finalizedHeight c.
Definition FinalizedHash (c : Chain) : Hash := c_finalizedHash c.
Definition Jailed (c : Chain) (a : Address) : bool := is_jailed (c_jailed c) a.

(** a nil validator set would panic; [SetConsensusMode] rules it out in PoS mode *)
Definition EffectiveValidatorSet (c : Chain) : list ValidatorInfo * Z :=
  match c_validatorSet c with
  | Some vs => EffectiveStake vs (c_jailed c)
  | None => ([], 0)
  end.

Definition validatorByAddress (c : Chain) (a : Address) : option ValidatorInfo :=
  vs ← c_validatorSet c; ByAddress vs a.

(** the zero value of [core.Block], which a Go map returns for an absent key *)
Definition zero_block : Block :=
  mkBlock (mkHeader 0 zero_hash zero_hash zero_hash zero_addr 0 0 0 0 0 []) [].

Definition block_at (c : Chain) (h : Hash) : Block := default zero_block (c_blocks c !! h).

Definition Head (c : Chain) : Block := block_at c (c_head c).
Definition GetByHash (c : Chain) (h : Hash) : option Block := c_blocks c !! h.
Definition GetByHeight (c : Chain) (height : Z) : option Block :=
  match c_heightIndex c !! height with
  | None => None
  | Some h => c_blocks c !! h
  end.
Definition State (c : Chain) : mptStateDB := c_headState c.
Definition TotalDifficulty (c : Chain) (h : Hash) : Z := default 0 (c_td c !! h).

Definition NextBaseFee (c : Chain) : Z :=
  let head := block_at c (c_head c) in
  ComputeBaseFee (h_BaseFee (b_Header head)) (h_GasUsed (b_Header head)) (GasTarget (c_gasLimit c)).

(** the loop of [assertChainID] *)
Fixpoint assert_ids (id : Z) (txs : list Transaction) : result unit :=
  match txs with
  | [] => Ok tt
  | tx :: rest => if negb (tx_ChainID tx =? id) then Err ErrBadChainID else assert_ids id rest
  end.
Definition assertChainID (c : Chain) (txs : list Transaction) : result unit :=
  assert_ids (c_chainID c) txs.

(** ** Genesis (genesis.go) *)

Record Genesis := mkGenesis {
  g_Alloc : gmap Address Z;
  g_BaseAlloc : gmap Address Z;
  g_Difficulty : Z;
  g_Timestamp : Z;
  g_InitialBaseFee : Z;
}.

(** the two loops over the allocations *)
Definition fund (st : mptStateDB) (alloc baseAlloc : gmap Address Z) : mptStateDB :=
  let st := foldl (fun st p =>
      let acct := GetAccount st (fst p) in
      SetAccount st (fst p) (set_balance acct (u64 (Balance acct + snd p))))
    st (map_to_list alloc) in
  foldl (fun st p => CreditBase st (fst p) (snd p)) st (map_to_list baseAlloc).

Definition ApplyGenesis (st : mptStateDB) (g : Genesis) : mptStateDB * Block :=
  let st := fund st (g_Alloc g) (g_BaseAlloc g) in
  let h := mkHeader 0 zero_hash zero_hash (StateRoot st) zero_addr (g_Timestamp g) (g_Difficulty g)
             0 (g_InitialBaseFee g) 0 [] in
  let b := mkBlock h [] in
  let h := mkHeader 0 zero_hash (TxRoot b) (StateRoot st) zero_addr (g_Timestamp g)
             (g_Difficulty g) 0 (g_InitialBaseFee g) 0 [] in
  (st, mkBlock h []).

Definition ToBlock (g : Genesis) : Block := snd (ApplyGenesis New g).

Definition fundGenesis (c : Chain) : mptStateDB :=
  fund New (c_genesisAlloc c) (c_genesisBaseAlloc c).

(** ** Ancestry *)

(** the blocks from [h] back to genesis, newest first *)
Fixpoint chain_back (fuel : nat) (blocks : gmap Hash Block) (genesis h : Hash)
    : result (list Block) :=
  match fuel with
  | O => Err ErrFuel
  | S fuel' =>
      match blocks !! h with
      | None => Err ErrUnknownParent
      | Some b =>
          if bool_decide (h = genesis) then Ok [b]
          else rest ← chain_back fuel' blocks genesis (h_PrevHash (b_Header b)); Ok (b :: rest)
      end
  end.

Definition link_fuel (c : Chain) : nat := S (size (c_blocks c)).

Definition chainTo (c : Chain) (hash : Hash) : result (list Block) :=
  rev_ ← chain_back (link_fuel c) (c_blocks c) (c_genesisHash c) hash; Ok (reverse rev_).

(** the height index of a path *)
Definition index_of (path : list Block) : gmap Z Hash :=
  foldl (fun idx b => <[h_Height (b_Header b) := block_Hash b]> idx) ∅ path.

Definition rebuildIndex (c : Chain) : gmap Z Hash :=
  match chainTo c (c_head c) with
  | Ok path => index_of path
  | Err _ => ∅
  end.

Definition NewChainWithAlloc (genesis : Block) (alloc baseAlloc : gmap Address Z) : Chain :=
  let gh := block_Hash genesis in
  let c := mkChain {[gh := genesis]} {[gh := h_Difficulty (b_Header genesis)]} gh alloc baseAlloc
             gh New ∅ DefaultChainID DefaultGasLimit Continuous PoW None ∅ ∅ zero_hash 0 ∅ ∅ in
  let c := with_head c gh (fundGenesis c) ∅ in
  with_head c gh (c_headState c) (rebuildIndex c).

Definition NewChain (genesis : Block) (alloc : gmap Address Z) : Chain :=
  NewChainWithAlloc genesis alloc ∅.

Section Chain.
Context `{HE : Engine} `{HG : GethEVM} `{HB : Blst}.

(** ** Replay *)

(** the loop of [deriveState] *)
Fixpoint replay (st : mptStateDB) (path : list Block) (verifySig : verifier) (mode : ob_mode)
    : result mptStateDB :=
  match path with
  | [] => Ok st
  | b :: rest =>
      match applyBlockRewarded st b verifySig mode (h_BaseFee (b_Header b)) with
      | (_, Err e) => Err e
      | (st, Ok _) => replay st rest verifySig mode
      end
  end.

Definition deriveState (c : Chain) (hash : Hash) (verifySig : verifier) : result mptStateDB :=
  path ← chainTo c hash;
  replay (fundGenesis c) (drop 1 path) verifySig (c_exchangeMode c).

Definition CandidateStateRoot (c : Chain) (txs : list Transaction) (coinbase : Address)
    (verifySig : verifier) : result (Hash * Z) :=
  st ← deriveState c (c_head c) verifySig;
  _ ← assertChainID c txs;
  let height := u64 (h_Height (b_Header (block_at c (c_head c))) + 1) in
  let baseFee := NextBaseFee c in
  match applyTxsAt st txs verifySig height (c_exchangeMode c) baseFee with
  | (_, Err e) => Err e
  | (st, Ok (gasUsed, tip)) => Ok (StateRoot (reward st coinbase tip), gasUsed)
  end.

(** ** Finality *)

Fixpoint finality_walk (fuel : nat) (c : Chain) (h : Hash) : result unit :=
  match fuel with
  | O => Err ErrFuel
  | S fuel' =>
      match c_blocks c !! h with
      | None => Err ErrUnknownParent
      | Some blk =>
          let height := h_Height (b_Header blk) in
          if height =? c_finalizedHeight c then
            if bool_decide (h = c_finalizedHash c) then Ok tt else Err ErrConflictsWithFinalized
          else if height <? c_finalizedHeight c then Err ErrConflictsWithFinalized
          else finality_walk fuel' c (h_PrevHash (b_Header blk))
      end
  end.

Definition respectsFinality (c : Chain) (b : Block) : result unit :=
  if negb (bool_decide (c_consensusMode c = PoS)) || IsZero (c_finalizedHash c) then Ok tt
  else finality_walk (link_fuel c) c (h_PrevHash (b_Header b)).

(** the body of [verifyAttestations]'s loop *)
Definition verify_attestation (c : Chain) (height : Z) (tx : Transaction) : result unit :=
  if negb (IsAttestationTx tx) then Ok tt
  else
    match DecodeAttest (tx_Data tx) with
    | Err _ => Err ErrBadAttestation
    | Ok (targetHeight, targetHash, sig) =>
        if negb (targetHeight mod CheckpointInterval =? 0) then Err ErrBadAttestation
        else if height <=? targetHeight then Err ErrBadAttestation
        else
          match validatorByAddress c (tx_From tx) with
          | None => Err ErrBadAttestation
          | Some validator =>
              if Verify (v_BLSPubKey validator) targetHash sig (DST (c_chainID c)) then Ok tt
              else Err ErrBadAttestation
          end
    end.

Fixpoint verify_attestations (c : Chain) (height : Z) (txs : list Transaction) : result unit :=
  match txs with
  | [] => Ok tt
  | tx :: rest => _ ← verify_attestation c height tx; verify_attestations c height rest
  end.

Definition verifyAttestations (c : Chain) (b : Block) : result unit :=
  verify_attestations c (h_Height (b_Header b)) (b_Txs b).

Definition jail (c : Chain) (a : Address) : gmap Address bool := <[a := true]> (c_jailed c).

(** the body of [recordAttestations]'s loop *)
Definition record_attestation (c : Chain) (tx : Transaction) : Chain :=
  if negb (IsAttestationTx tx) then c
  else
    match DecodeAttest (tx_Data tx) with
    | Err _ => c
    | Ok (targetHeight, targetHash, _) =>
        match validatorByAddress c (tx_From tx) with
        | None => c
        | Some validator =>
            let round := CheckpointRound targetHeight in
            let rounds :=
              match c_attestedRound c !! round with
              | None => <[round := ∅]> (c_attestedRound c)
              | Some _ => c_attestedRound c
              end in
            let votes := default ∅ (rounds !! round) in
            let c := with_votes c rounds (c_checkpointStake c) (c_finalizedHash c)
                       (c_finalizedHeight c) (c_jailed c) in
            match votes !! tx_From tx with
            | Some existing =>
                if bool_decide (existing = targetHash) then c
                else with_votes c rounds (c_checkpointStake c) (c_finalizedHash c)
                       (c_finalizedHeight c) (jail c (tx_From tx))
            | None =>
                if is_jailed (c_jailed c) (tx_From tx) then c
                else
                  let rounds := <[round := <[tx_From tx := targetHash]> votes]> rounds in
                  let tally := u64 (default 0 (c_checkpointStake c !! targetHash)
                                    + v_Stake validator) in
                  let stake := <[targetHash := tally]> (c_checkpointStake c) in
                  let effectiveTotal := snd (EffectiveValidatorSet c) in
                  if (c_finalizedHeight c <? targetHeight) &&
                     (u64 (effectiveTotal * 2) <=? u64 (tally * 3))
                  then with_votes c rounds stake targetHash targetHeight (c_jailed c)
                  else with_votes c rounds stake (c_finalizedHash c) (c_finalizedHeight c)
                         (c_jailed c)
            end
        end
    end.

Definition recordAttestations (c : Chain) (b : Block) : Chain :=
  foldl record_attestation c (b_Txs b).

Definition detectEquivocation (c : Chain) (b : Block) (hash : Hash) : Chain :=
  let prev := h_PrevHash (b_Header b) in
  let coinbase := h_Coinbase (b_Header b) in
  let proposed :=
    match c_proposedAtHeight c !! prev with
    | None => <[prev := ∅]> (c_proposedAtHeight c)
    | Some _ => c_proposedAtHeight c
    end in
  let slot := default ∅ (proposed !! prev) in
  match slot !! coinbase with
  | Some existing =>
      with_proposals c (if bool_decide (existing = hash) then c_jailed c else jail c coinbase)
        proposed
  | None => with_proposals c (c_jailed c) (<[prev := <[coinbase := hash]> slot]> proposed)
  end.

(** ** AddBlock *)

(** the proposer, signature and attestation checks, or the proof of work: the
    block's weight *)
Definition check_consensus (c : Chain) (b : Block) (hash : Hash) : result Z :=
  let h := b_Header b in
  if bool_decide (c_consensusMode c = PoS) then
    let '(active, total) := EffectiveValidatorSet c in
    selected ← SelectProposer active total (ProposerSeed (h_PrevHash h) (h_Height h));
    if negb (bool_decide (h_Coinbase h = v_Address selected)) then Err ErrWrongProposer
    else if negb (Verify (v_BLSPubKey selected) (header_SigningHash h) (h_ProposerSig h)
                    (DST (c_chainID c))) then Err ErrBadProposerSig
    else _ ← verifyAttestations c b; Ok 1
  else if negb (MeetsTarget hash (h_Difficulty h)) then Err ErrBadPoW
  else Ok (h_Difficulty h).

(** all the checks of [AddBlock]: the weight and the re-derived state *)
Definition validate_block (c : Chain) (b : Block) (verifySig : verifier) : result (Z * mptStateDB) :=
  let hash := block_Hash b in
  let h := b_Header b in
  match c_blocks c !! hash with
  | Some _ => Err ErrDuplicateBlock
  | None =>
    match c_blocks c !! h_PrevHash h with
    | None => Err ErrUnknownParent
    | Some parent =>
      let ph := b_Header parent in
      if negb (h_Height h =? u64 (h_Height ph + 1)) then Err ErrBadHeight
      else if negb (h_BaseFee h =?
          ComputeBaseFee (h_BaseFee ph) (h_GasUsed ph) (GasTarget (c_gasLimit c)))
      then Err ErrBadBaseFee
      else
        _ ← respectsFinality c b;
        weight ← check_consensus c b hash;
        if negb (bool_decide (TxRoot b = h_MerkleRoot h)) then Err ErrBadTxRoot
        else
          _ ← assertChainID c (b_Txs b);
          st ← deriveState c (h_PrevHash h) verifySig;
          match applyBlockRewarded st b verifySig (c_exchangeMode c) (h_BaseFee h) with
          | (_, Err e) => Err e
          | (st, Ok gasUsed) =>
              if negb (gasUsed =? h_GasUsed h) then Err ErrBadGasUsed
              else if c_gasLimit c <? gasUsed then Err ErrBlockGasLimitExceeded
              else if negb (bool_decide (StateRoot st = h_StateRoot h)) then Err ErrBadStateRoot
              else Ok (weight, st)
          end
    end
  end.

Definition AddBlock (c : Chain) (b : Block) (verifySig : verifier) : Chain * result unit :=
  match validate_block c b verifySig with
  | Err e => (c, Err e)
  | Ok (weight, st) =>
      let hash := block_Hash b in
      let c := with_block c hash b
                 (u64 (TotalDifficulty c (h_PrevHash (b_Header b)) + weight)) in
      let c := if bool_decide (c_consensusMode c = PoS)
               then detectEquivocation (recordAttestations c b) b hash else c in
      let c := if TotalDifficulty c (c_head c) <? TotalDifficulty c hash
               then let c := with_head c hash st (c_heightIndex c) in
                    with_head c hash st (rebuildIndex c)
               else c in
      (c, Ok tt)
  end.
End Chain.
