(* ===== verification/ChainProps.v ===== *)
(** * Chains: ancestry, the invariant, and what [AddBlock] preserves *)

From S2P Require Import Prelude Sha256 Core Pow FeeMarket StateDB Mpt Pos StackVM Exchange.
From S2P Require Import Adapter Transition Chain.

Lemma Ok_inj {A} (x y : A) : Ok x = Ok y -> x = y.
Proof. by intros [= ->]. Qed.

(** ** Paths to genesis *)

(** [path] leads from genesis to [h], oldest first *)
Inductive reaches (blocks : gmap Hash Block) (genesis : Hash) : Hash -> list Block -> Prop :=
| reaches_genesis b : blocks !! genesis = Some b -> reaches blocks genesis genesis [b]
| reaches_step h b path :
    h <> genesis -> blocks !! h = Some b ->
    reaches blocks genesis (h_PrevHash (b_Header b)) path ->
    reaches blocks genesis h (path ++ [b]).

Lemma reaches_nonempty blocks g h path : reaches blocks g h path -> path <> [].
Proof. destruct 1; [done|]. by destruct path. Qed.

Lemma reaches_insert blocks g k b h path :
  blocks !! k = None -> reaches blocks g h path -> reaches (<[k := b]> blocks) g h path.
Proof.
  intros Hk. induction 1 as [b' Hb|h b' path Hne Hb _ IH].
  - apply reaches_genesis. rewrite lookup_insert_ne by congruence. done.
  - apply reaches_step; [done| |done]. rewrite lookup_insert_ne by congruence. done.
Qed.

Lemma chain_back_reaches blocks g h path fuel :
  reaches blocks g h path -> (length path <= fuel)%nat ->
  chain_back fuel blocks g h = Ok (reverse path).
Proof.
  intros R. revert fuel. induction R as [b Hb|h b path Hne Hb _ IH]; intros fuel Hf.
  - destruct fuel as [|fuel]; simpl in Hf; [lia|]. simpl. by rewrite Hb, bool_decide_eq_true_2.
  - rewrite length_app in Hf. simpl in Hf. destruct fuel as [|fuel]; [lia|]. simpl.
    rewrite Hb, bool_decide_eq_false_2 by done. rewrite IH by lia. simpl.
    by rewrite reverse_snoc.
Qed.

(** ** Fields that attestations and equivocation evidence leave alone *)

Record same_ledger (c c' : Chain) : Prop := {
  sl_blocks : c_blocks c' = c_blocks c;
  sl_td : c_td c' = c_td c;
  sl_genesis : c_genesisHash c' = c_genesisHash c;
  sl_alloc : c_genesisAlloc c' = c_genesisAlloc c;
  sl_base : c_genesisBaseAlloc c' = c_genesisBaseAlloc c;
  sl_head : c_head c' = c_head c;
  sl_state : c_headState c' = c_headState c;
  sl_index : c_heightIndex c' = c_heightIndex c;
  sl_id : c_chainID c' = c_chainID c;
  sl_gas : c_gasLimit c' = c_gasLimit c;
  sl_xmode : c_exchangeMode c' = c_exchangeMode c;
  sl_cmode : c_consensusMode c' = c_consensusMode c;
  sl_vset : c_validatorSet c' = c_validatorSet c;
}.

Lemma same_ledger_refl c : same_ledger c c.
Proof. by split. Qed.

Lemma same_ledger_trans c1 c2 c3 : same_ledger c1 c2 -> same_ledger c2 c3 -> same_ledger c1 c3.
Proof. intros [] []. split; congruence. Qed.

Lemma record_attestation_ledger c tx : same_ledger c (record_attestation c tx).
Proof. unfold record_attestation. repeat case_match; by split. Qed.

Lemma recordAttestations_ledger c b : same_ledger c (recordAttestations c b).
Proof.
  unfold recordAttestations. generalize (b_Txs b). intros txs. revert c.
  induction txs as [|tx txs IH]; intros c; [apply same_ledger_refl|]. simpl.
  eapply same_ledger_trans; [apply record_attestation_ledger|apply IH].
Qed.

Lemma detectEquivocation_ledger c b hash : same_ledger c (detectEquivocation c b hash).
Proof. unfold detectEquivocation. repeat case_match; by split. Qed.

Lemma with_votes_ledger c rounds stake h n jailed :
  same_ledger c (with_votes c rounds stake h n jailed).
Proof. by split. Qed.

Lemma chainTo_with_head c head st idx h : chainTo (with_head c head st idx) h = chainTo c h.
Proof. done. Qed.

Lemma rebuildIndex_path c path : chainTo c (c_head c) = Ok path -> rebuildIndex c = index_of path.
Proof. intros E. unfold rebuildIndex. by rewrite E. Qed.

Section ChainProps.
Context `{HE : Engine} `{HG : GethEVM} `{HB : Blst}.

(** the chain after the evidence of a new block is recorded *)
Definition note_evidence (c : Chain) (b : Block) : Chain :=
  if bool_decide (c_consensusMode c = PoS)
  then detectEquivocation (recordAttestations c b) b (block_Hash b) else c.

Lemma note_evidence_ledger c b : same_ledger c (note_evidence c b).
Proof.
  unfold note_evidence. case_bool_decide; [|apply same_ledger_refl].
  eapply same_ledger_trans; [apply recordAttestations_ledger|apply detectEquivocation_ledger].
Qed.

(** ** Replay *)

Lemma replay_app st p q v mode :
  replay st (p ++ q) v mode = st' ← replay st p v mode; replay st' q v mode.
Proof.
  revert st. induction p as [|b p IH]; intros st; [done|]. simpl.
  destruct (applyBlockRewarded _ _ _ _ _) as [st' [g|e]]; [apply IH|done].
Qed.

(** the state at the end of a path *)
Definition replay_path (c : Chain) (path : list Block) (v : verifier) : result mptStateDB :=
  replay (fundGenesis c) (drop 1 path) v (c_exchangeMode c).

Definition path_fits (c : Chain) (h : Hash) (path : list Block) : Prop :=
  reaches (c_blocks c) (c_genesisHash c) h path /\ (length path <= size (c_blocks c))%nat.

Lemma chainTo_path c h path : path_fits c h path -> chainTo c h = Ok path.
Proof.
  intros [R Hl]. unfold chainTo, link_fuel.
  rewrite (chain_back_reaches _ _ _ _ _ R) by lia. simpl. by rewrite reverse_involutive.
Qed.

Lemma deriveState_path c h path v : path_fits c h path -> deriveState c h v = replay_path c path v.
Proof. intros P. unfold deriveState. by rewrite (chainTo_path _ _ _ P). Qed.

Lemma path_fits_with_block c hash b t h path :
  c_blocks c !! hash = None -> path_fits c h path -> path_fits (with_block c hash b t) h path.
Proof.
  intros Hn [R Hl]. split; simpl; [by apply reaches_insert|].
  rewrite map_size_insert_None by done. lia.
Qed.

Lemma path_fits_new c b t path :
  c_blocks c !! block_Hash b = None -> block_Hash b <> c_genesisHash c ->
  path_fits c (h_PrevHash (b_Header b)) path ->
  path_fits (with_block c (block_Hash b) b t) (block_Hash b) (path ++ [b]).
Proof.
  intros Hn Hg P. pose proof (path_fits_with_block c (block_Hash b) b t _ _ Hn P) as [R Hl].
  split; simpl in *; [apply reaches_step; [done|by rewrite lookup_insert, decide_True|done]|].
  rewrite map_size_insert_None in * by done. rewrite length_app. simpl. destruct P. lia.
Qed.

Lemma replay_path_snoc c path b v :
  path <> [] -> replay_path c (path ++ [b]) v =
  st ← replay_path c path v;
  match applyBlockRewarded st b v (c_exchangeMode c) (h_BaseFee (b_Header b)) with
  | (_, Err e) => Err e
  | (st', Ok _) => Ok st'
  end.
Proof.
  intros Hp. unfold replay_path. destruct path as [|x path]; [done|]. simpl drop.
  rewrite !drop_0, replay_app. destruct (replay _ path v _); [|done]. simpl.
  by destruct (applyBlockRewarded _ _ _ _ _) as [? []].
Qed.

(** ** What an accepted block satisfies *)

Record accepted (c : Chain) (b : Block) (v : verifier) (weight : Z) (st : mptStateDB) : Prop := {
  ac_fresh : c_blocks c !! block_Hash b = None;
  ac_parent : exists parent, c_blocks c !! h_PrevHash (b_Header b) = Some parent /\
    h_Height (b_Header b) = u64 (h_Height (b_Header parent) + 1) /\
    h_BaseFee (b_Header b) = ComputeBaseFee (h_BaseFee (b_Header parent))
      (h_GasUsed (b_Header parent)) (GasTarget (c_gasLimit c));
  ac_finality : respectsFinality c b = Ok tt;
  ac_consensus : check_consensus c b (block_Hash b) = Ok weight;
  ac_txroot : TxRoot b = h_MerkleRoot (b_Header b);
  ac_ids : assertChainID c (b_Txs b) = Ok tt;
  ac_state : exists pst, deriveState c (h_PrevHash (b_Header b)) v = Ok pst /\
    applyBlockRewarded pst b v (c_exchangeMode c) (h_BaseFee (b_Header b))
      = (st, Ok (h_GasUsed (b_Header b)));
  ac_gas : h_GasUsed (b_Header b) <= c_gasLimit c;
  ac_root : StateRoot st = h_StateRoot (b_Header b);
}.

Lemma validate_block_iff c b v weight st :
  validate_block c b v = Ok (weight, st) <-> accepted c b v weight st.
Proof.
  unfold validate_block. split.
  - destruct (c_blocks c !! block_Hash b) eqn:Ef; [done|].
    destruct (c_blocks c !! h_PrevHash (b_Header b)) as [parent|] eqn:Ep; [|done].
    destruct (Z.eqb_spec (h_Height (b_Header b)) (u64 (h_Height (b_Header parent) + 1))); [|done].
    destruct (Z.eqb_spec (h_BaseFee (b_Header b)) (ComputeBaseFee (h_BaseFee (b_Header parent))
      (h_GasUsed (b_Header parent)) (GasTarget (c_gasLimit c)))); [|done]. simpl.
    destruct (respectsFinality c b) as [[]|] eqn:Er; [|done]. simpl.
    destruct (check_consensus c b (block_Hash b)) as [w|] eqn:Ec; [|done]. simpl.
    case_bool_decide as Et; [|done]. simpl.
    destruct (assertChainID c (b_Txs b)) as [[]|] eqn:Ei; [|done]. simpl.
    destruct (deriveState _ _ _) as [pst|] eqn:Ed; [|done]. simpl.
    destruct (applyBlockRewarded _ _ _ _ _) as [st' [g|]] eqn:Ea; [|done].
    destruct (Z.eqb_spec g (h_GasUsed (b_Header b))); [|done]. simpl.
    destruct (Z.ltb_spec (c_gasLimit c) g); [done|].
    case_bool_decide; [|done]. intros [= <- <-]. subst g. split; try done; by eexists.
  - intros [Hf (parent & Hp & Hh & Hb) Hfin Hc Ht Hi (pst & Hd & Ha) Hg Hr].
    rewrite Hf, Hp, <- Hh, Z.eqb_refl, <- Hb, Z.eqb_refl, Hfin, Hc, bool_decide_eq_true_2 by done.
    simpl. rewrite Hi. simpl. rewrite Hd. simpl. rewrite Ha, Z.eqb_refl. simpl.
    destruct (Z.ltb_spec (c_gasLimit c) (h_GasUsed (b_Header b))); [lia|].
    by rewrite bool_decide_eq_true_2.
Qed.

(** ** The invariant *)

(** the stored blocks *)
Record ledger_inv (v : verifier) (c : Chain) : Prop := {
  li_genesis : is_Some (c_blocks c !! c_genesisHash c);
  li_hash : forall h b, c_blocks c !! h = Some b -> block_Hash b = h;
  li_path : forall h b, c_blocks c !! h = Some b -> exists path, path_fits c h path;
  li_link : forall h b, c_blocks c !! h = Some b -> h <> c_genesisHash c ->
    exists parent, c_blocks c !! h_PrevHash (b_Header b) = Some parent /\
      h_Height (b_Header b) = u64 (h_Height (b_Header parent) + 1);
  li_root : forall h b, c_blocks c !! h = Some b -> h <> c_genesisHash c ->
    exists st, deriveState c h v = Ok st /\ StateRoot st = h_StateRoot (b_Header b);
  li_td : forall h, is_Some (c_blocks c !! h) <-> is_Some (c_td c !! h);
}.

(** the canonical branch *)
Record chain_inv (v : verifier) (c : Chain) : Prop := {
  ci_ledger : ledger_inv v c;
  ci_head : is_Some (c_blocks c !! c_head c);
  ci_heaviest : forall h, is_Some (c_blocks c !! h) -> TotalDifficulty c h <= TotalDifficulty c (c_head c);
  ci_state : deriveState c (c_head c) v = Ok (c_headState c);
  ci_index : exists path, chainTo c (c_head c) = Ok path /\ c_heightIndex c = index_of path;
}.

Ltac ledger_unfold :=
  unfold path_fits, deriveState, chainTo, link_fuel, fundGenesis, TotalDifficulty in *.

(** everything the invariant speaks of is in the ledger *)
Lemma chain_inv_ledger v c c' : same_ledger c c' -> chain_inv v c -> chain_inv v c'.
Proof.
  intros [B T G A1 A2 H St I Id Ga X C V] [[Hg Hh Hp Hl Hr Ht] Hd Hm Hs Hi].
  split; [split|..]; ledger_unfold; rewrite ?B, ?T, ?G, ?A1, ?A2, ?H, ?St, ?I, ?X; assumption.
Qed.

Lemma with_block_old v c b t h x :
  ledger_inv v c -> c_blocks c !! block_Hash b = None -> c_blocks c !! h = Some x ->
  let c1 := with_block c (block_Hash b) b t in
  chainTo c1 h = chainTo c h /\ deriveState c1 h v = deriveState c h v.
Proof.
  intros L Hn Hx c1. destruct (li_path _ _ L _ _ Hx) as [path P].
  pose proof (path_fits_with_block c (block_Hash b) b t h path Hn P) as P1. fold c1 in P1.
  rewrite (chainTo_path _ _ _ P), (chainTo_path _ _ _ P1).
  by rewrite (deriveState_path _ _ _ _ P), (deriveState_path _ _ _ _ P1).
Qed.

Lemma with_block_new v c b t w st :
  ledger_inv v c -> accepted c b v w st ->
  let c1 := with_block c (block_Hash b) b t in
  (exists path, path_fits c1 (block_Hash b) path) /\ deriveState c1 (block_Hash b) v = Ok st.
Proof.
  intros L A c1. destruct (ac_parent _ _ _ _ _ A) as (parent & Hp & _).
  destruct (li_path _ _ L _ _ Hp) as [path P]. destruct (li_genesis _ _ L) as [g Hg].
  pose proof (ac_fresh _ _ _ _ _ A) as Hn.
  assert (Hne : block_Hash b <> c_genesisHash c) by congruence.
  pose proof (path_fits_new c b t path Hn Hne P) as P1. fold c1 in P1.
  split; [by eexists|]. destruct (ac_state _ _ _ _ _ A) as (pst & Hd & Ha).
  rewrite (deriveState_path _ _ _ _ P) in Hd.
  rewrite (deriveState_path _ _ _ _ P1), replay_path_snoc
    by (by eapply reaches_nonempty; apply P).
  change (replay_path c1 path v) with (replay_path c path v). rewrite Hd. simpl. by rewrite Ha.
Qed.

Lemma with_block_ledger v c b t w st :
  ledger_inv v c -> accepted c b v w st -> ledger_inv v (with_block c (block_Hash b) b t).
Proof.
  intros L A. pose proof (ac_fresh _ _ _ _ _ A) as Hn.
  destruct (li_genesis _ _ L) as [g Hg]. destruct (ac_parent _ _ _ _ _ A) as (parent & Hp & Hh & _).
  destruct (with_block_new v c b t w st L A) as [HP HD].
  split; simpl.
  - rewrite lookup_insert_ne by congruence. by eexists.
  - intros h x. rewrite lookup_insert. case_decide as E; [by intros [= <-]|apply (li_hash _ _ L)].
  - intros h x. rewrite lookup_insert. case_decide as E; [by subst h|].
    intros Hx. destruct (li_path _ _ L _ _ Hx) as [path P]. exists path. by apply path_fits_with_block.
  - intros h x. rewrite lookup_insert. case_decide as E.
    + intros [= <-] _. exists parent. rewrite lookup_insert_ne by congruence. done.
    + intros Hx Hne. destruct (li_link _ _ L _ _ Hx Hne) as (p & Hp' & Hh'). exists p.
      rewrite lookup_insert_ne by congruence. done.
  - intros h x. rewrite lookup_insert. case_decide as E.
    + intros [= <-] _. subst h. exists st. split; [done|]. apply (ac_root _ _ _ _ _ A).
    + intros Hx Hne. rewrite (proj2 (with_block_old v c b t h x L Hn Hx)). by apply (li_root _ _ L).
  - intros h. rewrite !lookup_insert. case_decide; [by split|apply (li_td _ _ L)].
Qed.

Lemma TotalDifficulty_with_block c hash b t h :
  TotalDifficulty (with_block c hash b t) h = if decide (h = hash) then t else TotalDifficulty c h.
Proof.
  unfold TotalDifficulty. simpl. rewrite lookup_insert.
  destruct (decide (hash = h)) as [->|]; [by rewrite decide_True|by rewrite decide_False by congruence].
Qed.

(** fork choice after the block is stored *)
Definition choose_head (c : Chain) (hash : Hash) (st : mptStateDB) : Chain :=
  if TotalDifficulty c (c_head c) <? TotalDifficulty c hash
  then let c := with_head c hash st (c_heightIndex c) in with_head c hash st (rebuildIndex c)
  else c.

Lemma choose_head_inv v c b t w st :
  chain_inv v c -> accepted c b v w st ->
  chain_inv v (choose_head (with_block c (block_Hash b) b t) (block_Hash b) st).
Proof.
  intros [L [hb Hhd] Hm Hs (path & Hc & Hi)] A. set (c1 := with_block c (block_Hash b) b t).
  pose proof (with_block_ledger v c b t w st L A) as L1. fold c1 in L1.
  pose proof (ac_fresh _ _ _ _ _ A) as Hn.
  destruct (with_block_old v c b t (c_head c) hb L Hn Hhd) as [C1 D1]. fold c1 in C1, D1.
  destruct (with_block_new v c b t w st L A) as [[p1 P1] D2]. fold c1 in P1, D2.
  assert (T1 : forall h, TotalDifficulty c1 h = if decide (h = block_Hash b) then t else TotalDifficulty c h)
    by apply TotalDifficulty_with_block.
  assert (Hne : c_head c <> block_Hash b) by congruence.
  unfold choose_head. change (c_head c1) with (c_head c).
  destruct (Z.ltb_spec (TotalDifficulty c1 (c_head c)) (TotalDifficulty c1 (block_Hash b))) as [Hlt|Hge].
  - rewrite !T1, decide_False, decide_True in Hlt by done. split.
    + destruct L1. by split.
    + simpl. rewrite lookup_insert, decide_True by done. by eexists.
    + intros h. simpl. change (TotalDifficulty (with_head _ _ _ _) ?x) with (TotalDifficulty c1 x).
      rewrite !T1, (decide_True (P := block_Hash b = block_Hash b)), lookup_insert by done.
      destruct (decide (h = block_Hash b)) as [->|]; [done|]. rewrite decide_False by congruence.
      intros Hh. specialize (Hm h Hh). lia.
    + exact D2.
    + exists p1. split; [exact (chainTo_path _ _ _ P1)|]. 
      apply (rebuildIndex_path (with_head c1 (block_Hash b) st (c_heightIndex c1))).
      rewrite chainTo_with_head. exact (chainTo_path _ _ _ P1).
  - rewrite !T1, decide_True, decide_False in Hge by done. split; [done| | | |].
    + simpl. rewrite lookup_insert_ne by congruence. by eexists.
    + intros h. change (c_head c1) with (c_head c). rewrite !T1, (decide_False (P := c_head c = _)) by done.
      simpl. rewrite lookup_insert. destruct (decide (h = block_Hash b)) as [->|]; [done|].
      rewrite decide_False by congruence. apply Hm.
    + change (c_head c1) with (c_head c). by rewrite D1.
    + exists path. change (c_head c1) with (c_head c). by rewrite C1.
Qed.

(** the evidence can be recorded before or after the head is chosen *)
Lemma choose_head_ledger c c' hash st :
  same_ledger c c' -> same_ledger (choose_head c hash st) (choose_head c' hash st).
Proof.
  intros [B T G A1 A2 H St I Id Ga X C V]. unfold choose_head, TotalDifficulty. rewrite T, H.
  destruct (_ <? _); [|by split]. split; simpl; try done.
  unfold rebuildIndex, chainTo, link_fuel. simpl. by rewrite B, G.
Qed.

Lemma AddBlock_steps c b v w st :
  validate_block c b v = Ok (w, st) ->
  AddBlock c b v =
  (choose_head (note_evidence (with_block c (block_Hash b) b
      (u64 (TotalDifficulty c (h_PrevHash (b_Header b)) + w))) b) (block_Hash b) st, Ok tt).
Proof. intros E. unfold AddBlock. by rewrite E. Qed.

Lemma AddBlock_inv v c b : chain_inv v c -> chain_inv v (fst (AddBlock c b v)).
Proof.
  intros I. destruct (validate_block c b v) as [[w st]|e] eqn:E.
  - rewrite (AddBlock_steps _ _ _ _ _ E). simpl. apply validate_block_iff in E.
    eapply chain_inv_ledger; [apply choose_head_ledger, note_evidence_ledger|].
    by eapply choose_head_inv.
  - unfold AddBlock. by rewrite E.
Qed.

(** ** What never goes back *)

Definition vote_of (c : Chain) (round : Z) (a : Address) : option Hash :=
  votes ← c_attestedRound c !! round; votes !! a.

Record grows (c c' : Chain) : Prop := {
  gr_finalized : c_finalizedHeight c <= c_finalizedHeight c';
  gr_same_height : c_finalizedHeight c' = c_finalizedHeight c ->
    c_finalizedHash c' = c_finalizedHash c;
  gr_jailed : forall a, Jailed c a = true -> Jailed c' a = true;
  gr_votes : forall r a h, vote_of c r a = Some h -> vote_of c' r a = Some h;
}.

Lemma grows_refl c : grows c c.
Proof. by split. Qed.

Lemma grows_trans c1 c2 c3 : grows c1 c2 -> grows c2 c3 -> grows c1 c3.
Proof.
  intros [F1 E1 J1 V1] [F2 E2 J2 V2]. split; auto with lia.
  intros E. rewrite E2 by lia. apply E1. lia.
Qed.

Lemma jail_grows jailed a b :
  is_jailed jailed b = true -> is_jailed (<[a := true]> jailed) b = true.
Proof. unfold is_jailed. rewrite lookup_insert. by case_decide. Qed.

(** opening a round adds no vote *)
Lemma open_round rounds (r r' : Z) (a : Address) :
  let rounds' := match rounds !! r with
                 | None => <[r := ∅]> rounds
                 | Some _ => rounds
                 end : gmap Z (gmap Address Hash) in
  (votes ← rounds' !! r'; votes !! a) = (votes ← rounds !! r'; votes !! a).
Proof.
  destruct (rounds !! r) as [m|] eqn:E; [done|]. simpl. rewrite lookup_insert.
  case_decide as Er; [|done]. subst. by rewrite E.
Qed.

Lemma record_attestation_grows c tx : grows c (record_attestation c tx).
Proof.
  unfold record_attestation. destruct (negb _); [apply grows_refl|].
  destruct (DecodeAttest _) as [[[th target] sig]|]; [|apply grows_refl].
  destruct (validatorByAddress _ _) as [validator|]; [|apply grows_refl].
  cbv zeta. set (r := CheckpointRound th).
  pose proof (open_round (c_attestedRound c) r) as O. cbv zeta in O.
  set (rounds := match c_attestedRound c !! r with None => _ | Some _ => _ end) in *.
  set (votes := default ∅ (rounds !! r)).
  destruct (votes !! tx_From tx) as [existing|] eqn:Ev.
  { case_bool_decide; (split; simpl; [lia|done| |]).
    - done.
    - intros r' a h. unfold vote_of. simpl. by rewrite O.
    - intros a. apply jail_grows.
    - intros r' a h. unfold vote_of. simpl. by rewrite O. }
  simpl. destruct (is_jailed _ _).
  { split; simpl; [lia|done|done|]. intros r' a h. unfold vote_of. simpl. by rewrite O. }
  set (rounds2 := <[r := _]> rounds).
  assert (V : forall r' a h, vote_of c r' a = Some h -> (votes ← rounds2 !! r'; votes !! a) = Some h).
  { intros r' a h. unfold vote_of. rewrite <- O. unfold rounds2. rewrite lookup_insert.
    case_decide as Er; [|done]. subst r'. simpl. unfold votes in *.
    destruct (rounds !! r) as [m|]; [|done]. simpl in *. rewrite lookup_insert.
    case_decide; [subst; congruence|done]. }
  destruct (Z.ltb_spec (c_finalizedHeight c) th); simpl; [destruct (_ <=? _)|];
    (split; simpl; [lia|lia || done|done|exact V]).
Qed.

Lemma detectEquivocation_grows c b hash : grows c (detectEquivocation c b hash).
Proof.
  unfold detectEquivocation. cbv zeta.
  destruct (default ∅ _ !! h_Coinbase (b_Header b)) as [existing|].
  - case_bool_decide; split; try done. intros a. apply jail_grows.
  - by split.
Qed.

Lemma note_evidence_grows c b : grows c (note_evidence c b).
Proof.
  unfold note_evidence. case_bool_decide; [|apply grows_refl].
  eapply grows_trans; [|apply detectEquivocation_grows].
  unfold recordAttestations. generalize (b_Txs b). intros txs. generalize c.
  induction txs as [|tx txs IH]; intros c'; [apply grows_refl|]. simpl.
  eapply grows_trans; [apply record_attestation_grows|apply IH].
Qed.

Lemma choose_head_grows c hash st : grows c (choose_head c hash st).
Proof. unfold choose_head. by destruct (_ <? _). Qed.

(** an accepted block: what is stored *)
Lemma AddBlock_ok c b v c' :
  AddBlock c b v = (c', Ok tt) ->
  exists w st, accepted c b v w st /\
    c_blocks c' = <[block_Hash b := b]> (c_blocks c) /\
    c_td c' = <[block_Hash b := u64 (TotalDifficulty c (h_PrevHash (b_Header b)) + w)]> (c_td c) /\
    c_genesisHash c' = c_genesisHash c /\ grows c c' /\
    (TotalDifficulty c (c_head c) < u64 (TotalDifficulty c (h_PrevHash (b_Header b)) + w) /\
       c_head c <> block_Hash b -> c_head c' = block_Hash b /\ c_headState c' = st).
Proof.
  intros E. destruct (validate_block c b v) as [[w st]|] eqn:Ev;
    [|unfold AddBlock in E; by rewrite Ev in E].
  rewrite (AddBlock_steps _ _ _ _ _ Ev) in E. apply (f_equal fst) in E. simpl in E. subst c'.
  apply validate_block_iff in Ev. exists w, st.
  set (t := u64 _). set (c1 := with_block c (block_Hash b) b t).
  pose proof (note_evidence_ledger c1 b) as L.
  pose proof (choose_head_ledger _ _ (block_Hash b) st L) as LL.
  assert (CB : c_blocks (choose_head c1 (block_Hash b) st) = c_blocks c1 /\
    c_td (choose_head c1 (block_Hash b) st) = c_td c1 /\
    c_genesisHash (choose_head c1 (block_Hash b) st) = c_genesisHash c1).
  { unfold choose_head. by destruct (_ <? _). }
  destruct CB as (C1 & C2 & C3).
  split_and!; [done|by rewrite (sl_blocks _ _ LL), C1|by rewrite (sl_td _ _ LL), C2|
    by rewrite (sl_genesis _ _ LL), C3| |].
  - eapply grows_trans; [|apply choose_head_grows]. eapply grows_trans; [|apply note_evidence_grows].
    by split.
  - intros [Hlt Hne]. rewrite (sl_head _ _ LL), (sl_state _ _ LL).
    unfold choose_head. change (c_head c1) with (c_head c). unfold c1.
    rewrite !TotalDifficulty_with_block, decide_False, decide_True by done.
    destruct (Z.ltb_spec (TotalDifficulty c (c_head c)) t); [done|lia].
Qed.
End ChainProps.
