(* ===== verification/ChainTheorems.v ===== *)
(** * Chains: theorems

    The invariant of every chain the operations build, agreement of mining and
    validation, the finality gate, and what never goes backwards. *)

From S2P Require Import Prelude Sha256 Core Pow FeeMarket StateDB Mpt Pos StackVM Exchange.
From S2P Require Import ExchangeProps Adapter Transition TransitionTheorems Chain ChainProps.

Section Reachable.
Context `{HE : Engine} `{HG : GethEVM} `{HB : Blst}.

(** the chains a node can build with one signature verifier; the exchange mode is
    chosen before the first block *)
Inductive reachable (v : verifier) : Chain -> Prop :=
| rc_new genesis alloc baseAlloc :
    h_Height (b_Header genesis) = 0 ->
    reachable v (NewChainWithAlloc genesis alloc baseAlloc)
| rc_id c id : reachable v c -> reachable v (SetChainID c id)
| rc_gas c limit : reachable v c -> reachable v (SetGasLimit c limit)
| rc_consensus c mode vs : reachable v c -> reachable v (fst (SetConsensusMode c mode vs))
| rc_exchange c mode b :
    c_blocks c = {[c_genesisHash c := b]} -> reachable v c -> reachable v (SetExchangeMode c mode)
| rc_add c b : reachable v c -> reachable v (fst (AddBlock c b v)).

Lemma NewChain_inv v genesis alloc baseAlloc :
  chain_inv v (NewChainWithAlloc genesis alloc baseAlloc).
Proof.
  set (c := NewChainWithAlloc genesis alloc baseAlloc). set (gh := block_Hash genesis).
  assert (P : path_fits c gh [genesis]).
  { split; simpl; [|by rewrite map_size_singleton].
    apply reaches_genesis. apply lookup_singleton_eq. }
  assert (K : forall h x, c_blocks c !! h = Some x -> h = gh /\ x = genesis).
  { intros h x. change (c_blocks c) with ({[gh := genesis]} : gmap Hash Block).
    rewrite lookup_singleton_Some. by intros [<- <-]. }
  split; [split|..].
  - exists genesis. apply lookup_singleton_eq.
  - by intros h x [-> ->]%K.
  - intros h x [-> ->]%K. by exists [genesis].
  - intros h x [-> ->]%K. done.
  - intros h x [-> ->]%K. done.
  - intros h. simpl. unfold is_Some. setoid_rewrite lookup_singleton_Some.
    split; intros [x [<- _]]; by eexists.
  - exists genesis. apply lookup_singleton_eq.
  - by intros h [x [-> ->]%K].
  - exact (deriveState_path c gh [genesis] v P).
  - exists [genesis]. split; [exact (chainTo_path _ _ _ P)|].
    apply (rebuildIndex_path (with_head c gh (c_headState c) ∅)).
    rewrite chainTo_with_head. exact (chainTo_path _ _ _ P).
Qed.

(** the configuration does not enter the invariant, the exchange mode apart *)
Lemma with_config_inv v c id gas mode vs :
  chain_inv v c -> chain_inv v (with_config c id gas (c_exchangeMode c) mode vs).
Proof. intros [[] ? ? ? ?]. by split; [split|..]. Qed.

Lemma SetExchangeMode_inv v c mode b :
  c_blocks c = {[c_genesisHash c := b]} -> chain_inv v c -> chain_inv v (SetExchangeMode c mode).
Proof.
  intros E [L [hb Hh] Hm Hs Hi].
  assert (K : forall h x, c_blocks c !! h = Some x -> h = c_genesisHash c).
  { intros h x. rewrite E, lookup_singleton_Some. by intros [<- _]. }
  pose proof (K _ _ Hh) as Eh. destruct (li_path _ _ L _ _ Hh) as [path P].
  assert (path = [b]) as ->.
  { destruct P as [R _]. inversion R as [x Hx|h x p Hne Hx]; subst.
    - rewrite E, lookup_singleton_eq in Hx. by injection Hx as ->.
    - by apply K in Hx. }
  split; [destruct L; split; try done|..]; try done.
  - intros h x Hx. by apply K in Hx.
  - rewrite (deriveState_path c _ _ v P) in Hs.
    change (c_head (SetExchangeMode c mode)) with (c_head c).
    rewrite (deriveState_path (SetExchangeMode c mode) (c_head c) [b] v P). exact Hs.
Qed.

Lemma reachable_chain_inv v c : reachable v c -> chain_inv v c.
Proof.
  induction 1 as [| | |c mode vs _ IH|c mode b E _ IH|].
  - apply NewChain_inv.
  - by apply with_config_inv.
  - by apply with_config_inv.
  - unfold SetConsensusMode. destruct (_ && _); [done|]. by apply with_config_inv.
  - by eapply SetExchangeMode_inv.
  - by apply AddBlock_inv.
Qed.

(** ** Heights along the canonical path *)

Lemma reaches_last blocks g h path :
  reaches blocks g h path -> exists b, blocks !! h = Some b /\ last path = Some b.
Proof. destruct 1 as [b Hb|h b path Hne Hb _]; exists b; split; try done. apply last_snoc. Qed.

Lemma reaches_elem blocks g h path b :
  reaches blocks g h path -> b ∈ path -> exists h', blocks !! h' = Some b.
Proof.
  induction 1 as [x Hx|h x path Hne Hx _ IH].
  - intros Hb. apply list_elem_of_singleton in Hb as ->. by eexists.
  - intros [Hb|Hb]%elem_of_app; [by apply IH|]. apply list_elem_of_singleton in Hb as ->. by eexists.
Qed.

Lemma path_heights v c h path :
  ledger_inv v c -> h_Height (b_Header (block_at c (c_genesisHash c))) = 0 ->
  Z.of_nat (length path) <= two64 ->
  reaches (c_blocks c) (c_genesisHash c) h path ->
  forall n b, path !! n = Some b -> h_Height (b_Header b) = Z.of_nat n.
Proof.
  intros L H0 Hlen R. induction R as [g Hg|h x path Hne Hx R IH]; intros n b Hn.
  - unfold block_at in H0. rewrite Hg in H0. destruct n as [|n]; [|by destruct n]. by injection Hn as <-.
  - rewrite length_app in Hlen. simpl in Hlen. apply lookup_app_Some in Hn as [Hn|[Hge Hn]].
    + by apply IH; [lia|].
    + destruct (n - length path)%nat as [|k] eqn:En; [|by destruct k]. injection Hn as ->.
      destruct (li_link _ _ L _ _ Hx Hne) as (p & Hp & ->).
      destruct (reaches_last _ _ _ _ R) as (p' & Hp' & Hlast).
      rewrite Hp in Hp'. injection Hp' as <-.
      rewrite last_lookup in Hlast.
      assert (0 < length path)%nat by (destruct path; [done|simpl; lia]).
      rewrite (IH ltac:(lia) _ _ Hlast), u64_small by lia. lia.
Qed.

(** the index of a path with those heights *)
Lemma index_of_lookup path k :
  (forall n b, path !! n = Some b -> h_Height (b_Header b) = Z.of_nat n) ->
  index_of path !! k = (if decide (0 <= k) then block_Hash <$> path !! Z.to_nat k else None).
Proof.
  unfold index_of. induction path as [|b path IH] using rev_ind; intros Hh.
  - simpl. rewrite lookup_empty. by case_decide.
  - rewrite foldl_app. simpl.
    assert (Hb : h_Height (b_Header b) = Z.of_nat (length path)).
    { apply Hh. rewrite lookup_app_r, Nat.sub_diag by lia. done. }
    rewrite Hb, lookup_insert.
    assert (IH' := IH (fun n x Hn => Hh n x ltac:(by apply lookup_app_l_Some))).
    destruct (decide (Z.of_nat (length path) = k)) as [<-|Hk].
    + rewrite decide_True, Nat2Z.id by lia. rewrite lookup_app_r, Nat.sub_diag by lia. done.
    + rewrite IH'. case_decide; [|done]. f_equal.
      destruct (Nat.lt_ge_cases (Z.to_nat k) (length path)); [by rewrite lookup_app_l|].
      rewrite lookup_app_r by lia. rewrite lookup_ge_None_2 by lia.
      destruct (Z.to_nat k - length path)%nat as [|j] eqn:Ej; [lia|by destruct j].
Qed.

(** ** Genesis and finality *)

Lemma AddBlock_err c b v e : snd (AddBlock c b v) = Err e -> fst (AddBlock c b v) = c.
Proof. unfold AddBlock. by destruct (validate_block c b v) as [[w st]|]. Qed.

Lemma AddBlock_surj c b v : snd (AddBlock c b v) = Ok tt -> AddBlock c b v = (fst (AddBlock c b v), Ok tt).
Proof. intros E. rewrite <- E. apply surjective_pairing. Qed.

Lemma AddBlock_mode c b v : c_consensusMode (fst (AddBlock c b v)) = c_consensusMode c.
Proof.
  destruct (validate_block c b v) as [[w st]|e] eqn:E; [|unfold AddBlock; by rewrite E].
  rewrite (AddBlock_steps _ _ _ _ _ E). cbn [fst].
  set (c1 := with_block _ _ _ _). pose proof (note_evidence_ledger c1 b) as L.
  rewrite (sl_cmode _ _ (choose_head_ledger _ _ (block_Hash b) st L)). unfold choose_head.
  by destruct (_ <? _).
Qed.

(** genesis stays at height 0, and finality starts there *)
Lemma reachable_bounds v c :
  reachable v c ->
  h_Height (b_Header (block_at c (c_genesisHash c))) = 0 /\ 0 <= c_finalizedHeight c.
Proof.
  induction 1 as [g al bal H0|c id _ IH|c l _ IH|c m vs _ IH|c m b E _ IH|c b R IH]; try done.
  - split; [|done]. unfold block_at. simpl. by rewrite lookup_singleton_eq.
  - unfold SetConsensusMode. by destruct (_ && _).
  - destruct (AddBlock c b v) as [c' [[]|e]] eqn:E; simpl.
    + destruct (AddBlock_ok _ _ _ _ E) as (w & st & A & EB & _ & EG & G & _).
      destruct (li_genesis _ _ (ci_ledger _ _ (reachable_chain_inv v c R))) as [g Hg].
      pose proof (ac_fresh _ _ _ _ _ A) as Hn. pose proof (gr_finalized _ _ G).
      split; [|lia]. unfold block_at in *. rewrite EB, EG, lookup_insert_ne by congruence. apply IH.
    + pose proof (AddBlock_err c b v e) as Ee. rewrite E in Ee. simpl in Ee. by rewrite Ee.
Qed.

(** a successful walk found the finalized block on the way to genesis *)
Lemma finality_walk_sound c fuel h path :
  reaches (c_blocks c) (c_genesisHash c) h path ->
  h_Height (b_Header (block_at c (c_genesisHash c))) = 0 -> 0 <= c_finalizedHeight c ->
  finality_walk fuel c h = Ok tt ->
  exists fb, fb ∈ path /\ c_blocks c !! c_finalizedHash c = Some fb /\
    h_Height (b_Header fb) = c_finalizedHeight c.
Proof.
  intros R H0 Hf. revert fuel. induction R as [g Hg|h x path Hne Hx R IH]; intros fuel W.
  - destruct fuel as [|fuel]; [done|]. simpl in W. rewrite Hg in W.
    unfold block_at in H0. rewrite Hg in H0. simpl in H0.
    destruct (Z.eqb_spec (h_Height (b_Header g)) (c_finalizedHeight c)).
    + case_bool_decide as Ef; [|done]. exists g. rewrite <- Ef. split; [apply list_elem_of_here|done].
    + destruct (Z.ltb_spec (h_Height (b_Header g)) (c_finalizedHeight c)); [done|lia].
  - destruct fuel as [|fuel]; [done|]. simpl in W. rewrite Hx in W.
    destruct (Z.eqb_spec (h_Height (b_Header x)) (c_finalizedHeight c)).
    + case_bool_decide as Ef; [|done]. exists x. rewrite <- Ef. split; [|done].
      apply elem_of_app. right. apply list_elem_of_here.
    + destruct (_ <? _); [done|]. destruct (IH _ W) as (fb & Hin & Hb). exists fb. split; [|done].
      apply elem_of_app. by left.
Qed.

(** the walk never runs out of fuel *)
Lemma finality_walk_fuel c fuel h path :
  reaches (c_blocks c) (c_genesisHash c) h path -> (length path <= fuel)%nat ->
  h_Height (b_Header (block_at c (c_genesisHash c))) = 0 -> 0 <= c_finalizedHeight c ->
  finality_walk fuel c h <> Err ErrFuel.
Proof.
  intros R Hl H0 Hf. revert fuel Hl. induction R as [g Hg|h x path Hne Hx R IH]; intros fuel Hl.
  - destruct fuel as [|fuel]; [simpl in Hl; lia|]. simpl. rewrite Hg.
    unfold block_at in H0. rewrite Hg in H0. simpl in H0.
    destruct (_ =? _) eqn:E; [by case_bool_decide|].
    destruct (Z.ltb_spec (h_Height (b_Header g)) (c_finalizedHeight c)); [done|].
    apply Z.eqb_neq in E. lia.
  - rewrite length_app in Hl. simpl in Hl. destruct fuel as [|fuel]; [lia|]. simpl. rewrite Hx.
    destruct (_ =? _); [by case_bool_decide|]. destruct (_ <? _); [done|]. apply IH. lia.
Qed.

(** the height index is the canonical path *)
Lemma GetByHeight_path v c path n :
  reachable v c -> chainTo c (c_head c) = Ok path -> Z.of_nat (size (c_blocks c)) <= two64 ->
  0 <= n -> GetByHeight c n = path !! Z.to_nat n.
Proof.
  intros R Hc Hsz Hn. destruct (reachable_chain_inv v c R) as [L [hb Hh] _ _ (p & Hp & Hi)].
  rewrite Hc in Hp. injection Hp as <-. destruct (li_path _ _ L _ _ Hh) as [p P].
  rewrite (chainTo_path _ _ _ P) in Hc. injection Hc as ->. destruct P as [P Hl].
  destruct (reachable_bounds v c R) as [Hz _].
  pose proof (path_heights v c _ path L Hz ltac:(lia) P) as Hht.
  unfold GetByHeight. rewrite Hi, (index_of_lookup path n Hht), decide_True by done.
  destruct (path !! Z.to_nat n) as [b|] eqn:Eb; [|done]. simpl.
  destruct (reaches_elem _ _ _ _ b P) as [h' Hb]; [by eapply list_elem_of_lookup_2|].
  by rewrite (li_hash _ _ L _ _ Hb).
Qed.
End Reachable.

(** ** Witness chain *)

#[local] Existing Instance toy_engine.
#[local] Existing Instance toy_evm.
#[local] Existing Instance toy_blst.

Definition sample_genesis : Genesis :=
  mkGenesis {[alice := 1000]} ∅ 0 1700000000 10.
Definition sample_chain : Chain := NewChain (ToBlock sample_genesis) (g_Alloc sample_genesis).

Lemma sample_chain_reachable : reachable accept_all sample_chain.
Proof. exact (rc_new accept_all (ToBlock sample_genesis) _ _ eq_refl). Qed.

Definition sample_txs : list Transaction := [simple_tx alice bob 70 0 0 0 0 []].

Definition sample_candidate : Hash * Z :=
  match CandidateStateRoot sample_chain sample_txs bob accept_all with
  | Ok p => p
  | Err _ => (zero_hash, 0)
  end.

(** the same chain under proof of stake, one validator *)
Definition one_validator : ValidatorSet := mkValidatorSet [mkValidator alice (replicate 48 1) 10] 10.
Definition pos_chain : Chain := fst (SetConsensusMode sample_chain PoS (Some one_validator)).

Definition pos_block (c : Chain) (txs : list Transaction) : Block :=
  let p := match CandidateStateRoot c txs alice accept_all with
           | Ok p => p
           | Err _ => (zero_hash, 0)
           end in
  mkBlock (mkHeader (h_Height (b_Header (Head c)) + 1) (block_Hash (Head c))
    (TxRoot (mkBlock (b_Header zero_block) txs)) (fst p) alice 0 0 0 (NextBaseFee c) (snd p)
    (replicate 96 1)) txs.

Definition sample_mined : Block :=
  let h := mkHeader 1 (block_Hash (Head sample_chain)) zero_hash (fst sample_candidate) bob 5 0 7
             (NextBaseFee sample_chain) (snd sample_candidate) [] in
  mkBlock (mkHeader 1 (h_PrevHash h) (TxRoot (mkBlock h sample_txs)) (h_StateRoot h) bob 5 0 7
             (h_BaseFee h) (h_GasUsed h) []) sample_txs.

(** ** Properties *)

(** C1: the invariant of the block store.  In every chain built by [NewChain], the
    configuration setters and any sequence of [AddBlock] calls: a block is stored
    under its own hash and its parent is stored, one height below; following
    parents from it reaches genesis; replaying that path from genesis succeeds and
    gives the state root in its header; the head is a stored block and no stored
    block is heavier; and the head state is the replay of the head's path. *)
Theorem chain_invariant `{Engine} `{GethEVM} `{Blst} v c :
  reachable v c ->
  (forall h b, c_blocks c !! h = Some b ->
     block_Hash b = h /\ exists path, chainTo c h = Ok path /\ last path = Some b) /\
  (forall h b, c_blocks c !! h = Some b -> h <> c_genesisHash c ->
     (exists parent, c_blocks c !! h_PrevHash (b_Header b) = Some parent /\
        h_Height (b_Header b) = u64 (h_Height (b_Header parent) + 1)) /\
     (exists st, deriveState c h v = Ok st /\ StateRoot st = h_StateRoot (b_Header b))) /\
  c_blocks c !! c_head c = Some (Head c) /\
  (forall h, is_Some (c_blocks c !! h) -> TotalDifficulty c h <= TotalDifficulty c (c_head c)) /\
  deriveState c (c_head c) v = Ok (State c).
Proof.
  intros R. destruct (reachable_chain_inv v c R) as [L [hb Hh] Hm Hs _]. split_and!; try done.
  - intros h b Hb. split; [by apply (li_hash _ _ L)|].
    destruct (li_path _ _ L _ _ Hb) as [path P]. exists path. split; [by apply chainTo_path|].
    destruct P as [P _]. destruct (reaches_last _ _ _ _ P) as (b' & Hb' & Hl). congruence.
  - intros h b Hb Hne. split; [by apply (li_link _ _ L h)|by apply (li_root _ _ L)].
  - unfold Head, block_at. by rewrite Hh.
Qed.

Lemma chain_invariant_witness :
  deriveState sample_chain (c_head sample_chain) accept_all = Ok (State sample_chain).
Proof. apply (chain_invariant accept_all sample_chain sample_chain_reachable). Defined.

(** the canonical branch by height.  [GetByHeight n] is the [n]-th block of the
    path from genesis to the head, and nothing beyond it: after any number of
    reorgs no height answers with a block of an abandoned branch. *)
Theorem GetByHeight_canonical `{Engine} `{GethEVM} `{Blst} v c path n :
  reachable v c -> chainTo c (c_head c) = Ok path -> Z.of_nat (size (c_blocks c)) <= two64 ->
  0 <= n -> GetByHeight c n = path !! Z.to_nat n.
Proof. apply GetByHeight_path. Qed.

Lemma GetByHeight_canonical_witness :
  GetByHeight sample_chain 0 = Some (ToBlock sample_genesis).
Proof.
  apply (GetByHeight_canonical accept_all sample_chain [ToBlock sample_genesis] 0).
  - apply sample_chain_reachable.
  - vm_compute. reflexivity.
  - vm_compute. discriminate.
  - done.
Defined.

(** what a miner puts in a block on the head of [c] (the timestamp, difficulty,
    nonce and proposer signature are free) *)
Record built_on (c : Chain) (txs : list Transaction) (coinbase : Address) (root : Hash) (g : Z)
    (b : Block) : Prop := {
  bo_txs : b_Txs b = txs;
  bo_height : h_Height (b_Header b) = u64 (h_Height (b_Header (Head c)) + 1);
  bo_prev : h_PrevHash (b_Header b) = block_Hash (Head c);
  bo_merkle : h_MerkleRoot (b_Header b) = TxRoot b;
  bo_state : h_StateRoot (b_Header b) = root;
  bo_coinbase : h_Coinbase (b_Header b) = coinbase;
  bo_fee : h_BaseFee (b_Header b) = NextBaseFee c;
  bo_gas : h_GasUsed (b_Header b) = g;
}.

Section Mining.
Context `{HE : Engine} `{HG : GethEVM} `{HB : Blst}.

(** a candidate block passes every check but the consensus one by construction *)
Lemma candidate_accepted v c txs coinbase root g b w :
  chain_inv v c -> CandidateStateRoot c txs coinbase v = Ok (root, g) ->
  built_on c txs coinbase root g b -> g <= c_gasLimit c ->
  0 <= h_Height (b_Header (Head c)) < two64 - 1 -> c_blocks c !! block_Hash b = None ->
  respectsFinality c b = Ok tt -> check_consensus c b (block_Hash b) = Ok w ->
  h_PrevHash (b_Header b) = c_head c /\
  exists st, accepted c b v w st /\ StateRoot st = root.
Proof.
  intros [L [hb Hh] _ Hs _] Hc [B1 B2 B3 B4 B5 B6 B7 B8] Hg Hht Hf Hfin Hcons.
  assert (EH : Head c = hb) by (unfold Head, block_at; by rewrite Hh).
  assert (Ep : h_PrevHash (b_Header b) = c_head c) by (rewrite B3, EH; by apply (li_hash _ _ L)).
  split; [done|]. unfold CandidateStateRoot in Hc. rewrite Hs in Hc. cbn [mbind result_bind] in Hc.
  destruct (assertChainID c txs) as [[]|] eqn:Ei; [|done]. cbn [mbind result_bind] in Hc.
  fold (Head c) in Hc. rewrite <- B2 in Hc.
  destruct (applyTxsAt _ _ _ _ _ _) as [st [[g' tip]|]] eqn:Ea; [|done].
  apply Ok_inj, pair_equal_spec in Hc as [Hroot ->].
  exists (reward st coinbase tip). split; [|done].
  split; try done.
  - exists hb. rewrite Ep, B2, B7, EH. split_and!; [done|done|]. unfold NextBaseFee.
    fold (Head c). by rewrite EH.
  - by rewrite B1.
  - exists (c_headState c). rewrite Ep. split; [done|]. unfold applyBlockRewarded.
    rewrite B1, B7, B6, Ea, B8.
    destruct (Z.eqb_spec (h_Height (b_Header b)) 0) as [E0|]; [|done].
    rewrite B2, u64_small in E0 by lia. lia.
  - by rewrite B8.
  - by rewrite B5.
Qed.

(** a block built on the head that meets the target is accepted, and extends the head
    when it adds weight *)
Lemma built_block_added v c txs coinbase root g b :
  chain_inv v c -> c_consensusMode c = PoW ->
  CandidateStateRoot c txs coinbase v = Ok (root, g) -> built_on c txs coinbase root g b ->
  g <= c_gasLimit c -> 0 <= h_Height (b_Header (Head c)) < two64 - 1 ->
  MeetsTarget (block_Hash b) (h_Difficulty (b_Header b)) = true -> c_blocks c !! block_Hash b = None ->
  exists c', AddBlock c b v = (c', Ok tt) /\
    (TotalDifficulty c (c_head c) < u64 (TotalDifficulty c (c_head c) + h_Difficulty (b_Header b)) ->
     Head c' = b /\ c_head c' = block_Hash b /\ StateRoot (State c') = root).
Proof.
  intros I Hm Hc Hb Hg Hht Ht Hf.
  destruct (candidate_accepted v c txs coinbase root g b (h_Difficulty (b_Header b)))
    as (Ep & st & A & Hroot); try done.
  { unfold respectsFinality. by rewrite bool_decide_eq_false_2 by congruence. }
  { unfold check_consensus. rewrite bool_decide_eq_false_2 by congruence. cbv zeta iota. by rewrite Ht. }
  apply validate_block_iff in A.
  assert (E : exists c', AddBlock c b v = (c', Ok tt)) by (eexists; exact (AddBlock_steps _ _ _ _ _ A)).
  destruct E as [c' E]. exists c'. split; [done|]. intros Hlt.
  destruct (AddBlock_ok _ _ _ _ E) as (w & st' & A' & EB & _ & _ & _ & Hhead).
  apply validate_block_iff in A'. rewrite A in A'. apply Ok_inj, pair_equal_spec in A' as [<- <-].
  destruct (ci_head _ _ I) as [hb Hh]. rewrite Ep in Hhead.
  destruct Hhead as [Hh1 Hh2]; [split; [done|congruence]|].
  unfold State, Head, block_at. rewrite Hh1, Hh2, EB, lookup_insert, decide_True by done. done.
Qed.
End Mining.

(** mining and validation agree.  A block assembled the way a miner does it on
    the head of a proof-of-work chain (the height, parent, base fee and transaction
    root of the chain, the state root and gas used of [CandidateStateRoot]) is
    accepted by [AddBlock] whenever its hash meets the target and its gas fits; and
    if it makes the chain heavier it becomes the head, with that state root. *)
Theorem mined_block_accepted `{Engine} `{GethEVM} `{Blst} v c txs coinbase root g b :
  reachable v c -> c_consensusMode c = PoW ->
  CandidateStateRoot c txs coinbase v = Ok (root, g) -> built_on c txs coinbase root g b ->
  g <= c_gasLimit c -> 0 <= h_Height (b_Header (Head c)) < two64 - 1 ->
  MeetsTarget (block_Hash b) (h_Difficulty (b_Header b)) = true -> c_blocks c !! block_Hash b = None ->
  exists c', AddBlock c b v = (c', Ok tt) /\
    (TotalDifficulty c (c_head c) < u64 (TotalDifficulty c (c_head c) + h_Difficulty (b_Header b)) ->
     c_head c' = block_Hash b /\ StateRoot (State c') = root).
Proof.
  intros R Hm Hc Hb Hg Hht Ht Hf.
  destruct (built_block_added v c txs coinbase root g b) as (c' & E & Hh); try done.
  { by apply reachable_chain_inv. }
  exists c'. split; [exact E|]. intros Hlt. exact (proj2 (Hh Hlt)).
Qed.

Lemma mined_block_accepted_witness :
  exists c', AddBlock sample_chain sample_mined accept_all = (c', Ok tt).
Proof.
  destruct (mined_block_accepted accept_all sample_chain sample_txs bob (fst sample_candidate)
    (snd sample_candidate) sample_mined) as (c' & E & _).
  - apply sample_chain_reachable.
  - reflexivity.
  - vm_compute. reflexivity.
  - split; reflexivity.
  - vm_compute. discriminate.
  - vm_compute. split; [discriminate|reflexivity].
  - vm_compute. reflexivity.
  - vm_compute. reflexivity.
  - exists c'. exact E.
Defined.

(** C29: the ancestry loops terminate.  In every reachable chain, following parents
    from a stored block ends at genesis after at most as many steps as there are
    blocks, from an unknown hash it fails at once, and the finality walk ends for
    every block offered. *)
Theorem ancestry_loops_terminate `{Engine} `{GethEVM} `{Blst} v c h b :
  reachable v c ->
  match c_blocks c !! h with
  | Some _ => exists path, chainTo c h = Ok path /\ (length path <= size (c_blocks c))%nat
  | None => chainTo c h = Err ErrUnknownParent
  end /\
  respectsFinality c b <> Err ErrFuel.
Proof.
  intros R. pose proof (ci_ledger _ _ (reachable_chain_inv v c R)) as L.
  destruct (reachable_bounds v c R) as [Hz Hf]. split.
  - destruct (c_blocks c !! h) as [x|] eqn:Ex.
    + destruct (li_path _ _ L _ _ Ex) as [path P]. exists path. split; [by apply chainTo_path|apply P].
    + unfold chainTo, link_fuel. simpl. by rewrite Ex.
  - unfold respectsFinality. destruct (_ || _); [done|].
    destruct (c_blocks c !! h_PrevHash (b_Header b)) as [x|] eqn:Ex.
    + destruct (li_path _ _ L _ _ Ex) as [path [P Hl]].
      eapply finality_walk_fuel; [exact P|unfold link_fuel; lia|done|done].
    + unfold link_fuel. simpl. by rewrite Ex.
Qed.

Lemma ancestry_loops_terminate_witness :
  respectsFinality sample_chain sample_mined <> Err ErrFuel.
Proof. apply (ancestry_loops_terminate accept_all sample_chain zero_hash), sample_chain_reachable. Defined.

(** what [reachable] gives the finality gate *)
Definition finality_ok `{Engine} `{GethEVM} `{Blst} (v : verifier) (c : Chain) : Prop :=
  chain_inv v c /\ h_Height (b_Header (block_at c (c_genesisHash c))) = 0 /\ 0 <= c_finalizedHeight c.

Lemma reachable_finality_ok `{Engine} `{GethEVM} `{Blst} v c : reachable v c -> finality_ok v c.
Proof. intros R. split; [by apply reachable_chain_inv|exact (reachable_bounds v c R)]. Qed.

Lemma AddBlock_finality_ok `{Engine} `{GethEVM} `{Blst} v c b :
  finality_ok v c -> finality_ok v (fst (AddBlock c b v)).
Proof.
  intros (I & Hg & Hf). split; [by apply AddBlock_inv|].
  destruct (AddBlock c b v) as [c' [[]|e]] eqn:E; cbn [fst].
  - destruct (AddBlock_ok _ _ _ _ E) as (w & st & A & EB & _ & EG & G & _).
    destruct (li_genesis _ _ (ci_ledger _ _ I)) as [g Hgen].
    pose proof (ac_fresh _ _ _ _ _ A) as Hn. pose proof (gr_finalized _ _ G).
    split; [|lia]. unfold block_at in *. by rewrite EB, EG, lookup_insert_ne by congruence.
  - pose proof (AddBlock_err c b v e) as Ee. rewrite E in Ee. cbn [fst snd] in Ee. by rewrite Ee.
Qed.

Lemma AddBlock_finalized_grows `{Engine} `{GethEVM} `{Blst} v c b :
  let c' := fst (AddBlock c b v) in
  c_finalizedHeight c <= c_finalizedHeight c' /\
  (c_finalizedHeight c' = c_finalizedHeight c -> c_finalizedHash c' = c_finalizedHash c).
Proof.
  destruct (AddBlock c b v) as [c' [[]|e]] eqn:E; cbn [fst].
  - destruct (AddBlock_ok _ _ _ _ E) as (w & st & _ & _ & _ & _ & G & _). split; apply G.
  - pose proof (AddBlock_err c b v e) as Ee. rewrite E in Ee. cbn [fst snd] in Ee. by rewrite Ee.
Qed.

(** the finality gate, for one block *)
Lemma accepted_passes_checkpoint `{Engine} `{GethEVM} `{Blst} v c b c' :
  finality_ok v c -> c_consensusMode c = PoS -> IsZero (c_finalizedHash c) = false ->
  AddBlock c b v = (c', Ok tt) ->
  exists path fb, chainTo c (h_PrevHash (b_Header b)) = Ok path /\ fb ∈ path /\
    c_blocks c !! c_finalizedHash c = Some fb /\
    block_Hash fb = c_finalizedHash c /\ h_Height (b_Header fb) = c_finalizedHeight c.
Proof.
  intros (I & Hg & Hf) Hm Hz E. destruct (AddBlock_ok _ _ _ _ E) as (w & st & A & _).
  pose proof (ci_ledger _ _ I) as L. destruct (ac_parent _ _ _ _ _ A) as (parent & Hp & _).
  destruct (li_path _ _ L _ _ Hp) as [path P]. exists path.
  pose proof (ac_finality _ _ _ _ _ A) as F. unfold respectsFinality in F.
  rewrite bool_decide_eq_true_2, Hz in F by done. simpl negb in F. cbv iota in F.
  destruct (finality_walk_sound c _ _ path (proj1 P) Hg Hf F) as (fb & Hin & Hb & Hh).
  exists fb. split_and!; [by apply chainTo_path|done|done|by apply (li_hash _ _ L)|done].
Qed.

(** a run that did not finalize anything higher *)
Lemma same_checkpoint `{Engine} `{GethEVM} `{Blst} v c bs :
  let c1 := foldl (fun c b => fst (AddBlock c b v)) c bs in
  finality_ok v c ->
  finality_ok v c1 /\ c_consensusMode c1 = c_consensusMode c /\ c_finalizedHeight c <= c_finalizedHeight c1 /\
  (c_finalizedHeight c1 = c_finalizedHeight c -> c_finalizedHash c1 = c_finalizedHash c).
Proof.
  revert c. induction bs as [|b bs IH]; intros c c1 F; [by subst c1|].
  specialize (IH (fst (AddBlock c b v)) (AddBlock_finality_ok v c b F)). cbv zeta in IH. cbn [foldl] in c1.
  fold c1 in IH. destruct IH as (F1 & M1 & Hle & S1). rewrite AddBlock_mode in M1.
  destruct (AddBlock_finalized_grows v c b) as [Hle' S2].
  split_and!; [done|done|lia|]. intros E. rewrite S1 by lia. apply S2. lia.
Qed.

(** C27: no accepted block leaves the finalized branch.  Once a checkpoint is finalized on a
    proof-of-stake chain, whatever blocks are offered afterwards, every block accepted before
    a higher checkpoint is finalized descends from it: the path from genesis to its parent
    contains the finalized block, at the finalized height.  (Every reachable chain is
    [finality_ok].  That a higher checkpoint itself descends from this one is not checked by
    the code: see [checkpoint_leaves_chain].) *)
Theorem accepted_block_descends_from_finalized `{Engine} `{GethEVM} `{Blst} v c bs b c' :
  finality_ok v c -> c_consensusMode c = PoS -> IsZero (c_finalizedHash c) = false ->
  let c1 := foldl (fun c b => fst (AddBlock c b v)) c bs in
  c_finalizedHeight c1 = c_finalizedHeight c -> AddBlock c1 b v = (c', Ok tt) ->
  exists path fb, chainTo c1 (h_PrevHash (b_Header b)) = Ok path /\ fb ∈ path /\
    block_Hash fb = c_finalizedHash c /\ h_Height (b_Header fb) = c_finalizedHeight c.
Proof.
  intros F Hm Hz c1 Hh E. destruct (same_checkpoint v c bs F) as (F1 & M1 & _ & S1). fold c1 in F1, M1, S1.
  specialize (S1 Hh). rewrite <- S1 in Hz |- *. rewrite <- Hh.
  destruct (accepted_passes_checkpoint v c1 b c' F1) as (path & fb & P1 & P2 & _ & P3 & P4); [congruence|done|done|].
  by exists path, fb.
Qed.

(** the genesis block finalized *)
Definition final_chain : Chain := with_votes pos_chain ∅ ∅ (c_genesisHash pos_chain) 0 ∅.

Lemma final_chain_ok : finality_ok accept_all final_chain.
Proof.
  assert (R : reachable accept_all pos_chain) by (apply rc_consensus, sample_chain_reachable).
  destruct (reachable_finality_ok _ _ R) as (I & Hz & _). split; [|split; [exact Hz|done]].
  exact (chain_inv_ledger _ _ _ (with_votes_ledger _ _ _ _ _ _) I).
Qed.

(** a block on it, and one on that *)
Definition final_1 : Block := pos_block final_chain [].
Definition final_chain_1 : Chain := fst (AddBlock final_chain final_1 accept_all).
Definition final_2 : Block := pos_block final_chain_1 [].

Lemma accepted_block_descends_from_finalized_witness :
  exists path fb, chainTo final_chain_1 (h_PrevHash (b_Header final_2)) = Ok path /\ fb ∈ path /\
    block_Hash fb = c_genesisHash pos_chain.
Proof.
  destruct (accepted_block_descends_from_finalized accept_all final_chain [final_1] final_2
    (fst (AddBlock final_chain_1 final_2 accept_all))) as (path & fb & H1 & H2 & H3 & _).
  - apply final_chain_ok.
  - reflexivity.
  - vm_compute. reflexivity.
  - vm_compute. reflexivity.
  - apply AddBlock_surj. vm_compute. reflexivity.
  - exists path, fb. exact (conj H1 (conj H2 H3)).
Defined.

(** A checkpoint that is not a stored block stops the chain: no block at all is accepted. *)
Theorem unknown_checkpoint_halts `{Engine} `{GethEVM} `{Blst} v c :
  finality_ok v c -> c_consensusMode c = PoS -> IsZero (c_finalizedHash c) = false ->
  c_blocks c !! c_finalizedHash c = None -> forall b, exists e, AddBlock c b v = (c, Err e).
Proof.
  intros F Hm Hz Hn b. destruct (AddBlock c b v) as [c' [[]|e]] eqn:E.
  - destruct (accepted_passes_checkpoint v c b c' F Hm Hz E) as (path & fb & _ & _ & Hb & _). congruence.
  - exists e. pose proof (AddBlock_err c b v e) as Ee. rewrite E in Ee. cbn [fst snd] in Ee. by rewrite Ee.
Qed.

(** ** What never goes backwards *)

(** C28: evidence and blocks are never forgotten.  Whatever block is offered,
    accepted or not, the chain afterwards still has every block, every vote (a
    validator's vote of a round never changes) and every jailed validator; the
    finalized height does not decrease, the finalized block of a height does not
    change, and the head's total difficulty does not decrease. *)
Theorem AddBlock_never_forgets `{Engine} `{GethEVM} `{Blst} v c b :
  reachable v c ->
  let c' := fst (AddBlock c b v) in
  (forall h x, c_blocks c !! h = Some x -> c_blocks c' !! h = Some x) /\
  (forall r a t, vote_of c r a = Some t -> vote_of c' r a = Some t) /\
  (forall a, Jailed c a = true -> Jailed c' a = true) /\
  FinalizedHeight c <= FinalizedHeight c' /\
  (FinalizedHeight c' = FinalizedHeight c -> FinalizedHash c' = FinalizedHash c) /\
  TotalDifficulty c (c_head c) <= TotalDifficulty c' (c_head c').
Proof.
  intros R c'. assert (R' : reachable v c') by (by apply rc_add).
  destruct (snd (AddBlock c b v)) as [[]|e] eqn:Er.
  2: { pose proof (AddBlock_err c b v e Er) as Ec. fold c' in Ec. rewrite Ec.
       split_and!; try done; unfold FinalizedHeight; lia. }
  pose proof (AddBlock_surj c b v Er) as E. fold c' in E.
  clearbody c'. destruct (AddBlock_ok _ _ _ _ E) as (w & st & A & EB & ET & _ & G & _).
  pose proof (ac_fresh _ _ _ _ _ A) as Hn. destruct G as [G1 G2 G3 G4].
  destruct (reachable_chain_inv v c R) as [_ [hb Hh] _ _ _].
  pose proof (ci_heaviest _ _ (reachable_chain_inv v c' R')) as Hm.
  split_and!; try done.
  - intros h x Hx. rewrite EB, lookup_insert_ne by congruence. done.
  - assert (TotalDifficulty c' (c_head c) = TotalDifficulty c (c_head c)) as <-.
    { unfold TotalDifficulty. rewrite ET, lookup_insert_ne by congruence. done. }
    apply Hm. rewrite EB, lookup_insert_ne by congruence. by eexists.
Qed.

Lemma AddBlock_never_forgets_witness :
  TotalDifficulty sample_chain (c_head sample_chain)
  <= TotalDifficulty (fst (AddBlock sample_chain sample_mined accept_all))
       (c_head (fst (AddBlock sample_chain sample_mined accept_all))).
Proof. apply (AddBlock_never_forgets accept_all sample_chain sample_mined sample_chain_reachable). Defined.
