(* ===== verification/ForkChoice.v ===== *)
(** * Fork choice and checkpoints

    Proof-of-work nodes that know the same blocks agree on the heaviest branch; and
    what the tally of checkpoint votes does and does not guarantee. *)

From S2P Require Import Prelude Sha256 Core Pow FeeMarket StateDB Mpt Pos StackVM Exchange.
From S2P Require Import ExchangeProps Adapter Transition TransitionTheorems Chain ChainProps.
From S2P Require Import ChainTheorems.

(** ** The weight of a branch *)

(** cumulative difficulty along a path, as [AddBlock] adds it up *)
Definition path_weight (path : list Block) : Z :=
  match path with
  | [] => 0
  | g :: rest => foldl (fun t b => u64 (t + h_Difficulty (b_Header b))) (h_Difficulty (b_Header g)) rest
  end.

Lemma path_weight_snoc path b :
  path <> [] -> path_weight (path ++ [b]) = u64 (path_weight path + h_Difficulty (b_Header b)).
Proof. destruct path as [|g path]; [done|]. intros _. simpl. by rewrite foldl_app. Qed.

Lemma reaches_det blocks g h p q : reaches blocks g h p -> reaches blocks g h q -> p = q.
Proof.
  intros R. revert q. induction R as [b Hb|h b p Hne Hb R IH]; intros q Q; inversion Q; subst; try done.
  - congruence.
  - assert (b0 = b) as -> by congruence. f_equal. by apply IH.
Qed.

Section PowChains.
Context `{HE : Engine} `{HG : GethEVM} `{HB : Blst}.

(** the chains of a proof-of-work node *)
Inductive pow_reachable (v : verifier) (genesis : Block) : Chain -> Prop :=
| pr_new alloc baseAlloc :
    h_Height (b_Header genesis) = 0 ->
    pow_reachable v genesis (NewChainWithAlloc genesis alloc baseAlloc)
| pr_id c id : pow_reachable v genesis c -> pow_reachable v genesis (SetChainID c id)
| pr_gas c limit : pow_reachable v genesis c -> pow_reachable v genesis (SetGasLimit c limit)
| pr_exchange c mode b :
    c_blocks c = {[c_genesisHash c := b]} -> pow_reachable v genesis c ->
    pow_reachable v genesis (SetExchangeMode c mode)
| pr_add c b : pow_reachable v genesis c -> pow_reachable v genesis (fst (AddBlock c b v)).

Lemma pow_reachable_reachable v g c : pow_reachable v g c -> reachable v c.
Proof. induction 1; by econstructor. Qed.

(** mode, genesis and difficulties *)
Record pow_inv (g : Block) (c : Chain) : Prop := {
  pi_mode : c_consensusMode c = PoW;
  pi_genesis : c_genesisHash c = block_Hash g;
  pi_td : forall h b path, c_blocks c !! h = Some b -> path_fits c h path ->
    TotalDifficulty c h = path_weight path;
}.

Lemma AddBlock_pow_inv v g c b : chain_inv v c -> pow_inv g c -> pow_inv g (fst (AddBlock c b v)).
Proof.
  intros I [M G T]. destruct (snd (AddBlock c b v)) as [[]|e] eqn:Er;
    [|by rewrite (AddBlock_err _ _ _ _ Er)].
  pose proof (AddBlock_surj c b v Er) as E. pose proof (AddBlock_mode c b v) as M'.
  destruct (AddBlock_ok _ _ _ _ E) as (w & st & A & EB & ET & EG & _).
  set (c' := fst (AddBlock c b v)) in *. clearbody c'.
  split; [congruence|congruence|]. intros h x path Hx P.
  pose proof (ac_fresh _ _ _ _ _ A) as Hn. pose proof (ci_ledger _ _ I) as L.
  destruct (li_genesis _ _ L) as [gb Hgb]. destruct P as [P _]. rewrite EB, EG in P. rewrite EB in Hx.
  unfold TotalDifficulty. rewrite ET, lookup_insert. rewrite lookup_insert in Hx.
  destruct (decide (block_Hash b = h)) as [<-|Hne].
  - injection Hx as <-. destruct (ac_parent _ _ _ _ _ A) as (parent & Hp & _).
    destruct (li_path _ _ L _ _ Hp) as [q Q].
    pose proof (path_fits_new c b 0 q Hn ltac:(congruence) Q) as [P' _].
    rewrite (reaches_det _ _ _ _ _ P P'), path_weight_snoc
      by (by eapply reaches_nonempty; apply Q). simpl. f_equal.
    rewrite <- (T _ _ _ Hp Q). f_equal. pose proof (ac_consensus _ _ _ _ _ A) as C.
    unfold check_consensus in C. rewrite bool_decide_eq_false_2 in C by congruence.
    destruct (MeetsTarget _ _); [|done]. simpl in C. by injection C.
  - destruct (li_path _ _ L _ _ Hx) as [q Q].
    pose proof (path_fits_with_block c (block_Hash b) b 0 h q Hn Q) as [P' _].
    rewrite (reaches_det _ _ _ _ _ P P'). by apply (T _ _ _ Hx).
Qed.

Lemma pow_reachable_inv v g c : pow_reachable v g c -> pow_inv g c.
Proof.
  induction 1 as [al bal H0|c id _ [M G T]|c l _ [M G T]|c m b E _ [M G T]|c b R IH]; try by split.
  - split; [done|done|]. intros h b path Hb [P _].
    change (c_blocks (NewChainWithAlloc g al bal)) with ({[block_Hash g := g]} : gmap Hash Block) in *.
    apply lookup_singleton_Some in Hb as [<- <-]. unfold TotalDifficulty. simpl.
    rewrite lookup_singleton_eq. simpl.
    rewrite (reaches_det _ _ _ path [g] P); [done|]. apply reaches_genesis. apply lookup_singleton_eq.
  - apply AddBlock_pow_inv; [|done]. by apply reachable_chain_inv, (pow_reachable_reachable v g).
Qed.
End PowChains.

(** C26: proof-of-work nodes converge.  Two nodes that started from the same genesis
    block and know the same blocks, whatever order they learned them in and
    whichever verifier, gas limit or reorgs they went through, give every block the
    same total difficulty and have heads of the same total difficulty; and when the
    heaviest block is unique they have the same head. *)
Theorem pow_nodes_converge `{Engine} `{GethEVM} `{Blst} v1 v2 genesis c1 c2 :
  pow_reachable v1 genesis c1 -> pow_reachable v2 genesis c2 -> c_blocks c1 = c_blocks c2 ->
  (forall h, is_Some (c_blocks c1 !! h) -> TotalDifficulty c1 h = TotalDifficulty c2 h) /\
  TotalDifficulty c1 (c_head c1) = TotalDifficulty c2 (c_head c2) /\
  ((forall h, is_Some (c_blocks c1 !! h) ->
      TotalDifficulty c1 h = TotalDifficulty c1 (c_head c1) -> h = c_head c1) ->
   c_head c1 = c_head c2).
Proof.
  intros R1 R2 E. pose proof (pow_reachable_inv _ _ _ R1) as [_ G1 T1].
  pose proof (pow_reachable_inv _ _ _ R2) as [_ G2 T2].
  pose proof (reachable_chain_inv _ _ (pow_reachable_reachable _ _ _ R1)) as [L1 Hd1 M1 _ _].
  pose proof (reachable_chain_inv _ _ (pow_reachable_reachable _ _ _ R2)) as [_ Hd2 M2 _ _].
  assert (T : forall h, is_Some (c_blocks c1 !! h) -> TotalDifficulty c1 h = TotalDifficulty c2 h).
  { intros h [b Hb]. destruct (li_path _ _ L1 _ _ Hb) as [path P].
    rewrite (T1 _ _ _ Hb P). symmetry. eapply T2; [by rewrite <- E|].
    unfold path_fits in *. by rewrite <- E, G2, <- G1. }
  assert (D : TotalDifficulty c1 (c_head c1) = TotalDifficulty c2 (c_head c2)).
  { rewrite <- E in Hd2, M2. apply Z.le_antisymm.
    - rewrite (T _ Hd1). by apply M2.
    - rewrite <- (T _ Hd2). by apply M1. }
  split_and!; [done|done|]. intros U. symmetry. rewrite <- E in Hd2. apply U; [done|].
  by rewrite (T _ Hd2).
Qed.

#[local] Existing Instance toy_engine.
#[local] Existing Instance toy_evm.
#[local] Existing Instance toy_blst.

Lemma pow_nodes_converge_witness :
  TotalDifficulty (SetChainID sample_chain 9) (c_head sample_chain)
  = TotalDifficulty sample_chain (c_head sample_chain).
Proof.
  assert (R : pow_reachable accept_all (ToBlock sample_genesis) sample_chain)
    by exact (pr_new accept_all (ToBlock sample_genesis) _ _ eq_refl).
  apply (pow_nodes_converge accept_all accept_all (ToBlock sample_genesis)
           (SetChainID sample_chain 9) sample_chain (pr_id _ _ _ 9 R) R eq_refl).
Defined.

(** ** The tally of checkpoint votes *)

Section Tally.
Context `{HE : Engine} `{HG : GethEVM} `{HB : Blst}.
Variable stake : Address -> Z.

Definition counts (t h : Hash) (a : Address) : Z := if decide (h = t) then stake a else 0.

(** the stake behind [t] in one round, and in all rounds *)
Definition round_stake (t : Hash) (m : gmap Address Hash) : Z :=
  map_fold (fun a h acc => counts t h a + acc) 0 m.
Definition votes_stake (t : Hash) (rounds : gmap Z (gmap Address Hash)) : Z :=
  map_fold (fun _ m acc => round_stake t m + acc) 0 rounds.

Lemma round_stake_insert t m a h :
  m !! a = None -> round_stake t (<[a := h]> m) = counts t h a + round_stake t m.
Proof. intros Hn. unfold round_stake. rewrite map_fold_insert_L; [done| |done]. intros. lia. Qed.

Lemma votes_stake_insert t rounds r m :
  rounds !! r = None -> votes_stake t (<[r := m]> rounds) = round_stake t m + votes_stake t rounds.
Proof. intros Hn. unfold votes_stake. rewrite map_fold_insert_L; [done| |done]. intros. lia. Qed.

Lemma votes_stake_update t rounds r m m' :
  rounds !! r = Some m ->
  votes_stake t (<[r := m']> rounds) = round_stake t m' - round_stake t m + votes_stake t rounds.
Proof.
  intros Hm. rewrite <- (insert_delete_id rounds r m) at 2 by done.
  rewrite <- insert_delete_eq, !votes_stake_insert by apply lookup_delete_eq. lia.
Qed.

(** opening a round *)
Lemma votes_stake_open t rounds r :
  let rounds' := match rounds !! r with None => <[r := ∅]> rounds | Some _ => rounds end in
  votes_stake t rounds' = votes_stake t rounds /\
  rounds' !! r = Some (default ∅ (rounds' !! r)).
Proof.
  destruct (rounds !! r) as [m|] eqn:E; simpl; [by rewrite E|].
  split; [by rewrite votes_stake_insert|]. rewrite lookup_insert, decide_True by done. done.
Qed.
End Tally.

Section Tallies.
Context `{HE : Engine} `{HG : GethEVM} `{HB : Blst}.

Definition stake_of (c : Chain) (a : Address) : Z :=
  match validatorByAddress c a with Some x => v_Stake x | None => 0 end.

(** the tally of every target is the stake of all its votes, over all rounds *)
Definition tally_ok (c : Chain) : Prop :=
  forall t, default 0 (c_checkpointStake c !! t) = u64 (votes_stake (stake_of c) t (c_attestedRound c)).

Lemma record_attestation_tally c tx : tally_ok c -> tally_ok (record_attestation c tx).
Proof.
  intros T. unfold record_attestation. destruct (negb _); [done|].
  destruct (DecodeAttest _) as [[[th target] sig]|]; [|done].
  destruct (validatorByAddress c (tx_From tx)) as [x|] eqn:Ex; [|done]. cbv zeta.
  set (r := CheckpointRound th).
  assert (O := fun t => votes_stake_open (stake_of c) t (c_attestedRound c) r). cbv zeta in O.
  set (rounds := match c_attestedRound c !! r with None => _ | Some _ => _ end) in *.
  set (votes := default ∅ (rounds !! r)) in *.
  assert (Hopen : forall t, default 0 (c_checkpointStake c !! t) = u64 (votes_stake (stake_of c) t rounds)).
  { intros t. rewrite T. by rewrite (proj1 (O t)). }
  destruct (votes !! tx_From tx) as [old|] eqn:Ev; [case_bool_decide; exact Hopen|].
  simpl c_jailed. destruct (is_jailed _ _); [exact Hopen|].
  assert (G : forall t,
    default 0 (<[target := u64 (default 0 (c_checkpointStake c !! target) + v_Stake x)]>
                 (c_checkpointStake c) !! t)
    = u64 (votes_stake (stake_of c) t (<[r := <[tx_From tx := target]> votes]> rounds))).
  { intros t. rewrite (votes_stake_update _ _ _ _ votes) by apply (O t).
    rewrite round_stake_insert by done. unfold counts, stake_of at 1. rewrite Ex, lookup_insert.
    destruct (decide (target = t)) as [<-|].
    - cbn [default from_option id]. rewrite Hopen. unfold u64. rewrite Zplus_mod_idemp_l. f_equal. lia.
    - rewrite Hopen. f_equal. lia. }
  simpl. destruct (_ && _); exact G.
Qed.

(** everything else leaves the votes alone *)
Record same_votes (c c' : Chain) : Prop := {
  sv_rounds : c_attestedRound c' = c_attestedRound c;
  sv_stake : c_checkpointStake c' = c_checkpointStake c;
  sv_set : c_validatorSet c' = c_validatorSet c;
}.

Lemma same_votes_tally c c' : same_votes c c' -> tally_ok c -> tally_ok c'.
Proof.
  intros [R S V] T t. rewrite R, S. rewrite T. unfold stake_of, validatorByAddress. by rewrite V.
Qed.

Lemma detectEquivocation_votes c b hash : same_votes c (detectEquivocation c b hash).
Proof. unfold detectEquivocation. cbv zeta. destruct (default ∅ _ !! _); by split. Qed.

Lemma choose_head_votes c hash st : same_votes c (choose_head c hash st).
Proof. unfold choose_head. by destruct (_ <? _). Qed.

Lemma AddBlock_tally c b v : tally_ok c -> tally_ok (fst (AddBlock c b v)).
Proof.
  intros T. destruct (validate_block c b v) as [[w st]|e] eqn:E; [|unfold AddBlock; by rewrite E].
  rewrite (AddBlock_steps _ _ _ _ _ E). cbn [fst].
  eapply same_votes_tally; [apply choose_head_votes|]. unfold note_evidence.
  set (c1 := with_block _ _ _ _). assert (T1 : tally_ok c1) by exact T. clearbody c1.
  case_bool_decide; [|done]. eapply same_votes_tally; [apply detectEquivocation_votes|].
  unfold recordAttestations. generalize (b_Txs b). intros txs. clear -T1. revert c1 T1.
  induction txs as [|tx txs IH]; intros c T1; [done|]. simpl. apply IH. by apply record_attestation_tally.
Qed.
End Tallies.

(** The checkpoint tally is exact.  From a chain without votes, after any
    sequence of blocks, the stake recorded for a target is the total stake of the
    validators whose recorded vote of a round is that target, summed over all the
    rounds: a validator is counted at most once per target and round, and nothing
    else is counted. *)
Theorem checkpoint_tally_exact `{Engine} `{GethEVM} `{Blst} v c bs t :
  c_attestedRound c = ∅ -> c_checkpointStake c = ∅ ->
  let c' := foldl (fun c b => fst (AddBlock c b v)) c bs in
  default 0 (c_checkpointStake c' !! t) = u64 (votes_stake (stake_of c') t (c_attestedRound c')).
Proof.
  intros E1 E2 c'. assert (T : tally_ok c).
  { intros u. rewrite E1, E2, lookup_empty. reflexivity. }
  subst c'. clear E1 E2. revert t. change (tally_ok (foldl (fun c b => fst (AddBlock c b v)) c bs)).
  revert c T. induction bs as [|b bs IH]; intros c T; [done|]. simpl. apply IH. by apply AddBlock_tally.
Qed.

Lemma checkpoint_tally_exact_witness :
  let c' := foldl (fun c b => fst (AddBlock c b accept_all)) pos_chain [pos_block pos_chain []] in
  default 0 (c_checkpointStake c' !! zero_hash)
  = u64 (votes_stake (stake_of c') zero_hash (c_attestedRound c')).
Proof.
  exact (checkpoint_tally_exact accept_all pos_chain [pos_block pos_chain []] zero_hash
           eq_refl eq_refl).
Defined.

(** three validators of equal stake *)
Definition three_validators : ValidatorSet :=
  mkValidatorSet [mkValidator alice (replicate 48 1) 10; mkValidator bob (replicate 48 2) 10;
                  mkValidator (replicate 20 3) (replicate 48 3) 10] 30.

Definition attest_tx (from : Address) (n height : Z) (target : Hash) (sig : bytes) : Transaction :=
  simple_tx from AttestAddress 0 n 0 0 0 (EncodeAttest height target sig).

(** one validator can finalize a checkpoint alone.  The tally is kept per
    target hash, not per round, and the BLS signature covers only the hash: a block
    in which one of three equal validators attests to the same hash for the heights
    32 and 64, with the same signature, passes verification, counts that
    validator's stake twice and finalizes the hash, with no vote of anyone else. *)
Theorem one_validator_finalizes :
  let c := fst (SetConsensusMode sample_chain PoS (Some three_validators)) in
  let target := replicate 32 7 in
  let sig := replicate 96 1 in
  let b := mkBlock (header_at 100 0 0 alice)
             [attest_tx alice 0 32 target sig; attest_tx alice 1 64 target sig] in
  let c' := recordAttestations c b in
  verifyAttestations c b = Ok tt /\
  c_checkpointStake c' !! target = Some 20 /\ FinalizedHash c' = target /\ FinalizedHeight c' = 64 /\
  vote_of c' 1 bob = None /\ vote_of c' 2 bob = None.
Proof. vm_compute. done. Qed.

(** Finality can leave the chain.  Recording attestations checks neither that the target is a
    stored block nor that it descends from the previous checkpoint: two of three validators
    that sign an arbitrary hash finalize it, their attestations pass verification, and no
    block is accepted ever after. *)
Theorem checkpoint_leaves_chain :
  let c := fst (SetConsensusMode sample_chain PoS (Some three_validators)) in
  let target := replicate 32 7 in
  let b := mkBlock (header_at 100 0 0 alice)
             [attest_tx alice 0 32 target (replicate 96 1); attest_tx bob 0 32 target (replicate 96 2)] in
  let c' := recordAttestations c b in
  verifyAttestations c b = Ok tt /\ FinalizedHash c' = target /\ c_blocks c' !! target = None /\
  forall x, exists e, AddBlock c' x accept_all = (c', Err e).
Proof.
  intros c target b c'. assert (L : same_ledger c c') by apply recordAttestations_ledger.
  assert (R : reachable accept_all c) by (apply rc_consensus, sample_chain_reachable).
  assert (Ef : FinalizedHash c' = target /\ FinalizedHeight c' = 32) by (vm_compute; done).
  destruct Ef as [Ef Eh].
  assert (En : c_blocks c' !! target = None) by (rewrite (sl_blocks _ _ L); vm_compute; reflexivity).
  split_and!; [vm_compute; reflexivity|done|done|]. apply unknown_checkpoint_halts.
  - destruct (reachable_finality_ok _ _ R) as (I & Hz & _). split_and!.
    + exact (chain_inv_ledger _ _ _ L I).
    + unfold block_at. rewrite (sl_blocks _ _ L), (sl_genesis _ _ L). exact Hz.
    + change (c_finalizedHeight c') with (FinalizedHeight c'). lia.
  - rewrite (sl_cmode _ _ L). reflexivity.
  - change (c_finalizedHash c') with (FinalizedHash c'). rewrite Ef. reflexivity.
  - change (c_finalizedHash c') with (FinalizedHash c'). by rewrite Ef.
Qed.
