(* ===== verification/Slashing.v ===== *)
(** * Slashing

    Who is jailed on a proof-of-stake chain: the evidence [recordAttestations] and
    [detectEquivocation] (chain/chain.go) keep, related to the blocks the chain stores. *)

From S2P Require Import Prelude Sha256 Core Pow FeeMarket StateDB Mpt Pos StackVM Exchange.
From S2P Require Import ExchangeProps Adapter Transition TransitionTheorems Chain ChainProps.
From S2P Require Import ChainTheorems ForkChoice.

(** the transaction is [a]'s attestation of [t] in a round *)
Definition votes_for (tx : Transaction) (a : Address) (round : Z) (t : Hash) : Prop :=
  IsAttestationTx tx = true /\ tx_From tx = a /\
  exists th sig, DecodeAttest (tx_Data tx) = Ok (th, t, sig) /\ CheckpointRound th = round.

Section Evidence.
Context `{HE : Engine} `{HG : GethEVM} `{HB : Blst}.

(** a stored block holds [a]'s vote *)
Definition voted (c : Chain) (a : Address) (round : Z) (t : Hash) : Prop :=
  exists h b tx, c_blocks c !! h = Some b /\ h <> c_genesisHash c /\ tx ∈ b_Txs b /\
    votes_for tx a round t.

(** the chain stores the block [h] of [a] on the parent [prev] *)
Definition proposed (c : Chain) (a : Address) (prev h : Hash) : Prop :=
  h <> c_genesisHash c /\ exists b, c_blocks c !! h = Some b /\
    h_PrevHash (b_Header b) = prev /\ h_Coinbase (b_Header b) = a.

(** the recorded proposal of [a] on [prev] *)
Definition proposal_of (c : Chain) (prev : Hash) (a : Address) : option Hash :=
  slot ← c_proposedAtHeight c !! prev; slot !! a.

(** two votes in one round, or two blocks on one parent *)
Definition conflict (V : Address -> Z -> Hash -> Prop) (P : Address -> Hash -> Hash -> Prop)
    (a : Address) : Prop :=
  (exists r t1 t2, t1 <> t2 /\ V a r t1 /\ V a r t2) \/
  (exists prev h1 h2, h1 <> h2 /\ P a prev h1 /\ P a prev h2).

Definition equivocated (c : Chain) (a : Address) : Prop := conflict (voted c) (proposed c) a.

(** what the chain has recorded of the votes [V] and the proposals [P] *)
Record evidence (V : Address -> Z -> Hash -> Prop) (P : Address -> Hash -> Hash -> Prop)
    (c : Chain) : Prop := {
  ev_vote : forall r a t, vote_of c r a = Some t -> V a r t;
  ev_voted : forall r a t, V a r t -> vote_of c r a = Some t \/ Jailed c a = true;
  ev_proposal : forall p a h, proposal_of c p a = Some h -> P a p h;
  ev_proposed : forall p a h, P a p h -> proposal_of c p a = Some h \/ Jailed c a = true;
  ev_jailed : forall a, Jailed c a = true -> conflict V P a;
}.

Lemma conflict_mono (V V' : Address -> Z -> Hash -> Prop) (P P' : Address -> Hash -> Hash -> Prop) a :
  (forall r t, V a r t -> V' a r t) -> (forall p h, P a p h -> P' a p h) ->
  conflict V P a -> conflict V' P' a.
Proof.
  intros HV HP [(r & t1 & t2 & Hne & H1 & H2)|(p & h1 & h2 & Hne & H1 & H2)].
  - left. exists r, t1, t2. auto.
  - right. exists p, h1, h2. auto.
Qed.

Lemma evidence_iff V V' P P' c :
  (forall a r t, V a r t <-> V' a r t) -> (forall a p h, P a p h <-> P' a p h) ->
  evidence V P c -> evidence V' P' c.
Proof.
  intros HV HP [E1 E2 E3 E4 E5]. split.
  - intros r a t Hv. by apply HV, E1.
  - intros r a t Hv%HV. by apply E2.
  - intros p a h Hv. by apply HP, E3.
  - intros p a h Hv%HP. by apply E4.
  - intros a Hj. eapply conflict_mono; [apply HV|apply HP|by apply E5].
Qed.

(** the jailing evidence decides exactly the conflicts *)
Lemma evidence_jailed V P c a : evidence V P c -> Jailed c a = true <-> conflict V P a.
Proof.
  intros [E1 E2 E3 E4 E5]. split; [apply E5|].
  intros [(r & t1 & t2 & Hne & H1 & H2)|(p & h1 & h2 & Hne & H1 & H2)].
  - destruct (E2 _ _ _ H1) as [V1|]; [|done]. destruct (E2 _ _ _ H2) as [V2|]; [|done]. congruence.
  - destruct (E4 _ _ _ H1) as [V1|]; [|done]. destruct (E4 _ _ _ H2) as [V2|]; [|done]. congruence.
Qed.

(** only these three fields matter *)
Definition same_evidence (c c' : Chain) : Prop :=
  (forall r a, vote_of c' r a = vote_of c r a) /\ (forall p a, proposal_of c' p a = proposal_of c p a) /\
  (forall a, Jailed c' a = Jailed c a).

Lemma evidence_same V P c c' : same_evidence c c' -> evidence V P c -> evidence V P c'.
Proof.
  intros (HV & HP & HJ) [E1 E2 E3 E4 E5]. split.
  - intros r a t. rewrite HV. apply E1.
  - intros r a t. rewrite HV, HJ. apply E2.
  - intros p a h. rewrite HP. apply E3.
  - intros p a h. rewrite HP, HJ. apply E4.
  - intros a. rewrite HJ. apply E5.
Qed.

Lemma is_jailed_insert jailed a b :
  is_jailed (<[a := true]> jailed) b = true <-> b = a \/ is_jailed jailed b = true.
Proof.
  unfold is_jailed. rewrite lookup_insert. destruct (decide (a = b)) as [->|]; [split; [by left|done]|].
  split; [by right|]. by intros [->|].
Qed.

(** ** One attestation *)

(** what [record_attestation] does with a vote for [t] *)
Lemma record_attestation_effect c tx th t sig :
  IsAttestationTx tx = true -> DecodeAttest (tx_Data tx) = Ok (th, t, sig) ->
  is_Some (validatorByAddress c (tx_From tx)) ->
  let c' := record_attestation c tx in
  let a := tx_From tx in
  let r := CheckpointRound th in
  (forall p x, proposal_of c' p x = proposal_of c p x) /\
  match vote_of c r a with
  | Some t' =>
      (forall r' x, vote_of c' r' x = vote_of c r' x) /\
      (forall x, Jailed c' x = true <-> Jailed c x = true \/ (t' <> t /\ x = a))
  | None =>
      (forall x, Jailed c' x = Jailed c x) /\
      (forall r' x, vote_of c' r' x =
         if decide (r' = r /\ x = a /\ Jailed c a = false) then Some t else vote_of c r' x)
  end.
Proof.
  intros Hi Hd [val Hv]. cbv zeta. unfold record_attestation. rewrite Hi, Hd, Hv. cbv zeta. cbn [negb].
  set (r := CheckpointRound th). set (a := tx_From tx).
  pose proof (open_round (c_attestedRound c) r) as O. cbv zeta in O.
  set (rounds := match c_attestedRound c !! r with None => _ | Some _ => _ end) in *.
  set (votes := default ∅ (rounds !! r)).
  assert (EV : votes !! a = vote_of c r a).
  { unfold vote_of. rewrite <- O. unfold votes. destruct (rounds !! r); [done|].
    cbn [default from_option id]. by rewrite lookup_empty. }
  rewrite EV. destruct (vote_of c r a) as [t'|] eqn:Ev.
  - case_bool_decide as Et; (split; [done|split; [intros r' x; unfold vote_of; cbn; by rewrite O|intros x]]).
    + split; [by left|]. by intros [?|[? _]].
    + unfold Jailed, jail. cbn [with_votes c_jailed]. rewrite is_jailed_insert. split; [intros [->|?]; auto|intros [?|[_ ->]]; auto].
  - change (c_jailed (with_votes _ _ _ _ _ _)) with (c_jailed c). fold (Jailed c a).
    destruct (Jailed c a) eqn:Ej.
    + split; [done|]. split; [done|]. intros r' x. rewrite decide_False by (by intros (_ & _ & ?)).
      unfold vote_of; cbn; by rewrite O.
    + assert (EV2 : forall r' x, (m ← <[r := <[a := t]> votes]> rounds !! r'; m !! x) =
        if decide (r' = r /\ x = a /\ false = false) then Some t else vote_of c r' x).
      { intros r' x. rewrite lookup_insert. destruct (decide (r = r')) as [<-|Hr].
        - cbn. rewrite lookup_insert. destruct (decide (a = x)) as [<-|Hx].
          + by rewrite decide_True.
          + rewrite decide_False by (by intros (_ & <- & _)). unfold vote_of. rewrite <- O. unfold votes.
            destruct (rounds !! r); [done|]. cbn. by rewrite lookup_empty.
        - rewrite decide_False by (by intros (<- & _)). unfold vote_of. by rewrite <- O. }
      cbn zeta. destruct (_ && _); (split; [done|]); (split; [done|exact EV2]).
Qed.

Lemma record_attestation_evidence V P c tx :
  (IsAttestationTx tx = true -> is_Some (validatorByAddress c (tx_From tx))) ->
  evidence V P c ->
  evidence (fun a r t => V a r t \/ votes_for tx a r t) P (record_attestation c tx).
Proof.
  intros Hval E.
  assert (Hno : (forall a r t, ~ votes_for tx a r t) -> record_attestation c tx = c ->
    evidence (fun a r t => V a r t \/ votes_for tx a r t) P (record_attestation c tx)).
  { intros Hn ->. eapply evidence_iff; [| |exact E]; [|done]. intros a r t.
    split; [by left|]. intros [?|Hv]; [done|]. by destruct (Hn _ _ _ Hv). }
  destruct (IsAttestationTx tx) eqn:Hi.
  2: { apply Hno; [by intros a r t (? & _); congruence|]. unfold record_attestation. by rewrite Hi. }
  destruct (DecodeAttest (tx_Data tx)) as [[[th t] sig]|e] eqn:Hd.
  2: { apply Hno; [intros a r t (_ & _ & ? & ? & ? & _); congruence|].
       unfold record_attestation. by rewrite Hi, Hd. }
  destruct (record_attestation_effect c tx th t sig Hi Hd (Hval eq_refl)) as [HP HV].
  set (c' := record_attestation c tx) in *. set (r := CheckpointRound th) in *. set (a := tx_From tx) in *.
  assert (Hvf : forall x r' t', votes_for tx x r' t' <-> x = a /\ r' = r /\ t' = t).
  { intros x r' t'. unfold votes_for. rewrite Hd. split.
    - intros (_ & <- & th' & sig' & [= <- <- <-] & <-). done.
    - intros (-> & -> & ->). split_and!; [done|done|]. by exists th, sig. }
  clearbody c'. destruct E as [E1 E2 E3 E4 E5].
  assert (Hc : forall x, Jailed c x = true -> conflict (fun a r t => V a r t \/ votes_for tx a r t) P x).
  { intros x Hj. eapply conflict_mono; [| |by apply E5]; [by left|done]. }
  destruct (vote_of c r a) as [old|] eqn:Ev.
  - destruct HV as [HV HJ]. split.
    + intros r' x t'. rewrite HV. left. by apply E1.
    + intros r' x t'. rewrite HV, HJ. intros [Hv|(-> & -> & ->)%Hvf].
      * destruct (E2 _ _ _ Hv); auto.
      * rewrite Ev. destruct (decide (old = t)) as [->|]; auto.
    + intros p x h. rewrite HP. apply E3.
    + intros p x h Hp. rewrite HP, HJ. destruct (E4 _ _ _ Hp); auto.
    + intros x [Hj|[Hne ->]]%HJ; [by apply Hc|]. left. exists r, old, t.
      split_and!; [done|left; by apply E1|right; by apply Hvf].
  - destruct HV as [HJ HV]. split.
    + intros r' x t'. rewrite HV. destruct (decide (r' = r /\ x = a /\ Jailed c a = false)) as [Hd'|Hd'];
        [|intros Hv; left; by apply E1].
      intros [= <-]. right. apply Hvf. by destruct Hd' as (-> & -> & _).
    + intros r' x t'. rewrite HV, HJ.
      destruct (decide (r' = r /\ x = a /\ Jailed c a = false)) as [Hd'|Hd'].
      * destruct Hd' as (-> & -> & _). intros [Hv|(_ & _ & ->)%Hvf]; [|by left].
        destruct (E2 _ _ _ Hv) as [?|?]; [congruence|by right].
      * intros [Hv|(-> & -> & ->)%Hvf]; [by apply E2|]. right. destruct (Jailed c a); [done|].
        by destruct Hd'.
    + intros p x h. rewrite HP. apply E3.
    + intros p x h Hp. rewrite HP, HJ. by apply E4.
    + intros x. rewrite HJ. apply Hc.
Qed.

(** ** One block *)

Lemma record_attestation_validators c tx a :
  validatorByAddress (record_attestation c tx) a = validatorByAddress c a.
Proof. unfold validatorByAddress. by rewrite (sl_vset _ _ (record_attestation_ledger c tx)). Qed.

Lemma recordAttestations_evidence V P c b :
  (forall tx, tx ∈ b_Txs b -> IsAttestationTx tx = true ->
     is_Some (validatorByAddress c (tx_From tx))) ->
  evidence V P c ->
  evidence (fun a r t => V a r t \/ exists tx, tx ∈ b_Txs b /\ votes_for tx a r t) P
    (recordAttestations c b).
Proof.
  unfold recordAttestations. generalize (b_Txs b). intros txs. revert V c.
  induction txs as [|tx txs IH]; intros V c Hval E; cbn [foldl].
  - eapply evidence_iff; [| |exact E]; [|done]. intros a r t. split; [by left|].
    intros [?|(tx & Hin & _)]; [done|]. by apply not_elem_of_nil in Hin.
  - eapply evidence_iff; [| |apply IH].
    4: { apply record_attestation_evidence; [|exact E]. apply Hval, list_elem_of_here. }
    + intros a r t. split.
      * intros [[?|?]|(x & Hin & Hx)]; [by left|right; exists tx|right; exists x].
        -- split; [apply list_elem_of_here|done].
        -- split; [by apply list_elem_of_further|done].
      * intros [?|(x & [->|Hin]%elem_of_cons & Hx)]; [by left; left|by left; right|].
        right. by exists x.
    + done.
    + intros x Hx Hi. rewrite record_attestation_validators. apply Hval; [by apply list_elem_of_further|done].
Qed.

Lemma open_proposals (proposed : gmap Hash (gmap Address Hash)) prev p a :
  let proposed' := match proposed !! prev with
                   | None => <[prev := ∅]> proposed
                   | Some _ => proposed
                   end in
  (slot ← proposed' !! p; slot !! a) = (slot ← proposed !! p; slot !! a).
Proof.
  destruct (proposed !! prev) as [m|] eqn:E; [done|]. cbn. rewrite lookup_insert.
  case_decide as Er; [|done]. subst. by rewrite E.
Qed.

Lemma detectEquivocation_evidence V P c b hash :
  let prev := h_PrevHash (b_Header b) in
  let coinbase := h_Coinbase (b_Header b) in
  evidence V P c ->
  evidence V (fun a p h => P a p h \/ (a = coinbase /\ p = prev /\ h = hash))
    (detectEquivocation c b hash).
Proof.
  intros prev coinbase [E1 E2 E3 E4 E5]. unfold detectEquivocation. cbv zeta. fold prev coinbase.
  pose proof (open_proposals (c_proposedAtHeight c) prev) as O. cbv zeta in O.
  set (props := match c_proposedAtHeight c !! prev with None => _ | Some _ => _ end) in *.
  set (slot := default ∅ (props !! prev)).
  assert (ES : slot !! coinbase = proposal_of c prev coinbase).
  { unfold proposal_of. rewrite <- O. unfold slot. destruct (props !! prev); [done|]. cbn.
    by rewrite lookup_empty. }
  assert (Hc : forall x, Jailed c x = true ->
    conflict V (fun a p h => P a p h \/ (a = coinbase /\ p = prev /\ h = hash)) x).
  { intros x Hj. eapply conflict_mono; [| |by apply E5]; [done|by left]. }
  rewrite ES. destruct (proposal_of c prev coinbase) as [old|] eqn:Ep.
  - set (c' := with_proposals _ _ _).
    assert (HP : forall p x, proposal_of c' p x = proposal_of c p x).
    { intros p x. unfold proposal_of. cbn. apply O. }
    assert (HJ : forall x, Jailed c' x = true <-> Jailed c x = true \/ (old <> hash /\ x = coinbase)).
    { intros x. unfold Jailed, c'. cbn [with_proposals c_jailed]. case_bool_decide as Eo.
      - split; [by left|]. by intros [?|[? _]].
      - unfold jail. rewrite is_jailed_insert. split; [intros [->|?]; auto|intros [?|[_ ->]]; auto]. }
    assert (HV : forall r x, vote_of c' r x = vote_of c r x) by done. clearbody c'.
    split.
    + intros r x t. rewrite HV. apply E1.
    + intros r x t Hv. rewrite HV, HJ. destruct (E2 _ _ _ Hv); auto.
    + intros p x h. rewrite HP. left. by apply E3.
    + intros p x h. rewrite HP, HJ. intros [Hp|(-> & -> & ->)]; [destruct (E4 _ _ _ Hp); auto|].
      rewrite Ep. destruct (decide (old = hash)) as [->|]; auto.
    + intros x [Hj|[Hne ->]]%HJ; [by apply Hc|]. right. exists prev, old, hash.
      split_and!; [done|left; by apply E3|by right].
  - split.
    + exact E1.
    + exact E2.
    + intros p x h. unfold proposal_of. cbn. rewrite lookup_insert. case_decide as Epr.
      * subst p. cbn. rewrite lookup_insert. case_decide as Ex.
        -- intros [= <-]. right. done.
        -- intros Hs. left. apply E3. unfold proposal_of. rewrite <- O. revert Hs. unfold slot.
           destruct (props !! prev); [done|]. cbn. by rewrite lookup_empty.
      * intros Hs. left. apply E3. unfold proposal_of. by rewrite <- O.
    + intros p x h Hp. unfold proposal_of. cbn. rewrite lookup_insert. case_decide as Epr.
      * subst p. cbn. rewrite lookup_insert. case_decide as Ex.
        -- subst x. destruct Hp as [Hp|(_ & _ & ->)]; [|by left].
           destruct (E4 _ _ _ Hp) as [?|?]; [congruence|by right].
        -- destruct Hp as [Hp|(-> & _)]; [|done]. destruct (E4 _ _ _ Hp) as [Hs|?]; [left|by right].
           revert Hs. unfold proposal_of. rewrite <- O. unfold slot. by destruct (props !! prev).
      * destruct Hp as [Hp|(_ & -> & _)]; [|done]. destruct (E4 _ _ _ Hp) as [Hs|?]; [left|by right].
        revert Hs. unfold proposal_of. by rewrite <- O.
    + exact Hc.
Qed.

(** ** The chain *)

Lemma verify_attestations_validators c height txs tx :
  verify_attestations c height txs = Ok tt -> tx ∈ txs -> IsAttestationTx tx = true ->
  is_Some (validatorByAddress c (tx_From tx)).
Proof.
  induction txs as [|x txs IH]; intros E Hin Hi; [by apply not_elem_of_nil in Hin|].
  cbn [verify_attestations] in E. destruct (verify_attestation c height x) as [u|] eqn:Ex; [|done].
  cbn [mbind result_bind] in E. apply elem_of_cons in Hin as [->|Hin]; [|by apply IH].
  unfold verify_attestation in Ex. rewrite Hi in Ex. cbn [negb] in Ex.
  destruct (DecodeAttest _) as [[[th t] sig]|]; [|done]. destruct (negb _); [done|].
  destruct (_ <=? _); [done|]. by destruct (validatorByAddress c (tx_From x)).
Qed.

Lemma accepted_attestations c b v w st tx :
  accepted c b v w st -> c_consensusMode c = PoS -> tx ∈ b_Txs b -> IsAttestationTx tx = true ->
  is_Some (validatorByAddress c (tx_From tx)).
Proof.
  intros A Hm. pose proof (ac_consensus _ _ _ _ _ A) as C. unfold check_consensus in C.
  rewrite bool_decide_eq_true_2 in C by done. destruct (EffectiveValidatorSet c) as [active total].
  destruct (SelectProposer _ _ _) as [sel|]; [|done]. cbn [mbind result_bind] in C.
  destruct (negb _); [done|]. destruct (negb _); [done|].
  destruct (verifyAttestations c b) as [[]|] eqn:Ev; [|done]. intros Hin Hi.
  exact (verify_attestations_validators c _ _ tx Ev Hin Hi).
Qed.

(** the votes and proposals of the chain after a block is stored *)
Lemma stored_evidence c c' b :
  c_blocks c' = <[block_Hash b := b]> (c_blocks c) -> c_genesisHash c' = c_genesisHash c ->
  c_blocks c !! block_Hash b = None -> block_Hash b <> c_genesisHash c ->
  (forall a r t, voted c' a r t <-> voted c a r t \/ exists tx, tx ∈ b_Txs b /\ votes_for tx a r t) /\
  (forall a p h, proposed c' a p h <-> proposed c a p h \/
     (a = h_Coinbase (b_Header b) /\ p = h_PrevHash (b_Header b) /\ h = block_Hash b)).
Proof.
  intros EB EG Hn Hne. unfold voted, proposed. rewrite EB, EG. split.
  - intros a r t. split.
    + intros (h & x & tx & Hx & Hh & Hin & Hv). rewrite lookup_insert in Hx. case_decide as E.
      * injection Hx as <-. right. by exists tx.
      * left. by exists h, x, tx.
    + intros [(h & x & tx & Hx & Hh & Hin & Hv)|(tx & Hin & Hv)].
      * exists h, x, tx. rewrite lookup_insert_ne by congruence. done.
      * exists (block_Hash b), b, tx. by rewrite lookup_insert_eq.
  - intros a p h. split.
    + intros (Hh & x & Hx & Hp & Ha). rewrite lookup_insert in Hx. case_decide as E.
      * injection Hx as <-. by right.
      * left. split; [done|]. by exists x.
    + intros [(Hh & x & Hx & Hp & Ha)|(-> & -> & ->)].
      * split; [done|]. exists x. by rewrite lookup_insert_ne by congruence.
      * split; [done|]. exists b. by rewrite lookup_insert_eq.
Qed.

Lemma choose_head_evidence c hash st : same_evidence c (choose_head c hash st).
Proof. unfold choose_head. by destruct (_ <? _). Qed.

(** a proof-of-stake chain whose recorded evidence is that of its blocks *)
Definition accountable (c : Chain) : Prop :=
  c_consensusMode c = PoS /\ is_Some (c_blocks c !! c_genesisHash c) /\
  evidence (voted c) (proposed c) c.

Lemma AddBlock_accountable v c b : accountable c -> accountable (fst (AddBlock c b v)).
Proof.
  intros (Hm & [g Hg] & E).
  destruct (snd (AddBlock c b v)) as [[]|e] eqn:Er; [|by rewrite (AddBlock_err _ _ _ _ Er); eauto].
  pose proof (AddBlock_surj c b v Er) as EA.
  destruct (AddBlock_ok _ _ _ _ EA) as (w & st & A & EB & _ & EG & _).
  pose proof (ac_fresh _ _ _ _ _ A) as Hn.
  assert (Hne : block_Hash b <> c_genesisHash c) by congruence.
  destruct (stored_evidence c (fst (AddBlock c b v)) b EB EG Hn Hne) as [HV HP].
  split; [by rewrite AddBlock_mode|]. split.
  { rewrite EB, EG, lookup_insert_ne by done. by eexists. }
  apply (evidence_iff _ _ _ _ _ (fun a r t => iff_sym (HV a r t)) (fun a p h => iff_sym (HP a p h))).
  pose proof (proj2 (validate_block_iff _ _ _ _ _) A) as Eval. rewrite (AddBlock_steps _ _ _ _ _ Eval).
  cbn [fst]. set (c1 := with_block _ _ _ _).
  apply (evidence_same _ _ _ _ (choose_head_evidence _ _ _)). unfold note_evidence.
  rewrite bool_decide_eq_true_2 by done.
  apply detectEquivocation_evidence, recordAttestations_evidence.
  - intros tx. by apply (accepted_attestations c b v w st tx A).
  - exact (evidence_same _ _ c c1 ltac:(done) E).
Qed.

(** a proof-of-stake chain that holds only its genesis block *)
Record fresh_pos (c : Chain) : Prop := {
  fp_mode : c_consensusMode c = PoS;
  fp_blocks : exists g, c_blocks c = {[c_genesisHash c := g]};
  fp_votes : c_attestedRound c = ∅;
  fp_proposals : c_proposedAtHeight c = ∅;
  fp_jailed : c_jailed c = ∅;
}.

(** every new chain, switched to proof of stake *)
Lemma New_fresh_pos genesis alloc base id gas mode vs :
  fresh_pos (with_config (NewChainWithAlloc genesis alloc base) id gas mode PoS vs).
Proof. split; [done|by exists genesis|done..]. Qed.

Lemma fresh_accountable c : fresh_pos c -> accountable c.
Proof.
  intros [Hm [g Hg] Hv Hp Hj].
  assert (Hst : forall h b, c_blocks c !! h = Some b -> h = c_genesisHash c).
  { intros h b. rewrite Hg. by intros [-> _]%lookup_singleton_Some. }
  split; [done|]. split; [rewrite Hg, lookup_singleton_eq; by eexists|].
  unfold vote_of, proposal_of, Jailed, is_jailed. split.
  - intros r a t. unfold vote_of. by rewrite Hv, lookup_empty.
  - intros r a t (h & b & tx & Hb & Hh & _). by apply Hst in Hb.
  - intros p a h. unfold proposal_of. by rewrite Hp, lookup_empty.
  - intros p a h (Hh & b & Hb & _). by apply Hst in Hb.
  - intros a. unfold Jailed, is_jailed. by rewrite Hj, lookup_empty.
Qed.
End Evidence.

(** C17: jailing is exact.  On a proof-of-stake chain, after any sequence of blocks offered
    to [AddBlock], a validator is jailed if and only if the stored blocks hold two
    attestations of it for one round with different targets, or two different blocks of
    it on the same parent: nobody is jailed without evidence that the chain holds, and
    no such evidence goes unpunished, whatever branch it is on. *)
Theorem jailing_exact `{Engine} `{GethEVM} `{Blst} v c bs a :
  fresh_pos c ->
  let c' := foldl (fun c b => fst (AddBlock c b v)) c bs in
  Jailed c' a = true <-> equivocated c' a.
Proof.
  intros Hf%fresh_accountable c'. apply evidence_jailed. subst c'. revert c Hf.
  induction bs as [|b bs IH]; intros c Hc; cbn [foldl]; [by destruct Hc as (_ & _ & ?)|].
  by apply IH, AddBlock_accountable.
Qed.

#[local] Existing Instance toy_engine.
#[local] Existing Instance toy_evm.
#[local] Existing Instance toy_blst.

(** a validator that signs two blocks on the genesis block is jailed *)
Definition late_block : Block :=
  let b := pos_block pos_chain [] in
  let h := b_Header b in
  mkBlock (mkHeader (h_Height h) (h_PrevHash h) (h_MerkleRoot h) (h_StateRoot h) (h_Coinbase h)
             (h_Timestamp h + 1) (h_Difficulty h) (h_Nonce h) (h_BaseFee h) (h_GasUsed h)
             (h_ProposerSig h)) (b_Txs b).

Lemma pos_chain_fresh : fresh_pos pos_chain.
Proof.
  unfold pos_chain, SetConsensusMode. cbn [Len one_validator vs_validators length Nat.eqb].
  rewrite andb_false_r. cbn [fst]. unfold sample_chain, NewChain. apply New_fresh_pos.
Qed.

Lemma jailing_exact_witness :
  let c' := foldl (fun c b => fst (AddBlock c b accept_all)) pos_chain [pos_block pos_chain []; late_block] in
  equivocated c' alice /\ ~ equivocated c' bob.
Proof.
  pose proof pos_chain_fresh as F.
  split.
  - apply (jailing_exact accept_all pos_chain [pos_block pos_chain []; late_block] alice F).
    vm_compute. reflexivity.
  - intros E%(jailing_exact accept_all pos_chain [pos_block pos_chain []; late_block] bob F).
    revert E. vm_compute. discriminate.
Defined.
