(* ===== verification/BlockBuilder.v ===== *)
(** * Selecting the transactions of a block

    Models chain/blockbuilder.go.  Addresses are ordered by their hexadecimal
    strings, which is the order of their bytes.  [sort.Slice] is a merge sort: it
    only differs from Go's where a sender has two pending transactions with the same
    nonce, whose order Go leaves open. *)

From stdpp Require Import sorting.
From S2P Require Import Prelude Sha256 Core Pow FeeMarket StateDB Mpt Pos StackVM Exchange.
From S2P Require Import Adapter Transition Chain.

Definition isFeePriced (st : mptStateDB) (tx : Transaction) : bool :=
  if IsExchangeTx tx || IsAttestationTx tx then false
  else isEVMTx st tx || isContractTx st tx.

(** ** Queues *)

Definition nonce_le (x y : Transaction) : Prop := tx_Nonce x <= tx_Nonce y.
#[export] Instance nonce_le_dec x y : Decision (nonce_le x y).
Proof. unfold nonce_le. apply _. Defined.

Definition group_by_sender (mempool : list Transaction) : gmap Address (list Transaction) :=
  foldl (fun m tx => <[tx_From tx := default [] (m !! tx_From tx) ++ [tx]]> m) ∅ mempool.

Definition bySender (mempool : list Transaction) : gmap Address (list Transaction) :=
  merge_sort nonce_le <$> group_by_sender mempool.

Definition senders_of (queues : gmap Address (list Transaction)) : list Address :=
  sort_bytes (elements (dom queues)).

(** ** The loop's state *)

Record builder := mkBuilder {
  queuePos : gmap Address nat;
  active : gset Address;
  included : list Transaction;
  gasBudget : Z;
}.

Section Builder.
Variable st : mptStateDB.
Variable baseFee gasLimit : Z.
Variable queues : gmap Address (list Transaction).
Variable senders : list Address.

Definition queue (a : Address) : list Transaction := default [] (queues !! a).
Definition pos (s : builder) (a : Address) : nat := default 0%nat (queuePos s !! a).

(** the transactions from the front of a queue that pay no fee *)
Fixpoint free_prefix (txs : list Transaction) : list Transaction :=
  match txs with
  | [] => []
  | tx :: rest => if isFeePriced st tx then [] else tx :: free_prefix rest
  end.

(** drains one sender *)
Definition drain_one (s : builder) (a : Address) : builder :=
  if negb (bool_decide (a ∈ active s)) then s
  else
    let taken := free_prefix (drop (pos s a) (queue a)) in
    let i := (pos s a + length taken)%nat in
    mkBuilder (<[a := i]> (queuePos s))
      (if (length (queue a) <=? i)%nat then active s ∖ {[a]} else active s)
      (included s ++ taken) (gasBudget s).

Definition drain (s : builder) : builder := foldl drain_one s senders.

Record candidate := mkCand { cd_addr : Address; cd_tx : Transaction; cd_fee : Z }.

(** collects one sender's candidate; [None] is an index out of range *)
Definition collect_one (qpos : gmap Address nat) (acc : option (gset Address * list candidate))
    (a : Address) : option (gset Address * list candidate) :=
  '(act, cands) ← acc;
  if negb (bool_decide (a ∈ act)) then Some (act, cands)
  else
    tx ← queue a !! default 0%nat (qpos !! a);
    if tx_GasFeeCap tx <? baseFee then Some (act ∖ {[a]}, cands)
    else Some (act, cands ++ [mkCand a tx (priority_fee tx baseFee)]).

Definition collect (s : builder) : option (gset Address * list candidate) :=
  foldl (collect_one (queuePos s)) (Some (active s, [])) senders.

(** the candidates' order: higher fee first, then the smaller address *)
Definition cand_le (x y : candidate) : Prop :=
  cd_fee y < cd_fee x \/ cd_fee x = cd_fee y /\ byte_le (cd_addr x) (cd_addr y).
#[export] Instance cand_le_dec x y : Decision (cand_le x y).
Proof. unfold cand_le. apply _. Defined.

(** takes the winner, or drops its sender *)
Definition take_winner (s : builder) (w : candidate) : builder :=
  let a := cd_addr w in
  if gasLimit <? u64 (gasBudget s + tx_GasLimit (cd_tx w))
  then mkBuilder (queuePos s) (active s ∖ {[a]}) (included s) (gasBudget s)
  else
    let i := S (pos s a) in
    mkBuilder (<[a := i]> (queuePos s))
      (if (length (queue a) <=? i)%nat then active s ∖ {[a]} else active s)
      (included s ++ [cd_tx w]) (u64 (gasBudget s + tx_GasLimit (cd_tx w))).

(** one iteration *)
Definition build_step (s : builder) : option builder :=
  let s := drain s in
  '(act, cands) ← collect s;
  let s := mkBuilder (queuePos s) act (included s) (gasBudget s) in
  match merge_sort cand_le cands with
  | [] => Some s
  | winner :: _ => Some (take_winner s winner)
  end.

(** [for len(active) > 0]; [None] also when the fuel runs out *)
Fixpoint build_loop (fuel : nat) (s : builder) : option (list Transaction) :=
  if (size (active s) =? 0)%nat then Some (included s)
  else
    match fuel with
    | O => None
    | S fuel' => s' ← build_step s; build_loop fuel' s'
    end.
End Builder.

Definition new_builder (senders : list Address) : builder :=
  mkBuilder ∅ (list_to_set senders) [] 0.

(** every iteration takes a transaction or retires a sender *)
Definition build_fuel (queues : gmap Address (list Transaction)) (senders : list Address) : nat :=
  sum_list_with (fun a => length (queue queues a)) senders + length senders.

(** [BuildBlockTxs]; the default is never used ([BuildBlockTxs_total]) *)
Definition BuildBlockTxs_opt (c : Chain) (mempool : list Transaction) : option (list Transaction) :=
  let queues := bySender mempool in
  let senders := senders_of queues in
  build_loop (State c) (NextBaseFee c) (c_gasLimit c) queues senders (build_fuel queues senders)
    (new_builder senders).

Definition BuildBlockTxs (c : Chain) (mempool : list Transaction) : list Transaction :=
  default [] (BuildBlockTxs_opt c mempool).
