(* ===== verification/BlockBuilderProps.v ===== *)
(** * Selecting the transactions of a block: order, price, gas, termination *)

From stdpp Require Import sorting.
From S2P Require Import Prelude Sha256 Core Pow FeeMarket StateDB Mpt Pos StackVM Exchange.
From S2P Require Import ExchangeProps Adapter Transition TransitionTheorems Chain ChainProps.
From S2P Require Import ChainTheorems BlockBuilder.

(** the transactions of one sender *)
Definition of_sender (a : Address) (txs : list Transaction) : list Transaction :=
  filter (fun tx => tx_From tx = a) txs.

Lemma of_sender_app a l k : of_sender a (l ++ k) = of_sender a l ++ of_sender a k.
Proof. apply filter_app. Qed.

Lemma of_sender_same a l : Forall (fun tx => tx_From tx = a) l -> of_sender a l = l.
Proof.
  induction 1 as [|tx l E _ IH]; [done|]. unfold of_sender in *. rewrite filter_cons_True by done.
  by rewrite IH.
Qed.

Lemma of_sender_other a b l : a <> b -> Forall (fun tx => tx_From tx = b) l -> of_sender a l = [].
Proof.
  intros Hne. induction 1 as [|tx l E _ IH]; [done|]. unfold of_sender in *.
  rewrite filter_cons_False by congruence. done.
Qed.

(** ** Queues *)

Lemma group_lookup mempool a :
  group_by_sender mempool !! a =
  if decide (of_sender a mempool = []) then None else Some (of_sender a mempool).
Proof.
  unfold group_by_sender. induction mempool as [|tx l IH] using rev_ind; [done|].
  rewrite foldl_app. simpl. rewrite of_sender_app, lookup_insert.
  destruct (decide (tx_From tx = a)) as [<-|Hne].
  - rewrite IH. assert (of_sender (tx_From tx) [tx] = [tx]) as -> by (by apply of_sender_same; constructor).
    rewrite (decide_False (P := of_sender (tx_From tx) l ++ [tx] = [])) by (by intros [_ ?]%app_eq_nil).
    f_equal. by case_decide as E; rewrite ?E.
  - rewrite IH. assert (of_sender a [tx] = []) as ->
      by (by apply (of_sender_other _ (tx_From tx)); [|constructor]). by rewrite app_nil_r.
Qed.

Lemma queue_bySender mempool a :
  queue (bySender mempool) a = merge_sort nonce_le (of_sender a mempool).
Proof.
  unfold queue, bySender. rewrite lookup_fmap, group_lookup.
  case_decide as E; [by rewrite E|done].
Qed.

Lemma queue_from mempool a : Forall (fun tx => tx_From tx = a) (queue (bySender mempool) a).
Proof.
  rewrite queue_bySender, merge_sort_Permutation. unfold of_sender. apply Forall_forall.
  intros tx. rewrite list_elem_of_filter. tauto.
Qed.

Lemma queue_nonempty mempool a :
  a ∈ senders_of (bySender mempool) -> queue (bySender mempool) a <> [].
Proof.
  rewrite queue_bySender.
  unfold senders_of, sort_bytes. rewrite merge_sort_Permutation, elem_of_elements, elem_of_dom.
  unfold bySender. rewrite lookup_fmap, group_lookup. intros [q Hq].
  case_decide as E; [done|]. intros E'. apply E. apply Permutation_nil_r.
  by rewrite <- (merge_sort_Permutation nonce_le (of_sender a mempool)), E'.
Qed.

(** ** The loop *)

Section Loop.
Variable st : mptStateDB.
Variable baseFee gasLimit : Z.
Variable queues : gmap Address (list Transaction).
Variable senders : list Address.
Hypothesis Hfrom : forall a, Forall (fun tx => tx_From tx = a) (queue queues a).

Local Abbreviation queue := (queue queues).

(** what holds between iterations *)
Record binv (s : builder) : Prop := {
  bi_pos : forall a, (pos s a <= length (queue a))%nat;
  bi_active : forall a, a ∈ active s -> a ∈ senders /\ (pos s a < length (queue a))%nat;
  bi_prefix : forall a, of_sender a (included s) = take (pos s a) (queue a);
  bi_price : forall tx, tx ∈ included s -> isFeePriced st tx = true -> baseFee <= tx_GasFeeCap tx;
}.

(** [s'] is further than [s] *)
Definition further (s s' : builder) : Prop :=
  (forall a, (pos s a <= pos s' a)%nat) /\ active s' ⊆ active s.

Lemma further_refl s : further s s.
Proof. by split. Qed.
Lemma further_trans s1 s2 s3 : further s1 s2 -> further s2 s3 -> further s1 s3.
Proof. intros [P1 A1] [P2 A2]. split; [|set_solver]. intros a. specialize (P1 a). specialize (P2 a). lia. Qed.

(** taking the next [taken] of [a]'s queue *)
Lemma advance_inv s a taken act g :
  binv s -> a ∈ active s ->
  taken = take (length taken) (drop (pos s a) (queue a)) ->
  (forall tx, tx ∈ taken -> isFeePriced st tx = true -> baseFee <= tx_GasFeeCap tx) ->
  let i := (pos s a + length taken)%nat in
  act ⊆ active s -> (length (queue a) <= i -> a ∉ act)%nat ->
  let s' := mkBuilder (<[a := i]> (queuePos s)) act (included s ++ taken) g in
  binv s' /\ further s s'.
Proof.
  intros [P A F C] Ha Ht Hp i Hact Hdone s'.
  assert (Hpos : forall b, pos s' b = if decide (b = a) then i else pos s b).
  { intros b. unfold pos, s'. simpl. rewrite lookup_insert.
    destruct (decide (a = b)) as [->|]; [by rewrite decide_True|by rewrite decide_False by congruence]. }
  assert (Hlen : (length taken <= length (queue a) - pos s a)%nat).
  { rewrite Ht, length_take, length_drop. lia. }
  pose proof (P a) as Pa.
  assert (Hft : Forall (fun tx => tx_From tx = a) taken).
  { rewrite Ht. by apply Forall_take, Forall_drop. }
  split; [split|split].
  - intros b. rewrite Hpos. case_decide; [subst; unfold i; lia|apply P].
  - intros b Hb. destruct (A b) as [Hs Hlt]; [set_solver|]. split; [done|]. rewrite Hpos.
    case_decide as Eb; [|done]. subst b. destruct (Nat.lt_ge_cases i (length (queue a))); [done|].
    by destruct (Hdone ltac:(done)).
  - intros b. unfold s'. simpl. rewrite of_sender_app, F, Hpos. case_decide as Eb.
    + subst b. rewrite (of_sender_same a taken Hft). rewrite Ht at 1. unfold i.
      by rewrite take_take_drop.
    + rewrite (of_sender_other b a taken) by done. by rewrite app_nil_r.
  - intros tx. unfold s'. simpl. rewrite elem_of_app. intros [Hin|Hin]; [by apply C|by apply Hp].
  - intros b. rewrite Hpos. case_decide; [subst; unfold i; lia|done].
  - done.
Qed.

Lemma free_prefix_take txs : free_prefix st txs = take (length (free_prefix st txs)) txs.
Proof. induction txs as [|tx txs IH]; [done|]. simpl. destruct (isFeePriced st tx); [done|]. simpl. by f_equal. Qed.

Lemma free_prefix_free txs tx : tx ∈ free_prefix st txs -> isFeePriced st tx = false.
Proof.
  induction txs as [|x txs IH]; simpl; [by intros ?%not_elem_of_nil|].
  destruct (isFeePriced st x) eqn:E; [by intros ?%not_elem_of_nil|].
  intros [->|Hin]%elem_of_cons; [done|by apply IH].
Qed.

Lemma drain_one_inv s a : binv s -> binv (drain_one st queues s a) /\ further s (drain_one st queues s a).
Proof.
  intros I. unfold drain_one. case_bool_decide as Ha; simpl; [|by split; [|apply further_refl]].
  apply advance_inv; [done|done|apply free_prefix_take| | |].
  - intros tx Hin Hp. by rewrite (free_prefix_free _ _ Hin) in Hp.
  - destruct (_ <=? _)%nat; set_solver.
  - destruct (Nat.leb_spec (length (queue a))
      (pos s a + length (free_prefix st (drop (pos s a) (queue a))))); [set_solver|lia].
Qed.

Lemma drain_inv l s :
  binv s -> binv (foldl (drain_one st queues) s l) /\ further s (foldl (drain_one st queues) s l).
Proof.
  revert s. induction l as [|a l IH]; intros s I; simpl; [by split; [|apply further_refl]|].
  destruct (drain_one_inv s a I) as [I1 F1]. destruct (IH _ I1) as [I2 F2].
  split; [done|]. by eapply further_trans.
Qed.

(** a candidate: the front of an active sender's queue, at the price *)
Definition cand_ok (qpos : gmap Address nat) (act : gset Address) (x : candidate) : Prop :=
  cd_addr x ∈ act /\ queue (cd_addr x) !! default 0%nat (qpos !! cd_addr x) = Some (cd_tx x) /\
  baseFee <= tx_GasFeeCap (cd_tx x).

Lemma collect_spec qpos l act cands :
  (forall a, a ∈ act -> (default 0 (qpos !! a) < length (queue a))%nat) ->
  Forall (cand_ok qpos act) cands ->
  exists act' cands',
    foldl (collect_one baseFee queues qpos) (Some (act, cands)) l = Some (act', cands') /\
    act' ⊆ act /\ Forall (cand_ok qpos act') cands' /\
    (exists more, cands' = cands ++ more) /\
    (forall a, a ∈ l -> a ∈ act' -> cands' <> []).
Proof.
  revert act cands. induction l as [|a l IH]; intros act cands Hlt Hc.
  { exists act, cands. split_and!; [done|done|done|exists []; by rewrite app_nil_r|].
    by intros a ?%not_elem_of_nil. }
  simpl foldl. case_bool_decide as Ha; simpl.
  - destruct (lookup_lt_is_Some_2 _ _ (Hlt a Ha)) as [tx Htx]. rewrite Htx. simpl.
    destruct (Z.ltb_spec (tx_GasFeeCap tx) baseFee) as [Hlow|Hok].
    + destruct (IH (act ∖ {[a]}) cands) as (act' & cands' & E & S & C & M & N).
      * intros b Hb. apply Hlt. set_solver.
      * eapply Forall_impl; [exact Hc|]. intros x (X1 & X2 & X3). split_and!; [|done|done].
        apply elem_of_difference. split; [done|]. intros Ex%elem_of_singleton. rewrite Ex in X2.
        assert (cd_tx x = tx) by congruence. subst tx. lia.
      * exists act', cands'. split_and!; [done|set_solver|done|done|].
        intros b [->|Hb]%elem_of_cons; [set_solver|by apply N].
    + destruct (IH act (cands ++ [mkCand a tx (priority_fee tx baseFee)]))
        as (act' & cands' & E & S & C & [more M] & N); [done| |].
      * apply Forall_app. split; [done|]. constructor; [|constructor]. by split_and!.
      * exists act', cands'. split_and!; [done|done|done| |].
        -- eexists. rewrite M, <- app_assoc. done.
        -- intros b _ _. rewrite M. intros [[_ ?]%app_eq_nil _]%app_eq_nil. done.
  - destruct (IH act cands Hlt Hc) as (act' & cands' & E & S & C & M & N).
    exists act', cands'. split_and!; [done|done|done|done|].
    intros b [->|Hb]%elem_of_cons; [set_solver|by apply N].
Qed.

(** ** One iteration *)

Definition remaining (s : builder) : nat :=
  sum_list_with (fun a => length (queue a) - pos s a)%nat senders.

Lemma remaining_le l s s' :
  (forall a, (pos s a <= pos s' a)%nat) ->
  (sum_list_with (fun a => length (queue a) - pos s' a) l
   <= sum_list_with (fun a => length (queue a) - pos s a) l)%nat.
Proof. intros H. induction l as [|a l IH]; simpl; [done|]. specialize (H a). lia. Qed.

Lemma remaining_lt l s s' a :
  (forall b, (pos s b <= pos s' b)%nat) -> a ∈ l -> (pos s a < pos s' a)%nat ->
  (pos s' a <= length (queue a))%nat ->
  (sum_list_with (fun a => length (queue a) - pos s' a) l
   < sum_list_with (fun a => length (queue a) - pos s a) l)%nat.
Proof.
  intros H. induction l as [|b l IH]; [by intros ?%not_elem_of_nil|].
  intros [->|Hin]%elem_of_cons Hlt Hle; simpl.
  - pose proof (remaining_le l s s' H). specialize (H b). lia.
  - specialize (IH Hin Hlt Hle). specialize (H b). lia.
Qed.

Lemma size_remove (X : gset Address) a : a ∈ X -> (size (X ∖ {[a]}) < size X)%nat.
Proof. intros Ha. apply subset_size. set_solver. Qed.

Lemma further_remaining s s' : further s s' -> (remaining s' <= remaining s)%nat /\ (size (active s') <= size (active s))%nat.
Proof. intros [P A]. split; [by apply remaining_le|by apply subseteq_size]. Qed.

Definition measure (s : builder) : nat := (remaining s + size (active s))%nat.

Lemma take_winner_inv s w :
  binv s -> cand_ok (queuePos s) (active s) w ->
  let s' := take_winner gasLimit queues s w in
  binv s' /\ further s s' /\ (measure s' < measure s)%nat.
Proof.
  intros I (Wa & Wt & Wf) s'. subst s'. unfold take_winner. fold (pos s (cd_addr w)) in Wt.
  set (a := cd_addr w) in *. destruct (_ <? _).
  - assert (F : further s (mkBuilder (queuePos s) (active s ∖ {[a]}) (included s) (gasBudget s)))
      by (split; [done|simpl; set_solver]).
    split_and!; [|done|].
    + destruct I as [P A F' C]. split; try done. intros b Hb. apply A. simpl in Hb. set_solver.
    + unfold measure. simpl. pose proof (size_remove (active s) a Wa).
      unfold remaining. simpl. change (pos (mkBuilder _ _ _ _) ?x) with (pos s x). lia.
  - set (act := if (length (queue a) <=? S (pos s a))%nat then active s ∖ {[a]} else active s).
    set (g := u64 (gasBudget s + tx_GasLimit (cd_tx w))).
    pose proof (lookup_lt_Some _ _ _ Wt) as Hlt.
    assert (E1 : S (pos s a) = (pos s a + length [cd_tx w])%nat) by (simpl; lia).
    destruct (advance_inv s a [cd_tx w] act g I Wa) as [I' F'].
    + by rewrite (drop_S _ _ _ Wt).
    + by intros tx ->%list_elem_of_singleton.
    + unfold act. destruct (_ <=? _)%nat; set_solver.
    + unfold act. rewrite <- E1. destruct (Nat.leb_spec (length (queue a)) (S (pos s a))); [set_solver|lia].
    + rewrite E1. split_and!; [done|done|]. set (s' := mkBuilder _ _ _ _) in *.
      destruct (further_remaining _ _ F') as [_ Hs]. unfold measure.
      assert (Hp : pos s' a = (pos s a + length [cd_tx w])%nat).
      { unfold pos, s'. simpl. by rewrite lookup_insert, decide_True. }
      assert (remaining s' < remaining s)%nat; [|lia].
      apply (remaining_lt senders s s' a); [apply F'|by apply (bi_active _ I)|rewrite Hp; simpl; lia|].
      rewrite Hp. simpl. lia.
Qed.

Lemma build_step_inv s :
  binv s -> active s <> ∅ ->
  exists s', build_step st baseFee gasLimit queues senders s = Some s' /\ binv s' /\
    (measure s' < measure s)%nat.
Proof.
  intros I Hne. unfold build_step. cbv zeta.
  destruct (drain_inv senders s I) as [I1 F1]. fold (drain st queues senders s) in I1, F1.
  set (s1 := drain st queues senders s) in *.
  destruct (collect_spec (queuePos s1) senders (active s1) []) as (act & cands & E & S & C & _ & N);
    [|constructor|].
  { intros a Ha. by apply (bi_active _ I1). }
  unfold collect. rewrite E. simpl.
  set (s2 := mkBuilder (queuePos s1) act (included s1) (gasBudget s1)).
  assert (I2 : binv s2).
  { destruct I1 as [P A F' C']. split; try done. intros a Ha. apply A. simpl in Ha. set_solver. }
  assert (F2 : further s s2) by (eapply further_trans; [exact F1|]; by split).
  destruct (further_remaining _ _ F2) as [R2 Z2].
  destruct (merge_sort cand_le cands) as [|w rest] eqn:Em.
  - assert (cands = []) as ->.
    { apply Permutation_nil_r. by rewrite <- Em, merge_sort_Permutation. }
    exists s2. split_and!; [done|done|]. unfold measure.
    assert (act = ∅) as Eact.
    { apply set_eq. intros a. split; [|by intros ?%not_elem_of_empty]. intros Ha.
      destruct (N a); [|done|done]. apply (bi_active _ I2). done. }
    assert (size (active s2) = 0)%nat by (simpl; by rewrite Eact, size_empty).
    assert (size (active s) <> 0)%nat by (rewrite size_non_empty_iff; set_solver). lia.
  - assert (Hw : w ∈ cands).
    { rewrite <- (merge_sort_Permutation cand_le cands), Em. apply list_elem_of_here. }
    rewrite Forall_forall in C.
    destruct (take_winner_inv s2 w I2 (C w Hw)) as (I3 & _ & M). eexists. split_and!; [done|done|].
    unfold measure in *. lia.
Qed.

Lemma build_loop_total fuel s :
  binv s -> (measure s <= fuel)%nat ->
  exists s', build_loop st baseFee gasLimit queues senders fuel s = Some (included s') /\ binv s'.
Proof.
  revert s. induction fuel as [|fuel IH]; intros s I Hm; simpl.
  - exists s. split; [|done]. unfold measure in Hm.
    destruct (Nat.eqb_spec (size (active s)) 0); [done|lia].
  - destruct (Nat.eqb_spec (size (active s)) 0); [by exists s|].
    destruct (build_step_inv s I) as (s' & -> & I' & M).
    + intros E. by rewrite E, size_empty in *.
    + simpl. apply IH; [done|lia].
Qed.

(** ** A sender who pays no fees is served whole *)

Section Free.
Variable a : Address.
Hypothesis Hfree : Forall (fun tx => isFeePriced st tx = false) (queue a).
Hypothesis Hsender : a ∈ senders.

Lemma free_prefix_all txs : Forall (fun tx => isFeePriced st tx = false) txs -> free_prefix st txs = txs.
Proof. induction 1 as [|tx txs E _ IH]; [done|]. simpl. by rewrite E, IH. Qed.

Definition served (s : builder) : Prop := pos s a = length (queue a).

Lemma served_further s s' : binv s' -> further s s' -> served s -> served s'.
Proof. intros I [P _] E. pose proof (bi_pos _ I a). specialize (P a). unfold served in *. lia. Qed.

Lemma drain_serves l s :
  binv s -> (a ∈ active s \/ served s) ->
  let s' := foldl (drain_one st queues) s l in
  (a ∈ active s' \/ served s') /\ (a ∈ l -> served s').
Proof.
  revert s. induction l as [|b l IH]; intros s I Hs; [by split; [|intros ?%not_elem_of_nil]|].
  simpl. destruct (drain_one_inv s b I) as [I1 F1].
  assert (H1 : (a ∈ active (drain_one st queues s b) \/ served (drain_one st queues s b)) /\
    (b = a -> served (drain_one st queues s b))).
  { destruct Hs as [Ha|Hs]; [|by split; [right|intros _]; eapply served_further].
    unfold drain_one. case_bool_decide as Hb; simpl.
    - destruct (decide (b = a)) as [->|Hne].
      + assert (E : served (drain_one st queues s a)).
        { unfold drain_one, served, pos. rewrite bool_decide_eq_true_2 by done. simpl.
          rewrite lookup_insert, decide_True by done. simpl. fold (pos s a).
          rewrite free_prefix_all by (by apply Forall_drop). rewrite length_drop.
          pose proof (bi_pos _ I a). lia. }
        unfold drain_one in E. rewrite bool_decide_eq_true_2 in E by done. simpl in E.
        by split; [right|].
      + split; [|done]. left. simpl. destruct (_ <=? _)%nat; set_solver.
    - split; [by left|]. intros ->. done. }
  destruct H1 as [H1 H2]. destruct (IH _ I1 H1) as [H3 H4]. split; [done|].
  intros [->|Hin]%elem_of_cons; [|by apply H4].
  destruct (drain_inv l _ I1) as [I2 F2]. eapply served_further; [exact I2|exact F2|by apply H2].
Qed.

Lemma build_step_serves s s' :
  binv s -> (a ∈ active s \/ served s) ->
  build_step st baseFee gasLimit queues senders s = Some s' -> served s'.
Proof.
  intros I Hs. unfold build_step. cbv zeta.
  destruct (drain_inv senders s I) as [I1 _]. destruct (drain_serves senders s I Hs) as [_ D].
  specialize (D Hsender). fold (drain st queues senders s) in I1, D.
  set (s1 := drain st queues senders s) in *.
  destruct (collect_spec (queuePos s1) senders (active s1) []) as (act & cands & E & S & C & _ & _);
    [|constructor|].
  { intros b Hb. by apply (bi_active _ I1). }
  unfold collect. rewrite E. simpl.
  set (s2 := mkBuilder (queuePos s1) act (included s1) (gasBudget s1)).
  assert (I2 : binv s2).
  { destruct I1 as [P A F' C']. split; try done. intros b Hb. apply A. simpl in Hb. set_solver. }
  destruct (merge_sort cand_le cands) as [|w rest] eqn:Em; [by intros [= <-]|].
  intros [= <-]. rewrite Forall_forall in C.
  destruct (take_winner_inv s2 w I2) as (I3 & F3 & _).
  { apply C. rewrite <- (merge_sort_Permutation cand_le cands), Em. apply list_elem_of_here. }
  eapply served_further; [exact I3|exact F3|exact D].
Qed.

Lemma build_loop_serves fuel s l :
  binv s -> (a ∈ active s \/ served s) ->
  build_loop st baseFee gasLimit queues senders fuel s = Some l -> of_sender a l = queue a.
Proof.
  revert s. induction fuel as [|fuel IH]; intros s I Hs; simpl;
    (destruct (Nat.eqb_spec (size (active s)) 0) as [Ez|Ez];
     [intros [= <-]; rewrite (bi_prefix _ I); destruct Hs as [Ha|Hs];
      [apply size_empty_inv in Ez; set_solver|unfold served in Hs; rewrite Hs; by apply take_ge]|]); [done|].
  destruct (build_step_inv s I) as (s' & E & I' & _).
  - intros Ea. by rewrite Ea, size_empty in *.
  - rewrite E. simpl. apply IH; [done|]. right. exact (build_step_serves s s' I Hs E).
Qed.
End Free.

(** ** Gas *)

(** the declared gas of the fee-priced transactions *)
Definition priced_gas (txs : list Transaction) : Z :=
  Zsum tx_GasLimit (List.filter (isFeePriced st) txs).

Lemma priced_gas_app l k : priced_gas (l ++ k) = priced_gas l + priced_gas k.
Proof. unfold priced_gas. by rewrite List.filter_app, Zsum_app. Qed.

Hypothesis Hgas : forall a tx, tx ∈ queue a -> 0 <= tx_GasLimit tx /\ gasLimit + tx_GasLimit tx < two64.

Definition ginv (s : builder) : Prop :=
  0 <= gasBudget s <= gasLimit /\ priced_gas (included s) <= gasBudget s.

Lemma priced_gas_free txs : priced_gas (free_prefix st txs) = 0.
Proof.
  induction txs as [|tx txs IH]; [done|]. simpl. destruct (isFeePriced st tx) eqn:E; [done|].
  unfold priced_gas in *. simpl. by rewrite E.
Qed.

Lemma drain_gas l s : ginv s -> ginv (foldl (drain_one st queues) s l).
Proof.
  revert s. induction l as [|a l IH]; intros s G; simpl; [done|]. apply IH.
  unfold drain_one. case_bool_decide; simpl; [|done].
  destruct G as [G1 G2]. split; simpl; [done|]. rewrite priced_gas_app, priced_gas_free. lia.
Qed.

Lemma take_winner_gas s w :
  ginv s -> cand_ok (queuePos s) (active s) w -> ginv (take_winner gasLimit queues s w).
Proof.
  intros [G1 G2] (_ & Wt & _). destruct (Hgas (cd_addr w) (cd_tx w)) as [L1 L2];
    [by eapply list_elem_of_lookup_2|].
  unfold take_winner. rewrite u64_small by lia.
  destruct (Z.ltb_spec gasLimit (gasBudget s + tx_GasLimit (cd_tx w))); (split; simpl; [lia|]); [lia|].
  rewrite priced_gas_app. unfold priced_gas at 2. simpl.
  destruct (isFeePriced st (cd_tx w)); rewrite ?Zsum_cons; simpl; lia.
Qed.

Lemma build_step_gas s s' :
  binv s -> ginv s -> build_step st baseFee gasLimit queues senders s = Some s' -> ginv s'.
Proof.
  intros I G. unfold build_step. cbv zeta.
  destruct (drain_inv senders s I) as [I1 _]. pose proof (drain_gas senders s G) as G1.
  fold (drain st queues senders s) in I1, G1. set (s1 := drain st queues senders s) in *.
  destruct (collect_spec (queuePos s1) senders (active s1) []) as (act & cands & E & S & C & _ & N);
    [|constructor|].
  { intros a Ha. by apply (bi_active _ I1). }
  unfold collect. rewrite E. simpl.
  destruct (merge_sort cand_le cands) as [|w rest] eqn:Em; [by intros [= <-]|].
  intros [= <-]. apply take_winner_gas; [exact G1|]. rewrite Forall_forall in C. apply C.
  rewrite <- (merge_sort_Permutation cand_le cands), Em. apply list_elem_of_here.
Qed.

Lemma build_loop_gas fuel s l :
  binv s -> ginv s -> build_loop st baseFee gasLimit queues senders fuel s = Some l ->
  priced_gas l <= gasLimit.
Proof.
  revert s. induction fuel as [|fuel IH]; intros s I G; simpl.
  - destruct (_ =? _)%nat; [|done]. intros [= <-]. destruct G. lia.
  - destruct (Nat.eqb_spec (size (active s)) 0); [intros [= <-]; destruct G; lia|].
    destruct (build_step_inv s I) as (s' & E & I' & _).
    + intros Ea. by rewrite Ea, size_empty in *.
    + rewrite E. simpl. apply IH; [done|]. exact (build_step_gas s s' I G E).
Qed.
End Loop.

Lemma new_builder_inv st baseFee mempool :
  let queues := bySender mempool in
  binv st baseFee queues (senders_of queues) (new_builder (senders_of queues)) /\
  (measure queues (senders_of queues) (new_builder (senders_of queues))
   <= build_fuel queues (senders_of queues))%nat.
Proof.
  intros queues. set (senders := senders_of queues).
  assert (P0 : forall a, pos (new_builder senders) a = 0%nat).
  { intros a. unfold pos. simpl. by rewrite lookup_empty. }
  split; [split|].
  - intros a. rewrite P0. lia.
  - intros a Ha. simpl in Ha. apply elem_of_list_to_set in Ha. rewrite P0. split; [done|].
    pose proof (queue_nonempty mempool a Ha) as Hq. fold queues in Hq.
    destruct (queue queues a); [done|simpl; lia].
  - intros a. by rewrite P0.
  - by intros tx ?%not_elem_of_nil.
  - unfold measure, build_fuel, remaining.
    assert (size (active (new_builder senders)) <= length senders)%nat.
    { change (active (new_builder senders)) with (list_to_set senders : gset Address).
      generalize senders. intros l. induction l as [|a l IH].
      - by rewrite list_to_set_nil, size_empty.
      - rewrite list_to_set_cons, size_union_alt, size_singleton. cbn [length].
        assert (size ((list_to_set l : gset Address) ∖ {[a]}) <= size (list_to_set l : gset Address))%nat
          by (apply subseteq_size; set_solver). lia. }
    assert (forall l, sum_list_with (fun a => length (queue queues a) - pos (new_builder senders) a) l
      <= sum_list_with (fun a => length (queue queues a)) l)%nat as Hsum.
    { induction l as [|a l IH]; simpl; [done|]. lia. }
    specialize (Hsum senders). lia.
Qed.

Lemma BuildBlockTxs_some c mempool :
  exists s, BuildBlockTxs_opt c mempool = Some (included s) /\
    binv (State c) (NextBaseFee c) (bySender mempool) (senders_of (bySender mempool)) s.
Proof.
  destruct (new_builder_inv (State c) (NextBaseFee c) mempool) as [I M].
  exact (build_loop_total _ _ (c_gasLimit c) _ _ (queue_from mempool) _ _ I M).
Qed.

(** what is selected of a sender is a prefix of its pending transactions in nonce order *)
Lemma BuildBlockTxs_prefix c mempool a :
  exists k, of_sender a (BuildBlockTxs c mempool) = take k (merge_sort nonce_le (of_sender a mempool)).
Proof.
  unfold BuildBlockTxs. destruct (BuildBlockTxs_some c mempool) as (s & -> & I). cbn [default id].
  exists (pos s a). rewrite <- queue_bySender. apply (bi_prefix _ _ _ _ _ I).
Qed.

(** a sender whose pending transactions pay no fee has all of them selected *)
Lemma BuildBlockTxs_free c mempool a :
  Forall (fun tx => isFeePriced (State c) tx = false) (of_sender a mempool) ->
  of_sender a (BuildBlockTxs c mempool) = merge_sort nonce_le (of_sender a mempool).
Proof.
  intros Hf. unfold BuildBlockTxs. destruct (BuildBlockTxs_some c mempool) as (s & E & I).
  rewrite E. cbn [default id]. rewrite <- queue_bySender.
  destruct (decide (a ∈ senders_of (bySender mempool))) as [Ha|Ha].
  - destruct (new_builder_inv (State c) (NextBaseFee c) mempool) as [I0 _].
    unfold BuildBlockTxs_opt in E.
    eapply (build_loop_serves _ _ (c_gasLimit c) _ _ (queue_from mempool) a); [|exact Ha|exact I0| |exact E].
    + rewrite queue_bySender, merge_sort_Permutation. exact Hf.
    + left. simpl. by apply elem_of_list_to_set.
  - assert (Eq : queue (bySender mempool) a = []).
    { unfold queue. destruct (bySender mempool !! a) as [q|] eqn:Eq; [|done]. destruct Ha.
      unfold senders_of, sort_bytes. rewrite merge_sort_Permutation, elem_of_elements, elem_of_dom. by eexists. }
    pose proof (bi_prefix _ _ _ _ _ I a) as P. rewrite Eq, take_nil in P. by rewrite P.
Qed.

(** ** Properties *)

(** selection terminates.  For every mempool the loop over the active senders
    ends, after at most as many iterations as there are pending transactions and
    senders, and never indexes a queue out of range. *)
Theorem BuildBlockTxs_total c mempool :
  BuildBlockTxs_opt c mempool = Some (BuildBlockTxs c mempool).
Proof.
  unfold BuildBlockTxs. by destruct (BuildBlockTxs_some c mempool) as (s & -> & _).
Qed.

(** C36: selection respects nonce order, prices and, below 64 bits, the gas limit.  What is
    selected of each sender is a prefix of that sender's pending transactions in nonce order
    (nothing is skipped over), every selected fee-priced transaction can pay the next base
    fee, and, when no pending transaction declares so much gas that it overflows 64 bits
    together with the limit, the declared gas of the fee-priced ones fits the block gas limit.
    (The last condition is needed: see [gas_budget_wraps].) *)
Theorem BuildBlockTxs_selection c mempool :
  let txs := BuildBlockTxs c mempool in
  (forall a, exists k, of_sender a txs = take k (merge_sort nonce_le (of_sender a mempool))) /\
  (forall tx, tx ∈ txs -> isFeePriced (State c) tx = true -> NextBaseFee c <= tx_GasFeeCap tx) /\
  (0 <= c_gasLimit c ->
   Forall (fun tx => 0 <= tx_GasLimit tx /\ c_gasLimit c + tx_GasLimit tx < two64) mempool ->
   priced_gas (State c) txs <= c_gasLimit c).
Proof.
  intros txs. split; [apply BuildBlockTxs_prefix|]. subst txs. unfold BuildBlockTxs.
  destruct (BuildBlockTxs_some c mempool) as (s & E & I). rewrite E. simpl. split.
  - apply (bi_price _ _ _ _ _ I).
  - intros H0 Hg. destruct (new_builder_inv (State c) (NextBaseFee c) mempool) as [I0 _].
    eapply (build_loop_gas _ _ _ _ _ (queue_from mempool)); [|exact I0| |exact E].
    + intros a tx. rewrite queue_bySender, merge_sort_Permutation. unfold of_sender.
      rewrite list_elem_of_filter. intros [_ Hin]. rewrite Forall_forall in Hg. by apply Hg.
    + split; simpl; [lia|]. unfold priced_gas. simpl. lia.
Qed.

(** ** The gas budget wraps *)

#[local] Existing Instance toy_engine.
#[local] Existing Instance toy_evm.
#[local] Existing Instance toy_blst.

(** a transaction within the limit and one that declares [2^64 - 1] gas *)
Definition within_limit : Transaction := simple_tx alice zero_addr 0 0 21000 9000000000 9 [0].
Definition beyond_limit : Transaction := simple_tx bob zero_addr 0 0 (two64 - 1) 9000000000 1 [0].

(** The budget is added up in 64 bits without a check, so a transaction that declares more gas
    than the whole block may hold is selected once anything was selected before it. *)
Theorem gas_budget_wraps :
  BuildBlockTxs sample_chain [beyond_limit; within_limit] = [within_limit; beyond_limit] /\
  BuildBlockTxs sample_chain [beyond_limit] = [] /\
  c_gasLimit sample_chain < priced_gas (State sample_chain) [within_limit; beyond_limit].
Proof. vm_compute. by split_and!. Qed.
