(* ===== verification/Store.v ===== *)
(** * Keys and persistence

    Models wallet/wallet.go, wallet/verify.go and the package store.  secp256k1, the
    bolt database and the gob encoding are parameters: [Secp], [Bolt] and [Gob].  A
    database is a value; a transaction that fails leaves it as it was. *)

From Stdlib Require Import String.
From S2P Require Import Prelude Sha256 Core Pow FeeMarket StateDB Mpt Pos StackVM Exchange.
From S2P Require Import Adapter Transition Chain.

(** ** Keys (wallet) *)

Class Secp := {
  PrivKey : Type;
  PubKey : Type;
  PubKeyOf : PrivKey -> PubKey;
  SerializeUncompressed : PubKey -> bytes;
  (** [ecdsa.SignCompact(key, hash, true)] and [ecdsa.RecoverCompact(sig, hash)] *)
  SignCompact : PrivKey -> bytes -> bytes;
  RecoverCompact : bytes -> bytes -> option PubKey;
}.

Section Wallet.
Context `{HK : Secp}.

Definition pubKeyAddress (pub : PubKey) : Address :=
  let uncompressed := SerializeUncompressed pub in
  let digest := SumHash (drop 1 uncompressed) in
  copy_fixed AddrLen (drop (HashLen - AddrLen) digest).

Definition Key_Address (k : PrivKey) : Address := pubKeyAddress (PubKeyOf k).

Definition set_From (tx : Transaction) (a : Address) : Transaction :=
  mkTx a (tx_To tx) (tx_Value tx) (tx_Nonce tx) (tx_GasLimit tx) (tx_ChainID tx) (tx_GasFeeCap tx)
    (tx_GasTipCap tx) (tx_Data tx) (tx_Signature tx).
Definition set_Signature (tx : Transaction) (sig : bytes) : Transaction :=
  mkTx (tx_From tx) (tx_To tx) (tx_Value tx) (tx_Nonce tx) (tx_GasLimit tx) (tx_ChainID tx)
    (tx_GasFeeCap tx) (tx_GasTipCap tx) (tx_Data tx) sig.

Definition Key_Sign (k : PrivKey) (tx : Transaction) : Transaction :=
  let tx := set_From tx (Key_Address k) in
  let digest := tx_SigningHash tx in
  set_Signature tx (SignCompact k digest).

Definition wallet_Verify (tx : Transaction) : bool :=
  if negb (length (tx_Signature tx) =? 65)%nat then false
  else
    let digest := tx_SigningHash tx in
    match RecoverCompact (tx_Signature tx) digest with
    | None => false
    | Some pub => bool_decide (pubKeyAddress pub = tx_From tx)
    end.
End Wallet.

(** ** The database and the encodings *)

Inductive bucket := bucketBlocks | bucketHeights | bucketMeta.
#[export] Instance bucket_eq_dec : EqDecision bucket.
Proof. solve_decision. Defined.

(** [Put] in an update transaction and [Get] in a view *)
Class Bolt := {
  DB : Type;
  bolt_Put : DB -> bucket -> bytes -> bytes -> result DB;
  bolt_Get : DB -> bucket -> bytes -> option bytes;
}.

Class Gob := {
  gob_block : Block -> result bytes;
  gob_unblock : bytes -> option Block;
  gob_alloc : gmap Address Z -> result bytes;
  gob_unalloc : bytes -> option (gmap Address Z);
}.

Definition metaHead : bytes := str "head".
Definition metaAlloc : bytes := str "genesis_alloc".
Definition metaBaseAlloc : bytes := str "genesis_base_alloc".

Definition heightKey (height : Z) : bytes := be 8 height.

Section Store.
Context `{HBolt : Bolt} `{HGob : Gob}.

Definition EncodeBlock (b : Block) : result bytes := gob_block b.
Definition DecodeBlock (data : bytes) : result Block :=
  match gob_unblock data with Some b => Ok b | None => Err ErrStoreCorrupt end.
Definition encodeAlloc (alloc : gmap Address Z) : result bytes := gob_alloc alloc.
Definition decodeAlloc (data : bytes) : result (gmap Address Z) :=
  match gob_unalloc data with Some m => Ok m | None => Err ErrStoreCorrupt end.

Definition PutBlock (s : DB) (b : Block) : result DB :=
  enc ← EncodeBlock b;
  bolt_Put s bucketBlocks (block_Hash b) enc.

(** absent, found, or an error *)
Definition GetBlock (s : DB) (h : Hash) : result (option Block) :=
  match bolt_Get s bucketBlocks h with
  | None => Ok None
  | Some v => b ← DecodeBlock v; Ok (Some b)
  end.

Definition get_hash (s : DB) (b : bucket) (k : bytes) : result (option Hash) :=
  match bolt_Get s b k with
  | None => Ok None
  | Some v => if negb (length v =? HashLen)%nat then Err ErrStoreCorrupt else Ok (Some v)
  end.

Definition SetCanonical (s : DB) (height : Z) (h : Hash) : result DB :=
  bolt_Put s bucketHeights (heightKey height) h.
Definition GetCanonical (s : DB) (height : Z) : result (option Hash) :=
  get_hash s bucketHeights (heightKey height).

Definition SetHead (s : DB) (h : Hash) : result DB := bolt_Put s bucketMeta metaHead h.
Definition GetHead (s : DB) : result (option Hash) := get_hash s bucketMeta metaHead.

Definition get_alloc (s : DB) (k : bytes) : result (option (gmap Address Z)) :=
  match bolt_Get s bucketMeta k with
  | None => Ok None
  | Some v => m ← decodeAlloc v; Ok (Some m)
  end.

Definition PutGenesisAlloc (s : DB) (alloc : gmap Address Z) : result DB :=
  enc ← encodeAlloc alloc;
  bolt_Put s bucketMeta metaAlloc enc.
Definition GetGenesisAlloc (s : DB) : result (option (gmap Address Z)) := get_alloc s metaAlloc.
Definition PutGenesisBaseAlloc (s : DB) (alloc : gmap Address Z) : result DB :=
  enc ← encodeAlloc alloc;
  bolt_Put s bucketMeta metaBaseAlloc enc.
Definition GetGenesisBaseAlloc (s : DB) : result (option (gmap Address Z)) :=
  get_alloc s metaBaseAlloc.

(** ** Save (persist.go) *)

(** the loop over the heights [h, h+n); every [Put] is a transaction of its own, so
    the writes before an error stay *)
Fixpoint save_blocks (s : DB) (c : Chain) (h : Z) (n : nat) : DB * result unit :=
  match n with
  | O => (s, Ok tt)
  | S n' =>
      match GetByHeight c h with
      | None => (s, Err ErrStoreMissing)
      | Some b =>
          match PutBlock s b with
          | Err e => (s, Err e)
          | Ok s =>
              match SetCanonical s h (block_Hash b) with
              | Err e => (s, Err e)
              | Ok s => save_blocks s c (h + 1) n'
              end
          end
      end
  end.

Definition Save (s : DB) (c : Chain) : DB * result unit :=
  let head := Head c in
  match save_blocks s c 0 (S (Z.to_nat (h_Height (b_Header head)))) with
  | (s, Err e) => (s, Err e)
  | (s, Ok _) =>
      match SetHead s (block_Hash head) with
      | Err e => (s, Err e)
      | Ok s => (s, Ok tt)
      end
  end.
End Store.

(** ** Load *)

Section Load.
Context `{HK : Secp} `{HBolt : Bolt} `{HGob : Gob}.
Context `{HE : Engine} `{HG : GethEVM} `{HB : Blst}.

Definition need {A} (r : result (option A)) : result A :=
  o ← r; match o with Some a => Ok a | None => Err ErrStoreMissing end.

(** re-applies the canonical blocks of the heights [h, h+n) *)
Fixpoint load_blocks (s : DB) (c : Chain) (h : Z) (n : nat) : result Chain :=
  match n with
  | O => Ok c
  | S n' =>
      canonHash ← need (GetCanonical s h);
      b ← need (GetBlock s canonHash);
      let '(c, r) := AddBlock c b (Some wallet_Verify) in
      match r with
      | Err e => Err e
      | Ok _ => load_blocks s c (h + 1) n'
      end
  end.

Definition Load (s : DB) : result (option Chain) :=
  ho ← GetHead s;
  match ho with
  | None => Ok None
  | Some headHash =>
      genHash ← need (GetCanonical s 0);
      genesis ← need (GetBlock s genHash);
      alloc ← GetGenesisAlloc s;
      baseAlloc ← GetGenesisBaseAlloc s;
      let c := NewChainWithAlloc genesis (default ∅ alloc) (default ∅ baseAlloc) in
      headBlock ← need (GetBlock s headHash);
      c ← load_blocks s c 1 (Z.to_nat (h_Height (b_Header headBlock)));
      if bool_decide (block_Hash (Head c) = headHash) then Ok (Some c) else Err ErrStoreHead
  end.
End Load.
