(* ===== verification/StoreProps.v ===== *)
(** * Keys and persistence: theorems

    Signing and verifying; and that a saved chain loads back as the same chain. *)

From Stdlib Require Import String.
From S2P Require Import Prelude Sha256 Core Pow FeeMarket StateDB Mpt Pos StackVM Exchange.
From S2P Require Import ExchangeProps Adapter Transition TransitionTheorems Chain ChainProps.
From S2P Require Import ChainTheorems ForkChoice Store.

(** ** What the libraries promise *)

(** secp256k1: a compact signature is 65 bytes and recovers the signer's key *)
Class SecpLaws `{Secp} : Prop := {
  SignCompact_length k d : length (SignCompact k d) = 65%nat;
  RecoverCompact_Sign k d : RecoverCompact (SignCompact k d) d = Some (PubKeyOf k);
}.

(** bolt: a write that succeeds is read back, and changes no other key *)
Class BoltLaws `{Bolt} : Prop := {
  bolt_Get_Put s b k v s' b' k' :
    bolt_Put s b k v = Ok s' ->
    bolt_Get s' b' k' = if decide (b = b' /\ k = k') then Some v else bolt_Get s b' k';
}.

(** gob: what was encoded decodes to the same value *)
Class GobLaws `{Gob} : Prop := {
  gob_unblock_block b enc : gob_block b = Ok enc -> gob_unblock enc = Some b;
  gob_unalloc_alloc m enc : gob_alloc m = Ok enc -> gob_unalloc enc = Some m;
}.

(** ** A chain of one branch

    [rebuilt p c]: [c] is what adding the blocks of the path [p] to a new chain gives. *)

Section Rebuild.
Context `{HE : Engine} `{HG : GethEVM} `{HB : Blst}.
Variables (v : verifier) (g : Block) (alloc base : gmap Address Z).

(** the chains of a node that keeps the default configuration *)
Inductive plain : Chain -> Prop :=
| pl_new : h_Height (b_Header g) = 0 -> plain (NewChainWithAlloc g alloc base)
| pl_add c b : plain c -> plain (fst (AddBlock c b v)).

Inductive rebuilt : list Block -> Chain -> Prop :=
| rb_new : h_Height (b_Header g) = 0 -> rebuilt [g] (NewChainWithAlloc g alloc base)
| rb_add p c b :
    rebuilt p c -> block_Hash <$> last p = Some (h_PrevHash (b_Header b)) ->
    snd (AddBlock c b v) = Ok tt -> rebuilt (p ++ [b]) (fst (AddBlock c b v)).

Lemma plain_pow c : plain c -> pow_reachable v g c.
Proof. induction 1; by constructor. Qed.

Lemma rebuilt_plain p c : rebuilt p c -> plain c.
Proof. induction 1; by constructor. Qed.

Lemma plain_inv c : plain c -> chain_inv v c.
Proof. intros P. apply reachable_chain_inv, (pow_reachable_reachable v g). by apply plain_pow. Qed.

Lemma plain_reachable c : plain c -> reachable v c.
Proof. intros P. apply (pow_reachable_reachable v g). by apply plain_pow. Qed.

(** the configuration [Load] gives every chain *)
Record default_config (c : Chain) : Prop := {
  dc_alloc : c_genesisAlloc c = alloc;
  dc_base : c_genesisBaseAlloc c = base;
  dc_genesis : c_genesisHash c = block_Hash g;
  dc_id : c_chainID c = DefaultChainID;
  dc_gas : c_gasLimit c = DefaultGasLimit;
  dc_xmode : c_exchangeMode c = Continuous;
  dc_cmode : c_consensusMode c = PoW;
}.

Lemma AddBlock_config c b : default_config c -> default_config (fst (AddBlock c b v)).
Proof.
  intros D. destruct (validate_block c b v) as [[w st]|e] eqn:E; [|unfold AddBlock; by rewrite E].
  rewrite (AddBlock_steps _ _ _ _ _ E). cbn [fst].
  set (c1 := with_block _ _ _ _). pose proof (note_evidence_ledger c1 b) as L.
  apply (choose_head_ledger _ _ (block_Hash b) st) in L. revert L.
  assert (D1 : default_config (choose_head c1 (block_Hash b) st)).
  { unfold choose_head. destruct D, (_ <? _); by split. }
  generalize (choose_head (note_evidence c1 b) (block_Hash b) st). intros c2 L.
  destruct D1, L. split; congruence.
Qed.

Lemma plain_config c : plain c -> default_config c.
Proof. induction 1; [by split|by apply AddBlock_config]. Qed.

Lemma AddBlock_head c b :
  chain_inv v c -> snd (AddBlock c b v) = Ok tt ->
  let c' := fst (AddBlock c b v) in
  c_head c' = (if TotalDifficulty c (c_head c) <? TotalDifficulty c' (block_Hash b)
               then block_Hash b else c_head c).
Proof.
  intros I Eo c'. pose proof (AddBlock_surj _ _ _ Eo) as E.
  destruct (AddBlock_ok _ _ _ _ E) as (w & st & A & _ & ET & _). fold c' in ET.
  pose proof (ac_fresh _ _ _ _ _ A) as Hn. destruct (ci_head _ _ I) as [hb Hh].
  assert (Hne : c_head c <> block_Hash b) by congruence.
  unfold TotalDifficulty at 2. rewrite ET, lookup_insert, decide_True by done. cbn [default id].
  unfold c'. apply validate_block_iff in A. rewrite (AddBlock_steps _ _ _ _ _ A). cbn [fst].
  set (c1 := with_block _ _ _ _). pose proof (note_evidence_ledger c1 b) as L.
  rewrite (sl_head _ _ (choose_head_ledger _ _ (block_Hash b) st L)). unfold choose_head.
  change (c_head c1) with (c_head c). unfold c1. rewrite !TotalDifficulty_with_block.
  rewrite decide_False, decide_True by done. by destruct (_ <? _).
Qed.

(** ** The rebuilt chain holds the path and nothing else *)

Lemma new_chain_lookup h x :
  c_blocks (NewChainWithAlloc g alloc base) !! h = Some x -> h = block_Hash g /\ x = g.
Proof.
  change (c_blocks _) with ({[block_Hash g := g]} : gmap Hash Block).
  rewrite lookup_singleton_Some. by intros [<- <-].
Qed.

Lemma rebuilt_blocks p c :
  rebuilt p c ->
  reaches (c_blocks c) (block_Hash g) (default zero_hash (block_Hash <$> last p)) p /\
  forall h x, c_blocks c !! h = Some x -> x ∈ p.
Proof.
  induction 1 as [H0|p c b R [Rp Hin] Hlast Eo].
  - split; [apply reaches_genesis; apply lookup_singleton_eq|]. intros h x Hx.
    apply new_chain_lookup in Hx as [_ ->]. apply list_elem_of_here.
  - pose proof (plain_inv c (rebuilt_plain _ _ R)) as I.
    destruct (AddBlock_ok _ _ _ _ (AddBlock_surj _ _ _ Eo)) as (w & st & A & EB & _).
    pose proof (ac_fresh _ _ _ _ _ A) as Hn. rewrite EB. rewrite Hlast in Rp. cbn in Rp.
    destruct (li_genesis _ _ (ci_ledger _ _ I)) as [gb Hg].
    rewrite (dc_genesis _ (plain_config _ (rebuilt_plain _ _ R))) in Hg.
    rewrite last_snoc. cbn [fmap option_fmap option_map default id]. split.
    + apply reaches_step; [congruence|by rewrite lookup_insert, decide_True|by apply reaches_insert].
    + intros h x. rewrite lookup_insert. case_decide.
      * intros [= <-]. apply elem_of_app. right. apply list_elem_of_here.
      * intros Hx. apply elem_of_app. left. by eapply Hin.
Qed.

(** a path of a plain chain keeps its blocks under their hashes *)
Lemma path_stored c h p x :
  chain_inv v c -> reaches (c_blocks c) (c_genesisHash c) h p -> x ∈ p ->
  c_blocks c !! block_Hash x = Some x.
Proof.
  intros I R Hx. destruct (reaches_elem _ _ _ _ _ R Hx) as [h' Hh'].
  by rewrite (li_hash _ _ (ci_ledger _ _ I) _ _ Hh').
Qed.

Lemma rebuilt_sub c h p cp :
  plain c -> path_fits c h p -> rebuilt p cp -> c_blocks cp ⊆ c_blocks c.
Proof.
  intros P [R _] B. apply map_subseteq_spec. intros k x Hx.
  destruct (rebuilt_blocks _ _ B) as [_ Hin].
  rewrite <- (li_hash _ _ (ci_ledger _ _ (plain_inv _ (rebuilt_plain _ _ B))) _ _ Hx).
  eapply path_stored; [by apply plain_inv|exact R|by eapply Hin].
Qed.

Lemma reaches_tip c h p :
  chain_inv v c -> reaches (c_blocks c) (c_genesisHash c) h p -> block_Hash <$> last p = Some h.
Proof.
  intros I R. destruct (reaches_last _ _ _ _ R) as (b & Hb & ->). simpl. f_equal.
  by apply (li_hash _ _ (ci_ledger _ _ I)).
Qed.

Lemma rebuilt_fits c h p cp : plain c -> path_fits c h p -> rebuilt p cp -> path_fits cp h p.
Proof.
  intros P [R _] B. destruct (rebuilt_blocks _ _ B) as [Rp _].
  pose proof (plain_inv _ (rebuilt_plain _ _ B)) as Ip.
  rewrite (reaches_tip c h p (plain_inv _ P) R) in Rp. cbn in Rp.
  rewrite <- (dc_genesis _ (plain_config _ (rebuilt_plain _ _ B))) in Rp.
  destruct (reaches_last _ _ _ _ Rp) as (b & Hb & _).
  destruct (li_path _ _ (ci_ledger _ _ Ip) _ _ Hb) as [q [Q Hl]].
  by rewrite (reaches_det _ _ _ _ _ Rp Q).
Qed.

(** the state at the end of a path depends on the configuration only *)
Lemma deriveState_same c cp h p :
  default_config c -> default_config cp -> path_fits c h p -> path_fits cp h p ->
  deriveState cp h v = deriveState c h v.
Proof.
  intros [A1 A2 _ _ _ X1 _] [B1 B2 _ _ _ X2 _] P Pp.
  rewrite (deriveState_path _ _ _ _ P), (deriveState_path _ _ _ _ Pp).
  unfold replay_path, fundGenesis. congruence.
Qed.

(** a block accepted on top of a path is accepted by every chain that has the path *)
Lemma accepted_transfer c cp b w st p :
  default_config c -> default_config cp -> accepted c b v w st ->
  path_fits c (h_PrevHash (b_Header b)) p -> path_fits cp (h_PrevHash (b_Header b)) p ->
  c_blocks cp !! block_Hash b = None -> accepted cp b v w st.
Proof.
  intros D Dp A F Fp Hn.
  destruct A as [A1 (parent & Hp & Hh & Hf) A3 A4 A5 A6 (pst & Hd & Ha) A8 A9]. split; try done.
  - destruct (reaches_last _ _ _ _ (proj1 F)) as (x & Hx & Hl).
    destruct (reaches_last _ _ _ _ (proj1 Fp)) as (y & Hy & Hl'). exists parent.
    assert (y = parent) as -> by congruence. rewrite (dc_gas _ Dp), <- (dc_gas _ D). done.
  - unfold respectsFinality. by rewrite bool_decide_eq_false_2 by (rewrite (dc_cmode _ Dp); done).
  - revert A4. unfold check_consensus.
    rewrite !bool_decide_eq_false_2 by (rewrite (dc_cmode _ Dp) || rewrite (dc_cmode _ D); done). done.
  - revert A6. unfold assertChainID. by rewrite (dc_id _ Dp), (dc_id _ D).
  - exists pst. rewrite (deriveState_same _ _ _ _ D Dp F Fp), (dc_xmode _ Dp), <- (dc_xmode _ D). done.
  - by rewrite (dc_gas _ Dp), <- (dc_gas _ D).
Qed.

Lemma accepted_rebuilt c b w st p cp :
  plain c -> accepted c b v w st -> path_fits c (h_PrevHash (b_Header b)) p -> rebuilt p cp ->
  accepted cp b v w st.
Proof.
  intros P A F B. eapply accepted_transfer; [by apply plain_config|
    by eapply plain_config, rebuilt_plain|done|exact F|by eapply rebuilt_fits|].
  destruct (c_blocks cp !! block_Hash b) as [x|] eqn:E; [|done].
  pose proof (ac_fresh _ _ _ _ _ A) as A1.
  by rewrite (lookup_weaken _ _ _ _ E (rebuilt_sub _ _ _ _ P F B)) in A1.
Qed.

(** every branch of a plain chain can be rebuilt on its own *)
Lemma plain_rebuilds c h p : plain c -> path_fits c h p -> exists cp, rebuilt p cp.
Proof.
  intros P. revert h p. induction P as [H0|c b P IH]; intros h p [R Hl].
  - exists (NewChainWithAlloc g alloc base). assert (p = [g]) as ->; [|by constructor].
    inversion R as [x Hx|k x q Hne Hx]; subst;
      apply new_chain_lookup in Hx as [Hk ->]; [done|]. by destruct Hne.
  - destruct (snd (AddBlock c b v)) as [[]|e] eqn:Eo;
      [|rewrite (AddBlock_err _ _ _ _ Eo) in R, Hl; by eapply IH].
    destruct (AddBlock_ok _ _ _ _ (AddBlock_surj _ _ _ Eo)) as (w & st & A & EB & _ & EG & _).
    rewrite EB, EG in R. pose proof (ac_fresh _ _ _ _ _ A) as Hn.
    pose proof (ci_ledger _ _ (plain_inv _ P)) as L. destruct (li_genesis _ _ L) as [gb Hg].
    destruct (reaches_last _ _ _ _ R) as (x & Hx & _). rewrite lookup_insert in Hx.
    destruct (decide (block_Hash b = h)) as [<-|Hne].
    + destruct (ac_parent _ _ _ _ _ A) as (parent & Hp & _).
      destruct (li_path _ _ L _ _ Hp) as [q Q].
      pose proof (path_fits_new c b 0 q Hn ltac:(congruence) Q) as [R' _].
      rewrite (reaches_det _ _ _ _ _ R R'). destruct (IH _ _ Q) as [cp B].
      exists (fst (AddBlock cp b v)). apply rb_add; [done| |].
      * exact (reaches_tip c _ _ (plain_inv _ P) (proj1 Q)).
      * pose proof (accepted_rebuilt _ _ _ _ _ _ P A Q B) as Ap.
        apply validate_block_iff in Ap. by rewrite (AddBlock_steps _ _ _ _ _ Ap).
    + destruct (li_path _ _ L _ _ Hx) as [q Q].
      pose proof (path_fits_with_block c (block_Hash b) b 0 h q Hn Q) as [R' _].
      rewrite (reaches_det _ _ _ _ _ R R'). by eapply IH.
Qed.

(** ** The head of the rebuilt chain *)

(** the head is strictly heavier than its ancestors *)
Definition strict_head (c : Chain) : Prop :=
  forall p x, path_fits c (c_head c) p -> x ∈ p -> block_Hash x <> c_head c ->
    TotalDifficulty c (block_Hash x) < TotalDifficulty c (c_head c).

Lemma AddBlock_strict c b : plain c -> strict_head c -> strict_head (fst (AddBlock c b v)).
Proof.
  intros P S. destruct (snd (AddBlock c b v)) as [[]|e] eqn:Eo;
    [|by rewrite (AddBlock_err _ _ _ _ Eo)].
  pose proof (plain_inv _ P) as I. pose proof (AddBlock_head c b I Eo) as EH. cbv zeta in EH.
  pose proof (plain_inv _ (pl_add c b P)) as I'.
  destruct (AddBlock_ok _ _ _ _ (AddBlock_surj _ _ _ Eo)) as (w & st & A & EB & ET & EG & _).
  set (c' := fst (AddBlock c b v)) in *. clearbody c'.
  pose proof (ac_fresh _ _ _ _ _ A) as Hn. destruct (ci_head _ _ I) as [hb Hh].
  assert (T : forall h, h <> block_Hash b -> TotalDifficulty c' h = TotalDifficulty c h).
  { intros h Hne. unfold TotalDifficulty. by rewrite ET, lookup_insert_ne. }
  assert (Hhb : c_head c <> block_Hash b) by congruence.
  intros p x Pf Hx Hne. pose proof (path_stored c' _ _ _ I' (proj1 Pf) Hx) as Hs.
  destruct (Z.ltb_spec (TotalDifficulty c (c_head c)) (TotalDifficulty c' (block_Hash b))) as [Hlt|Hge];
    rewrite EH in *.
  - rewrite (T _ Hne). rewrite EB, lookup_insert_ne in Hs by congruence.
    pose proof (ci_heaviest _ _ I (block_Hash x) ltac:(by eexists)). lia.
  - destruct (li_path _ _ (ci_ledger _ _ I) _ _ Hh) as [q Q].
    pose proof (path_fits_with_block c (block_Hash b) b 0 _ q Hn Q) as [R' _].
    destruct Pf as [R _]. rewrite EB, EG in R. rewrite (reaches_det _ _ _ _ _ R R') in Hx.
    pose proof (path_stored c _ _ _ I (proj1 Q) Hx) as Hs'.
    rewrite !T by congruence. by eapply S.
Qed.

Lemma plain_strict c : plain c -> strict_head c.
Proof.
  induction 1 as [H0|c b P IH]; [|by apply AddBlock_strict].
  intros p x [R _] Hx Hne. destruct (reaches_elem _ _ _ _ _ R Hx) as [h Hh].
  apply new_chain_lookup in Hh as [_ ->]. by destruct Hne.
Qed.

Lemma rebuilt_td c h p cp k x :
  plain c -> path_fits c h p -> rebuilt p cp -> c_blocks cp !! k = Some x ->
  TotalDifficulty cp k = TotalDifficulty c k.
Proof.
  intros P F B Hx. pose proof (rebuilt_plain _ _ B) as Pp.
  pose proof (rebuilt_sub _ _ _ _ P F B) as Sb.
  pose proof (pow_reachable_inv _ _ _ (plain_pow _ P)) as [_ G T].
  pose proof (pow_reachable_inv _ _ _ (plain_pow _ Pp)) as [_ Gp Tp].
  destruct (li_path _ _ (ci_ledger _ _ (plain_inv _ Pp)) _ _ Hx) as [q Q].
  pose proof (lookup_weaken _ _ _ _ Hx Sb) as Hx'.
  destruct (li_path _ _ (ci_ledger _ _ (plain_inv _ P)) _ _ Hx') as [q' Q'].
  rewrite (Tp _ _ _ Hx Q), (T _ _ _ Hx' Q'). f_equal.
  assert (R : reaches (c_blocks c) (c_genesisHash c) k q).
  { destruct Q as [Q _]. rewrite Gp, <- G in Q. clear -Q Sb.
    induction Q as [y Hy|k y q Hne Hy _ IH].
    - apply reaches_genesis. by eapply lookup_weaken.
    - apply reaches_step; [done|by eapply lookup_weaken|done]. }
  exact (reaches_det _ _ _ _ _ R (proj1 Q')).
Qed.

(** the chain of the canonical branch has the same head, state and index *)
Lemma rebuilt_head c p cp :
  plain c -> path_fits c (c_head c) p -> rebuilt p cp ->
  c_head cp = c_head c /\ c_headState cp = c_headState c /\ c_heightIndex cp = c_heightIndex c /\
  Head cp = Head c.
Proof.
  intros P F B. pose proof (rebuilt_fits _ _ _ _ P F B) as Fp.
  pose proof (rebuilt_plain _ _ B) as Pp. pose proof (plain_inv _ P) as I. pose proof (plain_inv _ Pp) as Ip.
  destruct (reaches_last _ _ _ _ (proj1 Fp)) as (t & Ht & _).
  destruct (ci_head _ _ Ip) as [hp Hp].
  assert (EH : c_head cp = c_head c).
  { destruct (decide (c_head cp = c_head c)) as [|Hne]; [done|]. exfalso.
    pose proof (ci_heaviest _ _ Ip (c_head c) ltac:(by eexists)) as Hw.
    rewrite (rebuilt_td _ _ _ _ _ _ P F B Ht), (rebuilt_td _ _ _ _ _ _ P F B Hp) in Hw.
    pose proof (proj2 (rebuilt_blocks _ _ B) _ _ Hp) as Hin.
    pose proof (li_hash _ _ (ci_ledger _ _ Ip) _ _ Hp) as Eh.
    pose proof (plain_strict _ P p hp F Hin ltac:(congruence)) as Hs. rewrite Eh in Hs. lia. }
  pose proof (deriveState_same _ _ _ _ (plain_config _ P) (plain_config _ Pp) F Fp) as Ed.
  pose proof (ci_state _ _ I) as S. pose proof (ci_state _ _ Ip) as Sp.
  rewrite EH, Ed, S in Sp. apply Ok_inj in Sp.
  destruct (ci_index _ _ I) as (q & Hq & ->). destruct (ci_index _ _ Ip) as (q' & Hq' & ->).
  rewrite EH in Hq'. rewrite (chainTo_path _ _ _ F) in Hq. rewrite (chainTo_path _ _ _ Fp) in Hq'.
  apply Ok_inj in Hq, Hq'. split_and!; [done|done|congruence|].
  unfold Head, block_at. rewrite EH, Ht.
  by rewrite (lookup_weaken _ _ _ _ Ht (rebuilt_sub _ _ _ _ P F B)).
Qed.

Lemma rebuilt_GetByHeight c p cp n :
  plain c -> path_fits c (c_head c) p -> rebuilt p cp -> Z.of_nat (size (c_blocks c)) <= two64 ->
  GetByHeight cp n = GetByHeight c n.
Proof.
  intros P F B Hsz. destruct (rebuilt_head _ _ _ P F B) as (EH & _ & EI & _).
  unfold GetByHeight. rewrite EI. destruct (c_heightIndex c !! n) as [h|] eqn:En; [|done].
  pose proof (plain_inv _ P) as I. destruct (ci_index _ _ I) as (q & Hq & Ei).
  rewrite (chainTo_path _ _ _ F) in Hq. apply Ok_inj in Hq as <-.
  destruct (reachable_bounds v c (plain_reachable _ P)) as [Hz _].
  pose proof (path_heights v c _ p (ci_ledger _ _ I) Hz ltac:(destruct F; lia) (proj1 F)) as Hht.
  rewrite Ei, (index_of_lookup p n Hht) in En. case_decide; [|done].
  destruct (p !! Z.to_nat n) as [x|] eqn:Ex; [|done]. injection En as <-.
  assert (Hx : x ∈ p) by (by eapply list_elem_of_lookup_2).
  rewrite (path_stored c _ _ _ I (proj1 F) Hx).
  pose proof (rebuilt_fits _ _ _ _ P F B) as Fp.
  exact (path_stored cp _ _ _ (plain_inv _ (rebuilt_plain _ _ B)) (proj1 Fp) Hx).
Qed.
End Rebuild.

(** ** What [Save] writes *)

Section Saved.
Context `{HBL : BoltLaws} `{HGL : GobLaws}.

(** [b] is stored, as the canonical block of height [k] *)
Definition holds (s : DB) (k : Z) (b : Block) : Prop :=
  GetCanonical s k = Ok (Some (block_Hash b)) /\ GetBlock s (block_Hash b) = Ok (Some b).

Lemma length_block_Hash b : length (block_Hash b) = HashLen.
Proof. apply length_SumHash. Qed.

Lemma get_hash_put s bk k h s' :
  bolt_Put s bk k h = Ok s' -> length h = HashLen -> get_hash s' bk k = Ok (Some h).
Proof.
  intros E Hl. unfold get_hash. rewrite (bolt_Get_Put _ _ _ _ _ _ _ E), decide_True by done.
  by rewrite Hl, Nat.eqb_refl.
Qed.

Lemma write_block s h b s1 s2 :
  is_u64 h -> PutBlock s b = Ok s1 -> SetCanonical s1 h (block_Hash b) = Ok s2 ->
  holds s2 h b /\
  (forall k x, is_u64 k -> k <> h -> (block_Hash x = block_Hash b -> x = b) -> holds s k x -> holds s2 k x) /\
  (forall k, bolt_Get s2 bucketMeta k = bolt_Get s bucketMeta k).
Proof.
  unfold PutBlock, SetCanonical. intros Hh. destruct (EncodeBlock b) as [enc|] eqn:Ee; [|done]. simpl.
  intros E1 E2.
  assert (G1 : forall b' k', bolt_Get s1 b' k' =
    if decide (bucketBlocks = b' /\ block_Hash b = k') then Some enc else bolt_Get s b' k')
    by (intros; exact (bolt_Get_Put _ _ _ _ _ b' k' E1)).
  assert (G2 : forall b' k', bolt_Get s2 b' k' =
    if decide (bucketHeights = b' /\ heightKey h = k') then Some (block_Hash b) else bolt_Get s1 b' k')
    by (intros; exact (bolt_Get_Put _ _ _ _ _ b' k' E2)).
  assert (GB : GetBlock s2 (block_Hash b) = Ok (Some b)).
  { unfold GetBlock. rewrite G2, decide_False, G1, decide_True by naive_solver.
    unfold DecodeBlock. by rewrite (gob_unblock_block _ _ Ee). }
  split_and!.
  - split; [|done]. exact (get_hash_put _ _ _ _ _ E2 (length_block_Hash b)).
  - intros k x Hk Hne Hinj [Hc Hb]. split.
    + unfold GetCanonical, get_hash. rewrite G2, decide_False, G1, decide_False; [exact Hc|naive_solver|].
      intros [_ Eq]. apply Hne. symmetry. by apply be8_inj.
    + destruct (decide (block_Hash x = block_Hash b)) as [Eh|Eh]; [by rewrite (Hinj Eh)|].
      unfold GetBlock. rewrite G2, decide_False, G1, decide_False by naive_solver. exact Hb.
  - intros k. by rewrite G2, decide_False, G1, decide_False by naive_solver.
Qed.

Lemma save_blocks_ok c n s h s' :
  (forall k x, GetByHeight c k = Some x -> c_blocks c !! block_Hash x = Some x) ->
  0 <= h -> h + Z.of_nat n <= two64 -> save_blocks s c h n = (s', Ok tt) ->
  (forall k, h <= k < h + Z.of_nat n -> exists b, GetByHeight c k = Some b /\ holds s' k b) /\
  (forall k b, 0 <= k < h -> GetByHeight c k = Some b -> holds s k b -> holds s' k b) /\
  (forall k, bolt_Get s' bucketMeta k = bolt_Get s bucketMeta k).
Proof.
  intros Hst. revert s h. induction n as [|n IH]; intros s h Hh Hn E; simpl in E.
  - injection E as <-. split_and!; [lia|done|done].
  - destruct (GetByHeight c h) as [b|] eqn:Eb; [|done].
    destruct (PutBlock s b) as [s1|] eqn:E1; [|done].
    destruct (SetCanonical s1 h (block_Hash b)) as [s2|] eqn:E2; [|done].
    destruct (write_block s h b s1 s2 ltac:(lia) E1 E2) as (W1 & W2 & W3).
    destruct (IH s2 (h + 1) ltac:(lia) ltac:(lia) E) as (I1 & I2 & I3). split_and!.
    + intros k Hk. destruct (decide (k = h)) as [->|Hne].
      * exists b. split; [done|]. apply I2; [lia|done|done].
      * apply I1. lia.
    + intros k x Hk Hx Hs. apply I2; [lia|done|]. apply W2; [lia|lia| |done].
      intros Eh. apply Hst in Hx, Eb. congruence.
    + intros k. by rewrite I3.
Qed.
End Saved.

(** ** Reading it back *)

Section Reload.
Context `{HK : Secp} `{HBL : BoltLaws} `{HGL : GobLaws}.
Context `{HE : Engine} `{HG : GethEVM} `{HB : Blst}.
Variables (g : Block) (alloc base : gmap Address Z).
Let v : verifier := Some wallet_Verify.

Lemma load_blocks_snoc s c h n :
  load_blocks s c h (S n) = c ← load_blocks s c h n; load_blocks s c (h + Z.of_nat n) 1.
Proof.
  revert c h. induction n as [|n IH]; intros c h; [by rewrite Z.add_0_r|].
  change (load_blocks s c h (S (S n))) with
    (canonHash ← need (GetCanonical s h); b ← need (GetBlock s canonHash);
     let '(c, r) := AddBlock c b (Some wallet_Verify) in
     match r with Err e => Err e | Ok _ => load_blocks s c (h + 1) (S n) end).
  change (load_blocks s c h (S n)) with
    (canonHash ← need (GetCanonical s h); b ← need (GetBlock s canonHash);
     let '(c, r) := AddBlock c b (Some wallet_Verify) in
     match r with Err e => Err e | Ok _ => load_blocks s c (h + 1) n end).
  destruct (need (GetCanonical s h)) as [ch|]; [|done]. cbn [mbind result_bind].
  destruct (need (GetBlock s ch)) as [b|]; [|done]. cbn [mbind result_bind].
  destruct (AddBlock c b (Some wallet_Verify)) as [c' [u|e]]; [|done]. rewrite IH.
  replace (h + 1 + Z.of_nat n) with (h + Z.of_nat (S n)) by lia. done.
Qed.

Lemma load_blocks_rebuilt s p cp :
  rebuilt v g alloc base p cp ->
  (forall k b, p !! k = Some b -> holds s (Z.of_nat k) b) ->
  load_blocks s (NewChainWithAlloc g alloc base) 1 (length p - 1) = Ok cp.
Proof.
  induction 1 as [Hz|p c b R IH Hlast Eo]; intros Hs; [done|].
  assert (Hp : (0 < length p)%nat) by (destruct p; [done|simpl; lia]).
  rewrite length_app. simpl. replace (length p + 1 - 1)%nat with (S (length p - 1)) by lia.
  rewrite load_blocks_snoc, IH by (intros k x Hk; apply Hs; by apply lookup_app_l_Some).
  destruct (Hs (length p) b) as [Hc Hb]; [by rewrite lookup_app_r, Nat.sub_diag|].
  cbn [mbind result_bind load_blocks]. replace (1 + Z.of_nat (length p - 1)) with (Z.of_nat (length p)) by lia.
  rewrite Hc. cbn [need mbind result_bind]. rewrite Hb. cbn [need mbind result_bind].
  fold v. by rewrite (AddBlock_surj _ _ _ Eo).
Qed.

(** a saved canonical path *)
Lemma saved_path c p s s' :
  plain v g alloc base c -> path_fits c (c_head c) p -> Z.of_nat (size (c_blocks c)) <= two64 ->
  Save s c = (s', Ok tt) ->
  (forall k b, p !! k = Some b -> holds s' (Z.of_nat k) b) /\
  GetHead s' = Ok (Some (c_head c)) /\ h_Height (b_Header (Head c)) = Z.of_nat (length p - 1) /\
  (forall k, k <> metaHead -> bolt_Get s' bucketMeta k = bolt_Get s bucketMeta k).
Proof.
  intros P F Hsz E. pose proof (plain_inv _ _ _ _ _ P) as I. pose proof (plain_reachable _ _ _ _ _ P) as R.
  pose proof (chainTo_path _ _ _ F) as Hc.
  destruct (reachable_bounds v c R) as [Hz _].
  pose proof (path_heights v c _ p (ci_ledger _ _ I) Hz ltac:(destruct F; lia) (proj1 F)) as Hht.
  pose proof (reaches_nonempty _ _ _ _ (proj1 F)) as Hne.
  assert (Hlp : (0 < length p)%nat) by (destruct p; [done|simpl; lia]).
  destruct (reaches_last _ _ _ _ (proj1 F)) as (t & Ht & Hlast).
  assert (EH : Head c = t) by (unfold Head, block_at; by rewrite Ht).
  assert (Et : block_Hash t = c_head c) by (by apply (li_hash _ _ (ci_ledger _ _ I))).
  rewrite last_lookup in Hlast. pose proof (Hht _ _ Hlast) as Hh.
  replace (Init.Nat.pred (length p)) with (length p - 1)%nat in Hh by lia.
  unfold Save in E. rewrite EH, Hh, Nat2Z.id in E.
  destruct (save_blocks _ _ _ _) as [s1 [[]|]] eqn:Es; [|done].
  destruct (SetHead s1 (block_Hash t)) as [s2|] eqn:Eh; [|done]. injection E as <-.
  apply save_blocks_ok in Es as (S1 & _ & S3); [| |lia|destruct F; lia].
  2:{ intros k x Hx. unfold GetByHeight in Hx. destruct (c_heightIndex c !! k); [|done].
      by rewrite (li_hash _ _ (ci_ledger _ _ I) _ _ Hx). }
  unfold SetHead in Eh. assert (G : forall b' k', bolt_Get s2 b' k' =
    if decide (bucketMeta = b' /\ metaHead = k') then Some (block_Hash t) else bolt_Get s1 b' k')
    by (intros; exact (bolt_Get_Put _ _ _ _ _ b' k' Eh)).
  split_and!.
  - intros k b Hk. assert (k < length p)%nat by (by eapply lookup_lt_Some).
    destruct (S1 (Z.of_nat k)) as (b' & Hb' & [C1 C2]); [lia|].
    rewrite (GetByHeight_path v c p _ R Hc Hsz), Nat2Z.id in Hb' by lia.
    assert (b' = b) as -> by congruence. split.
    + unfold GetCanonical, get_hash. rewrite G, decide_False by (by intros []). exact C1.
    + unfold GetBlock. rewrite G, decide_False by (by intros []). exact C2.
  - rewrite <- Et. exact (get_hash_put _ _ _ _ _ Eh (length_block_Hash t)).
  - by rewrite EH.
  - intros k Hk. rewrite G, decide_False by (intros []; congruence). apply S3.
Qed.
End Reload.

(** C10: a saved chain loads back, in the default configuration.  Take a chain built from its
    genesis by any sequence of offered blocks, forks included, in proof of work with the
    default chain id, gas limit and exchange mode (which are not stored: see
    [restart_needs_default_chain_id]), and a database that holds its two genesis
    allocations, as [New] writes them.  A [Save] that reports no error leaves a database from
    which [Load] succeeds, and the chain it rebuilds has the same head, the same state and
    the same canonical block at every height. *)
Theorem Save_Load_roundtrip `{Secp} `{BoltLaws} `{GobLaws} `{Engine} `{GethEVM} `{Blst}
    g alloc base c s s' :
  plain (Some wallet_Verify) g alloc base c -> Z.of_nat (size (c_blocks c)) <= two64 ->
  GetGenesisAlloc s = Ok (Some alloc) -> GetGenesisBaseAlloc s = Ok (Some base) ->
  Save s c = (s', Ok tt) ->
  exists c', Load s' = Ok (Some c') /\ Head c' = Head c /\ State c' = State c /\
    forall n, GetByHeight c' n = GetByHeight c n.
Proof.
  intros P Hsz Ha Hb E. pose proof (plain_inv _ _ _ _ _ P) as I. destruct (ci_head _ _ I) as [hb Hh].
  destruct (li_path _ _ (ci_ledger _ _ I) _ _ Hh) as [p F].
  destruct (plain_rebuilds _ _ _ _ _ _ _ P F) as [cp B].
  destruct (rebuilt_head _ _ _ _ _ _ _ P F B) as (EH & ES & _ & EHd).
  destruct (saved_path _ _ _ _ _ _ _ P F Hsz E) as (S1 & S2 & S3 & S4).
  pose proof (load_blocks_rebuilt _ _ _ _ _ _ B S1) as EL.
  assert (exists rest, p = g :: rest) as [rest Ep].
  { clear -B. induction B as [|p c b _ [rest ->]]; [by eexists|]. by exists (rest ++ [b]). }
  exists cp. split_and!; [|done|exact ES|intros n; by eapply rebuilt_GetByHeight].
  destruct (S1 0%nat g) as [G1 G2]; [by rewrite Ep|].
  assert (L : exists n t, p !! n = Some t /\ block_Hash t = c_head c /\ h_Height (b_Header t) = h_Height (b_Header (Head c))).
  { destruct (reaches_last _ _ _ _ (proj1 F)) as (t & Ht & Hl). rewrite last_lookup in Hl.
    eexists _, t. split_and!; [done|by apply (li_hash _ _ (ci_ledger _ _ I))|].
    unfold Head, block_at. by rewrite Ht. }
  destruct L as (n & t & Hn & Et & Eht). destruct (S1 n t Hn) as [_ G3]. rewrite Et in G3.
  assert (M1 : GetGenesisAlloc s' = Ok (Some alloc)) by (unfold GetGenesisAlloc, get_alloc in *; by rewrite S4).
  assert (M2 : GetGenesisBaseAlloc s' = Ok (Some base))
    by (unfold GetGenesisBaseAlloc, get_alloc in *; by rewrite S4).
  unfold Load. rewrite S2. cbn [mbind result_bind]. change (Z.of_nat 0) with 0 in G1. rewrite G1.
  cbn [need mbind result_bind]. rewrite G2. cbn [need mbind result_bind]. rewrite M1, M2, G3.
  cbn [need mbind result_bind default id].
  rewrite Eht, S3, Nat2Z.id, EL. cbn [mbind result_bind].
  by rewrite EHd, <- (li_hash _ _ (ci_ledger _ _ I) _ _ Hh), bool_decide_eq_true_2
    by (unfold Head, block_at; by rewrite Hh).
Qed.

(** a signed transaction verifies.  Signing fills in the sender's address and a
    65-byte signature from which [Verify] recovers the signer, whatever the
    transaction was and whatever sender and signature it carried before. *)
Theorem Key_Sign_verifies `{SecpLaws} k tx :
  wallet_Verify (Key_Sign k tx) = true /\ tx_From (Key_Sign k tx) = Key_Address k /\
  length (tx_From (Key_Sign k tx)) = AddrLen.
Proof.
  split_and!; [|done|apply length_copy_fixed].
  unfold wallet_Verify. change (tx_SigningHash (Key_Sign k tx)) with
    (tx_SigningHash (set_From tx (Key_Address k))).
  change (tx_Signature (Key_Sign k tx)) with
    (SignCompact k (tx_SigningHash (set_From tx (Key_Address k)))).
  rewrite SignCompact_length, RecoverCompact_Sign. by apply bool_decide_eq_true_2.
Qed.

(** ** Concrete libraries, for examples *)

Inductive toy_key := Key1 | Key2.

(** the first byte of a signature names the key *)
Definition toy_tag (k : toy_key) : Z := match k with Key1 => 1 | Key2 => 2 end.
#[local] Instance toy_secp : Secp := {|
  PrivKey := toy_key;
  PubKey := toy_key;
  PubKeyOf := fun k => k;
  SerializeUncompressed := fun k => 4 :: replicate 64 (toy_tag k);
  SignCompact := fun k _ => toy_tag k :: replicate 64 0;
  RecoverCompact := fun sig _ =>
    match sig with
    | t :: _ => if t =? 1 then Some Key1 else if t =? 2 then Some Key2 else None
    | [] => None
    end;
|}.
#[local] Instance toy_secp_laws : SecpLaws.
Proof. by split; intros []. Qed.

(** a database of three maps *)
#[local] Instance toy_bolt : Bolt := {|
  DB := bucket -> gmap bytes bytes;
  bolt_Put := fun s b k v => Ok (fun b' => if decide (b = b') then <[k := v]> (s b') else s b');
  bolt_Get := fun s b k => s b !! k;
|}.
#[local] Instance toy_bolt_laws : BoltLaws.
Proof.
  split. intros s b k v s' b' k' [= <-]. simpl. destruct (decide (b = b')) as [<-|Hne].
  - rewrite lookup_insert. by repeat case_decide; naive_solver.
  - by rewrite decide_False by naive_solver.
Qed.
Definition empty_db : DB := fun _ => ∅.

(** blocks and allocations as numbers *)
#[local] Instance Transaction_eq_dec : EqDecision Transaction.
Proof. solve_decision. Defined.
#[local] Instance Transaction_countable : Countable Transaction.
Proof.
  refine (inj_countable'
    (fun t => (tx_From t, tx_To t, tx_Value t, tx_Nonce t, tx_GasLimit t, tx_ChainID t, tx_GasFeeCap t,
               tx_GasTipCap t, tx_Data t, tx_Signature t))
    (fun '(a, b, c, d, e, f, g, h, i, j) => mkTx a b c d e f g h i j) _). by intros [].
Defined.
#[local] Instance Header_eq_dec : EqDecision Header.
Proof. solve_decision. Defined.
#[local] Instance Header_countable : Countable Header.
Proof.
  refine (inj_countable'
    (fun h => (h_Height h, h_PrevHash h, h_MerkleRoot h, h_StateRoot h, h_Coinbase h, h_Timestamp h,
               h_Difficulty h, h_Nonce h, h_BaseFee h, h_GasUsed h, h_ProposerSig h))
    (fun '(a, b, c, d, e, f, g, h, i, j, k) => mkHeader a b c d e f g h i j k) _). by intros [].
Defined.
#[local] Instance Block_eq_dec : EqDecision Block.
Proof. solve_decision. Defined.
#[local] Instance Block_countable : Countable Block.
Proof.
  refine (inj_countable' (fun b => (b_Header b, b_Txs b)) (fun '(h, t) => mkBlock h t) _). by intros [].
Defined.

Definition number {A} `{Countable A} (x : A) : bytes := [Z.pos (encode x)].
Definition unnumber {A} `{Countable A} (data : bytes) : option A :=
  match data with [Z.pos p] => decode p | _ => None end.
Lemma unnumber_number {A} `{Countable A} (x : A) : unnumber (number x) = Some x.
Proof. apply decode_encode. Qed.

#[local] Instance toy_gob : Gob := {|
  gob_block := fun b => Ok (number b);
  gob_unblock := unnumber;
  gob_alloc := fun m => Ok (number (map_to_list m));
  gob_unalloc := fun data => list_to_map <$> unnumber data;
|}.
#[local] Instance toy_gob_laws : GobLaws.
Proof.
  split.
  - intros b enc [= <-]. apply unnumber_number.
  - intros m enc [= <-]. 
    change (list_to_map <$> unnumber (number (map_to_list m)) = Some m).
    rewrite unnumber_number. simpl. f_equal. apply list_to_map_to_list.
Qed.

Lemma Key_Sign_verifies_witness :
  wallet_Verify (@Key_Sign toy_secp Key1 (simple_tx zero_addr bob 5 0 0 0 0 [])) = true.
Proof. apply (@Key_Sign_verifies toy_secp toy_secp_laws Key1 (simple_tx zero_addr bob 5 0 0 0 0 [])). Defined.

#[local] Existing Instance toy_engine.
#[local] Existing Instance toy_evm.
#[local] Existing Instance toy_blst.

Definition saved_db : DB :=
  match PutGenesisAlloc empty_db (g_Alloc sample_genesis) with
  | Ok s => match PutGenesisBaseAlloc s ∅ with Ok s => s | Err _ => empty_db end
  | Err _ => empty_db
  end.

Lemma Save_Load_roundtrip_witness :
  exists c', Load (fst (Save saved_db sample_chain)) = Ok (Some c') /\ Head c' = Head sample_chain.
Proof.
  assert (R : plain (Some wallet_Verify) (ToBlock sample_genesis) (g_Alloc sample_genesis) ∅ sample_chain)
    by exact (pl_new _ (ToBlock sample_genesis) _ _ eq_refl).
  assert (E : snd (Save saved_db sample_chain) = Ok tt) by (vm_compute; reflexivity).
  destruct (Save_Load_roundtrip (ToBlock sample_genesis) (g_Alloc sample_genesis) ∅ sample_chain
    saved_db (fst (Save saved_db sample_chain)) R) as (c' & E1 & E2 & _).
  - vm_compute. discriminate.
  - vm_compute. reflexivity.
  - vm_compute. reflexivity.
  - rewrite <- E. apply surjective_pairing.
  - exists c'. exact (conj E1 E2).
Defined.
