(* ===== verification/Node.v ===== *)
(** * The full node

    Models node/node.go: one canonical chain, an optional store, a mempool and a miner
    identity.  Every method runs under the node's lock, so a method is one step from a
    node to a node.  [time.Now().Unix()] is the argument [now], [store.Open]'s database
    the argument [opened]; the unbounded search of [consensus.Mine] takes fuel, and
    [ErrFuel] stands for a search that is still running.  A miner key is a real key: the
    zero [wallet.Key] makes every method that asks for its address panic. *)

From Stdlib Require Import String.
From S2P Require Import Prelude Sha256 Core Pow FeeMarket StateDB Mpt Pos StackVM Exchange.
From S2P Require Import Adapter Transition Chain BlockBuilder Store.

Definition DefaultMaxMempool : Z := 4096.

Section Node.
Context `{HK : Secp} `{HBolt : Bolt} `{HGob : Gob}.
Context `{HE : Engine} `{HG : GethEVM} `{HB : Blst} `{HBK : !BlstKeys}.

Record Config := mkConfig {
  cfg_MinerKey : PrivKey;
  cfg_Difficulty : Z;
  cfg_GenesisAlloc : gmap Address Z;
  cfg_GenesisBaseAlloc : gmap Address Z;
  cfg_GenesisTimestamp : Z;
  cfg_MaxMempool : Z;
  cfg_ChainID : Z;
  cfg_ConsensusMode : Mode;
  cfg_Validators : list ValidatorInfo;
  (** [None] is the zero [pos.Key] *)
  cfg_ValidatorBLSKey : option SecretKey;
}.

Record Node := mkNode {
  n_chain : Chain;
  n_store : option DB;
  n_mempool : list Transaction;
  n_maxMempool : Z;
  n_miner : PrivKey;
  n_Difficulty : Z;
  n_chainID : Z;
  n_validatorKey : option SecretKey;
  n_lastAttestedHeight : Z;
  n_alloc : gmap Address Z;
  n_baseAlloc : gmap Address Z;
}.

Definition with_chain (n : Node) (c : Chain) : Node :=
  mkNode c (n_store n) (n_mempool n) (n_maxMempool n) (n_miner n) (n_Difficulty n) (n_chainID n)
    (n_validatorKey n) (n_lastAttestedHeight n) (n_alloc n) (n_baseAlloc n).
Definition with_store (n : Node) (s : option DB) : Node :=
  mkNode (n_chain n) s (n_mempool n) (n_maxMempool n) (n_miner n) (n_Difficulty n) (n_chainID n)
    (n_validatorKey n) (n_lastAttestedHeight n) (n_alloc n) (n_baseAlloc n).
Definition with_mempool (n : Node) (m : list Transaction) : Node :=
  mkNode (n_chain n) (n_store n) m (n_maxMempool n) (n_miner n) (n_Difficulty n) (n_chainID n)
    (n_validatorKey n) (n_lastAttestedHeight n) (n_alloc n) (n_baseAlloc n).
Definition with_attested (n : Node) (height : Z) : Node :=
  mkNode (n_chain n) (n_store n) (n_mempool n) (n_maxMempool n) (n_miner n) (n_Difficulty n)
    (n_chainID n) (n_validatorKey n) height (n_alloc n) (n_baseAlloc n).

(** ** Construction *)

(** the branch of [New] for a chain found in the store *)
Definition resume (cfg : Config) (s : DB) (c : Chain) (maxMempool chainID : Z) : result Node :=
  let c := SetChainID c chainID in
  if bool_decide (cfg_ConsensusMode cfg = PoS) then Err ErrConsensusModeNotPersisted
  else
    let alloc := match GetGenesisAlloc s with Ok (Some a) => a | _ => cfg_GenesisAlloc cfg end in
    let baseAlloc :=
      match GetGenesisBaseAlloc s with Ok (Some a) => a | _ => cfg_GenesisBaseAlloc cfg end in
    Ok (mkNode c (Some s) [] maxMempool (cfg_MinerKey cfg) (cfg_Difficulty cfg) chainID None 0
          alloc baseAlloc).

(** the consensus mode of a fresh chain *)
Definition configure (cfg : Config) (c : Chain) : result Chain :=
  if bool_decide (cfg_ConsensusMode cfg = PoS) then
    vs ← NewValidatorSet (cfg_Validators cfg);
    match SetConsensusMode c PoS (Some vs) with
    | (_, Err e) => Err e
    | (c, Ok _) => Ok c
    end
  else Ok c.

(** the writes of a fresh persistent chain; a failure closes the store and discards the node *)
Definition persist_fresh (cfg : Config) (s : DB) (c : Chain) : result DB :=
  s ← PutGenesisAlloc s (cfg_GenesisAlloc cfg);
  s ← PutGenesisBaseAlloc s (cfg_GenesisBaseAlloc cfg);
  match Store.Save s c with
  | (_, Err e) => Err e
  | (s, Ok _) => Ok s
  end.

(** the rest of [New]: a funded genesis *)
Definition fresh (cfg : Config) (store : option DB) (maxMempool chainID now : Z) : result Node :=
  let genesisTS := if cfg_GenesisTimestamp cfg =? 0 then now else cfg_GenesisTimestamp cfg in
  let g := mkGenesis (cfg_GenesisAlloc cfg) (cfg_GenesisBaseAlloc cfg) (cfg_Difficulty cfg)
             genesisTS 0 in
  let genesis := ToBlock g in
  let c := NewChainWithAlloc genesis (cfg_GenesisAlloc cfg) (cfg_GenesisBaseAlloc cfg) in
  let c := SetChainID c chainID in
  c ← configure cfg c;
  store ← match store with
          | None => Ok None
          | Some s => s ← persist_fresh cfg s c; Ok (Some s)
          end;
  Ok (mkNode c store [] maxMempool (cfg_MinerKey cfg) (cfg_Difficulty cfg) chainID
        (cfg_ValidatorBLSKey cfg) 0 (cfg_GenesisAlloc cfg) (cfg_GenesisBaseAlloc cfg)).

(** node.New; [opened] is the database of a non-empty [DBPath] *)
Definition New_node (cfg : Config) (opened : option DB) (now : Z) : result Node :=
  let maxMempool := if cfg_MaxMempool cfg <=? 0 then DefaultMaxMempool else cfg_MaxMempool cfg in
  let chainID := if cfg_ChainID cfg =? 0 then DefaultChainID else cfg_ChainID cfg in
  match opened with
  | None => fresh cfg None maxMempool chainID now
  | Some s =>
      co ← Store.Load s;
      match co with
      | Some c => resume cfg s c maxMempool chainID
      | None => fresh cfg (Some s) maxMempool chainID now
      end
  end.

(** ** Reading *)

Definition MinerAddress (n : Node) : Address := Key_Address (n_miner n).
Definition node_ConsensusMode (n : Node) : Mode := ConsensusMode (n_chain n).
Definition node_Head (n : Node) : Block := Head (n_chain n).
Definition node_Balance (n : Node) (a : Address) : Z := Balance (GetAccount (State (n_chain n)) a).
Definition node_Nonce (n : Node) (a : Address) : Z := Nonce (GetAccount (State (n_chain n)) a).

(** the chain's state is always an [mptStateDB], which supports proofs *)
Definition node_AccountProof (n : Node) (a : Address) : option (AccountProof * Z * Hash) :=
  proof ← mpt_AccountProof (State (n_chain n)) a;
  let head := Head (n_chain n) in
  Some (proof, h_Height (b_Header head), h_StateRoot (b_Header head)).
Definition node_StorageProof (n : Node) (a : Address) (key : Hash) : option (StorageProof * Z * Hash) :=
  proof ← mpt_StorageProof (State (n_chain n)) a key;
  let head := Head (n_chain n) in
  Some (proof, h_Height (b_Header head), h_StateRoot (b_Header head)).

(** the exchange's books and balances *)
Definition OrderBookDepth (n : Node) : result (list Level * list Level) := Depth (State (n_chain n)).
Definition OrderBookSnapshot (n : Node) : result (list OrderView) := Snapshot (State (n_chain n)).
Definition node_LastAuction (n : Node) : option (Z * Z * Z) :=
  '(p, v, h) ← LastAuction (State (n_chain n)); Some (i64_of p, i64_of v, h).
Definition ExchangeBalance (n : Node) (a : Address) : Z * Z * Z :=
  let '(base, lockedBase) := BaseOf (State (n_chain n)) a in
  (base, lockedBase, LockedQuoteOf (State (n_chain n)) a).

Definition node_SetExchangeMode (n : Node) (m : ob_mode) : Node :=
  with_chain n (SetExchangeMode (n_chain n) m).
Definition node_ExchangeMode (n : Node) : ob_mode := ExchangeMode (n_chain n).
Definition MempoolLen (n : Node) : Z := Z.of_nat (length (n_mempool n)).
Definition MempoolCap (n : Node) : Z := n_maxMempool n.

Definition GetBlockByHeight (n : Node) (height : Z) : option Block := GetByHeight (n_chain n) height.

(** the loops of [GetTxByHash]: over a block, over the heights [h, h+k) *)
Fixpoint find_tx (txs : list Transaction) (h : Hash) : option Transaction :=
  match txs with
  | [] => None
  | tx :: rest => if bool_decide (tx_Hash tx = h) then Some tx else find_tx rest h
  end.
Fixpoint find_from (c : Chain) (height : Z) (k : nat) (h : Hash) : option Transaction :=
  match k with
  | O => None
  | S k' =>
      match GetByHeight c height with
      | None => find_from c (height + 1) k' h
      | Some b =>
          match find_tx (b_Txs b) h with
          | Some tx => Some tx
          | None => find_from c (height + 1) k' h
          end
      end
  end.
Definition GetTxByHash (n : Node) (h : Hash) : option Transaction :=
  let head := Head (n_chain n) in
  find_from (n_chain n) 0 (S (Z.to_nat (h_Height (b_Header head)))) h.

Fixpoint blocks_from (c : Chain) (height : Z) (k : nat) : list Block :=
  match k with
  | O => []
  | S k' =>
      match GetByHeight c height with
      | None => blocks_from c (height + 1) k'
      | Some b => b :: blocks_from c (height + 1) k'
      end
  end.
Definition CanonicalBlocksFrom (n : Node) (height : Z) : list Block :=
  let head := Head (n_chain n) in
  blocks_from (n_chain n) height (Z.to_nat (h_Height (b_Header head) - height + 1)).

(** ** The mempool *)

(** the loop of [projectSender] *)
Fixpoint project (mempool : list Transaction) (a : Address) (nonce balance : Z) : Z * Z :=
  match mempool with
  | [] => (nonce, balance)
  | tx :: rest =>
      if negb (bool_decide (tx_From tx = a)) then project rest a nonce balance
      else
        let nonce := u64 (nonce + 1) in
        let balance :=
          if negb (bool_decide (tx_From tx = tx_To tx)) && (tx_Value tx <=? balance)
          then balance - tx_Value tx else balance in
        project rest a nonce balance
  end.

Definition projectSender (n : Node) (a : Address) : Z * Z :=
  let acct := GetAccount (State (n_chain n)) a in
  project (n_mempool n) a (Nonce acct) (Balance acct).

Definition SubmitTx (n : Node) (tx : Transaction) : Node * result unit :=
  if negb (wallet_Verify tx) then (n, Err ErrBadSignature)
  else if negb (tx_ChainID tx =? n_chainID n) then (n, Err ErrNodeBadChainID)
  else
    let '(nextNonce, spendable) := projectSender n (tx_From tx) in
    if negb (tx_Nonce tx =? nextNonce) then (n, Err ErrNodeBadNonce)
    else if negb (bool_decide (tx_From tx = tx_To tx)) && (spendable <? tx_Value tx)
    then (n, Err ErrNodeInsufficientBalance)
    else if n_maxMempool n <=? MempoolLen n then (n, Err ErrMempoolFull)
    else (with_mempool n (n_mempool n ++ [tx]), Ok tt).

(** ** Producing blocks *)

Definition deriveStateRoot (n : Node) (txs : list Transaction) (coinbase : Address)
    : result (Hash * Z) :=
  CandidateStateRoot (n_chain n) txs coinbase (Some wallet_Verify).

(** re-saves a persistent chain *)
Definition save_node (n : Node) : Node * result unit :=
  match n_store n with
  | None => (n, Ok tt)
  | Some s => let '(s, r) := Store.Save s (n_chain n) in (with_store n (Some s), r)
  end.

(** the mempool without the transactions whose hash is one of [txs]' *)
Definition drop_included (mempool txs : list Transaction) : list Transaction :=
  let included : gset Hash := list_to_set (tx_Hash <$> txs) in
  filter (fun tx => tx_Hash tx ∉ included) mempool.

Definition commitBlock (n : Node) (blk : Block) (txs : list Transaction) : Node * result Block :=
  let '(c, r) := AddBlock (n_chain n) blk (Some wallet_Verify) in
  let n := with_chain n c in
  match r with
  | Err e => (n, Err e)
  | Ok _ =>
      let n := with_mempool n (drop_included (n_mempool n) txs) in
      match save_node n with
      | (n, Err e) => (n, Err e)
      | (n, Ok _) => (n, Ok blk)
      end
  end.

(** the block [MineBlock] hands to [consensus.Mine] *)
Definition mine_template (n : Node) (txs : list Transaction) (stateRoot : Hash) (gasUsed now : Z)
    : Block :=
  let head := Head (n_chain n) in
  let root := TxRoot (mkBlock (b_Header zero_block) txs) in
  mkBlock (mkHeader (u64 (h_Height (b_Header head) + 1)) (block_Hash head) root stateRoot
             (Key_Address (n_miner n)) now (n_Difficulty n) 0 (NextBaseFee (n_chain n)) gasUsed []) txs.

Definition MineBlock (fuel : nat) (n : Node) (now : Z) : Node * result Block :=
  let coinbase := Key_Address (n_miner n) in
  let txs := BuildBlockTxs (n_chain n) (n_mempool n) in
  match deriveStateRoot n txs coinbase with
  | Err e => (n, Err e)
  | Ok (stateRoot, gasUsed) =>
      let blk := mine_template n txs stateRoot gasUsed now in
      match Mine fuel (b_Header blk) 0 with
      | None => (n, Err ErrFuel)
      | Some (_, _, false) => (n, Err ErrMiningFailed)
      | Some (header, _, true) => commitBlock n (mkBlock header txs) txs
      end
  end.

(** the block [ProposeBlock] signs *)
Definition propose_template (n : Node) (txs : list Transaction) (stateRoot : Hash)
    (gasUsed now : Z) : Block :=
  let head := Head (n_chain n) in
  let root := TxRoot (mkBlock (b_Header zero_block) txs) in
  mkBlock (mkHeader (u64 (h_Height (b_Header head) + 1)) (block_Hash head) root stateRoot
             (Key_Address (n_miner n)) now 0 0 (NextBaseFee (n_chain n)) gasUsed []) txs.

Definition with_sig (h : Header) (sig : bytes) : Header :=
  mkHeader (h_Height h) (h_PrevHash h) (h_MerkleRoot h) (h_StateRoot h) (h_Coinbase h)
    (h_Timestamp h) (h_Difficulty h) (h_Nonce h) (h_BaseFee h) (h_GasUsed h) sig.

Definition ProposeBlock (n : Node) (now : Z) : Node * result Block :=
  if negb (bool_decide (ConsensusMode (n_chain n) = PoS)) then (n, Err ErrNotPoSMode)
  else
    let head := Head (n_chain n) in
    let headHash := block_Hash head in
    let height := u64 (h_Height (b_Header head) + 1) in
    let '(active, total) := EffectiveValidatorSet (n_chain n) in
    match SelectProposer active total (ProposerSeed headHash height) with
    | Err e => (n, Err e)
    | Ok selected =>
        let coinbase := Key_Address (n_miner n) in
        if negb (bool_decide (v_Address selected = coinbase)) then (n, Err ErrNotMyTurn)
        else
          match n_validatorKey n with
          | None => (n, Err ErrNoValidatorKey)
          | Some key =>
              let txs := BuildBlockTxs (n_chain n) (n_mempool n) in
              match deriveStateRoot n txs coinbase with
              | Err e => (n, Err e)
              | Ok (stateRoot, gasUsed) =>
                  let header := b_Header (propose_template n txs stateRoot gasUsed now) in
                  let sig := PosKey_Sign key (header_SigningHash header) (DST (n_chainID n)) in
                  commitBlock n (mkBlock (with_sig header sig) txs) txs
              end
          end
    end.

(** the transaction [MaybeAttest] submits *)
Definition attestation_tx (n : Node) (key : SecretKey) : Transaction :=
  let head := Head (n_chain n) in
  let targetHash := block_Hash head in
  let blsSig := PosKey_Sign key targetHash (DST (n_chainID n)) in
  let nonce := fst (projectSender n (Key_Address (n_miner n))) in
  Key_Sign (n_miner n)
    (mkTx zero_addr AttestAddress 0 nonce 0 (n_chainID n) 0 0
       (EncodeAttest (h_Height (b_Header head)) targetHash blsSig) []).

(** [MaybeAttest] when no other call takes the lock between its three critical sections *)
Definition MaybeAttest (n : Node) : Node * result unit :=
  match n_validatorKey n with
  | None => (n, Ok tt)
  | Some key =>
      if negb (bool_decide (ConsensusMode (n_chain n) = PoS)) then (n, Ok tt)
      else
        let height := h_Height (b_Header (Head (n_chain n))) in
        if (height =? 0) || negb (height mod CheckpointInterval =? 0)
           || (height <=? n_lastAttestedHeight n)
        then (n, Ok tt)
        else
          match SubmitTx n (attestation_tx n key) with
          | (n, Err e) => (n, Err e)
          | (n, Ok _) => (with_attested n height, Ok tt)
          end
  end.

(** ** Blocks of peers *)

Definition AcceptExternalBlock (n : Node) (b : Block) : Node * result unit :=
  let '(c, r) := AddBlock (n_chain n) b (Some wallet_Verify) in
  let n := with_chain n c in
  match r with
  | Err ErrDuplicateBlock => (n, Ok tt)
  | Err e => (n, Err e)
  | Ok _ => save_node n
  end.
End Node.
