(* ===== verification/NodeProps.v ===== *)
(** * The full node: theorems

    Admission to the mempool, the invariant of a running node, mining, and what can stop
    a node from producing blocks. *)

From Stdlib Require Import String.
From stdpp Require Import sorting.
From S2P Require Import Prelude Sha256 Core Pow FeeMarket StateDB Mpt Pos StackVM Exchange.
From S2P Require Import ExchangeProps Adapter Transition TransitionTheorems Chain ChainProps.
From S2P Require Import ChainTheorems ForkChoice BlockBuilder BlockBuilderProps Store.
From S2P Require Import StoreProps Node.

Section NodeProps.
Context `{HK : Secp} `{HBolt : Bolt} `{HGob : Gob}.
Context `{HE : Engine} `{HG : GethEVM} `{HB : Blst} `{HBK : !BlstKeys}.

Abbreviation wv := (Some wallet_Verify : verifier).

(** ** The projection of a sender *)

Lemma project_nonce m a nonce bal :
  is_u64 nonce -> fst (project m a nonce bal) = u64 (nonce + Z.of_nat (length (of_sender a m))).
Proof.
  revert nonce bal. induction m as [|tx m IH]; intros nonce bal Hn.
  - simpl. rewrite Z.add_0_r. symmetry. by apply u64_small.
  - simpl project. unfold of_sender. rewrite filter_cons.
    destruct (decide (tx_From tx = a)) as [E|E].
    + rewrite bool_decide_eq_true_2 by done. cbn [negb]. rewrite IH by apply u64_range.
      unfold u64. rewrite Zplus_mod_idemp_l. f_equal. unfold of_sender. cbn [length]. lia.
    + rewrite bool_decide_eq_false_2 by done. cbn [negb]. by rewrite IH.
Qed.

Lemma projectSender_nonce n a :
  is_u64 (node_Nonce n a) ->
  fst (projectSender n a) = u64 (node_Nonce n a + Z.of_nat (length (of_sender a (n_mempool n)))).
Proof.
  unfold projectSender, node_Nonce. generalize (GetAccount (State (n_chain n)) a). intros acct Hn.
  exact (project_nonce _ _ _ _ Hn).
Qed.

(** the pooled transactions of [a] carry consecutive nonces from the account's *)
Definition sequenced (n : Node) (a : Address) : Prop :=
  forall k tx, of_sender a (n_mempool n) !! k = Some tx ->
    tx_Nonce tx = u64 (node_Nonce n a + Z.of_nat k).

(** what admits a transaction *)
Record admissible (n : Node) (tx : Transaction) : Prop := {
  ad_sig : wallet_Verify tx = true;
  ad_id : tx_ChainID tx = n_chainID n;
  ad_nonce : tx_Nonce tx = fst (projectSender n (tx_From tx));
  ad_funds : tx_From tx = tx_To tx \/ tx_Value tx <= snd (projectSender n (tx_From tx));
  ad_room : MempoolLen n < n_maxMempool n;
}.

Lemma SubmitTx_ok n tx :
  admissible n tx -> SubmitTx n tx = (with_mempool n (n_mempool n ++ [tx]), Ok tt).
Proof.
  intros [A1 A2 A3 A4 A5]. unfold SubmitTx. rewrite A1, A2, Z.eqb_refl. cbn [negb].
  destruct (projectSender n (tx_From tx)) as [nn sp]. cbn [fst snd] in *.
  rewrite A3, Z.eqb_refl. cbn [negb].
  replace (negb (bool_decide (tx_From tx = tx_To tx)) && (sp <? tx_Value tx)) with false.
  2:{ destruct A4 as [E|Hle]; [by rewrite bool_decide_eq_true_2|].
      rewrite (proj2 (Z.ltb_ge _ _) Hle). by rewrite andb_false_r. }
  by rewrite (proj2 (Z.leb_gt _ _) A5).
Qed.

Lemma SubmitTx_cases n tx :
  (admissible n tx /\ SubmitTx n tx = (with_mempool n (n_mempool n ++ [tx]), Ok tt)) \/
  (~ admissible n tx /\ exists e, SubmitTx n tx = (n, Err e)).
Proof.
  destruct (decide (wallet_Verify tx = true /\ tx_ChainID tx = n_chainID n /\
    tx_Nonce tx = fst (projectSender n (tx_From tx)) /\
    (tx_From tx = tx_To tx \/ tx_Value tx <= snd (projectSender n (tx_From tx))) /\
    MempoolLen n < n_maxMempool n)) as [(A1 & A2 & A3 & A4 & A5)|Hno].
  - left. assert (A : admissible n tx) by (by split). split; [done|by apply SubmitTx_ok].
  - right. split; [by intros []; apply Hno|]. revert Hno. unfold SubmitTx.
    destruct (wallet_Verify tx); [|by eexists]. cbn [negb].
    destruct (Z.eqb_spec (tx_ChainID tx) (n_chainID n)); [|by eexists]. cbn [negb].
    destruct (projectSender n (tx_From tx)) as [nn sp]. cbn [fst snd].
    destruct (Z.eqb_spec (tx_Nonce tx) nn); [|by eexists]. cbn [negb].
    case_bool_decide as Ef; cbn [negb andb].
    + destruct (Z.leb_spec (n_maxMempool n) (MempoolLen n)); [by eexists|]. intros []. naive_solver.
    + destruct (Z.ltb_spec sp (tx_Value tx)); [by eexists|].
      destruct (Z.leb_spec (n_maxMempool n) (MempoolLen n)); [by eexists|]. intros []. naive_solver lia.
Qed.

Lemma node_Nonce_pooled n m a : node_Nonce (with_mempool n m) a = node_Nonce n a.
Proof. unfold node_Nonce. cbn [with_mempool n_chain]. reflexivity. Qed.

Lemma SubmitTx_sequenced n tx a :
  is_u64 (node_Nonce n a) -> sequenced n a -> sequenced (fst (SubmitTx n tx)) a.
Proof.
  intros Hu S. destruct (SubmitTx_cases n tx) as [[A ->]|[_ [e ->]]]; [|done].
  intros k x. cbn [fst]. rewrite node_Nonce_pooled. cbn [with_mempool n_mempool].
  rewrite of_sender_app. intros Hk. apply lookup_app_Some in Hk as [Hk|[Hge Hk]]; [by apply S|].
  unfold of_sender in Hk at 2. rewrite filter_cons in Hk. case_decide as Ea; [|done].
  destruct (k - length (of_sender a (n_mempool n)))%nat as [|j] eqn:Ej; [|by destruct j].
  injection Hk as <-. subst a. rewrite (ad_nonce _ _ A), (projectSender_nonce _ _ Hu).
  do 3 f_equal. lia.
Qed.

(** ** Mining fails when a selected transaction cannot be applied *)

Lemma apply_txs_bad (st : mptStateDB) txs tx v height i session baseFee gas tip :
  tx ∈ txs ->
  (forall (st : mptStateDB) i s, exists e, (applyTxAtSession st tx v height i s baseFee).2 = Err e) ->
  exists e, (apply_txs st txs v height i session baseFee gas tip).2 = Err e.
Proof.
  intros Hin Hbad. revert st i session gas tip.
  induction txs as [|x txs IH]; intros st i session gas tip; [by apply not_elem_of_nil in Hin|].
  cbn [apply_txs]. apply elem_of_cons in Hin as [<-|Hin].
  - destruct (Hbad st (u32 (Z.of_nat i)) session) as [e He].
    destruct (applyTxAtSession _ _ _ _ _ _ _) as [[st' s'] [[g t]|e']]; [done|]. by exists e'.
  - destruct (applyTxAtSession _ _ _ _ _ _ _) as [[st' s'] [[g t]|e']]; [by apply IH|]. by exists e'.
Qed.

Lemma CandidateStateRoot_bad c txs tx coinbase v :
  tx ∈ txs ->
  (forall (st : mptStateDB) height i s fee, exists e, (applyTxAtSession st tx v height i s fee).2 = Err e) ->
  exists e, CandidateStateRoot c txs coinbase v = Err e.
Proof.
  intros Hin Hbad. unfold CandidateStateRoot.
  destruct (deriveState _ _ _) as [st|e]; [|by exists e]. cbn [mbind result_bind].
  destruct (assertChainID c txs) as [[]|e]; [|by exists e]. cbn [mbind result_bind].
  unfold applyTxsAt. destruct (open_session _ _ _) as [s|e]; [|by exists e].
  match goal with |- context [apply_txs ?a ?b ?c ?d ?e ?f ?g ?h ?i] =>
    destruct (apply_txs_bad a b tx c d e f g h i Hin) as [er Her] end; [by intros; apply Hbad|].
  destruct (apply_txs _ _ _ _ _ _ _ _ _) as [[st' s'] r]. cbn [snd] in Her. subst r. by eexists.
Qed.

(** a single pending transaction that pays no fee is the block *)
Lemma BuildBlockTxs_single c tx :
  isFeePriced (State c) tx = false -> BuildBlockTxs c [tx] = [tx].
Proof.
  intros Hf. assert (Es : of_sender (tx_From tx) [tx] = [tx]) by (by apply of_sender_same; constructor).
  assert (Hall : forall x, x ∈ BuildBlockTxs c [tx] -> tx_From x = tx_From tx).
  { intros x Hx. destruct (decide (tx_From x = tx_From tx)) as [|Hne]; [done|].
    pose proof (BuildBlockTxs_free c [tx] (tx_From x)) as F.
    rewrite (of_sender_other (tx_From x) (tx_From tx) [tx]) in F by (done || by constructor).
    specialize (F (List.Forall_nil _)). assert (Hin : x ∈ of_sender (tx_From x) (BuildBlockTxs c [tx]))
      by (by apply list_elem_of_filter).
    rewrite F in Hin. by apply not_elem_of_nil in Hin. }
  pose proof (BuildBlockTxs_free c [tx] (tx_From tx)) as F. rewrite Es in F.
  rewrite (of_sender_same (tx_From tx) (BuildBlockTxs c [tx])) in F; [|by apply Forall_forall].
  apply F. by constructor.
Qed.

Lemma node_Nonce_eq n a : node_Nonce n a = Nonce (GetAccount (State (n_chain n)) a).
Proof. unfold node_Nonce. reflexivity. Qed.

Lemma node_Balance_eq n a : node_Balance n a = Balance (GetAccount (State (n_chain n)) a).
Proof. unfold node_Balance. reflexivity. Qed.

Lemma wrong_nonce_bad (st : mptStateDB) tx v height mode fee :
  Nonce (GetAccount st (tx_From tx)) <> tx_Nonce tx ->
  exists e, snd (applyTxsAt st [tx] v height mode fee) = Err e.
Proof.
  intros Hn. unfold applyTxsAt. destruct (open_session _ _ _) as [s|e]; [|by exists e].
  cbn [apply_txs]. unfold applyTxAtSession. destruct (negb (verify_sig _ _)); [by eexists|].
  rewrite (proj2 (Z.eqb_neq _ _) (not_eq_sym Hn)). by eexists.
Qed.

(** a pool with one transaction that cannot be applied to the head state *)
Lemma single_no_root n tx coinbase :
  chain_inv wv (n_chain n) ->
  (forall v h m f, exists e, snd (applyTxsAt (State (n_chain n)) [tx] v h m f) = Err e) ->
  exists e, deriveStateRoot n [tx] coinbase = Err e.
Proof.
  intros I. unfold deriveStateRoot, CandidateStateRoot, State. rewrite (ci_state _ _ I).
  cbn [mbind result_bind]. generalize (c_headState (n_chain n)). intros st Hbad.
  destruct (assertChainID _ _) as [[]|e]; [|by exists e]. cbn [mbind result_bind].
  match goal with |- context [applyTxsAt st [tx] ?v ?h ?m ?f] => destruct (Hbad v h m f) as [e He] end.
  destruct (applyTxsAt _ _ _ _ _ _) as [st' r]. cbn [snd] in He. subst r. by exists e.
Qed.

Lemma uncovered_bad (st : mptStateDB) tx v height mode fee :
  Balance (GetAccount st (tx_From tx)) < tx_Value tx ->
  isFeePriced st tx = false -> IsAttestationTx tx = false ->
  exists e, snd (applyTxsAt st [tx] v height mode fee) = Err e.
Proof.
  intros Hb Hf Ha. unfold applyTxsAt. destruct (open_session _ _ _) as [s|e]; [|by exists e].
  cbn [apply_txs]. unfold applyTxAtSession. destruct (negb (verify_sig _ _)); [by eexists|].
  destruct (negb _); [by eexists|]. rewrite (proj2 (Z.ltb_lt _ _) Hb).
  unfold isFeePriced in Hf. rewrite Ha, orb_false_r in Hf.
  destruct (IsExchangeTx tx); [by eexists|]. apply orb_false_iff in Hf as [-> ->]. rewrite Ha. by eexists.
Qed.

Lemma AcceptExternalBlock_pool n b : n_mempool (fst (AcceptExternalBlock n b)) = n_mempool n.
Proof.
  unfold AcceptExternalBlock. destruct (AddBlock _ _ _) as [c [u|e]]; [|by destruct e].
  unfold save_node. cbn [with_chain n_store]. destruct (n_store n) as [s|]; [|done].
  by destruct (Store.Save _ _).
Qed.

(** an order the exchange cannot decode is never applied *)
Lemma malformed_order_bad (st : mptStateDB) tx v height i s fee e :
  IsExchangeTx tx = true -> Decode (tx_From tx) (tx_Data tx) = Err e ->
  exists e', (applyTxAtSession st tx v height i s fee).2 = Err e'.
Proof.
  intros Hx Hd. unfold applyTxAtSession. destruct (negb (verify_sig v tx)); [by eexists|].
  destruct (negb _); [by eexists|]. rewrite Hx. destruct (_ <? _); [by eexists|].
  destruct s as [s|].
  - unfold session_Apply. rewrite Hd. by eexists.
  - unfold Apply. rewrite Hd. by eexists.
Qed.

Lemma MineBlock_no_root fuel n now e :
  deriveStateRoot n (BuildBlockTxs (n_chain n) (n_mempool n)) (Key_Address (n_miner n)) = Err e ->
  MineBlock fuel n now = (n, Err e).
Proof. intros E. unfold MineBlock. by rewrite E. Qed.

Lemma ProposeBlock_no_root n now e :
  deriveStateRoot n (BuildBlockTxs (n_chain n) (n_mempool n)) (Key_Address (n_miner n)) = Err e ->
  exists e', ProposeBlock n now = (n, Err e').
Proof.
  intros E. unfold ProposeBlock. destruct (negb _); [by eexists|].
  destruct (EffectiveValidatorSet (n_chain n)) as [active total].
  destruct (SelectProposer _ _ _) as [sel|]; [|by eexists]. destruct (negb _); [by eexists|].
  destruct (n_validatorKey n); [|by eexists]. rewrite E. by eexists.
Qed.

(** pending transactions of a sender who pays no fees are selected *)
Lemma free_selected c mempool tx :
  tx ∈ mempool -> Forall (fun x => isFeePriced (State c) x = false) (of_sender (tx_From tx) mempool) ->
  tx ∈ BuildBlockTxs c mempool.
Proof.
  intros Hin Hf. assert (H : tx ∈ of_sender (tx_From tx) (BuildBlockTxs c mempool)).
  { rewrite (BuildBlockTxs_free c mempool (tx_From tx) Hf), merge_sort_Permutation.
    unfold of_sender. by apply list_elem_of_filter. }
  unfold of_sender in H. by apply list_elem_of_filter in H as [_ H].
Qed.

(** ** The invariant of a running node *)

Record node_inv (n : Node) : Prop := {
  ni_chain : chain_inv wv (n_chain n);
  ni_pool : Forall (fun tx => wallet_Verify tx = true /\ tx_ChainID tx = n_chainID n) (n_mempool n);
  ni_room : MempoolLen n <= n_maxMempool n;
  ni_id : c_chainID (n_chain n) = n_chainID n;
}.

(** one call of a method that changes the node *)
Inductive node_step : Node -> Node -> Prop :=
| ns_submit n tx : node_step n (fst (SubmitTx n tx))
| ns_mine fuel n now : node_step n (fst (MineBlock fuel n now))
| ns_propose n now : node_step n (fst (ProposeBlock n now))
| ns_attest n : node_step n (fst (MaybeAttest n))
| ns_accept n b : node_step n (fst (AcceptExternalBlock n b))
| ns_exchange n mode b :
    c_blocks (n_chain n) = {[c_genesisHash (n_chain n) := b]} ->
    node_step n (node_SetExchangeMode n mode).

Inductive node_reachable : Node -> Prop :=
| nr_new cfg opened now n : New_node cfg opened now = Ok n -> node_reachable n
| nr_step n n' : node_reachable n -> node_step n n' -> node_reachable n'.

Lemma AddBlock_chainID c b v : c_chainID (fst (AddBlock c b v)) = c_chainID c.
Proof.
  destruct (validate_block c b v) as [[w st]|e] eqn:E; [|unfold AddBlock; by rewrite E].
  rewrite (AddBlock_steps _ _ _ _ _ E). cbn [fst].
  set (c1 := with_block _ _ _ _). pose proof (note_evidence_ledger c1 b) as L.
  rewrite (sl_id _ _ (choose_head_ledger _ _ (block_Hash b) st L)). unfold choose_head.
  by destruct (_ <? _).
Qed.

Lemma load_blocks_inv s c h k c' :
  chain_inv wv c -> load_blocks s c h k = Ok c' -> chain_inv wv c'.
Proof.
  revert c h. induction k as [|k IH]; intros c h I; cbn [load_blocks]; [by intros <-%Ok_inj|].
  destruct (need _) as [ch|]; [|done]. cbn [mbind result_bind].
  destruct (need _) as [b|]; [|done]. cbn [mbind result_bind].
  pose proof (AddBlock_inv wv c b I) as I'.
  destruct (AddBlock c b wv) as [c1 [u|]]; [|done]. by apply IH.
Qed.

Lemma Load_inv s c : Store.Load s = Ok (Some c) -> chain_inv wv c.
Proof.
  unfold Store.Load. destruct (GetHead s) as [[hh|]|]; [|done|done]. cbn [mbind result_bind].
  destruct (need (GetCanonical s 0)) as [gh|]; [|done]. cbn [mbind result_bind].
  destruct (need (GetBlock s gh)) as [g|]; [|done]. cbn [mbind result_bind].
  destruct (GetGenesisAlloc s) as [al|]; [|done]. cbn [mbind result_bind].
  destruct (GetGenesisBaseAlloc s) as [ba|]; [|done]. cbn [mbind result_bind].
  destruct (need (GetBlock s hh)) as [hb|]; [|done]. cbn [mbind result_bind].
  destruct (load_blocks _ _ _ _) as [c1|] eqn:E; [|done]. cbn [mbind result_bind].
  case_bool_decide; [|done]. intros Eq%Ok_inj. injection Eq as <-.
  eapply load_blocks_inv; [apply NewChain_inv|exact E].
Qed.

Lemma configure_inv cfg c c' :
  chain_inv wv c -> configure cfg c = Ok c' -> chain_inv wv c' /\ c_chainID c' = c_chainID c.
Proof.
  intros I. unfold configure. case_bool_decide; [|by intros <-%Ok_inj].
  destruct (NewValidatorSet _) as [vs|]; [|done]. cbn [mbind result_bind].
  unfold SetConsensusMode. destruct (_ && _); [done|]. intros <-%Ok_inj.
  split; [by apply with_config_inv|done].
Qed.

Lemma New_node_inv cfg opened now n : New_node cfg opened now = Ok n -> node_inv n.
Proof.
  assert (Hcap : forall m, 0 <= (if m <=? 0 then DefaultMaxMempool else m)).
  { intros m. destruct (Z.leb_spec m 0); [done|lia]. }
  assert (Hf : forall store cap id n, 0 <= cap -> fresh cfg store cap id now = Ok n -> node_inv n).
  { intros store cap id n' Hc. unfold fresh. cbv zeta.
    destruct (configure _ _) as [c|] eqn:Ec; [|done]. cbn [mbind result_bind].
    apply configure_inv in Ec as [I Ei]; [|apply with_config_inv, NewChain_inv].
    destruct (match store with None => _ | Some _ => _ end) as [st|]; [|done]. cbn [mbind result_bind].
    intros <-%Ok_inj. split; cbn; [done|constructor|done|by rewrite Ei]. }
  unfold New_node. cbv zeta. destruct opened as [s|]; [|by apply Hf].
  destruct (Store.Load s) as [[c|]|] eqn:El; cbn [mbind result_bind]; [|by apply Hf|done].
  unfold resume. cbv zeta. case_bool_decide; [done|]. intros <-%Ok_inj.
  split; cbn; [by eapply with_config_inv, Load_inv|constructor|apply Hcap|done].
Qed.

Lemma save_node_inv n : node_inv n -> node_inv (fst (save_node n)).
Proof.
  unfold save_node. destruct (n_store n) as [s|]; [|done].
  destruct (Store.Save s (n_chain n)) as [s' r]. intros []. by split.
Qed.

Lemma with_chain_inv n b :
  node_inv n -> node_inv (with_chain n (fst (AddBlock (n_chain n) b wv))).
Proof.
  intros [I P R D]. split; cbn [with_chain n_chain n_mempool n_maxMempool n_chainID]; [by apply AddBlock_inv|done|done|].
  by rewrite AddBlock_chainID.
Qed.

Lemma drop_included_length m txs : (length (drop_included m txs) <= length m)%nat.
Proof. apply length_filter. Qed.

Lemma pruned_inv n txs : node_inv n -> node_inv (with_mempool n (drop_included (n_mempool n) txs)).
Proof.
  intros [I P R D]. split; cbn [with_mempool n_chain n_mempool n_maxMempool n_chainID]; [done| | |done].
  - unfold drop_included. apply Forall_forall. intros tx [_ Hin]%list_elem_of_filter.
    rewrite Forall_forall in P. by apply P.
  - unfold MempoolLen in *. cbn [with_mempool n_mempool n_maxMempool]. pose proof (drop_included_length (n_mempool n) txs). lia.
Qed.

Lemma commitBlock_inv n blk txs : node_inv n -> node_inv (fst (commitBlock n blk txs)).
Proof.
  intros N. pose proof (with_chain_inv n blk N) as N1. unfold commitBlock.
  destruct (AddBlock (n_chain n) blk wv) as [c [u|e]]; cbn [fst] in *; [|done].
  pose proof (save_node_inv _ (pruned_inv _ txs N1)) as N2.
  by destruct (save_node _) as [n' [u'|e']].
Qed.

Lemma SubmitTx_inv n tx : node_inv n -> node_inv (fst (SubmitTx n tx)).
Proof.
  intros N. destruct (SubmitTx_cases n tx) as [[A ->]|[_ [e ->]]]; [|done]. destruct N as [I P R D].
  split; cbn [fst with_mempool n_chain n_mempool n_maxMempool n_chainID]; [done| | |done].
  - apply Forall_app. split; [done|]. constructor; [|constructor]. split; [apply A|apply A].
  - pose proof (ad_room _ _ A). unfold MempoolLen in *. cbn [with_mempool n_mempool n_maxMempool]. rewrite length_app. cbn [length]. lia.
Qed.

Lemma node_step_inv n n' : node_inv n -> node_step n n' -> node_inv n'.
Proof.
  intros N S. destruct S as [n1 tx|fuel n1 now|n1 now|n1|n1 b|n1 mode b E].
  - by apply SubmitTx_inv.
  - unfold MineBlock. cbv zeta. destruct (deriveStateRoot _ _ _) as [[root g]|]; [|done].
    destruct (Mine _ _ _) as [[[h hash] []]|]; [|done|done]. by apply commitBlock_inv.
  - unfold ProposeBlock. cbv zeta. destruct (negb _); [done|].
    destruct (EffectiveValidatorSet _) as [act total].
    destruct (SelectProposer _ _ _); [|done]. destruct (negb _); [done|].
    destruct (n_validatorKey n1); [|done]. destruct (deriveStateRoot _ _ _) as [[root g]|]; [|done].
    by apply commitBlock_inv.
  - unfold MaybeAttest. destruct (n_validatorKey n1) as [key|]; [|done]. destruct (negb _); [done|].
    cbv zeta. destruct (_ || _); [done|]. pose proof (SubmitTx_inv n1 (attestation_tx n1 key) N) as N1.
    destruct (SubmitTx _ _) as [n2 [u|e]]; cbn [fst] in *; [|done]. destruct N1. by split.
  - pose proof (with_chain_inv n1 b N) as N1. unfold AcceptExternalBlock.
    destruct (AddBlock (n_chain n1) b wv) as [c [u|e]]; cbn [fst] in *; [by apply save_node_inv|].
    by destruct e.
  - destruct N as [I P R D]. split; cbn [node_SetExchangeMode with_chain n_chain n_mempool n_maxMempool n_chainID]; try done.
    by eapply SetExchangeMode_inv.
Qed.

Lemma node_reachable_inv n : node_reachable n -> node_inv n.
Proof. induction 1 as [cfg o now n E|n n' _ IH S]; [by eapply New_node_inv|by eapply node_step_inv]. Qed.

(** ** Mining *)

Lemma mine_loop_found fuel i header hash m h' hash' :
  mine_loop fuel i header hash m = Some (h', hash', true) ->
  h' = set_nonce header (h_Nonce h') /\ MeetsTarget (header_Hash h') (h_Difficulty header) = true.
Proof.
  revert i header hash. induction fuel as [|fuel IH]; intros i header hash; cbn [mine_loop].
  - destruct (_ || _); [done|]. intros E. discriminate E.
  - destruct (_ || _); [|intros E; discriminate E]. cbv zeta.
    destruct (MeetsTarget (header_Hash (set_nonce header i)) (h_Difficulty (set_nonce header i))) eqn:Em.
    + intros E. apply (inj Some) in E. apply pair_equal_spec in E as [E _].
      apply pair_equal_spec in E as [<- _]. split; [done|exact Em].
    + intros E. apply IH in E as [E1 E2]. by rewrite set_nonce_set in E1.
Qed.

(** the block handed to [AddBlock] is built on the head *)
Lemma mined_built_on n txs root g now h :
  h = set_nonce (b_Header (mine_template n txs root g now)) (h_Nonce h) ->
  built_on (n_chain n) txs (Key_Address (n_miner n)) root g (mkBlock h txs).
Proof. intros ->. by split. Qed.

Lemma not_pooled m txs tx : tx ∈ txs -> tx ∉ drop_included m txs.
Proof.
  intros Hin [Hno _]%list_elem_of_filter. apply Hno, elem_of_list_to_set, list_elem_of_fmap. by exists tx.
Qed.

Lemma commitBlock_ok n b txs c' :
  n_store n = None -> AddBlock (n_chain n) b wv = (c', Ok tt) ->
  commitBlock n b txs = (with_mempool (with_chain n c') (drop_included (n_mempool n) txs), Ok b).
Proof.
  intros Hs E. unfold commitBlock. rewrite E. unfold save_node.
  cbn [with_mempool with_chain n_store n_mempool]. by rewrite Hs.
Qed.

(** ** What the methods do to the chain *)

Lemma SubmitTx_chain n tx : n_chain (fst (SubmitTx n tx)) = n_chain n.
Proof. unfold SubmitTx. by repeat case_match. Qed.

Lemma save_node_chain n : n_chain (fst (save_node n)) = n_chain n.
Proof. unfold save_node. destruct (n_store n); [|done]. by destruct (Store.Save _ _). Qed.

Lemma commitBlock_chain n blk txs :
  n_chain (fst (commitBlock n blk txs)) = fst (AddBlock (n_chain n) blk (Some wallet_Verify)).
Proof.
  unfold commitBlock. destruct (AddBlock (n_chain n) blk _) as [c [u|e]]; [|done]. cbv zeta.
  set (n1 := with_mempool _ _). pose proof (save_node_chain n1) as E.
  destruct (save_node n1) as [n' [u'|e']]; cbn [fst] in *; by rewrite E.
Qed.
End NodeProps.

(** C2: the invariant of a running node.  After [New] and any sequence of submissions,
    mined, proposed and received blocks and attestations, successful or not: every
    pending transaction is signed by its sender and carries the chain's id, the pool
    is within its cap, the head is a stored block no stored block outweighs, and
    replaying its branch from genesis gives the node's state. *)
Theorem node_invariant `{Secp} `{Bolt} `{Gob} `{Engine} `{GethEVM} `{Blst} `{!BlstKeys} n :
  node_reachable n ->
  (forall tx, tx ∈ n_mempool n ->
     wallet_Verify tx = true /\ tx_ChainID tx = ChainID (n_chain n)) /\
  MempoolLen n <= MempoolCap n /\
  c_blocks (n_chain n) !! c_head (n_chain n) = Some (node_Head n) /\
  (forall h, is_Some (c_blocks (n_chain n) !! h) ->
     TotalDifficulty (n_chain n) h <= TotalDifficulty (n_chain n) (c_head (n_chain n))) /\
  deriveState (n_chain n) (c_head (n_chain n)) (Some wallet_Verify) = Ok (State (n_chain n)).
Proof.
  intros R. destruct (node_reachable_inv n R) as [[L [hb Hh] Hm Hs _] P C D]. split_and!; try done.
  - intros tx Hin. rewrite Forall_forall in P. unfold ChainID. rewrite D. by apply P.
  - unfold node_Head, Head, block_at. by rewrite Hh.
Qed.

(** C30: admission to the mempool.  [SubmitTx] appends a transaction exactly when it is signed
    by its sender, carries the node's chain id and the sender's next nonce counting the
    pending ones, is a transfer to the sender itself or has a value covered by the balance
    the pending ones leave, and the pool is below its cap; otherwise it reports an error
    and the node is unchanged.  (The exception for self-transfers admits ones that can never
    be applied: see [uncovered_self_transfer_stalls].) *)
Theorem SubmitTx_admits `{Secp} `{Bolt} `{Gob} `{Engine} `{GethEVM} `{Blst} `{!BlstKeys} n tx :
  (SubmitTx n tx = (with_mempool n (n_mempool n ++ [tx]), Ok tt) <-> admissible n tx) /\
  (~ admissible n tx -> exists e, SubmitTx n tx = (n, Err e)).
Proof.
  destruct (SubmitTx_cases n tx) as [[A E]|[A [e E]]].
  - split; [by split|done].
  - split; [|intros _; by exists e]. split; [rewrite E; intros [=]|done].
Qed.

(** C31: submissions keep every sender's nonces consecutive.  On a node whose pool is empty,
    whatever transactions are submitted before the next block, in any order and with any
    failures in between, the pending transactions of each sender carry the nonces n, n+1,
    n+2, ... from the account's nonce n in the head state, so none of them leaves a gap.
    (A block received from elsewhere can break this: see [stale_tx_stalls].) *)
Theorem pool_nonces_consecutive `{Secp} `{Bolt} `{Gob} `{Engine} `{GethEVM} `{Blst} `{!BlstKeys}
    n txs a k tx :
  n_mempool n = [] -> is_u64 (node_Nonce n a) ->
  of_sender a (n_mempool (foldl (fun n tx => fst (SubmitTx n tx)) n txs)) !! k = Some tx ->
  tx_Nonce tx = u64 (node_Nonce n a + Z.of_nat k).
Proof.
  intros Hm. assert (S : sequenced n a) by (intros j x; by rewrite Hm). clear Hm. revert n S.
  induction txs as [|x txs IH]; intros n S Hu Hk; [by apply S|]. cbn [foldl] in Hk.
  assert (E1 : node_Nonce (fst (SubmitTx n x)) a = node_Nonce n a).
  { destruct (SubmitTx_cases n x) as [[_ ->]|[_ [e ->]]]; [apply node_Nonce_pooled|done]. }
  rewrite <- E1. apply IH; [by apply SubmitTx_sequenced|by rewrite E1|done].
Qed.

(** the head after a block on it: it moves only when the block adds weight *)
Lemma built_head `{Engine} `{GethEVM} `{Blst} v c b c' :
  chain_inv v c -> c_consensusMode c = PoW -> h_PrevHash (b_Header b) = block_Hash (Head c) ->
  AddBlock c b v = (c', Ok tt) ->
  u64 (TotalDifficulty c (c_head c) + h_Difficulty (b_Header b)) <= TotalDifficulty c (c_head c) ->
  Head c' = Head c.
Proof.
  intros I Hm Hp E Hle. destruct (AddBlock_ok _ _ _ _ E) as (w & st & A & EB & ET & _).
  destruct (ci_head _ _ I) as [hb Hhb].
  assert (Eq : block_Hash (Head c) = c_head c).
  { apply (li_hash _ _ (ci_ledger _ _ I)). unfold Head, block_at. by rewrite Hhb. }
  rewrite Eq in Hp.
  pose proof (ac_fresh _ _ _ _ _ A) as Hn. pose proof (ac_consensus _ _ _ _ _ A) as Hw.
  unfold check_consensus in Hw. rewrite bool_decide_eq_false_2 in Hw by congruence. cbv zeta iota in Hw.
  destruct (MeetsTarget _ _); [|done]. injection Hw as <-.
  pose proof (AddBlock_head v c b I) as Hh. rewrite E in Hh. specialize (Hh eq_refl). cbn [fst] in Hh.
  unfold TotalDifficulty at 2 in Hh. rewrite ET, lookup_insert, decide_True, Hp in Hh by done.
  cbn [default id] in Hh. rewrite (proj2 (Z.ltb_ge _ _) Hle) in Hh.
  unfold Head, block_at. rewrite Hh, EB. by rewrite lookup_insert_ne by congruence.
Qed.

(** C21: mining a block.  Take an in-memory proof-of-work node reached by any sequence of
    calls, whose selected transactions apply within the gas limit and whose search for a
    nonce ends with a header that is not stored yet.  Then [MineBlock] returns that block
    (its own validation never rejects it), the pool keeps exactly the transactions whose
    hash is not one of the block's, and the block is the new head, with the state root it
    announced, exactly when the node's difficulty adds weight modulo 2^64; at difficulty 0
    the head stays where it was. *)
Theorem MineBlock_extends `{Secp} `{Bolt} `{Gob} `{Engine} `{GethEVM} `{Blst} `{!BlstKeys}
    fuel n now txs root g h hash :
  node_reachable n -> node_ConsensusMode n = PoW -> n_store n = None ->
  txs = BuildBlockTxs (n_chain n) (n_mempool n) ->
  deriveStateRoot n txs (MinerAddress n) = Ok (root, g) -> g <= GasLimit (n_chain n) ->
  0 <= h_Height (b_Header (node_Head n)) < two64 - 1 ->
  Mine fuel (b_Header (mine_template n txs root g now)) 0 = Some (h, hash, true) ->
  GetByHash (n_chain n) (header_Hash h) = None ->
  exists n', MineBlock fuel n now = (n', Ok (mkBlock h txs)) /\
    n_mempool n' = drop_included (n_mempool n) txs /\ (forall tx, tx ∈ txs -> tx ∉ n_mempool n') /\
    let weight := TotalDifficulty (n_chain n) (c_head (n_chain n)) in
    node_Head n' = (if weight <? u64 (weight + n_Difficulty n) then mkBlock h txs else node_Head n) /\
    (weight < u64 (weight + n_Difficulty n) -> StateRoot (State (n_chain n')) = root).
Proof.
  intros R Hm Hst Etx Hd Hg Hht Hmine Hf. apply mine_loop_found in Hmine as Hw. destruct Hw as [Eh Ht].
  pose proof (mined_built_on n txs root g now h Eh) as B.
  assert (Edi : h_Difficulty h = n_Difficulty n) by (rewrite Eh; reflexivity).
  destruct (built_block_added (Some wallet_Verify) (n_chain n) txs (MinerAddress n) root g (mkBlock h txs))
    as (c' & E & Hhead); try done.
  { by apply ni_chain, node_reachable_inv. }
  { change (b_Header (mkBlock h txs)) with h. by rewrite Edi. }
  change (b_Header (mkBlock h txs)) with h in Hhead. rewrite Edi in Hhead.
  pose proof (built_head (Some wallet_Verify) (n_chain n) (mkBlock h txs) c') as Hstay.
  change (b_Header (mkBlock h txs)) with h in Hstay. rewrite Edi in Hstay.
  exists (with_mempool (with_chain n c') (drop_included (n_mempool n) txs)). cbv zeta. split_and!.
  - unfold MineBlock. cbv zeta. unfold MinerAddress in Hd. rewrite <- Etx, Hd, Hmine.
    by apply commitBlock_ok.
  - done.
  - intros tx Hin. by apply not_pooled.
  - destruct (Z.ltb_spec (TotalDifficulty (n_chain n) (c_head (n_chain n)))
      (u64 (TotalDifficulty (n_chain n) (c_head (n_chain n)) + n_Difficulty n))) as [Hlt|Hge].
    + exact (proj1 (Hhead Hlt)).
    + apply Hstay; [by apply ni_chain, node_reachable_inv|done|exact (bo_prev _ _ _ _ _ _ B)|done|done].
  - intros Hlt. exact (proj2 (proj2 (Hhead Hlt))).
Qed.

(** C35: one undecodable order stops block production.  While the pool holds an order whose
    calldata the exchange cannot decode and none of its sender's pending transactions is
    fee-priced (so that nothing can hold the order back), every call of [MineBlock] and
    [ProposeBlock] fails and leaves the node, and so the pool, exactly as it was. *)
Theorem undecodable_order_stalls `{Secp} `{Bolt} `{Gob} `{Engine} `{GethEVM} `{Blst} `{!BlstKeys}
    n tx e fuel now :
  tx ∈ n_mempool n -> IsExchangeTx tx = true -> Decode (tx_From tx) (tx_Data tx) = Err e ->
  Forall (fun x => isFeePriced (State (n_chain n)) x = false) (of_sender (tx_From tx) (n_mempool n)) ->
  (exists e', MineBlock fuel n now = (n, Err e')) /\ (exists e', ProposeBlock n now = (n, Err e')).
Proof.
  intros Hin Hx Hd Hf. pose proof (free_selected _ _ _ Hin Hf) as Hsel.
  destruct (CandidateStateRoot_bad (n_chain n) _ tx (Key_Address (n_miner n)) (Some wallet_Verify) Hsel)
    as [e' He].
  { intros. by eapply malformed_order_bad. }
  split; [exists e'; by apply MineBlock_no_root|by eapply ProposeBlock_no_root].
Qed.

(** A stale transaction stops block production.  A block received from a peer never
    removes anything from the pool; so when the pool holds one transaction that pays
    no fee and the received block moved its sender's nonce on (for instance because it
    contains that transaction), every later [MineBlock] and [ProposeBlock] fails and
    changes nothing. *)
Theorem stale_tx_stalls `{Secp} `{Bolt} `{Gob} `{Engine} `{GethEVM} `{Blst} `{!BlstKeys}
    n b n' r tx fuel now :
  node_reachable n -> AcceptExternalBlock n b = (n', r) -> n_mempool n = [tx] ->
  isFeePriced (State (n_chain n')) tx = false -> node_Nonce n' (tx_From tx) <> tx_Nonce tx ->
  n_mempool n' = [tx] /\
  (exists e, MineBlock fuel n' now = (n', Err e)) /\ (exists e, ProposeBlock n' now = (n', Err e)).
Proof.
  intros R E Hm Hf Hn.
  assert (Hm' : n_mempool n' = [tx]).
  { rewrite <- Hm. pose proof (AcceptExternalBlock_pool n b) as Ep. by rewrite E in Ep. }
  assert (I : chain_inv (Some wallet_Verify) (n_chain n')).
  { apply ni_chain. apply (node_step_inv n); [by apply node_reachable_inv|].
    pose proof (ns_accept n b) as S. by rewrite E in S. }
  assert (Es : BuildBlockTxs (n_chain n') (n_mempool n') = [tx]).
  { rewrite Hm'. by apply BuildBlockTxs_single. }
  assert (exists e, deriveStateRoot n' [tx] (Key_Address (n_miner n')) = Err e) as [e He].
  { apply single_no_root; [done|]. intros. apply wrong_nonce_bad. by rewrite <- node_Nonce_eq. }
  rewrite <- Es in He. split_and!; [done|exists e; by apply MineBlock_no_root|by eapply ProposeBlock_no_root].
Qed.

(** An uncovered self-transfer stops block production.  [SubmitTx] skips the balance check for
    a transfer to the sender itself, applying one does not; so a self-transfer of more than
    the sender has is admitted by a node with an empty pool, and every [MineBlock] and
    [ProposeBlock] fails from then on and changes nothing. *)
Theorem uncovered_self_transfer_stalls `{Secp} `{Bolt} `{Gob} `{Engine} `{GethEVM} `{Blst} `{!BlstKeys}
    n tx fuel now :
  node_reachable n -> n_mempool n = [] -> 0 < n_maxMempool n ->
  wallet_Verify tx = true -> tx_ChainID tx = n_chainID n -> tx_Nonce tx = node_Nonce n (tx_From tx) ->
  tx_From tx = tx_To tx -> node_Balance n (tx_From tx) < tx_Value tx ->
  isFeePriced (State (n_chain n)) tx = false -> IsAttestationTx tx = false ->
  exists n', SubmitTx n tx = (n', Ok tt) /\ n_mempool n' = [tx] /\
    (exists e, MineBlock fuel n' now = (n', Err e)) /\ (exists e, ProposeBlock n' now = (n', Err e)).
Proof.
  intros R Hm Hcap Hv Hid Hn Hself Hb Hf Ha. rewrite node_Balance_eq in Hb. rewrite node_Nonce_eq in Hn.
  assert (I : chain_inv (Some wallet_Verify) (n_chain n)) by (by apply ni_chain, node_reachable_inv).
  assert (E : SubmitTx n tx = (with_mempool n [tx], Ok tt)).
  { pose proof (SubmitTx_ok n tx) as E. rewrite Hm in E. apply E.
    split; [exact Hv|exact Hid| |left; exact Hself|unfold MempoolLen; rewrite Hm; exact Hcap].
    unfold projectSender. rewrite Hm. cbn [project fst]. exact Hn. }
  set (n' := with_mempool n [tx]) in E. exists n'.
  assert (Ec : n_chain n' = n_chain n) by reflexivity. assert (Em : n_mempool n' = [tx]) by reflexivity.
  clearbody n'. rewrite <- Ec in Hb, Hf, I.
  destruct (single_no_root n' tx (Key_Address (n_miner n')) I) as [e He].
  { intros v h m f. exact (uncovered_bad _ _ v h m f Hb Hf Ha). }
  rewrite <- (BuildBlockTxs_single (n_chain n') tx Hf), <- Em in He.
  split_and!; [exact E|exact Em|exists e; by apply MineBlock_no_root|by eapply ProposeBlock_no_root].
Qed.

(** ** A node, for examples *)

#[local] Existing Instance toy_secp.
#[local] Existing Instance toy_bolt.
#[local] Existing Instance toy_gob.
#[local] Existing Instance toy_engine.
#[local] Existing Instance toy_evm.
#[local] Existing Instance toy_blst.
#[local] Instance toy_blst_keys : BlstKeys := {|
  SecretKey := Z;
  P1_From := fun k => replicate 48 k;
  P1_Compress := fun p => p;
  P2_Sign := fun k _ _ => replicate 96 k;
|}.

Definition key1_addr : Address := @Key_Address toy_secp Key1.

Definition sample_config (id : Z) : Config :=
  @mkConfig toy_secp toy_blst toy_blst_keys Key2 1 {[key1_addr := 1000]} ∅ 1700000000 0 id PoW [] None.

Definition sample_node : Node := Eval vm_compute in
  match New_node (sample_config 0) None 0 with
  | Ok n => n
  | Err _ => mkNode sample_chain None [] 0 (Key2 : @PrivKey toy_secp) 0 0 None 0 ∅ ∅
  end.

Definition pay_bob (id nonce : Z) : Transaction :=
  @Key_Sign toy_secp Key1 (mkTx zero_addr bob 70 nonce 0 id 0 0 [] []).
Definition bad_order : Transaction :=
  @Key_Sign toy_secp Key1 (mkTx zero_addr ExchangeAddress 0 0 0 1337 0 0 [] []).

Lemma sample_node_new : New_node (sample_config 0) None 0 = Ok sample_node.
Proof. vm_compute. reflexivity. Qed.
Lemma sample_node_reachable : node_reachable sample_node.
Proof. exact (nr_new _ _ _ _ sample_node_new). Qed.

Definition paying_node : Node := Eval vm_compute in fst (SubmitTx sample_node (pay_bob 1337 0)).
Lemma paying_node_reachable : node_reachable paying_node.
Proof.
  apply (nr_step sample_node); [apply sample_node_reachable|].
  assert (E : fst (SubmitTx sample_node (pay_bob 1337 0)) = paying_node) by (vm_compute; reflexivity).
  rewrite <- E. apply ns_submit.
Qed.

Example paying_node_pool : n_mempool paying_node = [pay_bob 1337 0].
Proof. vm_compute. reflexivity. Qed.

Lemma node_invariant_witness :
  deriveState (n_chain paying_node) (c_head (n_chain paying_node)) (Some wallet_Verify)
  = Ok (State (n_chain paying_node)).
Proof. apply (node_invariant paying_node paying_node_reachable). Defined.

Lemma SubmitTx_admits_witness : admissible sample_node (pay_bob 1337 0).
Proof.
  destruct (SubmitTx_admits sample_node (pay_bob 1337 0)) as [[P _] _]. apply P.
  vm_compute. reflexivity.
Defined.

Lemma pool_nonces_consecutive_witness :
  tx_Nonce (pay_bob 1337 1) = u64 (node_Nonce sample_node key1_addr + 1).
Proof.
  apply (pool_nonces_consecutive sample_node
    [pay_bob 1337 0; pay_bob 1337 7; pay_bob 1337 1] key1_addr 1 (pay_bob 1337 1)).
  - vm_compute. reflexivity.
  - vm_compute. split; [discriminate|reflexivity].
  - vm_compute. reflexivity.
Defined.

(** what the node mines *)
Definition mined_root : Hash * Z := Eval vm_compute in
  match deriveStateRoot paying_node [pay_bob 1337 0] (MinerAddress paying_node) with
  | Ok p => p
  | Err _ => (zero_hash, 0)
  end.
Definition mined_header : Header * Hash * bool := Eval vm_compute in
  default (b_Header zero_block, zero_hash, false)
    (Mine 64 (b_Header (mine_template paying_node [pay_bob 1337 0] (fst mined_root) (snd mined_root)
       1700000010)) 0).

Lemma MineBlock_extends_witness :
  exists n', MineBlock 64 paying_node 1700000010
             = (n', Ok (mkBlock (fst (fst mined_header)) [pay_bob 1337 0])) /\
    node_Head n' = mkBlock (fst (fst mined_header)) [pay_bob 1337 0].
Proof.
  destruct (MineBlock_extends 64 paying_node 1700000010 [pay_bob 1337 0] (fst mined_root) (snd mined_root)
    (fst (fst mined_header)) (snd (fst mined_header))) as (n' & E & _ & _ & Hh).
  - apply paying_node_reachable.
  - vm_compute. reflexivity.
  - vm_compute. reflexivity.
  - vm_compute. reflexivity.
  - vm_compute. reflexivity.
  - vm_compute. discriminate.
  - vm_compute. split; [discriminate|reflexivity].
  - vm_compute. reflexivity.
  - vm_compute. reflexivity.
  - exists n'. split; [exact E|]. destruct Hh as [Hh _]. cbv zeta in Hh.
    match type of Hh with context [?a <? ?b] => replace (a <? b) with true in Hh by (vm_compute; reflexivity) end.
    exact Hh.
Defined.

(** a self-transfer of 999999 from a balance of 1000 *)
Definition self_pay : Transaction :=
  @Key_Sign toy_secp Key1 (mkTx zero_addr key1_addr 999999 0 0 1337 0 0 [] []).

Lemma uncovered_self_transfer_stalls_witness :
  exists n', SubmitTx sample_node self_pay = (n', Ok tt) /\
    exists e, MineBlock 64 n' 1700000010 = (n', Err e).
Proof.
  destruct (uncovered_self_transfer_stalls sample_node self_pay 64 1700000010) as (n' & E & _ & P & _).
  - apply sample_node_reachable.
  - vm_compute. reflexivity.
  - vm_compute. reflexivity.
  - vm_compute. reflexivity.
  - vm_compute. reflexivity.
  - vm_compute. reflexivity.
  - vm_compute. reflexivity.
  - vm_compute. reflexivity.
  - vm_compute. reflexivity.
  - vm_compute. reflexivity.
  - exists n'. exact (conj E P).
Defined.

Definition poisoned_node : Node := fst (SubmitTx sample_node bad_order).

Lemma undecodable_order_stalls_witness :
  n_mempool poisoned_node = [bad_order] /\
  exists e, MineBlock 64 poisoned_node 0 = (poisoned_node, Err e).
Proof.
  assert (E : n_mempool poisoned_node = [bad_order]) by (vm_compute; reflexivity).
  split; [exact E|].
  destruct (undecodable_order_stalls poisoned_node bad_order ErrBadCalldata 64 0) as [P _].
  - rewrite E. apply list_elem_of_here.
  - vm_compute. reflexivity.
  - vm_compute. reflexivity.
  - rewrite E. apply Forall_forall. intros x [_ Hx]%list_elem_of_filter.
    apply list_elem_of_singleton in Hx as ->. vm_compute. reflexivity.
  - exact P.
Defined.

(** the same transaction pending at a second node, mined by the first *)
Definition mined_block : Block := mkBlock (fst (fst mined_header)) [pay_bob 1337 0].
Definition synced_node : Node := fst (AcceptExternalBlock paying_node mined_block).

Lemma stale_tx_stalls_witness :
  node_Head synced_node = mined_block /\
  exists e, MineBlock 64 synced_node 1700000020 = (synced_node, Err e).
Proof.
  split; [vm_compute; reflexivity|].
  destruct (stale_tx_stalls paying_node mined_block synced_node
    (snd (AcceptExternalBlock paying_node mined_block)) (pay_bob 1337 0) 64 1700000020) as (_ & P & _).
  - apply paying_node_reachable.
  - apply surjective_pairing.
  - vm_compute. reflexivity.
  - vm_compute. reflexivity.
  - vm_compute. discriminate.
  - exact P.
Defined.

(** a persistent node of chain 9 that mined one transfer, and its database *)
Definition run_then_restart (id : Z) : result Node :=
  n ← New_node (sample_config id) (Some empty_db) 0;
  let '(n, r1) := SubmitTx n (pay_bob (n_chainID n) 0) in
  _ ← r1;
  let '(n, r2) := MineBlock 64 n 1700000010 in
  _ ← r2;
  match n_store n with
  | None => Err ErrDatabase
  | Some s => New_node (sample_config id) (Some s) 0
  end.

(** a persistent node restarts with its state only under the default chain id: with the
    same steps, a node of chain 1337 comes back with the transfer applied, and a node of
    chain 9 refuses its own database, because [Load] re-validates the blocks before the
    configured chain id is set *)
Theorem restart_needs_default_chain_id :
  (n ← run_then_restart 1337; Ok (node_Balance n bob)) = Ok 70 /\
  run_then_restart 9 = Err ErrBadChainID.
Proof. split; vm_compute; reflexivity. Qed.
