(* ===== verification/Validator.v ===== *)
(** * A validator among its peers

    [MaybeAttest] (node/node.go) takes the node's lock three times: to read the head and
    the nonce, to submit the attestation, and to note its height.  Here each section is
    a step of its own, interleaved with transactions and blocks from elsewhere, and the
    log of what the validator signed is kept beside the node.  The environment is
    arbitrary, except that nobody else signs with the validator's keys. *)

From stdpp Require Import sorting.
From S2P Require Import Prelude Sha256 Core Pow FeeMarket StateDB Mpt Pos StackVM Exchange.
From S2P Require Import ExchangeProps Adapter Transition TransitionTheorems Chain ChainProps.
From S2P Require Import ChainTheorems Slashing BlockBuilder BlockBuilderProps Store.
From S2P Require Import StoreProps Node NodeProps.

Section Validator.
Context `{HK : Secp} `{HBolt : Bolt} `{HGob : Gob}.
Context `{HE : Engine} `{HG : GethEVM} `{HB : Blst} `{HBK : !BlstKeys}.

Abbreviation wv := (Some wallet_Verify : verifier).

(** ** The three sections *)

(** the first section: the attestation of the head, when there is one to make *)
Definition attest_read (n : Node) : option (Transaction * Z) :=
  match n_validatorKey n with
  | None => None
  | Some key =>
      if negb (bool_decide (ConsensusMode (n_chain n) = PoS)) then None
      else
        let height := h_Height (b_Header (Head (n_chain n))) in
        if (height =? 0) || negb (height mod CheckpointInterval =? 0)
           || (height <=? n_lastAttestedHeight n)
        then None
        else Some (attestation_tx n key, height)
  end.

(** between the sections *)
Inductive attest_pc :=
| Idle
| Sending (tx : Transaction) (height : Z)
| Marking (height : Z).

(** one section; the goroutine that runs them is the only caller *)
Definition attest_step (n : Node) (pc : attest_pc) : Node * attest_pc :=
  match pc with
  | Idle =>
      match attest_read n with
      | None => (n, Idle)
      | Some (tx, height) => (n, Sending tx height)
      end
  | Sending tx height =>
      match SubmitTx n tx with
      | (n, Err _) => (n, Idle)
      | (n, Ok _) => (n, Marking height)
      end
  | Marking height => (with_attested n height, Idle)
  end.

(** without interruption, the sections are [MaybeAttest] *)
Lemma MaybeAttest_sections n :
  exists k, (0 < k <= 3)%nat /\
    Nat.iter k (fun s => attest_step (fst s) (snd s)) (n, Idle) = (fst (MaybeAttest n), Idle).
Proof.
  unfold MaybeAttest. destruct (n_validatorKey n) as [key|] eqn:Ek.
  2: { exists 1%nat. split; [lia|]. cbn. unfold attest_read. by rewrite Ek. }
  destruct (negb _) eqn:Em.
  { exists 1%nat. split; [lia|]. cbn. unfold attest_read. by rewrite Ek, Em. }
  cbv zeta. destruct (_ || _) eqn:Eh.
  { exists 1%nat. split; [lia|]. cbn. unfold attest_read. by rewrite Ek, Em, Eh. }
  assert (Er : attest_read n = Some (attestation_tx n key, h_Height (b_Header (Head (n_chain n))))).
  { unfold attest_read. by rewrite Ek, Em, Eh. }
  destruct (SubmitTx n (attestation_tx n key)) as [n' [u|e]] eqn:Es.
  - exists 3%nat. split; [lia|]. cbn. rewrite Er. cbn. rewrite Es. done.
  - exists 2%nat. split; [lia|]. cbn. rewrite Er. cbn. rewrite Es. done.
Qed.

(** ** The validator and everything around it *)

(** the node, where its attesting goroutine is, and the payloads it has put in the pool *)
Record validator := mkVState {
  vl_node : Node;
  vl_pc : attest_pc;
  vl_sent : list bytes;
}.

(** an attestation in the name of [me] *)
Definition own (me : Address) (tx : Transaction) : Prop :=
  IsAttestationTx tx = true /\ tx_From tx = me.

(** the payload a section put in the pool *)
Definition attest_log (pc pc' : attest_pc) : list bytes :=
  match pc, pc' with
  | Sending tx _, Marking _ => [tx_Data tx]
  | _, _ => []
  end.

(** the conditions say that what others deliver in the name of [me] comes from it: an
    attestation repeats a payload it has sent, a block is one that it has stored *)
Inductive vstep (me : Address) : validator -> validator -> Prop :=
| vs_submit n pc sent tx :
    (own me tx -> tx_Data tx ∈ sent) ->
    vstep me (mkVState n pc sent) (mkVState (fst (SubmitTx n tx)) pc sent)
| vs_accept n pc sent b :
    (forall tx, tx ∈ b_Txs b -> own me tx -> tx_Data tx ∈ sent) ->
    (h_Coinbase (b_Header b) = me -> is_Some (c_blocks (n_chain n) !! block_Hash b)) ->
    vstep me (mkVState n pc sent) (mkVState (fst (AcceptExternalBlock n b)) pc sent)
| vs_propose n sent now :
    vstep me (mkVState n Idle sent) (mkVState (fst (ProposeBlock n now)) Idle sent)
| vs_attest n pc sent :
    vstep me (mkVState n pc sent)
      (mkVState (fst (attest_step n pc)) (snd (attest_step n pc))
         (sent ++ attest_log pc (snd (attest_step n pc)))).

(** ** What the methods do *)

(** [n'] is [n] after the block [b] was offered to its chain *)
Record offered (n n' : Node) (b : Block) : Prop := {
  of_chain : n_chain n' = fst (AddBlock (n_chain n) b wv);
  of_miner : n_miner n' = n_miner n;
  of_last : n_lastAttestedHeight n' = n_lastAttestedHeight n;
  of_pool : forall tx, tx ∈ n_mempool n' -> tx ∈ n_mempool n;
}.

Lemma save_node_rest n :
  let n' := fst (save_node n) in
  n_miner n' = n_miner n /\ n_lastAttestedHeight n' = n_lastAttestedHeight n /\
  n_mempool n' = n_mempool n.
Proof. unfold save_node. destruct (n_store n); [|done]. by destruct (Store.Save _ _). Qed.

Lemma AcceptExternalBlock_offered n b : offered n (fst (AcceptExternalBlock n b)) b.
Proof.
  unfold AcceptExternalBlock. destruct (AddBlock (n_chain n) b wv) as [c r] eqn:E.
  assert (O : offered n (with_chain n c) b) by (split; cbn; [by rewrite E|done..]).
  destruct r as [u|e]; [|by destruct e].
  pose proof (save_node_chain (with_chain n c)) as Hc.
  destruct (save_node_rest (with_chain n c)) as (H1 & H2 & H3). destruct O as [O1 O2 O3 O4].
  split; [by rewrite Hc|by rewrite H1|by rewrite H2|by rewrite H3].
Qed.

Lemma commitBlock_offered n blk txs : offered n (fst (commitBlock n blk txs)) blk.
Proof.
  pose proof (commitBlock_chain n blk txs) as Hc. unfold commitBlock in *.
  destruct (AddBlock (n_chain n) blk wv) as [c [u|e]] eqn:E; [|split; cbn; by rewrite ?E].
  cbv zeta in *. set (n1 := with_mempool _ _) in *. destruct (save_node_rest n1) as (H1 & H2 & H3).
  destruct (save_node n1) as [n2 [u2|e2]]; cbn [fst] in *; (split; [by rewrite Hc, ?E|done|done|]);
    rewrite H3; intros tx [_ Hin]%list_elem_of_filter; exact Hin.
Qed.

Lemma BuildBlockTxs_pool c mempool tx : tx ∈ BuildBlockTxs c mempool -> tx ∈ mempool.
Proof.
  intros Hin. assert (Hs : tx ∈ of_sender (tx_From tx) (BuildBlockTxs c mempool)).
  { unfold of_sender. by apply list_elem_of_filter. }
  destruct (BuildBlockTxs_prefix c mempool (tx_From tx)) as [k Hk]. rewrite Hk in Hs.
  apply elem_of_take in Hs as (i & Hi & _). apply list_elem_of_lookup_2 in Hi.
  rewrite merge_sort_Permutation in Hi. unfold of_sender in Hi. by apply list_elem_of_filter in Hi as [_ ?].
Qed.

(** a proposal is built on the head, of pooled transactions *)
Lemma ProposeBlock_offered n now :
  fst (ProposeBlock n now) = n \/
  exists b, offered n (fst (ProposeBlock n now)) b /\ c_consensusMode (n_chain n) = PoS /\
    h_PrevHash (b_Header b) = block_Hash (Head (n_chain n)) /\
    h_Coinbase (b_Header b) = Key_Address (n_miner n) /\
    (forall tx, tx ∈ b_Txs b -> tx ∈ n_mempool n).
Proof.
  unfold ProposeBlock. cbv zeta. case_bool_decide as Em; cbn [negb]; [|by left].
  destruct (EffectiveValidatorSet _) as [act total]. destruct (SelectProposer _ _ _); [|by left].
  destruct (negb _); [by left|]. destruct (n_validatorKey n); [|by left].
  destruct (deriveStateRoot _ _ _) as [[root g]|]; [|by left]. right.
  eexists. split; [apply commitBlock_offered|]. split_and!; [done|done|done|].
  intros tx. apply BuildBlockTxs_pool.
Qed.

(** ** The invariant *)

(** the highest height whose attestation is in the pool *)
Definition attested (n : Node) (pc : attest_pc) : Z :=
  match pc with Marking height => height | _ => n_lastAttestedHeight n end.

(** where the goroutine can be *)
Definition pc_ok (n : Node) (pc : attest_pc) : Prop :=
  match pc with
  | Idle => True
  | Sending tx height =>
      n_lastAttestedHeight n < height /\ height mod CheckpointInterval = 0 /\
      forall th t s, DecodeAttest (tx_Data tx) = Ok (th, t, s) -> th = height
  | Marking height => n_lastAttestedHeight n < height
  end.

(** the payloads sent are checkpoints up to the last one, one target per round *)
Record sent_ok (last : Z) (sent : list bytes) : Prop := {
  so_height : forall d th t s, d ∈ sent -> DecodeAttest d = Ok (th, t, s) ->
    th mod CheckpointInterval = 0 /\ th <= last;
  so_once : forall d1 d2 th1 t1 s1 th2 t2 s2, d1 ∈ sent -> d2 ∈ sent ->
    DecodeAttest d1 = Ok (th1, t1, s1) -> DecodeAttest d2 = Ok (th2, t2, s2) ->
    CheckpointRound th1 = CheckpointRound th2 -> t1 = t2;
}.

(** [me]'s blocks, one per parent, each on a parent lighter than the head *)
Record blocks_ok (me : Address) (c : Chain) : Prop := {
  bo_once : forall p h1 h2, proposed c me p h1 -> proposed c me p h2 -> h1 = h2;
  bo_below : forall p h, proposed c me p h -> TotalDifficulty c p < TotalDifficulty c (c_head c);
}.

Record vinv (me : Address) (s : validator) : Prop := {
  vi_node : chain_inv wv (n_chain (vl_node s));
  vi_evidence : accountable (n_chain (vl_node s));
  vi_me : Key_Address (n_miner (vl_node s)) = me;
  vi_height : forall h b, c_blocks (n_chain (vl_node s)) !! h = Some b -> is_u64 (h_Height (b_Header b));
  vi_td : forall h, 0 <= TotalDifficulty (n_chain (vl_node s)) h;
  vi_pool : forall tx, tx ∈ n_mempool (vl_node s) -> own me tx -> tx_Data tx ∈ vl_sent s;
  vi_blocks : forall h b tx, c_blocks (n_chain (vl_node s)) !! h = Some b ->
    h <> c_genesisHash (n_chain (vl_node s)) -> tx ∈ b_Txs b -> own me tx -> tx_Data tx ∈ vl_sent s;
  vi_sent : sent_ok (attested (vl_node s) (vl_pc s)) (vl_sent s);
  vi_pc : pc_ok (vl_node s) (vl_pc s);
  vi_proposals : TotalDifficulty (n_chain (vl_node s)) (c_head (n_chain (vl_node s))) + 1 < two64 ->
    blocks_ok me (n_chain (vl_node s));
}.

(** ** Preservation *)

Lemma sent_ok_app last height sent d :
  sent_ok last sent -> last < height -> height mod CheckpointInterval = 0 ->
  (forall th t s, DecodeAttest d = Ok (th, t, s) -> th = height) ->
  sent_ok height (sent ++ [d]).
Proof.
  intros [Hh Ho] Hlt Hmod Hd. unfold CheckpointRound, CheckpointInterval in *.
  assert (Hold : forall d' th t s th' t' s', d' ∈ sent -> DecodeAttest d' = Ok (th', t', s') ->
    DecodeAttest d = Ok (th, t, s) -> th' / 32 <> th / 32).
  { intros d' th t s th' t' s' Hin E1 E2. apply Hd in E2 as ->.
    destruct (Hh _ _ _ _ Hin E1) as [Hm Hle].
    pose proof (Z.div_mod th' 32 ltac:(lia)). pose proof (Z.div_mod height 32 ltac:(lia)). lia. }
  split.
  - intros d' th t s [Hin|Hin%list_elem_of_singleton]%elem_of_app E; subst.
    + destruct (Hh _ _ _ _ Hin E). split; [done|lia].
    + apply Hd in E as ->. split; [done|lia].
  - intros d1 d2 th1 t1 s1 th2 t2 s2 [H1|H1%list_elem_of_singleton]%elem_of_app
      [H2|H2%list_elem_of_singleton]%elem_of_app E1 E2 Er; subst.
    + exact (Ho _ _ _ _ _ _ _ _ H1 H2 E1 E2 Er).
    + by destruct (Hold _ _ _ _ _ _ _ H1 E1 E2).
    + by destruct (Hold _ _ _ _ _ _ _ H2 E2 E1).
    + congruence.
Qed.

Lemma sent_ok_mono last last' sent : sent_ok last sent -> last <= last' -> sent_ok last' sent.
Proof. intros [Hh Ho] Hle. split; [|done]. intros d th t s Hin E. destruct (Hh _ _ _ _ Hin E). split; [done|lia]. Qed.

(** the payload of an attestation decodes to the height it was made of *)
Lemma DecodeAttest_height height target sig th t s :
  is_u64 height -> DecodeAttest (EncodeAttest height target sig) = Ok (th, t, s) -> th = height.
Proof.
  intros Hh (_ & _ & -> & _)%DecodeAttest_ok. unfold EncodeAttest.
  rewrite (slice_app_skip 1 1 9) by (done || lia). simpl Nat.sub.
  rewrite slice_app_l by apply length_be. by apply be_decode_be8.
Qed.

Lemma attest_read_ok n tx height :
  (forall h b, c_blocks (n_chain n) !! h = Some b -> is_u64 (h_Height (b_Header b))) ->
  is_Some (c_blocks (n_chain n) !! c_head (n_chain n)) ->
  attest_read n = Some (tx, height) -> pc_ok n (Sending tx height).
Proof.
  intros Hu [hb Hb]. unfold attest_read. destruct (n_validatorKey n) as [key|]; [|done].
  destruct (negb (bool_decide _)); [done|]. cbv zeta.
  assert (Hd : is_u64 (h_Height (b_Header (Head (n_chain n))))).
  { unfold Head, block_at. rewrite Hb. by apply (Hu _ _ Hb). }
  destruct (Z.eqb_spec (h_Height (b_Header (Head (n_chain n)))) 0); [done|].
  destruct (Z.eqb_spec (h_Height (b_Header (Head (n_chain n))) mod CheckpointInterval) 0); [|done].
  destruct (Z.leb_spec (h_Height (b_Header (Head (n_chain n)))) (n_lastAttestedHeight n)); [done|].
  cbn [negb orb]. intros [= <- <-]. split_and!; [done|done|]. intros th t s.
  apply DecodeAttest_height. exact Hd.
Qed.

(** a block of [me] on the head is its only one there, and becomes the head *)
Lemma AddBlock_blocks_ok me c b c' :
  chain_inv wv c -> c_consensusMode c = PoS -> (forall h, 0 <= TotalDifficulty c h) ->
  (h_Coinbase (b_Header b) = me -> h_PrevHash (b_Header b) = c_head c) ->
  AddBlock c b wv = (c', Ok tt) ->
  TotalDifficulty c (c_head c) <= TotalDifficulty c' (c_head c') ->
  TotalDifficulty c' (c_head c') + 1 < two64 -> blocks_ok me c -> blocks_ok me c'.
Proof.
  intros I Hm Ht Hp E Hmono Hlim [Bo Bb].
  destruct (AddBlock_ok _ _ _ _ E) as (w & st & A & EB & ET & EG & _ & Hhead).
  pose proof (ac_fresh _ _ _ _ _ A) as Hn. destruct (ci_head _ _ I) as [hb Hhb].
  destruct (li_genesis _ _ (ci_ledger _ _ I)) as [g Hg].
  assert (Hne : block_Hash b <> c_genesisHash c) by congruence.
  destruct (stored_evidence c c' b EB EG Hn Hne) as [_ HP].
  assert (ET' : forall h, is_Some (c_blocks c !! h) -> TotalDifficulty c' h = TotalDifficulty c h).
  { intros h [x Hx]. unfold TotalDifficulty. rewrite ET, lookup_insert_ne by congruence. done. }
  assert (Hpar : forall p h, proposed c me p h -> is_Some (c_blocks c !! p)).
  { intros p h (Hh & x & Hx & <- & _).
    destruct (li_link _ _ (ci_ledger _ _ I) _ _ Hx Hh) as (par & -> & _). by eexists. }
  assert (Hw : w = 1).
  { pose proof (ac_consensus _ _ _ _ _ A) as C. unfold check_consensus in C.
    rewrite bool_decide_eq_true_2 in C by done. destruct (EffectiveValidatorSet c) as [act total].
    destruct (SelectProposer _ _ _); [|done]. cbn [mbind result_bind] in C.
    destruct (negb _); [done|]. destruct (negb _); [done|].
    destruct (verifyAttestations c b); [|done]. cbn [mbind result_bind] in C. by apply Ok_inj in C. }
  assert (Hown : h_Coinbase (b_Header b) = me ->
    TotalDifficulty c (c_head c) < TotalDifficulty c' (c_head c')).
  { intros Hc. specialize (Hp Hc). rewrite Hp, Hw in Hhead, ET. pose proof (Ht (c_head c)).
    assert (Eu : u64 (TotalDifficulty c (c_head c) + 1) = TotalDifficulty c (c_head c) + 1)
      by (apply u64_small; lia).
    destruct Hhead as [-> _]; [split; [lia|congruence]|].
    unfold TotalDifficulty at 2. rewrite ET, lookup_insert_eq. cbn [default from_option id]. lia. }
  split.
  - intros p h1 h2 [P1|(Ec & Ep & ->)]%HP [P2|(Ec' & Ep' & ->)]%HP; [by apply (Bo p)| | |done].
    + rewrite Ep', (Hp (eq_sym Ec')) in P1. specialize (Bb _ _ P1). lia.
    + rewrite Ep, (Hp (eq_sym Ec)) in P2. specialize (Bb _ _ P2). lia.
  - intros p h [P1|(Ec & -> & ->)]%HP.
    + rewrite (ET' p) by (by eapply Hpar). specialize (Bb _ _ P1). lia.
    + rewrite (Hp (eq_sym Ec)), (ET' (c_head c)) by (by eexists). by apply Hown.
Qed.

Lemma AddBlock_head_mono c b c' :
  chain_inv wv c -> AddBlock c b wv = (c', Ok tt) ->
  TotalDifficulty c (c_head c) <= TotalDifficulty c' (c_head c').
Proof.
  intros I E. pose proof (AddBlock_inv wv c b I) as I'. rewrite E in I'. cbn [fst] in I'.
  destruct (AddBlock_ok _ _ _ _ E) as (w & st & A & EB & ET & _).
  pose proof (ac_fresh _ _ _ _ _ A) as Hn. destruct (ci_head _ _ I) as [hb Hhb].
  transitivity (TotalDifficulty c' (c_head c)).
  - unfold TotalDifficulty. rewrite ET, lookup_insert_ne by congruence. done.
  - apply (ci_heaviest _ _ I'). rewrite EB, lookup_insert_ne by congruence. by eexists.
Qed.

(** the parts of the invariant that do not speak of the chain *)
Lemma vinv_chain me n pc sent n' :
  vinv me (mkVState n pc sent) -> n_chain n' = n_chain n -> n_miner n' = n_miner n ->
  n_lastAttestedHeight n' = n_lastAttestedHeight n ->
  (forall tx, tx ∈ n_mempool n' -> tx ∈ n_mempool n \/ (own me tx -> tx_Data tx ∈ sent)) ->
  vinv me (mkVState n' pc sent).
Proof.
  intros [V1 V2 V3 V4 V5 V6 V7 V8 V9 V10] Ec Em El Hp. cbn [vl_node vl_pc vl_sent] in *.
  unfold attested, pc_ok in *. rewrite <- El in V8, V9. rewrite <- Em in V3. rewrite <- Ec in V1, V2, V4, V5, V7, V10.
  split; cbn [vl_node vl_pc vl_sent]; try done. intros tx Hin Ho. destruct (Hp _ Hin); auto.
Qed.

Lemma offered_vinv me n pc sent n' b :
  vinv me (mkVState n pc sent) -> offered n n' b ->
  (forall tx, tx ∈ b_Txs b -> own me tx -> tx_Data tx ∈ sent) ->
  (h_Coinbase (b_Header b) = me ->
     is_Some (c_blocks (n_chain n) !! block_Hash b) \/ h_PrevHash (b_Header b) = c_head (n_chain n)) ->
  vinv me (mkVState n' pc sent).
Proof.
  intros V [Oc Om Ol Op] Htx Hcb.
  destruct (snd (AddBlock (n_chain n) b wv)) as [[]|e] eqn:Er.
  2: { apply (vinv_chain me n); [done|by rewrite Oc, (AddBlock_err _ _ _ _ Er)|done|done|by left; apply Op]. }
  pose proof (AddBlock_surj _ _ _ Er) as E. rewrite <- Oc in E.
  destruct V as [V1 V2 V3 V4 V5 V6 V7 V8 V9 V10]. cbn [vl_node vl_pc vl_sent] in *.
  destruct (AddBlock_ok _ _ _ _ E) as (w & st & A & EB & ET & EG & _).
  pose proof (ac_fresh _ _ _ _ _ A) as Hn.
  pose proof (AddBlock_head_mono _ _ _ V1 E) as Hmono.
  split; cbn [vl_node vl_pc vl_sent].
  - rewrite Oc. by apply AddBlock_inv.
  - rewrite Oc. by apply AddBlock_accountable.
  - by rewrite Om.
  - intros h x. rewrite EB, lookup_insert. case_decide; [intros [= <-]|apply V4].
    destruct (ac_parent _ _ _ _ _ A) as (par & _ & -> & _). apply u64_range.
  - intros h. unfold TotalDifficulty. rewrite ET, lookup_insert. case_decide; [apply u64_range|apply V5].
  - intros tx Hin. apply V6, Op, Hin.
  - intros h x tx. rewrite EB, EG, lookup_insert. case_decide; [intros [= <-] _; apply Htx|apply V7].
  - unfold attested in *. by rewrite Ol.
  - unfold pc_ok in *. by rewrite Ol.
  - intros Hlim. eapply AddBlock_blocks_ok; [exact V1|apply V2|exact V5| |exact E|done|done|apply V10; lia].
    intros Hc. destruct (Hcb Hc) as [[x Hx]|?]; [congruence|done].
Qed.

Lemma SubmitTx_rest n tx :
  let n' := fst (SubmitTx n tx) in
  n_miner n' = n_miner n /\ n_lastAttestedHeight n' = n_lastAttestedHeight n.
Proof. destruct (SubmitTx_cases n tx) as [[_ ->]|[_ [e ->]]]; done. Qed.

Lemma SubmitTx_pool n tx x : x ∈ n_mempool (fst (SubmitTx n tx)) -> x ∈ n_mempool n \/ x = tx.
Proof.
  destruct (SubmitTx_cases n tx) as [[_ ->]|[_ [e ->]]]; [|by left]. cbn [fst with_mempool n_mempool].
  intros [?|?%list_elem_of_singleton]%elem_of_app; auto.
Qed.

Lemma submit_vinv me n pc sent tx :
  vinv me (mkVState n pc sent) -> (own me tx -> tx_Data tx ∈ sent) ->
  vinv me (mkVState (fst (SubmitTx n tx)) pc sent).
Proof.
  intros V Ho. destruct (SubmitTx_rest n tx) as [Em El].
  apply (vinv_chain me n); [done|apply SubmitTx_chain|done|done|].
  intros x [?| ->]%SubmitTx_pool; auto.
Qed.

Lemma attest_vinv me n pc sent :
  vinv me (mkVState n pc sent) ->
  vinv me (mkVState (fst (attest_step n pc)) (snd (attest_step n pc))
             (sent ++ attest_log pc (snd (attest_step n pc)))).
Proof.
  intros V. destruct pc as [|tx height|height]; cbn [attest_step].
  - destruct (attest_read n) as [[tx height]|] eqn:E; cbn [fst snd attest_log]; rewrite app_nil_r; [|done].
    destruct V as [V1 V2 V3 V4 V5 V6 V7 V8 V9 V10]. split; try done. cbn [vl_node vl_pc] in *.
    apply attest_read_ok; [exact V4|exact (ci_head _ _ V1)|exact E].
  - assert (V' : vinv me (mkVState n Idle sent)).
    { destruct V. by split. }
    destruct (SubmitTx_rest n tx) as [Em El]. pose proof (SubmitTx_chain n tx) as Ec.
    pose proof (SubmitTx_pool n tx) as Hp.
    destruct (SubmitTx n tx) as [n' [u|e]] eqn:Es; cbn [fst snd attest_log] in *.
    + destruct (vi_pc _ _ V) as (Hlt & Hmod & Hdec). cbn [vl_node] in Hlt.
      destruct V' as [V1 V2 V3 V4 V5 V6 V7 V8 V9 V10]. cbn [vl_node vl_pc vl_sent attested] in *.
      rewrite <- Ec in V1, V2, V4, V5, V7, V10. rewrite <- Em in V3. rewrite <- El in V8, Hlt.
      split; cbn [vl_node vl_pc vl_sent attested pc_ok]; try done.
      * intros x [Hin| ->]%Hp Ho; apply elem_of_app; [left; by apply V6|right; elem].
      * intros h b x Hb Hh Hin Ho. apply elem_of_app. left. by eapply V7.
      * by eapply sent_ok_app.
    + rewrite app_nil_r. apply (vinv_chain me n); [done..|]. intros x Hin. left.
      destruct (SubmitTx_cases n tx) as [[_ Es']|[_ [e' Es']]]; rewrite Es in Es'; [done|].
      injection Es' as -> _. done.
  - cbn [fst snd attest_log]. rewrite app_nil_r. destruct V. by split.
Qed.

Lemma vstep_vinv me s s' : vinv me s -> vstep me s s' -> vinv me s'.
Proof.
  intros V S. destruct S as [n pc sent tx Ho|n pc sent b Htx Hb|n sent now|n pc sent].
  - by apply submit_vinv.
  - eapply offered_vinv; [exact V|apply AcceptExternalBlock_offered|done|]. intros Hc. left. by apply Hb.
  - destruct (ProposeBlock_offered n now) as [->|(b & O & _ & Hp & Hc & Hin)]; [done|].
    eapply offered_vinv; [exact V|exact O| |].
    + intros tx Htx. apply (vi_pool _ _ V). by apply Hin.
    + intros _. right. rewrite Hp. destruct (vi_node _ _ V) as [L [hb Hhb] _ _ _]. cbn [vl_node] in *.
      unfold Head, block_at. rewrite Hhb. by apply (li_hash _ _ L).
  - by apply attest_vinv.
Qed.

Lemma vinv_not_jailed me s :
  vinv me s ->
  TotalDifficulty (n_chain (vl_node s)) (c_head (n_chain (vl_node s))) + 1 < two64 ->
  Jailed (n_chain (vl_node s)) me = false.
Proof.
  intros V Hlim. destruct (Jailed _ me) eqn:J; [|done]. exfalso.
  destruct (vi_evidence _ _ V) as (_ & _ & Ev). apply (evidence_jailed _ _ _ _ Ev) in J.
  destruct J as [(r & t1 & t2 & Hne & V1 & V2)|(p & h1 & h2 & Hne & P1 & P2)].
  - destruct V1 as (g1 & b1 & tx1 & S1 & N1 & I1 & A1 & F1 & th1 & s1 & D1 & R1).
    destruct V2 as (g2 & b2 & tx2 & S2 & N2 & I2 & A2 & F2 & th2 & s2 & D2 & R2).
    apply Hne. eapply (so_once _ _ (vi_sent _ _ V)); [| |exact D1|exact D2|congruence].
    + exact (vi_blocks _ _ V _ _ _ S1 N1 I1 (conj A1 F1)).
    + exact (vi_blocks _ _ V _ _ _ S2 N2 I2 (conj A2 F2)).
  - apply Hne. exact (bo_once _ _ (vi_proposals _ _ V Hlim) _ _ _ P1 P2).
Qed.

(** ** The start *)

Lemma fresh_vinv cfg store maxMempool chainID now n :
  cfg_ConsensusMode cfg = PoS -> 0 <= cfg_Difficulty cfg ->
  fresh cfg store maxMempool chainID now = Ok n -> vinv (Key_Address (cfg_MinerKey cfg)) (mkVState n Idle []).
Proof.
  intros Hm Hd. unfold fresh. cbv zeta. set (g := mkGenesis _ _ _ _ _). set (c0 := NewChainWithAlloc _ _ _).
  destruct (configure cfg (SetChainID c0 chainID)) as [c|] eqn:Ec; [|done]. cbn [mbind result_bind].
  destruct (match store with None => _ | Some _ => _ end) as [st|]; [|done]. cbn [mbind result_bind].
  intros <-%Ok_inj.
  pose proof (configure_inv cfg _ _ (with_config_inv wv _ _ _ _ _ (NewChain_inv wv _ _ _)) Ec) as [I _].
  assert (exists id gas mode vs, c = with_config c0 id gas mode PoS vs) as (id & gas & mode & vs & ->).
  { revert Ec. unfold configure. rewrite bool_decide_eq_true_2 by done.
    destruct (NewValidatorSet _) as [vs|]; [|done]. cbn [mbind result_bind]. unfold SetConsensusMode.
    destruct (_ && _); [done|]. intros <-%Ok_inj. by do 4 eexists. }
  pose proof (fresh_accountable _ (New_fresh_pos (ToBlock g) (cfg_GenesisAlloc cfg) (cfg_GenesisBaseAlloc cfg)
    id gas mode vs)) as Hacc. fold c0 in Hacc.
  assert (Hst : forall h b, c_blocks c0 !! h = Some b -> h = c_genesisHash c0 /\ b = ToBlock g).
  { intros h b. unfold c0, NewChainWithAlloc. cbn [with_head c_blocks c_genesisHash].
    by intros [-> ->]%lookup_singleton_Some. }
  split; cbn [vl_node vl_pc vl_sent n_chain n_miner n_mempool n_lastAttestedHeight with_config c_blocks
    c_genesisHash attested pc_ok].
  - exact I.
  - exact Hacc.
  - done.
  - intros h b [_ ->]%Hst. done.
  - intros h. change (0 <= default 0 (c_td c0 !! h)). unfold c0. cbn [NewChainWithAlloc c_td with_head].
    destruct (decide (h = block_Hash (ToBlock g))) as [->|Hne].
    + by rewrite lookup_singleton_eq.
    + by rewrite lookup_singleton_ne by congruence.
  - intros tx Hin. by apply not_elem_of_nil in Hin.
  - intros h b tx [-> _]%Hst Hne. done.
  - split; intros *; intros Hin; by apply not_elem_of_nil in Hin.
  - done.
  - intros _. split.
    + intros p h1 h2 (Hne & b & [-> _]%Hst & _). done.
    + intros p h (Hne & b & [-> _]%Hst & _). done.
Qed.

Lemma New_node_vinv cfg opened now n :
  cfg_ConsensusMode cfg = PoS -> 0 <= cfg_Difficulty cfg ->
  New_node cfg opened now = Ok n -> vinv (Key_Address (cfg_MinerKey cfg)) (mkVState n Idle []).
Proof.
  intros Hm Hd. unfold New_node. cbv zeta. destruct opened as [s|]; [|by apply fresh_vinv].
  destruct (Store.Load s) as [[c|]|]; cbn [mbind result_bind]; [|by apply fresh_vinv|done].
  unfold resume. by rewrite bool_decide_eq_true_2.
Qed.
End Validator.

(** C16: an honest validator is never jailed.  A node started by [New] in proof-of-stake mode
    proposes and attests while transactions and blocks arrive from elsewhere, the three
    critical sections of [MaybeAttest] interleaved with them in any order, with any
    reorganizations; as long as nobody else signs with its keys, its account is never
    jailed on its own chain.  (The total difficulty must not have reached 2^64.) *)
Theorem honest_validator_never_jailed `{Secp} `{Bolt} `{Gob} `{Engine} `{GethEVM} `{Blst} `{!BlstKeys}
    cfg opened now n s :
  cfg_ConsensusMode cfg = PoS -> 0 <= cfg_Difficulty cfg ->
  New_node cfg opened now = Ok n ->
  rtc (vstep (Key_Address (cfg_MinerKey cfg))) (mkVState n Idle []) s ->
  let c := n_chain (vl_node s) in
  TotalDifficulty c (c_head c) + 1 < two64 ->
  Jailed c (Key_Address (cfg_MinerKey cfg)) = false.
Proof.
  intros Hm Hd Hn Hs c Hlim. apply vinv_not_jailed; [|done].
  apply (New_node_vinv _ _ _ _ Hm Hd) in Hn. revert Hn. clear c Hlim.
  induction Hs as [s|s1 s2 s3 S _ IH]; [done|]. intros V. by eapply IH, vstep_vinv.
Qed.

#[local] Existing Instance toy_secp.
#[local] Existing Instance toy_bolt.
#[local] Existing Instance toy_gob.
#[local] Existing Instance toy_engine.
#[local] Existing Instance toy_evm.
#[local] Existing Instance toy_blst.
#[local] Existing Instance toy_blst_keys.

(** a chain whose only validator proposes a block *)
Definition staking_config : Config :=
  @mkConfig toy_secp toy_blst toy_blst_keys Key1 1 ∅ ∅ 1700000000 0 0 PoS
    [mkValidator key1_addr (replicate 48 7) 10] (Some 7).
Definition staking_node : Node := Eval vm_compute in
  match New_node staking_config None 0 with
  | Ok n => n
  | Err _ => sample_node
  end.
Definition proposed_node : Node := Eval vm_compute in fst (ProposeBlock staking_node 1700000010).

Lemma staking_node_new : New_node staking_config None 0 = Ok staking_node.
Proof. vm_compute. reflexivity. Qed.
Lemma staking_node_proposes : fst (ProposeBlock staking_node 1700000010) = proposed_node.
Proof. vm_compute. reflexivity. Qed.

Example proposed_node_head : h_Height (b_Header (node_Head proposed_node)) = 1.
Proof. vm_compute. reflexivity. Qed.

Lemma honest_validator_never_jailed_witness : Jailed (n_chain proposed_node) key1_addr = false.
Proof.
  apply (honest_validator_never_jailed staking_config None 0 staking_node (mkVState proposed_node Idle [])
    eq_refl ltac:(discriminate) staking_node_new).
  - apply rtc_once. rewrite <- staking_node_proposes. apply vs_propose.
  - vm_compute. reflexivity.
Defined.
