(* ===== verification/P2P.v ===== *)
(** * Gossip and chain sync

    Models the logic of p2p/gossip.go and p2p/sync.go: the filters that decide what is
    relayed, the handling of received blocks and transactions, the catch-up sync and its
    limits.  libp2p is not modelled: a message is its bytes and whether a peer sent it, a
    sync stream the items its decoder yields.  The catch-up goroutines interleave with
    everything else one [AcceptExternalBlock] at a time; deadlines end a stream early. *)

From S2P Require Import Prelude Sha256 Core Pow FeeMarket StateDB Mpt Pos StackVM Exchange.
From S2P Require Import Adapter Transition Chain BlockBuilder Store Node.

Definition maxConcurrentSyncs : nat := 4.
Definition maxConcurrentInboundSyncs : nat := 8.
Definition maxBlocksPerSync : nat := 1024.

(** encoding/gob on transactions *)
Class GobTx := {
  gob_tx : Transaction -> result bytes;
  gob_untx : bytes -> option Transaction;
}.

Section P2P.
Context `{HK : Secp} `{HBolt : Bolt} `{HGob : Gob} `{HGobTx : GobTx}.
Context `{HE : Engine} `{HG : GethEVM} `{HB : Blst} `{HBK : !BlstKeys}.

(** ** What is relayed *)

Definition encodeTx (tx : Transaction) : result bytes := gob_tx tx.
Definition decodeTx (data : bytes) : result Transaction :=
  match gob_untx data with Some tx => Ok tx | None => Err ErrStoreCorrupt end.

(** [true] is [ValidationAccept], [false] is [ValidationReject] *)
Definition blockTopicValidator (data : bytes) : bool :=
  match DecodeBlock data with
  | Err _ => false
  | Ok b =>
      if negb (bool_decide (TxRoot b = h_MerkleRoot (b_Header b))) then false
      else if (0 <? length (h_ProposerSig (b_Header b)))%nat then
        (length (h_ProposerSig (b_Header b)) =? sigSize)%nat
      else MeetsTarget (block_Hash b) (h_Difficulty (b_Header b))
  end.

Definition txTopicValidator (data : bytes) : bool :=
  match decodeTx data with
  | Err _ => false
  | Ok tx => wallet_Verify tx
  end.

(** ** What is sent: the messages put on a topic; a failure to encode is only logged *)

Definition PublishBlock (b : Block) : list bytes :=
  match EncodeBlock b with Ok data => [data] | Err _ => [] end.
Definition AnnounceBlock (b : Block) : list bytes := PublishBlock b.
Definition PublishTx (tx : Transaction) : list bytes :=
  match encodeTx tx with Ok data => [data] | Err _ => [] end.

(** ** The sync protocol *)

(** what the responder streams for a start height *)
Definition sync_response (n : Node) (start : Z) : list Block :=
  take maxBlocksPerSync (CanonicalBlocksFrom n start).

(** what the requester's decoder yields; the end of the list is an EOF *)
Inductive stream_item :=
| SBlock (b : Block)
| SBad.

(** the loop of [syncFrom] *)
Fixpoint syncFrom (n : Node) (stream : list stream_item) : Node * result unit :=
  match stream with
  | [] => (n, Ok tt)
  | SBad :: _ => (n, Err ErrStoreCorrupt)
  | SBlock b :: rest =>
      match AcceptExternalBlock n b with
      | (n, Err e) => (n, Err e)
      | (n, Ok _) => syncFrom n rest
      end
  end.

(** the height [Resync] and a catch-up sync ask for *)
Definition sync_start (n : Node) : Z := u64 (h_Height (b_Header (node_Head n)) + 1).

(** [Resync] against a peer that answers with [stream] of that height *)
Definition Resync (n : Node) (stream : Z -> list stream_item) : Node * result unit :=
  syncFrom n (stream (sync_start n)).

(** ** Receiving *)

(** the node, the gap blocks whose catch-up sync is running, the streams being served *)
Record P2P := mkP2P {
  p_node : Node;
  p_syncs : list Block;
  p_inbound : nat;
}.

(** [handleBlock]; [from_peer] says that the relaying peer is known and not this node *)
Definition handleBlock (p : P2P) (b : Block) (from_peer : bool) : P2P :=
  match AcceptExternalBlock (p_node p) b with
  | (n, Ok _) => mkP2P n (p_syncs p) (p_inbound p)
  | (n, Err e) =>
      if bool_decide (e = ErrUnknownParent) && from_peer then
        if (length (p_syncs p) <? maxConcurrentSyncs)%nat
        then mkP2P n (p_syncs p ++ [b]) (p_inbound p)
        else mkP2P n (p_syncs p) (p_inbound p)
      else mkP2P n (p_syncs p) (p_inbound p)
  end.

(** one message of [readBlocks] *)
Definition readBlock (p : P2P) (data : bytes) (own from_peer : bool) : P2P :=
  if own then p
  else
    match DecodeBlock data with
    | Err _ => p
    | Ok b => handleBlock p b from_peer
    end.

(** one message of [readTxs] *)
Definition readTx (p : P2P) (data : bytes) (own : bool) : P2P :=
  if own then p
  else
    match decodeTx data with
    | Err _ => p
    | Ok tx => mkP2P (fst (SubmitTx (p_node p) tx)) (p_syncs p) (p_inbound p)
    end.

(** the [i]-th running sync receives an item, or the end of its stream: an error ends it,
    the end retries the gap block *)
Definition sync_recv (p : P2P) (i : nat) (item : option stream_item) : P2P :=
  match p_syncs p !! i with
  | None => p
  | Some gap =>
      match item with
      | None => mkP2P (fst (AcceptExternalBlock (p_node p) gap)) (delete i (p_syncs p)) (p_inbound p)
      | Some SBad => mkP2P (p_node p) (delete i (p_syncs p)) (p_inbound p)
      | Some (SBlock b) =>
          match AcceptExternalBlock (p_node p) b with
          | (n, Err _) => mkP2P n (delete i (p_syncs p)) (p_inbound p)
          | (n, Ok _) => mkP2P n (p_syncs p) (p_inbound p)
          end
      end
  end.

(** the responder: [None] when every slot is busy *)
Definition serve_open (p : P2P) (start : Z) : P2P * option (list Block) :=
  if (p_inbound p <? maxConcurrentInboundSyncs)%nat
  then (mkP2P (p_node p) (p_syncs p) (S (p_inbound p)), Some (sync_response (p_node p) start))
  else (p, None).
Definition serve_close (p : P2P) : P2P := mkP2P (p_node p) (p_syncs p) (pred (p_inbound p)).
End P2P.
