(* ===== verification/P2PProps.v ===== *)
(** * Gossip and chain sync: theorems

    Valid blocks are relayed; a node that is behind catches up in one sync; a node on
    another branch does not. *)

From S2P Require Import Prelude Sha256 Core Pow FeeMarket StateDB Mpt Pos StackVM Exchange.
From S2P Require Import ExchangeProps Adapter Transition TransitionTheorems Chain ChainProps.
From S2P Require Import ChainTheorems ForkChoice BlockBuilder BlockBuilderProps Store.
From S2P Require Import StoreProps Node NodeProps P2P.

Section Sync.
Context `{HK : Secp} `{HBolt : Bolt} `{HGob : Gob}.
Context `{HE : Engine} `{HG : GethEVM} `{HB : Blst} `{HBK : !BlstKeys}.
Variables (g : Block) (alloc base : gmap Address Z).

Abbreviation wv := (Some wallet_Verify : verifier).
Local Abbreviation plain := (plain wv g alloc base).

(** ** Prefixes of a path *)

Lemma reaches_prefix blocks gh h p q r x :
  (forall k y, blocks !! k = Some y -> block_Hash y = k) ->
  reaches blocks gh h p -> p = (q ++ [x]) ++ r -> reaches blocks gh (block_Hash x) (q ++ [x]).
Proof.
  intros Hh R. revert r. induction R as [b Hb|h b p Hne Hb R IH]; intros r E.
  - destruct q as [|y q]; [|by destruct q]. destruct r; [|done]. injection E as <-.
    rewrite (Hh _ _ Hb). by apply reaches_genesis.
  - destruct r as [|z r _] using rev_ind.
    + rewrite app_nil_r in E. apply app_inj_tail in E as [<- <-]. rewrite (Hh _ _ Hb). by apply reaches_step.
    + rewrite app_assoc in E. apply app_inj_tail in E as [-> _]. by eapply IH.
Qed.

Lemma plain_hashes c k y : plain c -> c_blocks c !! k = Some y -> block_Hash y = k.
Proof. intros P. apply (li_hash _ _ (ci_ledger _ _ (plain_inv _ _ _ _ _ P))). Qed.

(** a path in a plain chain fits its fuel *)
Lemma plain_fits c h p : plain c -> reaches (c_blocks c) (c_genesisHash c) h p -> path_fits c h p.
Proof.
  intros P R. destruct (reaches_last _ _ _ _ R) as (t & Ht & _).
  destruct (li_path _ _ (ci_ledger _ _ (plain_inv _ _ _ _ _ P)) _ _ Ht) as [q [Q Hl]].
  by rewrite (reaches_det _ _ _ _ _ R Q).
Qed.

Lemma plain_prefix c h q x r :
  plain c -> path_fits c h ((q ++ [x]) ++ r) -> path_fits c (block_Hash x) (q ++ [x]).
Proof.
  intros P [R _]. apply plain_fits; [done|].
  eapply reaches_prefix; [intros k y; by apply plain_hashes|exact R|done].
Qed.

(** ** One block of a peer's branch *)

(** a block of the server's branch is valid on any chain that has its parent's branch *)
Lemma branch_block_accepted s c h q x b r :
  plain s -> plain c -> path_fits s h ((q ++ [x]) ++ b :: r) ->
  path_fits c (block_Hash x) (q ++ [x]) -> c_blocks c !! block_Hash b = None ->
  exists w st, accepted c b wv w st /\ h_PrevHash (b_Header b) = block_Hash x.
Proof.
  intros Ps Pc F Fc Hn. rewrite cons_middle, app_assoc in F.
  pose proof (plain_prefix _ _ _ _ _ Ps F) as Fb.
  destruct (plain_rebuilds _ _ _ _ _ _ _ Ps Fb) as [cp B].
  remember ((q ++ [x]) ++ [b]) as pb eqn:Epb in B. destruct B as [Hz|p' cq b' B' Hl Eo].
  { destruct q as [|y q]; [done|]. destruct q; done. }
  apply app_inj_tail in Epb as [-> ->]. rewrite last_snoc in Hl. injection Hl as Hl.
  destruct (AddBlock_ok _ _ _ _ (AddBlock_surj _ _ _ Eo)) as (w & st & A & _).
  exists w, st. split; [|done].
  pose proof (rebuilt_plain _ _ _ _ _ _ B') as Pq.
  assert (Fs : path_fits s (block_Hash x) (q ++ [x])) by (eapply plain_prefix; [done|exact Fb]).
  pose proof (rebuilt_fits _ _ _ _ _ _ _ _ Ps Fs B') as Fq. rewrite Hl in Fc, Fq.
  eapply accepted_transfer; [by apply (plain_config _ _ _ _ _ Pq)|by apply (plain_config _ _ _ _ _ Pc)|
    exact A|exact Fq|exact Fc|exact Hn].
Qed.

(** the chain after a block that extends a branch it has *)
Lemma branch_block_added c q x b :
  plain c -> path_fits c (block_Hash x) (q ++ [x]) -> h_PrevHash (b_Header b) = block_Hash x ->
  snd (AddBlock c b wv) = Ok tt ->
  let c' := fst (AddBlock c b wv) in
  path_fits c' (block_Hash b) ((q ++ [x]) ++ [b]) /\ c_blocks c' = <[block_Hash b := b]> (c_blocks c).
Proof.
  intros P F Hp Eo c'. destruct (AddBlock_ok _ _ _ _ (AddBlock_surj _ _ _ Eo)) as (w & st & A & EB & _ & EG & _).
  pose proof (ac_fresh _ _ _ _ _ A) as Hn.
  destruct (li_genesis _ _ (ci_ledger _ _ (plain_inv _ _ _ _ _ P))) as [gb Hg].
  split; [|exact EB]. apply plain_fits; [by apply pl_add|]. unfold c'. rewrite EB, EG, <- Hp in *.
  apply (path_fits_new c b 0 (q ++ [x]) Hn ltac:(congruence) F).
Qed.

(** a block already stored *)
Lemma branch_block_known c q x b :
  plain c -> path_fits c (block_Hash x) (q ++ [x]) -> h_PrevHash (b_Header b) = block_Hash x ->
  block_Hash b <> c_genesisHash c -> c_blocks c !! block_Hash b = Some b ->
  path_fits c (block_Hash b) ((q ++ [x]) ++ [b]).
Proof.
  intros P F Hp Hne Hb. apply plain_fits; [done|]. apply reaches_step; [done|done|]. rewrite Hp. apply F.
Qed.

(** ** The whole stream *)

(** no two blocks of the two stores share a hash *)
Definition consistent (c s : Chain) : Prop :=
  forall h x y, c_blocks c !! h = Some x -> c_blocks s !! h = Some y -> x = y.

Lemma AcceptExternalBlock_memory n b :
  n_store n = None ->
  AcceptExternalBlock n b =
  (with_chain n (fst (AddBlock (n_chain n) b wv)),
   match snd (AddBlock (n_chain n) b wv) with
   | Err e => if bool_decide (e = ErrDuplicateBlock) then Ok tt else Err e
   | Ok _ => Ok tt
   end).
Proof.
  intros Hs. unfold AcceptExternalBlock. destruct (AddBlock (n_chain n) b wv) as [c [u|e]]; cbn [fst snd].
  - unfold save_node. cbn [with_chain n_store]. by rewrite Hs.
  - destruct e; done.
Qed.

Lemma AddBlock_duplicate c b y :
  c_blocks c !! block_Hash b = Some y -> AddBlock c b wv = (c, Err ErrDuplicateBlock).
Proof. intros E. unfold AddBlock, validate_block. by rewrite E. Qed.

(** one block of the stream *)
Lemma sync_block s n h q x b r :
  plain s -> plain (n_chain n) -> n_store n = None -> consistent (n_chain n) s ->
  path_fits s h ((q ++ [x]) ++ b :: r) -> path_fits (n_chain n) (block_Hash x) (q ++ [x]) ->
  exists n', AcceptExternalBlock n b = (n', Ok tt) /\ plain (n_chain n') /\ n_store n' = None /\
    n_mempool n' = n_mempool n /\ consistent (n_chain n') s /\
    path_fits (n_chain n') (block_Hash b) ((q ++ [x]) ++ [b]) /\
    c_blocks (n_chain n) ⊆ c_blocks (n_chain n') /\
    (forall k y, c_blocks (n_chain n') !! k = Some y -> c_blocks (n_chain n) !! k = Some y \/ y = b).
Proof.
  intros Ps Pc Hst Hcons F Fc. rewrite (AcceptExternalBlock_memory n b Hst).
  assert (Fb : path_fits s (block_Hash b) ((q ++ [x]) ++ [b])).
  { rewrite cons_middle, app_assoc in F. by eapply plain_prefix. }
  assert (Hsb : c_blocks s !! block_Hash b = Some b).
  { eapply path_stored; [by apply (plain_inv _ _ _ _ _ Ps)|apply Fb|].
    apply elem_of_app. right. apply list_elem_of_here. }
  destruct (c_blocks (n_chain n) !! block_Hash b) as [y|] eqn:Ey.
  - rewrite (AddBlock_duplicate _ _ _ Ey). cbn [fst snd]. rewrite bool_decide_eq_true_2 by done.
    assert (y = b) as -> by (by eapply Hcons).
    assert (Hprev : h_PrevHash (b_Header b) = block_Hash x /\ block_Hash b <> c_genesisHash s).
    { destruct Fb as [R _]. inversion R as [z Hz Eh Eq|h' z p' Hne Hz R' Eh Eq].
      - destruct q as [|y q]; [done|]. destruct q; done.
      - apply app_inj_tail in Eq as [-> ->]. split; [|done].
        pose proof (reaches_tip _ _ _ _ (plain_inv _ _ _ _ _ Ps) R') as Et.
        rewrite last_snoc in Et. by injection Et. }
    destruct Hprev as [Hprev Hne].
    exists (with_chain n (n_chain n)). split_and!; try done; [|by left].
    apply (branch_block_known (n_chain n)); try done. rewrite (dc_genesis _ _ _ _ (plain_config _ _ _ _ _ Pc)).
    by rewrite <- (dc_genesis _ _ _ _ (plain_config _ _ _ _ _ Ps)).
  - destruct (branch_block_accepted _ _ _ _ _ _ _ Ps Pc F Fc Ey) as (w & st & A & Hprev).
    apply validate_block_iff in A.
    assert (Eo : snd (AddBlock (n_chain n) b wv) = Ok tt) by (by rewrite (AddBlock_steps _ _ _ _ _ A)).
    rewrite Eo. destruct (branch_block_added _ _ _ _ Pc Fc Hprev Eo) as [F' EB].
    eexists. split_and!; [done|by apply pl_add|done|done| |exact F'| |].
    + intros k y z. cbn [with_chain n_chain]. rewrite EB, lookup_insert. case_decide as Ek; [|by apply Hcons].
      subst k. rewrite Hsb. congruence.
    + cbn [with_chain n_chain]. rewrite EB. by apply insert_subseteq.
    + intros k y. cbn [with_chain n_chain]. rewrite EB, lookup_insert. case_decide; [|by left].
      intros [= <-]. by right.
Qed.

Lemma syncFrom_branch s h r n q x :
  plain s -> plain (n_chain n) -> n_store n = None -> consistent (n_chain n) s ->
  path_fits s h ((q ++ [x]) ++ r) -> path_fits (n_chain n) (block_Hash x) (q ++ [x]) ->
  exists n', syncFrom n (SBlock <$> r) = (n', Ok tt) /\ plain (n_chain n') /\
    n_mempool n' = n_mempool n /\ path_fits (n_chain n') h ((q ++ [x]) ++ r) /\
    c_blocks (n_chain n) ⊆ c_blocks (n_chain n') /\
    (forall k y, c_blocks (n_chain n') !! k = Some y -> c_blocks (n_chain n) !! k = Some y \/ y ∈ r).
Proof.
  intros Ps. revert n q x. induction r as [|b r IH]; intros n q x Pc Hst Hcons F Fc.
  - exists n. split_and!; [done|done|done| |done|by left]. rewrite app_nil_r in *.
    pose proof (reaches_tip _ _ _ _ (plain_inv _ _ _ _ _ Ps) (proj1 F)) as Et.
    rewrite last_snoc in Et. injection Et as <-. done.
  - destruct (sync_block s n h q x b r Ps Pc Hst Hcons F Fc)
      as (n1 & E1 & P1 & S1 & M1 & C1 & F1 & U1 & B1).
    rewrite cons_middle, app_assoc in F.
    destruct (IH n1 (q ++ [x]) b P1 S1 C1 F F1) as (n' & E' & P' & M' & F' & U' & B').
    exists n'. rewrite cons_middle, app_assoc. split_and!; [|done|congruence|exact F'|by transitivity (c_blocks (n_chain n1))|].
    + cbn [fmap list_fmap syncFrom]. by rewrite E1.
    + intros k y Hy. destruct (B' k y Hy) as [Hy'|Hin].
      * destruct (B1 k y Hy') as [?| ->]; [by left|right; apply list_elem_of_here].
      * right. by apply list_elem_of_further.
Qed.

(** ** The head after the stream *)

Lemma plain_td c h p : plain c -> path_fits c h p -> TotalDifficulty c h = path_weight p.
Proof.
  intros P F. destruct (reaches_last _ _ _ _ (proj1 F)) as (b & Hb & _).
  exact (pi_td _ _ (pow_reachable_inv _ _ _ (plain_pow _ _ _ _ _ P)) _ _ _ Hb F).
Qed.

Lemma plain_td_sub c c' k y :
  plain c -> plain c' -> c_blocks c ⊆ c_blocks c' -> c_blocks c !! k = Some y ->
  TotalDifficulty c' k = TotalDifficulty c k.
Proof.
  intros P P' U Hy. destruct (li_path _ _ (ci_ledger _ _ (plain_inv _ _ _ _ _ P)) _ _ Hy) as [q Q].
  rewrite (plain_td _ _ _ P Q). apply plain_td; [done|]. apply plain_fits; [done|].
  pose proof (dc_genesis _ _ _ _ (plain_config _ _ _ _ _ P)) as G.
  pose proof (dc_genesis _ _ _ _ (plain_config _ _ _ _ _ P')) as G'.
  destruct Q as [Q _]. rewrite G in Q. rewrite G'. clear -Q U.
  induction Q as [z Hz|k z q Hne Hz _ IH].
  - apply reaches_genesis. by eapply lookup_weaken.
  - apply reaches_step; [done|by eapply lookup_weaken|done].
Qed.

Lemma caught_up_head s c c' q x r :
  plain s -> plain c -> plain c' -> r <> [] -> c_head c = block_Hash x ->
  path_fits s (c_head s) ((q ++ [x]) ++ r) -> path_fits c (block_Hash x) (q ++ [x]) ->
  path_fits c' (c_head s) ((q ++ [x]) ++ r) -> c_blocks c ⊆ c_blocks c' ->
  (forall k y, c_blocks c' !! k = Some y -> c_blocks c !! k = Some y \/ y ∈ r) ->
  c_head c' = c_head s.
Proof.
  intros Ps Pc Pc' Hr Ehx F Fc F' U B. destruct (decide (c_head c' = c_head s)) as [|Hne]; [done|].
  exfalso. pose proof (plain_inv _ _ _ _ _ Pc') as I'.
  destruct (ci_head _ _ I') as [y Hy]. destruct (reaches_last _ _ _ _ (proj1 F')) as (t & Ht & _).
  pose proof (ci_heaviest _ _ I' (c_head s) ltac:(by eexists)) as Hw.
  rewrite (plain_td _ _ _ Pc' F'), <- (plain_td _ _ _ Ps F) in Hw.
  pose proof (plain_strict _ _ _ _ _ Ps) as Hs.
  assert (Fx : path_fits s (block_Hash x) (q ++ [x])) by (by eapply plain_prefix).
  pose proof (plain_hashes _ _ _ Pc' Hy) as Ey.
  destruct (B _ _ Hy) as [Hold|Hin].
  - rewrite (plain_td_sub _ _ _ _ Pc Pc' U Hold) in Hw.
    pose proof (ci_heaviest _ _ (plain_inv _ _ _ _ _ Pc) (c_head c') ltac:(by eexists)) as Hw2.
    rewrite Ehx, (plain_td _ _ _ Pc Fc), <- (plain_td _ _ _ Ps Fx) in Hw2.
    assert (Hx : block_Hash x <> c_head s).
    { intros Ex. rewrite Ex in Fx. pose proof (reaches_det _ _ _ _ _ (proj1 F) (proj1 Fx)) as Eq.
      apply (f_equal length) in Eq. rewrite length_app in Eq. destruct r; [done|simpl in Eq; lia]. }
    pose proof (Hs _ x F ltac:(set_solver) Hx). lia.
  - assert (Hin' : y ∈ (q ++ [x]) ++ r) by set_solver.
    pose proof (Hs _ y F Hin' ltac:(congruence)) as Hlt.
    apply list_elem_of_split in Hin' as (l1 & l2 & El). rewrite El, cons_middle, app_assoc in F, F'.
    pose proof (plain_prefix _ _ _ _ _ Ps F) as Fy. pose proof (plain_prefix _ _ _ _ _ Pc' F') as Fy'.
    rewrite <- Ey, (plain_td _ _ _ Pc' Fy'), <- (plain_td _ _ _ Ps Fy) in Hw. lia.
Qed.

Lemma blocks_from_path c p k m :
  (forall j, 0 <= j -> GetByHeight c j = p !! Z.to_nat j) ->
  blocks_from c (Z.of_nat k) m = take m (drop k p).
Proof.
  intros Hp. revert k. induction m as [|m IH]; intros k; [done|]. cbn [blocks_from].
  rewrite Hp, Nat2Z.id by lia. replace (Z.of_nat k + 1) with (Z.of_nat (S k)) by lia. rewrite IH.
  destruct (p !! k) as [b|] eqn:Eb; [by rewrite (drop_S _ _ _ Eb)|].
  apply lookup_ge_None_1 in Eb. rewrite !drop_ge by lia. by rewrite !take_nil.
Qed.

(** ** Canonical branches *)

Lemma canonical_path c p :
  plain c -> chainTo c (c_head c) = Ok p -> Z.of_nat (size (c_blocks c)) <= two64 ->
  path_fits c (c_head c) p /\ (forall j, 0 <= j -> GetByHeight c j = p !! Z.to_nat j) /\
  (forall j b, p !! j = Some b -> h_Height (b_Header b) = Z.of_nat j).
Proof.
  intros P Hc Hsz. pose proof (plain_inv _ _ _ _ _ P) as I. pose proof (plain_reachable _ _ _ _ _ P) as R.
  destruct (ci_head _ _ I) as [hb Hh]. destruct (li_path _ _ (ci_ledger _ _ I) _ _ Hh) as [q F].
  rewrite (chainTo_path _ _ _ F) in Hc. apply Ok_inj in Hc as <-.
  destruct (reachable_bounds wv c R) as [Hz _]. split_and!; [done| |].
  - intros j Hj. by apply (GetByHeight_path wv c q j R (chainTo_path _ _ _ F)).
  - apply (path_heights wv c (c_head c) q (ci_ledger _ _ I) Hz); [destruct F; lia|apply F].
Qed.

Lemma head_height c p :
  plain c -> path_fits c (c_head c) p ->
  (forall j b, p !! j = Some b -> h_Height (b_Header b) = Z.of_nat j) ->
  h_Height (b_Header (Head c)) = Z.of_nat (length p) - 1.
Proof.
  intros P [F _] Hht. destruct (reaches_last _ _ _ _ F) as (t & Ht & Hl).
  unfold Head, block_at. rewrite Ht. cbn [default id]. rewrite last_lookup in Hl.
  rewrite (Hht _ _ Hl). pose proof (reaches_nonempty _ _ _ _ F). destruct p; [done|simpl; lia].
Qed.

Lemma reaches_consistent c s gh h p q :
  consistent c s -> reaches (c_blocks s) gh h p -> reaches (c_blocks c) gh h q -> p = q.
Proof.
  intros Hc R. revert q. induction R as [b Hb|h b p Hne Hb R IH]; intros q Q;
    inversion Q as [z Hz|h' z q' Hne' Hz Q']; subst; try done.
  - by rewrite (Hc _ _ _ Hz Hb).
  - assert (z = b) as -> by (by eapply Hc). f_equal. by apply IH.
Qed.

(** a head on the other's canonical branch has the same branch below it *)
Lemma stands_on n s p k :
  plain (n_chain n) -> plain s -> path_fits s (c_head s) p -> consistent (n_chain n) s ->
  p !! k = Some (node_Head n) ->
  p = (take k p ++ [node_Head n]) ++ drop (S k) p /\
  path_fits (n_chain n) (block_Hash (node_Head n)) (take k p ++ [node_Head n]) /\
  c_head (n_chain n) = block_Hash (node_Head n).
Proof.
  intros Pn Ps F Hc Hk. pose proof (plain_inv _ _ _ _ _ Pn) as I. destruct (ci_head _ _ I) as [hb Hh].
  assert (EH : node_Head n = hb) by (unfold node_Head, Head, block_at; by rewrite Hh).
  assert (Eh : block_Hash hb = c_head (n_chain n)) by exact (plain_hashes _ _ _ Pn Hh).
  assert (Ep : p = (take k p ++ [node_Head n]) ++ drop (S k) p).
  { rewrite <- app_assoc. symmetry. by apply take_drop_middle. }
  split_and!; [done| |by rewrite EH].
  rewrite Ep in F. pose proof (plain_prefix _ _ _ _ _ Ps F) as Fs.
  destruct (li_path _ _ (ci_ledger _ _ I) _ _ Hh) as [pc Fc]. rewrite <- Eh, <- EH in Fc.
  assert (pc = take k p ++ [node_Head n]) as <-; [|done]. symmetry.
  destruct Fs as [Rs _], Fc as [Rc _].
  rewrite (dc_genesis _ _ _ _ (plain_config _ _ _ _ _ Ps)) in Rs.
  rewrite (dc_genesis _ _ _ _ (plain_config _ _ _ _ _ Pn)) in Rc.
  exact (reaches_consistent _ _ _ _ _ _ Hc Rs Rc).
Qed.

Lemma same_head_same_state c s p :
  plain c -> plain s -> c_head c = c_head s ->
  path_fits c (c_head s) p -> path_fits s (c_head s) p -> Head c = Head s /\ State c = State s.
Proof.
  intros Pc Ps EH Fc Fs. split.
  - destruct (reaches_last _ _ _ _ (proj1 Fc)) as (x & Hx & Hl).
    destruct (reaches_last _ _ _ _ (proj1 Fs)) as (y & Hy & Hl').
    unfold Head, block_at. rewrite EH, Hx, Hy. cbn [default id]. congruence.
  - pose proof (ci_state _ _ (plain_inv _ _ _ _ _ Pc)) as Sc.
    pose proof (ci_state _ _ (plain_inv _ _ _ _ _ Ps)) as Ss.
    rewrite EH, (deriveState_same _ _ _ _ _ _ _ _ (plain_config _ _ _ _ _ Ps) (plain_config _ _ _ _ _ Pc) Fs Fc),
      Ss in Sc. apply Ok_inj in Sc. unfold State. congruence.
Qed.
End Sync.

(** C18: a proof-of-work node that is behind catches up in one sync.  Take two nodes of the
    same genesis in proof of work with the default chain id, gas limit and exchange mode,
    that hold any blocks and forks (never two blocks of one hash), the one that is behind
    without a database.  When the head of the one is on the canonical branch of the other,
    at most 1024 blocks back, [Resync] from the other succeeds, whether or not some of the
    blocks had already arrived, and leaves it with the other's head and state, its pool
    untouched. *)
Theorem sync_catches_up `{Secp} `{Bolt} `{Gob} `{Engine} `{GethEVM} `{Blst} `{!BlstKeys}
    g alloc base n s p k :
  plain (Some wallet_Verify) g alloc base (n_chain n) ->
  plain (Some wallet_Verify) g alloc base (n_chain s) ->
  n_store n = None -> consistent (n_chain n) (n_chain s) ->
  chainTo (n_chain s) (c_head (n_chain s)) = Ok p -> p !! k = Some (node_Head n) ->
  (length p <= S k + maxBlocksPerSync)%nat -> Z.of_nat (size (c_blocks (n_chain s))) < two64 ->
  exists n', Resync n (fun start => SBlock <$> sync_response s start) = (n', Ok tt) /\
    node_Head n' = node_Head s /\ State (n_chain n') = State (n_chain s) /\
    n_mempool n' = n_mempool n.
Proof.
  intros Pn Ps Hst Hcons Hc Hk Hlen Hsz.
  destruct (canonical_path _ _ _ _ _ Ps Hc) as (F & Hget & Hht); [lia|].
  pose proof (lookup_lt_Some _ _ _ Hk) as Hlt.
  assert (Er : sync_response s (sync_start n) = drop (S k) p).
  { unfold sync_response, sync_start, CanonicalBlocksFrom. rewrite (Hht _ _ Hk).
    destruct F as [F Fl]. rewrite u64_small by lia. replace (Z.of_nat k + 1) with (Z.of_nat (S k)) by lia.
    rewrite (blocks_from_path _ p) by done. unfold node_Head in *.
    rewrite (head_height _ _ _ _ _ Ps (conj F Fl) Hht), !take_ge; [done|..]; rewrite ?length_take, length_drop; lia. }
  destruct (stands_on _ _ _ _ _ _ _ Pn Ps F Hcons Hk) as (Ep & Fn & Eh).
  unfold Resync. rewrite Er. rewrite Ep in F. destruct (syncFrom_branch _ _ _ _ _ _ _ _ _ Ps Pn Hst Hcons F Fn)
    as (n' & E' & P' & M' & F' & U' & B').
  exists n'. split; [exact E'|].
  assert (EH : c_head (n_chain n') = c_head (n_chain s)).
  { destruct (drop (S k) p) as [|b r] eqn:Ed.
    - injection E' as <-. rewrite app_nil_r in F. rewrite Eh.
      pose proof (reaches_tip _ _ _ _ (plain_inv _ _ _ _ _ Ps) (proj1 F)) as Et.
      rewrite last_snoc in Et. by injection Et.
    - by apply (caught_up_head g alloc base (n_chain s) (n_chain n) (n_chain n') (take k p) (node_Head n) (b :: r)). }
  destruct (same_head_same_state _ _ _ _ _ _ P' Ps EH F' F) as [Hhd Hst']. by split_and!.
Qed.

Lemma Verify_length `{Blst} pk msg sig dst : Verify pk msg sig dst = true -> length sig = sigSize.
Proof.
  unfold Verify. destruct (Nat.eqb_spec (length sig) sigSize); [done|]. by rewrite orb_true_r.
Qed.

(** A resync never crosses a fork.  When the peer's canonical branch left the node's
    below the node's head (the block the peer sends first has a parent the node does not
    know), [Resync] fails with [ErrUnknownParent] and leaves the node unchanged, however
    much heavier the peer's branch is and however often it is tried. *)
Theorem resync_stops_at_fork `{Secp} `{Bolt} `{Gob} `{Engine} `{GethEVM} `{Blst} `{!BlstKeys}
    n s b rest :
  sync_response s (sync_start n) = b :: rest ->
  GetByHash (n_chain n) (block_Hash b) = None ->
  GetByHash (n_chain n) (h_PrevHash (b_Header b)) = None ->
  Resync n (fun start => SBlock <$> sync_response s start) = (n, Err ErrUnknownParent).
Proof.
  unfold GetByHash. intros Hr Hb Hp. unfold Resync. rewrite Hr. cbn [fmap list_fmap syncFrom].
  assert (E : AddBlock (n_chain n) b (Some wallet_Verify) = (n_chain n, Err ErrUnknownParent)).
  { unfold AddBlock, validate_block. by rewrite Hb, Hp. }
  unfold AcceptExternalBlock. rewrite E. by destruct n.
Qed.

(** Every valid block is relayed.  A block that some chain accepts, in either consensus
    mode, passes the gossip filter in its encoded form, so the filter never cuts an honest
    block off (a proof-of-work block must carry no proposer signature, as the node's own
    do). *)
Theorem valid_block_relayed `{Secp} `{Bolt} `{GobLaws} `{Engine} `{GethEVM} `{Blst} c b v c' data :
  AddBlock c b v = (c', Ok tt) -> EncodeBlock b = Ok data ->
  (c_consensusMode c = PoW -> h_ProposerSig (b_Header b) = []) ->
  blockTopicValidator data = true.
Proof.
  intros E Ed Hpow. destruct (AddBlock_ok _ _ _ _ E) as (w & st & A & _).
  unfold blockTopicValidator, DecodeBlock. rewrite (gob_unblock_block _ _ Ed).
  rewrite bool_decide_eq_true_2 by apply (ac_txroot _ _ _ _ _ A). cbn [negb].
  pose proof (ac_consensus _ _ _ _ _ A) as C. unfold check_consensus in C.
  destruct (c_consensusMode c) eqn:Em.
  - rewrite bool_decide_eq_false_2 in C by done. rewrite (Hpow eq_refl). cbn [length Nat.ltb].
    change (0 <? 0)%nat with false. cbv iota. destruct (MeetsTarget _ _); [done|]. by inversion C.
  - rewrite bool_decide_eq_true_2 in C by done.
    destruct (EffectiveValidatorSet c) as [act total].
    destruct (SelectProposer _ _ _) as [sel|]; [|by inversion C]. cbn [mbind result_bind] in C.
    destruct (negb (bool_decide _)); [by inversion C|].
    destruct (Verify _ _ _ _) eqn:Ev; [|by inversion C]. by rewrite (Verify_length _ _ _ _ Ev).
Qed.

(** ** The limits hold whatever peers send *)

Section Limits.
Context `{HK : Secp} `{HBolt : Bolt} `{HGob : Gob} `{HGobTx : GobTx}.
Context `{HE : Engine} `{HG : GethEVM} `{HB : Blst} `{HBK : !BlstKeys}.

(** one event: a message, an item of a running sync, a stream opened or closed by a peer *)
Inductive p2p_step : P2P -> P2P -> Prop :=
| ps_block p data own from : p2p_step p (readBlock p data own from)
| ps_tx p data own : p2p_step p (readTx p data own)
| ps_recv p i item : p2p_step p (sync_recv p i item)
| ps_open p start : p2p_step p (fst (serve_open p start))
| ps_close p : p2p_step p (serve_close p).

Definition within_limits (p : P2P) : Prop :=
  node_reachable (p_node p) /\ (length (p_syncs p) <= maxConcurrentSyncs)%nat /\
  (p_inbound p <= maxConcurrentInboundSyncs)%nat.

Lemma accepted_reachable n b n' r :
  node_reachable n -> AcceptExternalBlock n b = (n', r) -> node_reachable n'.
Proof.
  intros R E. apply (nr_step n); [done|]. pose proof (ns_accept n b) as S. by rewrite E in S.
Qed.

Lemma p2p_step_limits p p' : within_limits p -> p2p_step p p' -> within_limits p'.
Proof.
  intros (R & S & I) St. destruct St as [p data own from|p data own|p i item|p start|p].
  - unfold readBlock. destruct own; [done|]. destruct (DecodeBlock data) as [b|]; [|done].
    unfold handleBlock. destruct (AcceptExternalBlock (p_node p) b) as [n r] eqn:E.
    pose proof (accepted_reachable _ _ _ _ R E) as R'.
    destruct r as [u|e]; [done|]. destruct (_ && _); [|done].
    destruct (Nat.ltb_spec (length (p_syncs p)) maxConcurrentSyncs); [|done].
    split_and!; [done| |done]. cbn [p_syncs]. rewrite length_app. simpl. lia.
  - unfold readTx. destruct own; [done|]. destruct (decodeTx data) as [tx|]; [|done].
    split_and!; [|done|done]. by apply (nr_step (p_node p)); [|apply ns_submit].
  - unfold sync_recv. destruct (p_syncs p !! i) as [gap|] eqn:Ei; [|done].
    assert (Hd : (length (delete i (p_syncs p)) <= maxConcurrentSyncs)%nat).
    { rewrite length_delete by (by eexists). lia. }
    destruct item as [[b|]|].
    + destruct (AcceptExternalBlock (p_node p) b) as [n r] eqn:E.
      pose proof (accepted_reachable _ _ _ _ R E) as R'. by destruct r.
    + done.
    + destruct (AcceptExternalBlock (p_node p) gap) as [n r] eqn:E.
      pose proof (accepted_reachable _ _ _ _ R E) as R'. by split_and!.
  - unfold serve_open. destruct (Nat.ltb_spec (p_inbound p) maxConcurrentInboundSyncs); [|done].
    by split_and!.
  - split_and!; [done|done|]. cbn [serve_close p_inbound]. lia.
Qed.

(** whatever arrives and in whatever order, at most 4 catch-up syncs run, at most 8
    streams are served, and the node stays one its own methods could have built *)
Theorem p2p_within_limits n p :
  node_reachable n -> rtc p2p_step (mkP2P n [] 0) p -> within_limits p.
Proof.
  intros R St. assert (H0 : within_limits (mkP2P n [] 0)) by (split_and!; [done|simpl; lia|simpl; lia]).
  induction St as [p|p p1 p2 S1 _ IH]; [done|]. apply IH. by eapply p2p_step_limits.
Qed.
End Limits.

(** ** Examples *)

#[local] Existing Instance toy_secp.
#[local] Existing Instance toy_bolt.
#[local] Existing Instance toy_gob.
#[local] Existing Instance toy_gob_laws.
#[local] Existing Instance toy_engine.
#[local] Existing Instance toy_evm.
#[local] Existing Instance toy_blst.
#[local] Existing Instance toy_blst_keys.

(** the block the first node mined, and the node that has it *)
Definition ahead_node : Node := Eval vm_compute in fst (MineBlock 64 paying_node 1700000010).
Definition funded_genesis : Block := Eval vm_compute in
  default zero_block (GetByHeight (n_chain sample_node) 0).

Lemma sample_node_plain :
  plain (Some wallet_Verify) funded_genesis {[key1_addr := 1000]} ∅ (n_chain sample_node).
Proof.
  assert (E : NewChainWithAlloc funded_genesis {[key1_addr := 1000]} ∅ = n_chain sample_node)
    by (vm_compute; reflexivity).
  rewrite <- E. apply pl_new. vm_compute. reflexivity.
Qed.

Lemma ahead_node_plain :
  plain (Some wallet_Verify) funded_genesis {[key1_addr := 1000]} ∅ (n_chain ahead_node).
Proof.
  assert (E : fst (AddBlock (n_chain sample_node) mined_block (Some wallet_Verify)) = n_chain ahead_node)
    by (vm_compute; reflexivity).
  rewrite <- E. apply pl_add, sample_node_plain.
Qed.

Lemma sample_consistent : consistent (n_chain sample_node) (n_chain ahead_node).
Proof.
  intros h x y Hx Hy.
  assert (E : c_blocks (n_chain sample_node) = {[c_head (n_chain sample_node) := funded_genesis]})
    by (vm_compute; reflexivity).
  rewrite E in Hx. apply lookup_singleton_Some in Hx as [<- <-].
  assert (E2 : c_blocks (n_chain ahead_node) !! c_head (n_chain sample_node) = Some funded_genesis)
    by (vm_compute; reflexivity).
  congruence.
Qed.

Lemma sync_catches_up_witness :
  exists n', Resync sample_node (fun start => SBlock <$> sync_response ahead_node start) = (n', Ok tt) /\
    node_Head n' = mined_block.
Proof.
  destruct (sync_catches_up funded_genesis {[key1_addr := 1000]} ∅ sample_node ahead_node
    [funded_genesis; mined_block] 0) as (n' & E & Hh & _).
  - apply sample_node_plain.
  - apply ahead_node_plain.
  - reflexivity.
  - apply sample_consistent.
  - vm_compute. reflexivity.
  - vm_compute. reflexivity.
  - unfold maxBlocksPerSync. simpl. lia.
  - vm_compute. reflexivity.
  - exists n'. split; [exact E|]. rewrite Hh. vm_compute. reflexivity.
Defined.

(** two blocks on one side of a partition, one on the other *)
Definition far_node : Node := Eval vm_compute in fst (MineBlock 64 ahead_node 1700000020).
Definition lone_node : Node := Eval vm_compute in fst (MineBlock 64 sample_node 1700000030).

Lemma resync_stops_at_fork_witness :
  TotalDifficulty (n_chain lone_node) (c_head (n_chain lone_node))
    < TotalDifficulty (n_chain far_node) (c_head (n_chain far_node)) /\
  Resync lone_node (fun start => SBlock <$> sync_response far_node start)
    = (lone_node, Err ErrUnknownParent).
Proof.
  split; [vm_compute; reflexivity|].
  apply (resync_stops_at_fork lone_node far_node (node_Head far_node) []).
  - vm_compute. reflexivity.
  - vm_compute. reflexivity.
  - vm_compute. reflexivity.
Defined.

Lemma valid_block_relayed_witness :
  exists data, EncodeBlock mined_block = Ok data /\ blockTopicValidator data = true.
Proof.
  destruct (EncodeBlock mined_block) as [data|e] eqn:Ed; [|by discriminate Ed].
  exists data. split; [reflexivity|].
  assert (Eo : snd (AddBlock (n_chain sample_node) mined_block (Some wallet_Verify)) = Ok tt)
    by (vm_compute; reflexivity).
  apply (valid_block_relayed (n_chain sample_node) mined_block (Some wallet_Verify) _ data
    (AddBlock_surj _ _ _ Eo) Ed).
  intros _. vm_compute. reflexivity.
Defined.
