(* ===== verification/GoStd.v ===== *)
(** * The standard library the RPC layer and the command line rest on

    encoding/hex, strconv, strings and encoding/json as rpc/ and cmd/ use them.  A Go
    string is its bytes.  A JSON text is represented by the value it denotes; a number
    keeps its literal, because Go parses it only when it knows the type to decode into.
    strings.TrimSpace and strings.ToLower are written for ASCII. *)

From Stdlib Require Import String.
From S2P Require Import Prelude Pos.

Fixpoint bytes_eqb (a b : bytes) : bool :=
  match a, b with
  | [], [] => true
  | x :: a', y :: b' => (x =? y) && bytes_eqb a' b'
  | _, _ => false
  end.

(** ** encoding/hex *)

(** the [i]-th character of 0123456789abcdef *)
Definition hex_digit (i : Z) : Z := if i <? 10 then 48 + i else 87 + i.

Fixpoint EncodeToString (b : bytes) : bytes :=
  match b with
  | [] => []
  | x :: b' => hex_digit (x / 16) :: hex_digit (x mod 16) :: EncodeToString b'
  end.

Definition from_hex_char (c : Z) : option Z :=
  if (48 <=? c) && (c <=? 57) then Some (c - 48)
  else if (97 <=? c) && (c <=? 102) then Some (c - 87)
  else if (65 <=? c) && (c <=? 70) then Some (c - 55)
  else None.

(** an odd last character is reported as itself when it is not a digit *)
Fixpoint DecodeString (s : bytes) : result bytes :=
  match s with
  | [] => Ok []
  | [c] => match from_hex_char c with None => Err ErrHexByte | Some _ => Err ErrHexLength end
  | p :: q :: rest =>
      match from_hex_char p, from_hex_char q with
      | Some a, Some b => bs ← DecodeString rest; Ok (a * 16 + b :: bs)
      | _, _ => Err ErrHexByte
      end
  end.

(** ** strconv, base 10 *)

Definition is_digit (c : Z) : bool := (48 <=? c) && (c <=? 57).

Fixpoint parse_digits (n : Z) (s : bytes) : result Z :=
  match s with
  | [] => Ok n
  | c :: s' =>
      if negb (is_digit c) then Err ErrSyntax
      else
        let n1 := n * 10 + (c - 48) in
        if two64 <=? n1 then Err ErrRange else parse_digits n1 s'
  end.

(** [strconv.ParseUint(s, 10, 64)] *)
Definition ParseUint (s : bytes) : result Z :=
  match s with [] => Err ErrSyntax | _ => parse_digits 0 s end.

(** [strconv.ParseInt(s, 10, 64)] *)
Definition ParseInt (s : bytes) : result Z :=
  match s with
  | [] => Err ErrSyntax
  | c :: s' =>
      let neg := c =? 45 in
      let digits := if (c =? 43) || (c =? 45) then s' else s in
      un ← ParseUint digits;
      if negb neg && (two63 <=? un) then Err ErrRange
      else if neg && (two63 <? un) then Err ErrRange
      else Ok (if neg then - un else un)
  end.

Definition FormatUint (x : Z) : bytes := decimal x.
Definition FormatInt (x : Z) : bytes := if x <? 0 then 45 :: decimal (- x) else decimal x.

(** ** strings *)

Definition comma : Z := 44.
Definition colon : Z := 58.

Fixpoint HasPrefix (p s : bytes) : bool :=
  match p, s with
  | [], _ => true
  | a :: p', b :: s' => (a =? b) && HasPrefix p' s'
  | _ :: _, [] => false
  end.

Definition TrimPrefix (s p : bytes) : bytes := if HasPrefix p s then drop (length p) s else s.

Definition is_space (c : Z) : bool := (c =? 32) || ((9 <=? c) && (c <=? 13)).

Fixpoint trim_left (s : bytes) : bytes :=
  match s with
  | c :: s' => if is_space c then trim_left s' else s
  | [] => []
  end.
Definition TrimSpace (s : bytes) : bytes := rev (trim_left (rev (trim_left s))).

Definition ToLower (s : bytes) : bytes :=
  map (fun c => if (65 <=? c) && (c <=? 90) then c + 32 else c) s.

(** the text before the first [sep] and, when there is one, the text after it *)
Fixpoint cut (sep : Z) (s : bytes) : bytes * option bytes :=
  match s with
  | [] => ([], None)
  | c :: s' =>
      if c =? sep then ([], Some s')
      else let '(a, b) := cut sep s' in (c :: a, b)
  end.

(** [strings.SplitN(s, sep, n)] for [n > 0] and a separator of one byte *)
Fixpoint SplitN (s : bytes) (sep : Z) (n : nat) : list bytes :=
  match n with
  | O => []
  | S O => [s]
  | S n' => match cut sep s with
            | (a, None) => [a]
            | (a, Some b) => a :: SplitN b sep n'
            end
  end.

(** [strings.Split]: a text has fewer separators than this *)
Definition Split (s : bytes) (sep : Z) : list bytes := SplitN s sep (S (length s)).

(** ** encoding/json: values *)

#[warnings="-register-all"]
Inductive json :=
| JNull
| JBool (b : bool)
| JNum (lit : bytes)
| JStr (s : bytes)
| JArr (l : list json)
| JObj (m : list (bytes * json)).

(** field names match exactly or after folding: ASCII letters are folded to upper case, and
    so are the Kelvin sign and the long s, the two other characters that fold to a letter *)
Definition upper (c : Z) : Z := if (97 <=? c) && (c <=? 122) then c - 32 else c.

Fixpoint fold_name (s : bytes) : bytes :=
  match s with
  | [] => []
  | c :: s1 =>
      match s1 with
      | [] => [upper c]
      | c2 :: s2 =>
          if (c =? 197) && (c2 =? 191) then 83 :: fold_name s2
          else match s2 with
               | [] => upper c :: fold_name s1
               | c3 :: s3 =>
                   if (c =? 226) && (c2 =? 132) && (c3 =? 170) then 75 :: fold_name s3
                   else upper c :: fold_name s1
               end
      end
  end.

Definition field_of (names : list bytes) (key : bytes) : option bytes :=
  match List.find (bytes_eqb key) names with
  | Some f => Some f
  | None => List.find (fun f => bytes_eqb (fold_name key) (fold_name f)) names
  end.

(** decoding the members of an object into the field [name] of a struct whose fields are
    [names]: members are stored in order, each into what the earlier ones left *)
Fixpoint member {A} (names : list bytes) (name : bytes) (dec : A -> json -> result A) (a : A)
    (ms : list (bytes * json)) : result A :=
  match ms with
  | [] => Ok a
  | (k, v) :: ms' =>
      match field_of names k with
      | Some f =>
          if bytes_eqb f name then a ← dec a v; member names name dec a ms'
          else member names name dec a ms'
      | None => member names name dec a ms'
      end
  end.

(** [null] leaves a struct as it is; any other value that is not an object is an error *)
Definition members {A} (a : A) (j : json) (k : list (bytes * json) -> result A) : result A :=
  match j with
  | JNull => Ok a
  | JObj ms => k ms
  | _ => Err ErrJSON
  end.

Definition json_err {A} (r : result A) : result A :=
  match r with Ok a => Ok a | Err _ => Err ErrJSON end.

Definition dec_string (a : bytes) (j : json) : result bytes :=
  match j with JNull => Ok a | JStr s => Ok s | _ => Err ErrJSON end.

(** a [json.RawMessage] keeps any value, [null] included *)
Definition dec_raw (a : option json) (j : json) : result (option json) := Ok (Some j).

Definition dec_uint (width : Z) (a : Z) (j : json) : result Z :=
  match j with
  | JNull => Ok a
  | JNum lit =>
      v ← json_err (ParseUint lit);
      if width <=? v then Err ErrJSON else Ok v
  | _ => Err ErrJSON
  end.
Definition dec_int64 (a : Z) (j : json) : result Z :=
  match j with
  | JNull => Ok a
  | JNum lit => json_err (ParseInt lit)
  | _ => Err ErrJSON
  end.

(** the option [,string]: a number inside a JSON string; [null], quoted or not, is ignored *)
Definition dec_quoted (parse : bytes -> result Z) (a : Z) (j : json) : result Z :=
  match j with
  | JNull => Ok a
  | JStr s =>
      match s with
      | [] => Err ErrJSON
      | c :: _ =>
          if c =? 110 then (if bytes_eqb s (str "null") then Ok a else Err ErrJSON)
          else if is_digit c || (c =? 45) then json_err (parse s)
          else Err ErrJSON
      end
  | _ => Err ErrJSON
  end.
Definition dec_uint64s : Z -> json -> result Z := dec_quoted ParseUint.
Definition dec_int64s : Z -> json -> result Z := dec_quoted ParseInt.

(** an array, element by element: each is decoded into what the slice holds at its place,
    or into a zero value past its end (that the backing array may remember elements beyond
    a slice's length, from an earlier and longer duplicate of a member, is not modelled);
    [null] makes the slice nil *)
Fixpoint dec_elems {A} (zero : A) (dec : A -> json -> result A) (old : list A) (l : list json)
    : result (list A) :=
  match l with
  | [] => Ok []
  | j :: l' => a ← dec (hd zero old) j; rest ← dec_elems zero dec (tl old) l'; Ok (a :: rest)
  end.
Definition dec_slice {A} (zero : A) (dec : A -> json -> result A) (a : list A) (j : json)
    : result (list A) :=
  match j with
  | JNull => Ok []
  | JArr l => dec_elems zero dec a l
  | _ => Err ErrJSON
  end.

Definition enc_uint64s (x : Z) : json := JStr (FormatUint x).
Definition enc_uint (x : Z) : json := JNum (FormatUint x).
Definition enc_int (x : Z) : json := JNum (FormatInt x).

(** ** Hexadecimal *)

Lemma bytes_eqb_eq a b : bytes_eqb a b = true <-> a = b.
Proof.
  revert b; induction a as [|x a IH]; intros [|y b]; simpl; try (split; congruence).
  rewrite andb_true_iff, Z.eqb_eq, IH. split; [by intros [-> ->]|]. intros E; injection E; auto.
Qed.

Lemma bytes_eqb_refl a : bytes_eqb a a = true.
Proof. by apply bytes_eqb_eq. Qed.

Lemma from_hex_digit i : 0 <= i < 16 -> from_hex_char (hex_digit i) = Some i.
Proof.
  intros Hi. unfold hex_digit, from_hex_char. destruct (Z.ltb_spec i 10).
  - destruct (Z.leb_spec 48 (48 + i)), (Z.leb_spec (48 + i) 57); try lia. simpl. f_equal. lia.
  - destruct (Z.leb_spec 48 (87 + i)), (Z.leb_spec (87 + i) 57); try lia. simpl.
    destruct (Z.leb_spec 97 (87 + i)), (Z.leb_spec (87 + i) 102); try lia. simpl. f_equal. lia.
Qed.

Lemma byte_nibbles x : is_byte x -> 0 <= x / 16 < 16 /\ 0 <= x mod 16 < 16.
Proof.
  unfold is_byte. intros Hx. split; [|by apply Z.mod_pos_bound].
  split; [apply Z.div_pos; lia|]. apply Z.div_lt_upper_bound; lia.
Qed.

Lemma list_ind2 {A} (P : list A -> Prop) :
  P [] -> (forall a, P [a]) -> (forall a b l, P l -> P (a :: b :: l)) -> forall l, P l.
Proof.
  intros H0 H1 H2. enough (forall l, P l /\ forall a, P (a :: l)) as Hall by (intros; apply Hall).
  induction l as [|a l [IH IH']]; auto.
Qed.

(** decoding inverts encoding *)
Lemma Decode_Encode b : all_bytes b -> DecodeString (EncodeToString b) = Ok b.
Proof.
  induction 1 as [|x b Hx Hb IH]; [done|]. destruct (byte_nibbles x Hx) as [Hh Hl].
  cbn [EncodeToString DecodeString]. rewrite !from_hex_digit, IH by done. cbn.
  do 2 f_equal. pose proof (Z.div_mod x 16). lia.
Qed.

Lemma from_hex_range c a : from_hex_char c = Some a -> 0 <= a < 16.
Proof.
  unfold from_hex_char. intros E. repeat case_match; simplify_eq;
    rewrite ?andb_true_iff, ?Z.leb_le in *; lia.
Qed.

(** what decodes is bytes, two characters each *)
Lemma Decode_bytes s b : DecodeString s = Ok b -> all_bytes b /\ length s = (2 * length b)%nat.
Proof.
  revert b; induction s as [|c|p q s IH] using list_ind2; intros b E; simpl in E.
  - by simplify_eq.
  - by case_match.
  - destruct (from_hex_char p) eqn:Ep, (from_hex_char q) eqn:Eq; try done.
    destruct (DecodeString s) as [bs|] eqn:Es; simpl in E; simplify_eq.
    destruct (IH bs) as [Hb Hl]; [done|].
    pose proof (from_hex_range _ _ Ep). pose proof (from_hex_range _ _ Eq).
    split; [constructor; [unfold is_byte; lia|done]|]. simpl. lia.
Qed.

Lemma length_Encode b : length (EncodeToString b) = (2 * length b)%nat.
Proof. induction b as [|x b IH]; simpl; [done|]. rewrite IH. lia. Qed.

Lemma Encode_inj a b :
  all_bytes a -> all_bytes b -> EncodeToString a = EncodeToString b -> a = b.
Proof.
  intros Ha Hb E. apply Decode_Encode in Ha, Hb. rewrite E in Ha. congruence.
Qed.

Lemma Encode_nil b : EncodeToString b = [] <-> b = [].
Proof. by destruct b. Qed.

#[export] Hint Rewrite length_Encode : len.

(** ** Decimals *)

Lemma parse_digits_app n a b :
  parse_digits n (a ++ b) = (m ← parse_digits n a; parse_digits m b).
Proof.
  revert n; induction a as [|c a IH]; intros n; [done|]. simpl.
  destruct (is_digit c); [simpl|done]. case_match; [done|]. apply IH.
Qed.

Lemma digit_of x : 0 <= x < 10 -> is_digit (48 + x) = true.
Proof. intros. unfold is_digit. apply andb_true_iff. rewrite !Z.leb_le. lia. Qed.

Lemma parse_decimal_digits f x :
  (0 < f)%nat -> 0 <= x < 10 ^ Z.of_nat f -> x < two64 ->
  parse_digits 0 (decimal_digits f x) = Ok x.
Proof.
  revert x; induction f as [|f IH]; intros x Hf Hx Hw; [lia|]. cbn [decimal_digits].
  rewrite parse_digits_app.
  assert (parse_digits 0 (if x <? 10 then [] else decimal_digits f (x / 10)) = Ok (x / 10)) as ->.
  { destruct (Z.ltb_spec x 10).
    - rewrite Z.div_small by lia. done.
    - replace (Z.of_nat (S f)) with (1 + Z.of_nat f) in Hx by lia.
      rewrite Z.pow_add_r, Z.pow_1_r in Hx by lia.
      assert (x / 10 < 10 ^ Z.of_nat f) by (apply Z.div_lt_upper_bound; lia).
      assert (1 <= x / 10) by (apply Z.div_le_lower_bound; lia).
      assert (x / 10 <= x) by (apply Z.div_le_upper_bound; lia).
      apply IH; [|lia|lia]. destruct f; [simpl in *; lia|lia]. }
  pose proof (Z.mod_pos_bound x 10). pose proof (Z.div_mod x 10).
  cbn [mbind result_bind parse_digits]. rewrite digit_of by lia. cbn [negb].
  replace (x / 10 * 10 + (48 + x mod 10 - 48)) with x by lia.
  destruct (Z.leb_spec two64 x); [lia|done].
Qed.

Lemma decimal_digits_all f x : 0 <= x -> forallb is_digit (decimal_digits f x) = true.
Proof.
  revert x; induction f as [|f IH]; intros x Hx; [done|]. cbn [decimal_digits].
  rewrite forallb_app. apply andb_true_iff. split.
  - destruct (x <? 10); [done|]. apply IH, Z.div_pos; lia.
  - cbn [forallb]. rewrite digit_of; [done|]. by apply Z.mod_pos_bound.
Qed.

(** a decimal starts with a digit *)
Lemma decimal_head x : 0 <= x -> exists c s, decimal x = c :: s /\ is_digit c = true.
Proof.
  intros Hx. pose proof (decimal_digits_all 20 x Hx) as Hd. unfold decimal.
  destruct (decimal_digits 20 x) as [|c s] eqn:E.
  - cbn [decimal_digits] in E. by apply app_nil in E as [_ E].
  - exists c, s. split; [done|]. simpl in Hd. by apply andb_true_iff in Hd as [? _].
Qed.

Lemma ParseUint_Format x : is_u64 x -> ParseUint (FormatUint x) = Ok x.
Proof.
  intros Hx. unfold ParseUint, FormatUint. destruct (decimal_head x) as (c & s & E & _); [lia|].
  rewrite E, <- E. apply parse_decimal_digits; [lia| |lia]. split; [lia|].
  trans two64; [lia|done].
Qed.

Abbreviation is_i64 x := (- two63 <= x < two63) (only parsing).

Lemma ParseInt_Format x : is_i64 x -> ParseInt (FormatInt x) = Ok x.
Proof.
  intros Hx. unfold FormatInt. destruct (Z.ltb_spec x 0).
  - cbn [ParseInt]. change (45 =? 45) with true. rewrite orb_true_r. fold (FormatUint (- x)).
    rewrite ParseUint_Format by (unfold two63, two64 in *; lia). cbn [mbind result_bind negb andb].
    destruct (Z.ltb_spec two63 (- x)); [lia|]. f_equal. lia.
  - destruct (decimal_head x) as (c & s & E & Hc); [lia|].
    pose proof (ParseUint_Format x) as Hp. unfold FormatUint in Hp. rewrite E in *.
    assert (48 <= c <= 57) as Hr.
    { unfold is_digit in Hc. rewrite andb_true_iff, !Z.leb_le in Hc. done. }
    unfold ParseInt. destruct (Z.eqb_spec c 43), (Z.eqb_spec c 45); try lia.
    cbn [orb]. rewrite Hp by (unfold two63, two64 in *; lia). cbn [mbind result_bind negb andb].
    destruct (Z.leb_spec two63 x); [lia|done].
Qed.

(** the number a string of digits denotes *)
Definition digits_value (s : bytes) : Z := foldl (fun n c => n * 10 + (c - 48)) 0 s.

Lemma parse_digits_exact n s v :
  0 <= n -> parse_digits n s = Ok v <->
  forallb is_digit s = true /\ v = foldl (fun n c => n * 10 + (c - 48)) n s /\ (s = [] \/ v < two64).
Proof.
  revert n; induction s as [|c s IH]; intros n Hn; simpl.
  - split; [intros E; simplify_eq; auto|]. by intros (_ & -> & _).
  - destruct (is_digit c) eqn:Ed; simpl; [|split; [done|by intros (? & _)]].
    assert (48 <= c <= 57) by (unfold is_digit in Ed; rewrite andb_true_iff, !Z.leb_le in Ed; done).
    set (n1 := n * 10 + (c - 48)).
    assert (n1 <= foldl (fun n c => n * 10 + (c - 48)) n1 s \/ forallb is_digit s = false) as Hmono.
    { clear IH. assert (0 <= n1) by lia. clearbody n1. revert n1 H0.
      induction s as [|d s IH]; intros n1 Hn1; simpl; [lia|].
      destruct (is_digit d) eqn:E2; simpl; [|auto].
      assert (48 <= d <= 57) by (unfold is_digit in E2; rewrite andb_true_iff, !Z.leb_le in E2; done).
      destruct (IH (n1 * 10 + (d - 48))); [lia| |auto]. left. lia. }
    destruct (Z.leb_spec two64 n1).
    + split; [done|]. intros (Hs & -> & [?|?]); [done|]. destruct Hmono; [lia|congruence].
    + rewrite IH by lia. split.
      * intros (? & -> & Hor). split_and!; try done. right. destruct Hor as [->|]; [done|lia].
      * intros (? & -> & [?|?]); [done|]. split_and!; auto.
Qed.

Lemma ParseUint_exact s v :
  ParseUint s = Ok v <->
  s <> [] /\ forallb is_digit s = true /\ v = digits_value s /\ v < two64.
Proof.
  unfold ParseUint, digits_value. destruct s as [|c s]; [split; [done|by intros [? _]]|].
  rewrite parse_digits_exact by lia. split.
  - intros (? & ? & [?|?]); [done|]. by split_and!.
  - intros (_ & ? & ? & ?). split_and!; auto.
Qed.

(** ** Members of an object *)

Lemma field_of_exact names k : k ∈ names -> field_of names k = Some k.
Proof.
  intros Hk. unfold field_of. destruct (List.find (bytes_eqb k) names) eqn:E.
  - apply find_some in E as [_ E]. apply bytes_eqb_eq in E. by subst.
  - apply list_elem_of_In in Hk. apply (find_none _ _ E) in Hk. by rewrite bytes_eqb_refl in Hk.
Qed.

Lemma member_absent {A} names name (dec : A -> json -> result A) a ms :
  Forall (fun k => k ∈ names) ms.*1 -> name ∉ ms.*1 -> member names name dec a ms = Ok a.
Proof.
  induction ms as [|[k v] ms IH]; intros Hk Hn; [done|]. apply Forall_cons in Hk as [Hk Hks].
  rewrite fmap_cons, not_elem_of_cons in Hn. destruct Hn as [Hne Hn].
  cbn [member]. rewrite field_of_exact by done.
  destruct (bytes_eqb k name) eqn:E; [by apply bytes_eqb_eq in E|]. by apply IH.
Qed.

(** one member of each name, all of them fields *)
Lemma member_unique {A} names name (dec : A -> json -> result A) a ms i v :
  Forall (fun k => k ∈ names) ms.*1 -> NoDup ms.*1 -> ms !! i = Some (name, v) ->
  member names name dec a ms = dec a v.
Proof.
  revert i; induction ms as [|[k w] ms IH]; intros i Hk Hnd Hi; [done|].
  apply Forall_cons in Hk as [Hk Hks]. apply NoDup_cons in Hnd as [Hn Hnd].
  cbn [member]. rewrite field_of_exact by done. destruct i as [|i]; simpl in Hi.
  - simplify_eq. rewrite bytes_eqb_refl. destruct (dec a v) as [a'|] eqn:E; [|done].
    simpl. by apply member_absent.
  - destruct (bytes_eqb k name) eqn:E; [|by apply (IH i)]. apply bytes_eqb_eq in E as ->.
    destruct Hn. apply list_elem_of_fmap. exists (name, v). split; [done|].
    by apply list_elem_of_lookup_2 in Hi.
Qed.

Lemma dec_elems_map {A B} (zero : A) (dec : A -> json -> result A) (enc : B -> json) (f : B -> A) old l :
  (forall z b, b ∈ l -> dec z (enc b) = Ok (f b)) -> dec_elems zero dec old (map enc l) = Ok (map f l).
Proof.
  revert old. induction l as [|b l IH]; intros old H; [done|]. simpl.
  rewrite H, IH by set_solver. done.
Qed.

(** ** Numbers on the wire *)

Lemma is_digit_not_n c : is_digit c = true -> (c =? 110) = false.
Proof. unfold is_digit. rewrite andb_true_iff, !Z.leb_le. intros. apply Z.eqb_neq. lia. Qed.

Lemma dec_enc_uint64s a x : is_u64 x -> dec_uint64s a (enc_uint64s x) = Ok x.
Proof.
  intros Hx. unfold dec_uint64s, enc_uint64s, dec_quoted.
  pose proof (ParseUint_Format x Hx) as Hp. unfold FormatUint in *.
  destruct (decimal_head x) as (c & s & E & Hc); [lia|]. rewrite E in *.
  rewrite is_digit_not_n, Hc by done. cbn [orb]. by rewrite Hp.
Qed.

Lemma dec_enc_int64s a x : is_i64 x -> dec_int64s a (JStr (FormatInt x)) = Ok x.
Proof.
  intros Hx. unfold dec_int64s, dec_quoted. pose proof (ParseInt_Format x Hx) as Hp.
  unfold FormatInt in *. destruct (Z.ltb_spec x 0).
  - by rewrite Hp.
  - destruct (decimal_head x) as (c & s & E & Hc); [lia|]. rewrite E in *.
    rewrite is_digit_not_n, Hc by done. cbn [orb]. by rewrite Hp.
Qed.

Lemma dec_enc_uint w a x : 0 <= x < w -> w <= two64 -> dec_uint w a (enc_uint x) = Ok x.
Proof.
  intros Hx Hw. unfold dec_uint, enc_uint. rewrite ParseUint_Format by lia. simpl.
  destruct (Z.leb_spec w x); [lia|done].
Qed.

Lemma dec_enc_int a x : is_i64 x -> dec_int64 a (enc_int x) = Ok x.
Proof. intros Hx. unfold dec_int64, enc_int. by rewrite ParseInt_Format. Qed.

Create HintDb wire.
#[export] Hint Resolve dec_enc_uint64s dec_enc_int64s dec_enc_int : wire.

(** *** The members of an object whose keys are known *)

Definition has_key (k : bytes) (l : list bytes) : bool := existsb (bytes_eqb k) l.

Fixpoint keys_ok (names keys : list bytes) : bool :=
  match keys with
  | [] => true
  | k :: keys' => has_key k names && negb (has_key k keys') && keys_ok names keys'
  end.

Fixpoint assoc (name : bytes) (ms : list (bytes * json)) : option json :=
  match ms with
  | [] => None
  | (k, v) :: ms' => if bytes_eqb k name then Some v else assoc name ms'
  end.

Lemma has_key_elem k l : has_key k l = true <-> k ∈ l.
Proof.
  unfold has_key. rewrite existsb_exists. split.
  - intros (x & Hx & E). apply bytes_eqb_eq in E as ->. by apply list_elem_of_In.
  - intros Hk. exists k. rewrite bytes_eqb_refl. split; [by apply list_elem_of_In|done].
Qed.

Lemma keys_ok_spec names keys :
  keys_ok names keys = true -> Forall (fun k => k ∈ names) keys /\ NoDup keys.
Proof.
  induction keys as [|k keys IH]; simpl; [by repeat constructor|].
  rewrite !andb_true_iff, negb_true_iff, has_key_elem. intros [[Hk Hn] Hks].
  destruct (IH Hks). split; [by constructor|]. constructor; [|done].
  rewrite <- has_key_elem. congruence.
Qed.

Lemma assoc_lookup name ms v : assoc name ms = Some v -> exists i, ms !! i = Some (name, v).
Proof.
  induction ms as [|[k w] ms IH]; [done|]. simpl. destruct (bytes_eqb k name) eqn:E.
  - intros ?; simplify_eq. apply bytes_eqb_eq in E as ->. by exists 0%nat.
  - intros Hv. destruct (IH Hv) as [i Hi]. by exists (S i).
Qed.

Lemma member_assoc {A} names name (dec : A -> json -> result A) a ms v :
  keys_ok names ms.*1 = true -> assoc name ms = Some v -> member names name dec a ms = dec a v.
Proof.
  intros Hk Hv. apply keys_ok_spec in Hk as [Hk Hnd]. apply assoc_lookup in Hv as [i Hi].
  by apply (member_unique _ _ _ _ _ i).
Qed.

(** an absent member leaves the field as it was *)
Lemma member_none {A} names name (dec : A -> json -> result A) a ms :
  keys_ok names ms.*1 = true -> has_key name ms.*1 = false -> member names name dec a ms = Ok a.
Proof.
  intros Hk Hn. apply keys_ok_spec in Hk as [Hk _]. apply member_absent; [done|].
  rewrite <- has_key_elem. congruence.
Qed.

(** replaces the decoding of each member by the decoding of its value *)
Ltac wire_members :=
  repeat match goal with
  | |- context [member ?names ?name ?dec ?a ?ms] =>
      first [ rewrite (member_none names name dec a ms) by reflexivity
            | erewrite (member_assoc names name dec a ms) by reflexivity ];
      cbn [mbind result_bind]
  end.
