(* ===== verification/Harness.v ===== *)
(** * The EVM harness

    Models evm/runtime.go and evm/erc20_fixture.go: a wrapper that drives go-ethereum's
    interpreter over go-ethereum's own state, and the calldata of a standard token.
    go-ethereum's state database, interpreter and Keccak are the class [GethState]. *)

From Stdlib Require Import String.
From S2P Require Import Prelude Sha256 Core Pos Adapter GoStd.

(** ** The library *)

(** the fork schedule of [params.ChainConfig]: heights, then times *)
Record ChainConfig := mkChainConfig {
  cc_ChainID : Z;
  cc_HomesteadBlock : Z;
  cc_DAOForkBlock : Z;
  cc_DAOForkSupport : bool;
  cc_EIP150Block : Z;
  cc_EIP155Block : Z;
  cc_EIP158Block : Z;
  cc_ByzantiumBlock : Z;
  cc_ConstantinopleBlock : Z;
  cc_PetersburgBlock : Z;
  cc_IstanbulBlock : Z;
  cc_MuirGlacierBlock : Z;
  cc_BerlinBlock : Z;
  cc_LondonBlock : Z;
  cc_TerminalTotalDifficulty : Z;
  cc_ShanghaiTime : option Z;
  cc_CancunTime : option Z;
}.

(** the fields of [vm.BlockContext] that are data; [Random] is a pointer *)
Record BlockContext := mkBlockContext {
  bc_Coinbase : Address;
  bc_BlockNumber : Z;
  bc_Time : Z;
  bc_Difficulty : Z;
  bc_GasLimit : Z;
  bc_BaseFee : Z;
  bc_BlobBaseFee : Z;
  bc_Random : option Hash;
}.

Class GethState := {
  GState : Type;
  geth_New : result GState;
  geth_Exist : GState -> Address -> bool;
  geth_CreateAccount : GState -> Address -> GState;
  geth_AddBalance : GState -> Address -> Z -> GState;
  geth_SetTxContext : GState -> Hash -> Z -> Z -> GState;
  (** the hash of the current transaction context *)
  geth_TxHash : GState -> Hash;
  geth_Prepare : GState -> Rules -> Address -> Address -> option Address -> list Address -> GState;
  geth_GetCode : GState -> Address -> bytes;
  geth_Logs : GState -> list Log;
  geth_IntermediateRoot : GState -> GState * Hash;
  config_Rules : ChainConfig -> Z -> bool -> Z -> Rules;
  geth_ActivePrecompiles : Rules -> list Address;
  Keccak256 : bytes -> Hash;
  (** [e.Create(from, code, budget, value)] and [e.Call(from, to, input, budget, value)] of the
      EVM made of a block context, a config and a gas price: the state afterwards, the
      result and [result.Used(budget)] *)
  geth_Create : BlockContext -> ChainConfig -> Z -> GState -> Address -> bytes -> Z -> Z ->
    GState * (Address * Z * result unit);
  geth_Call : BlockContext -> ChainConfig -> Z -> GState -> Address -> Address -> bytes -> Z -> Z ->
    GState * (bytes * Z * result unit);
}.

(** ** The harness *)

Definition ModernChainConfig : ChainConfig :=
  mkChainConfig 1 0 0 false 0 0 0 0 0 0 0 0 0 0 0 (Some 0) (Some 0).

Section Harness.
Context `{HGS : GethState}.

Record Harness := mkHarness {
  hs_State : GState;
  hs_ChainConfig : ChainConfig;
  hs_BlockNumber : Z;
  hs_Time : Z;
  hs_GasPrice : Z;
  hs_txCounter : Z;
}.

Definition with_geth (h : Harness) (s : GState) : Harness :=
  mkHarness s (hs_ChainConfig h) (hs_BlockNumber h) (hs_Time h) (hs_GasPrice h) (hs_txCounter h).

Definition NewHarness : result Harness :=
  sdb ← geth_New;
  Ok (mkHarness sdb ModernChainConfig 1 1 0 0).

Definition Fund (h : Harness) (addr : Address) (wei : Z) : Harness :=
  let s := if negb (geth_Exist (hs_State h) addr) then geth_CreateAccount (hs_State h) addr
           else hs_State h in
  with_geth h (geth_AddBalance s addr wei).

(** the block context of [newEVM] *)
Definition newEVM (h : Harness) : BlockContext :=
  mkBlockContext zero_addr (hs_BlockNumber h) (hs_Time h) 0 (2 ^ 63) 0 0 (Some zero_hash).

Definition rules (h : Harness) : Rules :=
  config_Rules (hs_ChainConfig h) (hs_BlockNumber h) true (hs_Time h).

Definition newTxContext (h : Harness) : Harness * Hash :=
  let counter := u64 (hs_txCounter h + 1) in
  let txHash := Keccak256 (be 8 counter) in
  let s := geth_SetTxContext (hs_State h) txHash 0 0 in
  (mkHarness s (hs_ChainConfig h) (hs_BlockNumber h) (hs_Time h) (hs_GasPrice h) counter, txHash).

Definition Deploy (h : Harness) (from : Address) (code : bytes) (gas : Z)
    : Harness * (Address * Z * result unit) :=
  let h := fst (newTxContext h) in
  let rules := rules h in
  let s := geth_Prepare (hs_State h) rules from zero_addr None (geth_ActivePrecompiles rules) in
  let '(s, r) := geth_Create (newEVM h) (hs_ChainConfig h) (hs_GasPrice h) s from code gas 0 in
  (with_geth h s, r).

Definition Call (h : Harness) (from to : Address) (input : bytes) (gas : Z)
    : Harness * (bytes * Z * result unit) :=
  let h := fst (newTxContext h) in
  let rules := rules h in
  let s := geth_Prepare (hs_State h) rules from zero_addr (Some to) (geth_ActivePrecompiles rules) in
  let '(s, r) := geth_Call (newEVM h) (hs_ChainConfig h) (hs_GasPrice h) s from to input gas 0 in
  (with_geth h s, r).

Definition Logs (h : Harness) : list Log := geth_Logs (hs_State h).
Definition Code (h : Harness) (addr : Address) : bytes := geth_GetCode (hs_State h) addr.
Definition harness_StateRoot (h : Harness) : Harness * Hash :=
  let '(s, root) := geth_IntermediateRoot (hs_State h) in (with_geth h s, root).

(** the rules [Prepare] warms addresses for are those the interpreter derives from the
    block context: [Rules(BlockNumber, Random != nil, Time)] *)
Lemma rules_match h :
  rules h = config_Rules (hs_ChainConfig h) (bc_BlockNumber (newEVM h))
              (bool_decide (is_Some (bc_Random (newEVM h)))) (bc_Time (newEVM h)).
Proof. done. Qed.

(** ** Logs *)

(** one use of the harness *)
Inductive harness_op :=
| HFund (addr : Address) (wei : Z)
| HDeploy (from : Address) (code : bytes) (gas : Z)
| HCall (from to : Address) (input : bytes) (gas : Z).

Definition harness_step (h : Harness) (op : harness_op) : Harness :=
  match op with
  | HFund addr wei => Fund h addr wei
  | HDeploy from code gas => fst (Deploy h from code gas)
  | HCall from to input gas => fst (Call h from to input gas)
  end.

Definition is_exec (op : harness_op) : bool := match op with HFund _ _ => false | _ => true end.
Definition execs (ops : list harness_op) : nat := length (List.filter is_exec ops).
End Harness.

(** documented of go-ethereum's state: a new state has no logs, a log carries the hash of the
    context it was added in, and only the interpreter adds logs *)
Class GethStateLaws `{GethState} : Prop := {
  geth_New_logs s : geth_New = Ok s -> geth_Logs s = [];
  geth_CreateAccount_logs s a : geth_Logs (geth_CreateAccount s a) ≡ₚ geth_Logs s;
  geth_AddBalance_logs s a x : geth_Logs (geth_AddBalance s a x) ≡ₚ geth_Logs s;
  geth_SetTxContext_logs s t i j : geth_Logs (geth_SetTxContext s t i j) ≡ₚ geth_Logs s;
  geth_SetTxContext_hash s t i j : geth_TxHash (geth_SetTxContext s t i j) = t;
  geth_Prepare_logs s r a c d p : geth_Logs (geth_Prepare s r a c d p) ≡ₚ geth_Logs s;
  geth_Prepare_hash s r a c d p : geth_TxHash (geth_Prepare s r a c d p) = geth_TxHash s;
  geth_Create_logs bc cfg price s from code gas value :
    exists new, geth_Logs (fst (geth_Create bc cfg price s from code gas value)) ≡ₚ geth_Logs s ++ new /\
      Forall (fun l => log_TxHash l = geth_TxHash s) new;
  geth_Call_logs bc cfg price s from to input gas value :
    exists new, geth_Logs (fst (geth_Call bc cfg price s from to input gas value)) ≡ₚ geth_Logs s ++ new /\
      Forall (fun l => log_TxHash l = geth_TxHash s) new;
}.

Section HarnessProps.
Context `{HGL : GethStateLaws}.

(** the logs of the first [k] executions, each under its own hash *)
Definition logged (h : Harness) (k : nat) : Prop :=
  hs_txCounter h = Z.of_nat k /\
  exists per, length per = k /\ Logs h ≡ₚ concat per /\
    forall i ls, per !! i = Some ls ->
      Forall (fun l => log_TxHash l = Keccak256 (be 8 (Z.of_nat i + 1))) ls.

Lemma logged_quiet h h' k :
  hs_txCounter h' = hs_txCounter h -> Logs h' ≡ₚ Logs h -> logged h k -> logged h' k.
Proof.
  intros Hc Hl (Hk & per & Hn & Hp & Ht). split; [congruence|]. exists per. split_and!; [done| |done].
  by rewrite Hl.
Qed.

Lemma logged_exec h h' k new :
  Z.of_nat k + 1 < two64 -> logged h k ->
  hs_txCounter h' = u64 (hs_txCounter h + 1) -> Logs h' ≡ₚ Logs h ++ new ->
  Forall (fun l => log_TxHash l = Keccak256 (be 8 (u64 (hs_txCounter h + 1)))) new -> logged h' (S k).
Proof.
  intros Hlim (Hk & per & Hn & Hp & Ht) Hc Hl Hnew.
  assert (Eu : u64 (hs_txCounter h + 1) = Z.of_nat k + 1) by (rewrite Hk; apply u64_small; lia).
  rewrite Eu in Hc, Hnew. split; [lia|]. exists (per ++ [new]). split_and!.
  - rewrite length_app. cbn [length]. lia.
  - rewrite concat_app. cbn [concat]. by rewrite app_nil_r, Hl, Hp.
  - intros i ls [Hi|[Hge Hi]]%lookup_app_Some; [by apply Ht|].
    destruct (i - length per)%nat as [|j] eqn:Ej; [|by destruct j]. injection Hi as <-.
    replace (Z.of_nat i) with (Z.of_nat k) by lia. done.
Qed.

(** an execution after [newTxContext] and [Prepare] *)
Lemma exec_logged h k r a c d p s' new :
  let h1 := fst (newTxContext h) in
  let s := geth_Prepare (hs_State h1) r a c d p in
  Z.of_nat k + 1 < two64 -> logged h k -> geth_Logs s' ≡ₚ geth_Logs s ++ new ->
  Forall (fun l => log_TxHash l = geth_TxHash s) new -> logged (with_geth h1 s') (S k).
Proof.
  intros h1 s Hlim L Hl Hn. apply (logged_exec h _ k new Hlim L); [done| |].
  - unfold Logs. cbn [with_geth hs_State]. rewrite Hl. unfold s. rewrite geth_Prepare_logs.
    unfold h1. cbn [newTxContext fst hs_State]. by rewrite geth_SetTxContext_logs.
  - revert Hn. unfold s. rewrite geth_Prepare_hash. unfold h1. cbn [newTxContext fst hs_State].
    by rewrite geth_SetTxContext_hash.
Qed.

Lemma harness_step_logged h op k :
  Z.of_nat k + 1 < two64 -> logged h k ->
  logged (harness_step h op) (if is_exec op then S k else k).
Proof.
  intros Hlim L. destruct op as [addr wei|from code gas|from to input gas]; cbn [harness_step is_exec].
  - apply (logged_quiet h); [done| |done]. unfold Logs, Fund. cbn [with_geth hs_State].
    rewrite geth_AddBalance_logs. destruct (geth_Exist _ _); cbn [negb]; [done|apply geth_CreateAccount_logs].
  - unfold Deploy. set (h1 := fst (newTxContext h)). set (s := geth_Prepare _ _ _ _ _ _).
    destruct (geth_Create_logs (newEVM h1) (hs_ChainConfig h1) (hs_GasPrice h1) s from code gas 0)
      as (new & Hl & Hn).
    destruct (geth_Create _ _ _ _ _ _ _ _) as [s' r]. by eapply exec_logged.
  - unfold Call. set (h1 := fst (newTxContext h)). set (s := geth_Prepare _ _ _ _ _ _).
    destruct (geth_Call_logs (newEVM h1) (hs_ChainConfig h1) (hs_GasPrice h1) s from to input gas 0)
      as (new & Hl & Hn).
    destruct (geth_Call _ _ _ _ _ _ _ _ _) as [s' r]. by eapply exec_logged.
Qed.

Lemma harness_ops_logged h k ops :
  Z.of_nat (k + execs ops) < two64 -> logged h k -> logged (foldl harness_step h ops) (k + execs ops).
Proof.
  unfold execs. revert h k. induction ops as [|op ops IH]; intros h k Hlim L; cbn [foldl List.filter] in *.
  { cbn [length]. by rewrite Nat.add_0_r. }
  destruct (is_exec op) eqn:Eo; cbn [length] in *.
  - rewrite Nat.add_succ_r, <- Nat.add_succ_l in *. apply IH; [done|].
    pose proof (harness_step_logged h op k) as S. rewrite Eo in S. apply S; [lia|done].
  - destruct (decide (Z.of_nat k + 1 < two64)) as [Hl|Hl].
    + apply IH; [done|]. pose proof (harness_step_logged h op k Hl L) as S. by rewrite Eo in S.
    + apply IH; [done|]. destruct op as [addr wei| |]; [|done..]. cbn [harness_step].
      apply (logged_quiet h); [done| |done]. unfold Logs, Fund. cbn [with_geth hs_State].
      rewrite geth_AddBalance_logs. destruct (geth_Exist _ _); cbn [negb]; [done|apply geth_CreateAccount_logs].
Qed.

Lemma filter_all {A} (P : A -> Prop) `{forall x, Decision (P x)} l : Forall P l -> filter P l = l.
Proof. induction 1 as [|x l Hx _ IH]; [done|]. rewrite filter_cons_True by done. by rewrite IH. Qed.

Lemma filter_none {A} (P : A -> Prop) `{forall x, Decision (P x)} l :
  Forall (fun x => ~ P x) l -> filter P l = [].
Proof. induction 1 as [|x l Hx _ IH]; [done|]. by rewrite filter_cons_False. Qed.

(** of lists with pairwise different tags, a tag selects its own *)
Lemma filter_concat_tag (per : list (list Log)) (tag : nat -> Hash) i ls :
  (forall j l, per !! j = Some l -> Forall (fun x => log_TxHash x = tag j) l) ->
  (forall j, (j < length per)%nat -> tag j = tag i -> j = i) ->
  per !! i = Some ls -> filter (fun l => log_TxHash l = tag i) (concat per) = ls.
Proof.
  revert tag i. induction per as [|x per IH]; intros tag i Ht Hinj Hi; [done|]. cbn [concat].
  rewrite filter_app. destruct i as [|i].
  - injection Hi as <-.
    rewrite filter_all by exact (Ht 0%nat x eq_refl).
    rewrite filter_none; [apply app_nil_r|]. apply Forall_concat, Forall_lookup.
    intros j l Hj. eapply Forall_impl; [exact (Ht (S j) l Hj)|]. intros y Hy Hy'. cbn beta in Hy, Hy'.
    apply lookup_lt_Some in Hj. specialize (Hinj (S j)). rewrite Hy in Hy'.
    discriminate Hinj; [cbn [length]; lia|done].
  - rewrite filter_none.
    + apply (IH (fun j => tag (S j)) i); [by intros j; apply (Ht (S j))| |done].
      intros j Hj E. specialize (Hinj (S j)). injection Hinj; [done|cbn [length]; lia|done].
    + eapply Forall_impl; [exact (Ht 0%nat x eq_refl)|]. intros y Hy Hy'. cbn beta in Hy, Hy'.
      rewrite Hy in Hy'. specialize (Hinj 0%nat). discriminate Hinj; [cbn [length]; lia|done].
Qed.
End HarnessProps.

(** Every log belongs to the execution that emitted it.  However the harness is used, the
    logs it reports are those of its [Deploy]s and [Call]s in some order, and the logs that
    carry the hash of the [i]-th execution are exactly the ones it emitted (no two of the
    counters used colliding under Keccak). *)
Theorem harness_logs_separate `{GethStateLaws} h ops :
  NewHarness = Ok h -> Z.of_nat (execs ops) < two64 ->
  NoDup (map (fun i => Keccak256 (be 8 (Z.of_nat i + 1))) (seq 0 (execs ops))) ->
  let h' := foldl harness_step h ops in
  exists per, length per = execs ops /\ Logs h' ≡ₚ concat per /\
    forall i ls, per !! i = Some ls ->
      filter (fun l => log_TxHash l = Keccak256 (be 8 (Z.of_nat i + 1))) (Logs h') ≡ₚ ls.
Proof.
  intros Hn Hlim Hd h'. assert (L0 : logged h 0).
  { unfold NewHarness in Hn. destruct geth_New as [s|] eqn:Es; [|done]. cbn [mbind result_bind] in Hn.
    injection Hn as <-. split; [done|]. exists []. split_and!; [done| |done].
    unfold Logs. cbn [hs_State]. by rewrite (geth_New_logs _ Es). }
  destruct (harness_ops_logged h 0 ops Hlim L0) as (_ & per & Hl & Hp & Ht). fold h' in Hp.
  exists per. split_and!; [done|done|]. intros i ls Hi. rewrite Hp.
  rewrite (filter_concat_tag per (fun i => Keccak256 (be 8 (Z.of_nat i + 1))) i ls Ht); [done| |done].
  intros j Hj E. apply lookup_lt_Some in Hi. rewrite Hl in Hi, Hj. cbn [Nat.add] in *.
  apply (NoDup_lookup _ j i (Keccak256 (be 8 (Z.of_nat i + 1))) Hd);
    rewrite list_lookup_fmap, lookup_seq_lt by done; apply (f_equal Some); [exact E|done].
Qed.

(** ** The calldata of a standard token *)

Definition ERC20CreationHex : bytes := str
  "7f00000000000000000000000000000000000000000000d3c21bcecceda1000000806001553360005260006020526040600020556100996100436000396100996000f360003560e01c806370a082311461002c578063a9059cbb1461005257806318160ddd146100465760006000fd5b600435600052600060205260406000205460005260206000f35b60015460005260206000f35b336000526000602052604060002080546024358082106100935790039055600435600052600060205260406000208054602435019055600160005260206000f35b60006000fd".

(** [None] is the panic on an undecodable fixture *)
Definition ERC20CreationCode : option bytes :=
  match DecodeString ERC20CreationHex with Ok b => Some b | Err _ => None end.

Definition ERC20InitialSupply : Z := 1000000 * 10 ^ 18.

Definition SelBalanceOf : bytes := [0x70; 0xa0; 0x82; 0x31].
Definition SelTransfer : bytes := [0xa9; 0x05; 0x9c; 0xbb].
Definition SelTotalSupply : bytes := [0x18; 0x16; 0x0d; 0xdd].

Definition padAddress (a : Address) : bytes := splice 12 a (replicate 32 0).

(** [FillBytes] writes the absolute value and panics when it does not fit *)
Definition padUint256 (v : Z) : option bytes :=
  if Z.abs v <? two256 then Some (be 32 (Z.abs v)) else None.

Definition EncodeBalanceOf (addr : Address) : bytes := SelBalanceOf ++ padAddress addr.
Definition EncodeTransfer (to : Address) (amount : Z) : option bytes :=
  word ← padUint256 amount; Some (SelTransfer ++ padAddress to ++ word).
Definition EncodeTotalSupply : bytes := SelTotalSupply.
Definition DecodeUint256 (ret : bytes) : Z := be_decode ret.

Lemma padAddress_spec a : length a = AddrLen -> padAddress a = replicate 12 0 ++ a.
Proof.
  intros Ha. unfold padAddress, splice. rewrite Ha. change (12 + AddrLen)%nat with 32%nat.
  rewrite drop_replicate, take_replicate. change (12 `min` 32)%nat with 12%nat.
  change (32 - 32)%nat with 0%nat. cbn [replicate]. by rewrite app_nil_r.
Qed.

Lemma padUint256_spec v : 0 <= v < two256 -> padUint256 v = Some (be 32 v).
Proof.
  intros Hv. unfold padUint256. rewrite Z.abs_eq by lia. by rewrite (proj2 (Z.ltb_lt _ _)) by lia.
Qed.

Lemma DecodeUint256_word v : 0 <= v < two256 -> DecodeUint256 (be 32 v) = v.
Proof. intros Hv. unfold DecodeUint256. apply be_decode_be_small. exact Hv. Qed.

(** A transfer's calldata is unambiguous and complete: for every amount of 256 bits it has 68
    bytes, the selector, the recipient and the amount can be read off it, and two
    transfers with the same calldata are the same transfer. *)
Theorem EncodeTransfer_reads_back to amount :
  length to = AddrLen -> 0 <= amount < two256 ->
  exists data, EncodeTransfer to amount = Some data /\ length data = 68%nat /\
    take 4 data = SelTransfer /\ slice 16 36 data = to /\ DecodeUint256 (drop 36 data) = amount.
Proof.
  intros Ht Ha. unfold EncodeTransfer. rewrite (padUint256_spec _ Ha), (padAddress_spec _ Ht).
  cbn [mbind option_bind]. eexists. split; [reflexivity|]. unfold AddrLen in Ht. split_and!.
  - rewrite !length_app, length_replicate, length_be, Ht. done.
  - done.
  - rewrite (slice_app_skip 4 16 36), <- app_assoc, (slice_app_skip 12 12 32) by (done || lia).
    simpl Nat.sub. by apply slice_app_l.
  - assert (E : drop 36 (SelTransfer ++ (replicate 12 0 ++ to) ++ be 32 amount) = be 32 amount).
    { rewrite app_assoc, drop_app_exact; [done|]. by rewrite !length_app, length_replicate, Ht. }
    rewrite E. by apply DecodeUint256_word.
Qed.

(** the fixture decodes, so building the creation code never panics; the supply its
    constructor mints is in its first word *)
Example creation_code_decodes :
  exists code, ERC20CreationCode = Some code /\ length code = 220%nat /\
    DecodeUint256 (slice 1 33 code) = ERC20InitialSupply.
Proof. eexists. split; [vm_compute; reflexivity|]. by vm_compute. Qed.

(** ** A small instance *)

(** a state that is a list of logs and the current hash; every execution emits one log *)
Definition toy_geth : GethState := {|
  GState := list Log * Hash;
  geth_New := Ok ([], zero_hash);
  geth_Exist := fun _ _ => true;
  geth_CreateAccount := fun s _ => s;
  geth_AddBalance := fun s _ _ => s;
  geth_SetTxContext := fun s t _ _ => (fst s, t);
  geth_TxHash := snd;
  geth_Prepare := fun s _ _ _ _ _ => s;
  geth_GetCode := fun _ _ => [];
  geth_Logs := fst;
  geth_IntermediateRoot := fun s => (s, zero_hash);
  config_Rules := fun _ _ merge _ => mkRules merge merge merge;
  geth_ActivePrecompiles := fun _ => [];
  Keccak256 := fun b => copy_fixed 32 b;
  geth_Create := fun _ _ _ s _ code _ _ =>
    ((fst s ++ [mkLog code (snd s) 0 0], snd s), (zero_addr, 0, Ok tt));
  geth_Call := fun _ _ _ s _ _ input _ _ =>
    ((fst s ++ [mkLog input (snd s) 0 0], snd s), ([], 0, Ok tt));
|}.

#[local] Existing Instance toy_geth.
#[local] Instance toy_geth_laws : GethStateLaws.
Proof.
  split; try done.
  - by intros s [= <-].
  - intros bc cfg price s from code gas value. exists [mkLog code (geth_TxHash s) 0 0]. split; [reflexivity|]. by repeat constructor.
  - intros bc cfg price s from to input gas value. exists [mkLog input (geth_TxHash s) 0 0]. split; [reflexivity|]. by repeat constructor.
Qed.

Definition toy_harness : Harness :=
  @mkHarness toy_geth (([], zero_hash) : list Log * Hash) ModernChainConfig 1 1 0 0.

Lemma harness_logs_separate_witness :
  exists h, NewHarness = Ok h /\
    let h' := foldl harness_step h [HDeploy zero_addr [1] 9; HFund zero_addr 5; HCall zero_addr zero_addr [2] 9] in
    exists per, length per = 2%nat /\ Logs h' ≡ₚ concat per.
Proof.
  exists toy_harness. split; [reflexivity|].
  destruct (harness_logs_separate toy_harness
    [HDeploy zero_addr [1] 9; HFund zero_addr 5; HCall zero_addr zero_addr [2] 9]) as (per & Hl & Hp & _).
  - reflexivity.
  - done.
  - apply (bool_decide_unpack _). vm_compute. exact I.
  - exists per. exact (conj Hl Hp).
Defined.
