(* ===== verification/Rpc.v ===== *)
(** * JSON-RPC

    Models rpc/server.go and rpc/client.go.  JSON texts are the values they denote
    ([json]); a struct tag is the name of a member.  What the server returns is the value
    json.Marshal makes of it: a map's members are in the order of their keys.  The texts
    of errors ([err.Error()]) are not modelled: they are the parameter [ErrorText].  The
    matching engine's [Side.String] is the parameter [OrderbookText].  The client's HTTP
    exchange is a function from the request to the response, the server of any peer. *)

From Stdlib Require Import String.
From S2P Require Import Prelude Sha256 Core Pow FeeMarket StateDB Mpt Pos StackVM Exchange.
From S2P Require Import Adapter Transition Chain BlockBuilder Store Node GoStd.

Class ErrorText := { Error_text : error -> bytes }.
Class OrderbookText := { Side_String : Side -> bytes }.

(** what json.Unmarshal does to a variable of the type, and json.Marshal to a value *)
Class Decode (A : Type) := { zero : A; Unmarshal : A -> json -> result A }.
Class Encode (A : Type) := { Marshal : A -> json }.

Definition codeParseError : Z := -32700.
Definition codeInvalidRequest : Z := -32600.
Definition codeMethodNotFound : Z := -32601.
Definition codeInvalidParams : Z := -32602.
Definition codeInternalError : Z := -32603.

(** ** Envelopes *)

Record Request := mkRequest {
  rq_JSONRPC : bytes;
  rq_ID : option json;
  rq_Method : bytes;
  rq_Params : list json;
}.

Record RPCError := mkRPCError { re_Code : Z; re_Message : bytes }.

Record Response := mkResponse {
  rs_JSONRPC : bytes;
  rs_ID : option json;
  rs_Result : option json;
  rs_Error : option RPCError;
}.

Definition request_fields : list bytes := [str "jsonrpc"; str "id"; str "method"; str "params"].

#[export] Instance Request_Encode : Encode Request := {|
  Marshal r := JObj [(str "jsonrpc", JStr (rq_JSONRPC r)); (str "id", default JNull (rq_ID r));
                     (str "method", JStr (rq_Method r)); (str "params", JArr (rq_Params r))] |}.

#[export] Instance Request_Decode : Decode Request := {|
  zero := mkRequest [] None [] [];
  Unmarshal r j := members r j (fun ms =>
    v ← member request_fields (str "jsonrpc") dec_string (rq_JSONRPC r) ms;
    id ← member request_fields (str "id") dec_raw (rq_ID r) ms;
    m ← member request_fields (str "method") dec_string (rq_Method r) ms;
    ps ← member request_fields (str "params") (dec_slice JNull (fun _ j => Ok j)) (rq_Params r) ms;
    Ok (mkRequest v id m ps)) |}.

Definition error_fields : list bytes := [str "code"; str "message"].

#[export] Instance RPCError_Encode : Encode RPCError := {|
  Marshal e := JObj [(str "code", enc_int (re_Code e)); (str "message", JStr (re_Message e))] |}.

#[export] Instance RPCError_Decode : Decode RPCError := {|
  zero := mkRPCError 0 [];
  Unmarshal e j := members e j (fun ms =>
    c ← member error_fields (str "code") dec_int64 (re_Code e) ms;
    m ← member error_fields (str "message") dec_string (re_Message e) ms;
    Ok (mkRPCError c m)) |}.

(** a pointer: [null] makes it nil, an object allocates when it is nil *)
Definition dec_pointer {A} `{Decode A} (p : option A) (j : json) : result (option A) :=
  match j with
  | JNull => Ok None
  | _ => a ← Unmarshal (default zero p) j; Ok (Some a)
  end.

Definition response_fields : list bytes := [str "jsonrpc"; str "id"; str "result"; str "error"].

(** [omitempty] leaves out an empty RawMessage and a nil pointer *)
#[export] Instance Response_Encode : Encode Response := {|
  Marshal r := JObj ([(str "jsonrpc", JStr (rs_JSONRPC r)); (str "id", default JNull (rs_ID r))]
                     ++ match rs_Result r with Some j => [(str "result", j)] | None => [] end
                     ++ match rs_Error r with Some e => [(str "error", Marshal e)] | None => [] end) |}.

#[export] Instance Response_Decode : Decode Response := {|
  zero := mkResponse [] None None None;
  Unmarshal r j := members r j (fun ms =>
    v ← member response_fields (str "jsonrpc") dec_string (rs_JSONRPC r) ms;
    id ← member response_fields (str "id") dec_raw (rs_ID r) ms;
    res ← member response_fields (str "result") dec_raw (rs_Result r) ms;
    e ← member response_fields (str "error") dec_pointer (rs_Error r) ms;
    Ok (mkResponse v id res e)) |}.

(** ** Wire forms *)

Record TxJSON := mkTxJSON {
  tj_From : bytes;
  tj_To : bytes;
  tj_Value : Z;
  tj_Nonce : Z;
  tj_GasLimit : Z;
  tj_ChainID : Z;
  tj_GasFeeCap : Z;
  tj_GasTipCap : Z;
  tj_Data : bytes;
  tj_Signature : bytes;
  tj_Hash : bytes;
}.

Definition tx_fields : list bytes :=
  [str "from"; str "to"; str "value"; str "nonce"; str "gasLimit"; str "chainId";
   str "gasFeeCap"; str "gasTipCap"; str "data"; str "signature"; str "hash"].

#[export] Instance TxJSON_Encode : Encode TxJSON := {|
  Marshal t := JObj
    [(str "from", JStr (tj_From t)); (str "to", JStr (tj_To t));
     (str "value", enc_uint64s (tj_Value t)); (str "nonce", enc_uint64s (tj_Nonce t));
     (str "gasLimit", enc_uint64s (tj_GasLimit t)); (str "chainId", enc_uint64s (tj_ChainID t));
     (str "gasFeeCap", enc_uint64s (tj_GasFeeCap t));
     (str "gasTipCap", enc_uint64s (tj_GasTipCap t)); (str "data", JStr (tj_Data t));
     (str "signature", JStr (tj_Signature t)); (str "hash", JStr (tj_Hash t))] |}.

#[export] Instance TxJSON_Decode : Decode TxJSON := {|
  zero := mkTxJSON [] [] 0 0 0 0 0 0 [] [] [];
  Unmarshal t j := members t j (fun ms =>
    from ← member tx_fields (str "from") dec_string (tj_From t) ms;
    to ← member tx_fields (str "to") dec_string (tj_To t) ms;
    value ← member tx_fields (str "value") dec_uint64s (tj_Value t) ms;
    nonce ← member tx_fields (str "nonce") dec_uint64s (tj_Nonce t) ms;
    gas ← member tx_fields (str "gasLimit") dec_uint64s (tj_GasLimit t) ms;
    chain ← member tx_fields (str "chainId") dec_uint64s (tj_ChainID t) ms;
    cap ← member tx_fields (str "gasFeeCap") dec_uint64s (tj_GasFeeCap t) ms;
    tip ← member tx_fields (str "gasTipCap") dec_uint64s (tj_GasTipCap t) ms;
    data ← member tx_fields (str "data") dec_string (tj_Data t) ms;
    sig ← member tx_fields (str "signature") dec_string (tj_Signature t) ms;
    hash ← member tx_fields (str "hash") dec_string (tj_Hash t) ms;
    Ok (mkTxJSON from to value nonce gas chain cap tip data sig hash)) |}.

Record HeaderJSON := mkHeaderJSON {
  hj_Height : Z;
  hj_PrevHash : bytes;
  hj_MerkleRoot : bytes;
  hj_StateRoot : bytes;
  hj_Coinbase : bytes;
  hj_Timestamp : Z;
  hj_Difficulty : Z;
  hj_Nonce : Z;
  hj_BaseFee : Z;
  hj_GasUsed : Z;
  hj_ProposerSig : bytes;
}.

Definition header_fields : list bytes :=
  [str "height"; str "prevHash"; str "merkleRoot"; str "stateRoot"; str "coinbase";
   str "timestamp"; str "difficulty"; str "nonce"; str "baseFee"; str "gasUsed";
   str "proposerSig"].

#[export] Instance HeaderJSON_Encode : Encode HeaderJSON := {|
  Marshal h := JObj
    [(str "height", enc_uint64s (hj_Height h)); (str "prevHash", JStr (hj_PrevHash h));
     (str "merkleRoot", JStr (hj_MerkleRoot h)); (str "stateRoot", JStr (hj_StateRoot h));
     (str "coinbase", JStr (hj_Coinbase h)); (str "timestamp", enc_int (hj_Timestamp h));
     (str "difficulty", enc_uint (hj_Difficulty h)); (str "nonce", enc_uint64s (hj_Nonce h));
     (str "baseFee", enc_uint64s (hj_BaseFee h)); (str "gasUsed", enc_uint64s (hj_GasUsed h));
     (str "proposerSig", JStr (hj_ProposerSig h))] |}.

#[export] Instance HeaderJSON_Decode : Decode HeaderJSON := {|
  zero := mkHeaderJSON 0 [] [] [] [] 0 0 0 0 0 [];
  Unmarshal h j := members h j (fun ms =>
    height ← member header_fields (str "height") dec_uint64s (hj_Height h) ms;
    prev ← member header_fields (str "prevHash") dec_string (hj_PrevHash h) ms;
    mroot ← member header_fields (str "merkleRoot") dec_string (hj_MerkleRoot h) ms;
    sroot ← member header_fields (str "stateRoot") dec_string (hj_StateRoot h) ms;
    coinbase ← member header_fields (str "coinbase") dec_string (hj_Coinbase h) ms;
    ts ← member header_fields (str "timestamp") dec_int64 (hj_Timestamp h) ms;
    diff ← member header_fields (str "difficulty") (dec_uint two32) (hj_Difficulty h) ms;
    nonce ← member header_fields (str "nonce") dec_uint64s (hj_Nonce h) ms;
    base ← member header_fields (str "baseFee") dec_uint64s (hj_BaseFee h) ms;
    used ← member header_fields (str "gasUsed") dec_uint64s (hj_GasUsed h) ms;
    sig ← member header_fields (str "proposerSig") dec_string (hj_ProposerSig h) ms;
    Ok (mkHeaderJSON height prev mroot sroot coinbase ts diff nonce base used sig)) |}.

Record BlockJSON := mkBlockJSON {
  bj_Header : HeaderJSON;
  bj_Hash : bytes;
  bj_Txs : list TxJSON;
}.

Definition block_fields : list bytes := [str "header"; str "hash"; str "txs"].

#[export] Instance BlockJSON_Encode : Encode BlockJSON := {|
  Marshal b := JObj [(str "header", Marshal (bj_Header b)); (str "hash", JStr (bj_Hash b));
                     (str "txs", JArr (map Marshal (bj_Txs b)))] |}.

#[export] Instance BlockJSON_Decode : Decode BlockJSON := {|
  zero := mkBlockJSON zero [] [];
  Unmarshal b j := members b j (fun ms =>
    h ← member block_fields (str "header") Unmarshal (bj_Header b) ms;
    hash ← member block_fields (str "hash") dec_string (bj_Hash b) ms;
    txs ← member block_fields (str "txs") (dec_slice zero Unmarshal) (bj_Txs b) ms;
    Ok (mkBlockJSON h hash txs)) |}.

Record AccountJSON := mkAccountJSON {
  aj_Balance : Z;
  aj_Nonce : Z;
  aj_CodeHash : bytes;
  aj_StorageRoot : bytes;
}.

Definition account_fields : list bytes :=
  [str "balance"; str "nonce"; str "codeHash"; str "storageRoot"].

#[export] Instance AccountJSON_Encode : Encode AccountJSON := {|
  Marshal a := JObj
    [(str "balance", enc_uint64s (aj_Balance a)); (str "nonce", enc_uint64s (aj_Nonce a));
     (str "codeHash", JStr (aj_CodeHash a)); (str "storageRoot", JStr (aj_StorageRoot a))] |}.

#[export] Instance AccountJSON_Decode : Decode AccountJSON := {|
  zero := mkAccountJSON 0 0 [] [];
  Unmarshal a j := members a j (fun ms =>
    b ← member account_fields (str "balance") dec_uint64s (aj_Balance a) ms;
    n ← member account_fields (str "nonce") dec_uint64s (aj_Nonce a) ms;
    c ← member account_fields (str "codeHash") dec_string (aj_CodeHash a) ms;
    s ← member account_fields (str "storageRoot") dec_string (aj_StorageRoot a) ms;
    Ok (mkAccountJSON b n c s)) |}.

Record AccountProofJSON := mkAccountProofJSON {
  apj_Account : AccountJSON;
  apj_Proof : list bytes;
}.

Definition account_proof_fields : list bytes := [str "account"; str "proof"].

#[export] Instance AccountProofJSON_Encode : Encode AccountProofJSON := {|
  Marshal p := JObj [(str "account", Marshal (apj_Account p));
                     (str "proof", JArr (map JStr (apj_Proof p)))] |}.

#[export] Instance AccountProofJSON_Decode : Decode AccountProofJSON := {|
  zero := mkAccountProofJSON zero [];
  Unmarshal p j := members p j (fun ms =>
    a ← member account_proof_fields (str "account") Unmarshal (apj_Account p) ms;
    l ← member account_proof_fields (str "proof") (dec_slice [] dec_string) (apj_Proof p) ms;
    Ok (mkAccountProofJSON a l)) |}.

Record StorageProofJSON := mkStorageProofJSON {
  spj_AccountProof : AccountProofJSON;
  spj_SlotProof : list bytes;
  spj_Value : bytes;
}.

Definition storage_proof_fields : list bytes := [str "accountProof"; str "slotProof"; str "value"].

#[export] Instance StorageProofJSON_Encode : Encode StorageProofJSON := {|
  Marshal p := JObj [(str "accountProof", Marshal (spj_AccountProof p));
                     (str "slotProof", JArr (map JStr (spj_SlotProof p)));
                     (str "value", JStr (spj_Value p))] |}.

#[export] Instance StorageProofJSON_Decode : Decode StorageProofJSON := {|
  zero := mkStorageProofJSON zero [] [];
  Unmarshal p j := members p j (fun ms =>
    a ← member storage_proof_fields (str "accountProof") Unmarshal (spj_AccountProof p) ms;
    l ← member storage_proof_fields (str "slotProof") (dec_slice [] dec_string) (spj_SlotProof p) ms;
    v ← member storage_proof_fields (str "value") dec_string (spj_Value p) ms;
    Ok (mkStorageProofJSON a l v)) |}.

(** ** Hexadecimal fields *)

(** [Hash.Hex], [Address.Hex] *)
Definition Hex (b : bytes) : bytes := EncodeToString b.

Definition hexBytes (s : bytes) : result bytes :=
  let s := if (2 <=? length s)%nat
              && (bytes_eqb (take 2 s) (str "0x") || bytes_eqb (take 2 s) (str "0X"))
           then drop 2 s else s in
  if bytes_eqb s [] then Ok [] else DecodeString s.

Definition addressFromHex (s : bytes) : result Address :=
  b ← hexBytes s;
  if negb (length b =? AddrLen)%nat then Err ErrBadLength else Ok (copy_fixed AddrLen b).

Definition hashFromHex (s : bytes) : result Hash :=
  b ← hexBytes s;
  if negb (length b =? HashLen)%nat then Err ErrBadLength else Ok (copy_fixed HashLen b).

(** ** Conversions *)

Definition accountToJSON (a : Account) : AccountJSON :=
  mkAccountJSON (Balance a) (Nonce a) (Hex (CodeHash a)) (Hex (StorageRoot_ a)).

Definition proofToJSON (p : list bytes) : list bytes := map EncodeToString p.

Definition accountProofToJSON (ap : AccountProof) : AccountProofJSON :=
  mkAccountProofJSON (accountToJSON (ap_Account ap)) (proofToJSON (ap_Proof ap)).

Definition storageProofToJSON (sp : StorageProof) : StorageProofJSON :=
  mkStorageProofJSON (accountProofToJSON (sp_AccountProof sp)) (proofToJSON (sp_SlotProof sp))
    (Hex (sp_Value sp)).

Definition accountFromJSON (j : AccountJSON) : result Account :=
  codeHash ← hashFromHex (aj_CodeHash j);
  storageRoot ← hashFromHex (aj_StorageRoot j);
  Ok (mkAccount (aj_Balance j) (aj_Nonce j) codeHash storageRoot).

Fixpoint proofFromJSON (j : list bytes) : result (list bytes) :=
  match j with
  | [] => Ok []
  | s :: j' => b ← hexBytes s; out ← proofFromJSON j'; Ok (b :: out)
  end.

Definition accountProofFromJSON (j : AccountProofJSON) : result AccountProof :=
  acct ← accountFromJSON (apj_Account j);
  proof ← proofFromJSON (apj_Proof j);
  Ok (mkAccountProof acct proof).

Definition storageProofFromJSON (j : StorageProofJSON) : result StorageProof :=
  ap ← accountProofFromJSON (spj_AccountProof j);
  slotProof ← proofFromJSON (spj_SlotProof j);
  value ← hashFromHex (spj_Value j);
  Ok (mkStorageProof ap slotProof value).

Definition TxToJSON (tx : Transaction) : TxJSON :=
  let h := tx_Hash tx in
  mkTxJSON (Hex (tx_From tx)) (Hex (tx_To tx)) (tx_Value tx) (tx_Nonce tx) (tx_GasLimit tx)
    (tx_ChainID tx) (tx_GasFeeCap tx) (tx_GasTipCap tx) (EncodeToString (tx_Data tx))
    (EncodeToString (tx_Signature tx)) (Hex h).

Definition TxFromJSON (j : TxJSON) : result Transaction :=
  from ← addressFromHex (tj_From j);
  to ← addressFromHex (tj_To j);
  data ← hexBytes (tj_Data j);
  sig ← hexBytes (tj_Signature j);
  Ok (mkTx from to (tj_Value j) (tj_Nonce j) (tj_GasLimit j) (tj_ChainID j) (tj_GasFeeCap j)
        (tj_GasTipCap j) data sig).

Definition headerToJSON (h : Header) : HeaderJSON :=
  mkHeaderJSON (h_Height h) (Hex (h_PrevHash h)) (Hex (h_MerkleRoot h)) (Hex (h_StateRoot h))
    (Hex (h_Coinbase h)) (h_Timestamp h) (h_Difficulty h) (h_Nonce h) (h_BaseFee h) (h_GasUsed h)
    (EncodeToString (h_ProposerSig h)).

Definition BlockToJSON (b : Block) : BlockJSON :=
  mkBlockJSON (headerToJSON (b_Header b)) (Hex (block_Hash b)) (map TxToJSON (b_Txs b)).

Definition HeaderFromJSON (j : HeaderJSON) : result Header :=
  prevHash ← hashFromHex (hj_PrevHash j);
  merkleRoot ← hashFromHex (hj_MerkleRoot j);
  stateRoot ← hashFromHex (hj_StateRoot j);
  coinbase ← addressFromHex (hj_Coinbase j);
  proposerSig ← hexBytes (hj_ProposerSig j);
  Ok (mkHeader (hj_Height j) prevHash merkleRoot stateRoot coinbase (hj_Timestamp j)
        (hj_Difficulty j) (hj_Nonce j) (hj_BaseFee j) (hj_GasUsed j) proposerSig).

(** the loop over the transactions of [BlockFromJSON] *)
Fixpoint txs_from_json (l : list TxJSON) : result (list Transaction) :=
  match l with
  | [] => Ok []
  | j :: l' => tx ← TxFromJSON j; txs ← txs_from_json l'; Ok (tx :: txs)
  end.

Definition BlockFromJSON (j : BlockJSON) : result Block :=
  header ← HeaderFromJSON (bj_Header j);
  txs ← txs_from_json (bj_Txs j);
  Ok (mkBlock header txs).

(** ** Server *)

(** decodeParam: the [i]-th positional parameter, into a fresh variable *)
Definition decodeParam {A} `{Decode A} (params : list json) (i : nat) : result A :=
  match params !! i with
  | None => Err ErrMissingParam
  | Some j => Unmarshal zero j
  end.

#[export] Instance string_Decode : Decode bytes := {| zero := []; Unmarshal := dec_string |}.
#[export] Instance uint64_Decode : Decode Z := {| zero := 0; Unmarshal := dec_uint two64 |}.

(** a decimal string of a [uint64] or an [int64] *)
Definition dec_str (x : Z) : json := JStr (FormatUint x).
Definition int_str (x : Z) : json := JStr (FormatInt x).

Definition levelsToJSON (levels : list Level) : json :=
  JArr (map (fun lv => JObj [(str "price", int_str (i64_of (l_Price lv)));
                             (str "qty", int_str (i64_of (l_Qty lv)))]) levels).

Section Server.
Context `{HK : Secp} `{HBolt : Bolt} `{HGob : Gob}.
Context `{HE : Engine} `{HG : GethEVM} `{HB : Blst} `{HBK : !BlstKeys}.
Context `{HT : ErrorText} `{HO : OrderbookText}.

Definition orderToJSON (v : OrderView) : json :=
  JObj [(str "account", JStr (Hex (ov_Account v))); (str "height", dec_str (ov_Height v));
        (str "index", enc_uint (ov_Index v)); (str "price", int_str (i64_of (ov_Price v)));
        (str "qty", int_str (i64_of (ov_Qty v))); (str "side", JStr (Side_String (ov_Side v)))].

(** what [dispatch] returns: a value, or an error of a code *)
Inductive outcome :=
| Result (j : json)
| Failure (e : RPCError).

Definition fail (code : Z) (e : error) : outcome := Failure (mkRPCError code (Error_text e)).

(** [if err := ...; err != nil { return nil, &RPCError{codeInvalidParams, err.Error()} }] *)
Definition param {A} (r : result A) (k : A -> outcome) : outcome :=
  match r with Ok a => k a | Err e => fail codeInvalidParams e end.

Definition getChainHead (n : Node) : outcome :=
  let head := node_Head n in
  Result (JObj [(str "hash", JStr (Hex (block_Hash head)));
                (str "height", dec_str (h_Height (b_Header head)))]).

Definition getBlockByHeight (n : Node) (ps : list json) : outcome :=
  param (decodeParam ps 0) (fun height : Z =>
    match GetBlockByHeight n height with
    | None => Result JNull
    | Some b => Result (Marshal (BlockToJSON b))
    end).

Definition getBalance (n : Node) (ps : list json) : outcome :=
  param (decodeParam ps 0) (fun addrHex : bytes =>
  param (addressFromHex addrHex) (fun addr =>
    Result (JObj [(str "balance", dec_str (node_Balance n addr))]))).

Definition sendRawTx (n : Node) (ps : list json) : Node * outcome :=
  match decodeParam ps 0 with
  | Err e => (n, fail codeInvalidParams e)
  | Ok txj =>
      match TxFromJSON txj with
      | Err e => (n, fail codeInvalidParams e)
      | Ok tx =>
          match SubmitTx n tx with
          | (n, Err e) => (n, fail codeInvalidParams e)
          | (n, Ok _) => (n, Result (JObj [(str "txHash", JStr (Hex (tx_Hash tx)))]))
          end
      end
  end.

Definition getTxByHash (n : Node) (ps : list json) : outcome :=
  param (decodeParam ps 0) (fun hashHex : bytes =>
  param (hashFromHex hashHex) (fun h =>
    match GetTxByHash n h with
    | None => Result JNull
    | Some tx => Result (Marshal (TxToJSON tx))
    end)).

Definition getOrderBookDepth (n : Node) : outcome :=
  match OrderBookDepth n with
  | Err e => fail codeInternalError e
  | Ok (bids, asks) => Result (JObj [(str "asks", levelsToJSON asks); (str "bids", levelsToJSON bids)])
  end.

Definition getOrderBook (n : Node) : outcome :=
  match OrderBookSnapshot n with
  | Err e => fail codeInternalError e
  | Ok views => Result (JArr (map orderToJSON views))
  end.

Definition getLastAuction (n : Node) : outcome :=
  match node_LastAuction n with
  | None => Result JNull
  | Some (price, volume, height) =>
      Result (JObj [(str "height", dec_str height); (str "price", int_str price);
                    (str "volume", int_str volume)])
  end.

Definition getExchangeBalance (n : Node) (ps : list json) : outcome :=
  param (decodeParam ps 0) (fun addrHex : bytes =>
  param (addressFromHex addrHex) (fun addr =>
    let '(base, lockedBase, lockedQuote) := ExchangeBalance n addr in
    Result (JObj [(str "base", dec_str base); (str "lockedBase", dec_str lockedBase);
                  (str "lockedQuote", dec_str lockedQuote)]))).

Definition getAccountProof (n : Node) (ps : list json) : outcome :=
  param (decodeParam ps 0) (fun addrHex : bytes =>
  param (addressFromHex addrHex) (fun addr =>
    match node_AccountProof n addr with
    | None => Result JNull
    | Some (ap, height, root) =>
        Result (JObj [(str "height", dec_str height); (str "proof", Marshal (accountProofToJSON ap));
                      (str "stateRoot", JStr (Hex root))])
    end)).

Definition getStorageProof (n : Node) (ps : list json) : outcome :=
  param (decodeParam ps 0) (fun addrHex : bytes =>
  param (decodeParam ps 1) (fun keyHex : bytes =>
  param (addressFromHex addrHex) (fun addr =>
  param (hashFromHex keyHex) (fun key =>
    match node_StorageProof n addr key with
    | None => Result JNull
    | Some (sp, height, root) =>
        Result (JObj [(str "height", dec_str height); (str "proof", Marshal (storageProofToJSON sp));
                      (str "stateRoot", JStr (Hex root))])
    end)))).

Definition dispatch (n : Node) (req : Request) : Node * outcome :=
  let method s := bytes_eqb (rq_Method req) (str s) in
  let ps := rq_Params req in
  if method "getChainHead"%string then (n, getChainHead n)
  else if method "getBlockByHeight"%string then (n, getBlockByHeight n ps)
  else if method "getBalance"%string then (n, getBalance n ps)
  else if method "sendRawTx"%string then sendRawTx n ps
  else if method "getTxByHash"%string then (n, getTxByHash n ps)
  else if method "getOrderBookDepth"%string then (n, getOrderBookDepth n)
  else if method "getOrderBook"%string then (n, getOrderBook n)
  else if method "getLastAuction"%string then (n, getLastAuction n)
  else if method "getExchangeBalance"%string then (n, getExchangeBalance n ps)
  else if method "getAccountProof"%string then (n, getAccountProof n ps)
  else if method "getStorageProof"%string then (n, getStorageProof n ps)
  else (n, Failure (mkRPCError codeMethodNotFound (str "unknown method: " ++ rq_Method req))).

Definition writeResult (id : option json) (result : json) : json :=
  Marshal (mkResponse (str "2.0") id (Some result) None).
Definition writeErr (id : option json) (code : Z) (msg : bytes) : json :=
  Marshal (mkResponse (str "2.0") id None (Some (mkRPCError code msg))).

(** [body] is the first JSON value of the request's body, [None] when there is none *)
Definition ServeHTTP (n : Node) (httpMethod : bytes) (body : option json) : Node * json :=
  if negb (bytes_eqb httpMethod (str "POST"))
  then (n, writeErr None codeInvalidRequest (str "only POST is supported"))
  else
    match (match body with Some j => Unmarshal zero j | None => Err ErrJSON end) with
    | Err e => (n, writeErr None codeParseError (str "parse error: " ++ Error_text e))
    | Ok req =>
        match dispatch n req with
        | (n, Failure e) => (n, writeErr (rq_ID req) (re_Code e) (re_Message e))
        | (n, Result j) => (n, writeResult (rq_ID req) j)
        end
    end.

(** the exchange of a client's request with the server of node [n] *)
Definition served (n : Node) (req : json) : result json := Ok (snd (ServeHTTP n (str "POST") (Some req))).
End Server.

(** ** Client *)

Section Client.
(** [c.HTTP.Post]: a failed exchange, or a body that is not JSON, is an error *)
Variable post : json -> result json.

Definition call {A} `{Decode A} (method : bytes) (params : list json) : result A :=
  body ← post (Marshal (mkRequest (str "2.0") (Some (JNum (str "1"))) method params));
  resp ← Unmarshal zero body;
  match rs_Error resp with
  | Some e => Err (ErrRPC (re_Code e))
  | None =>
      match rs_Result resp with
      | None | Some JNull => Ok zero
      | Some j => Unmarshal zero j
      end
  end.

(** a struct of one field *)
Definition dec_one {A B} (name : bytes) (z : A) (dec : A -> json -> result A) (wrap : A -> B)
    (unwrap : B -> A) : Decode B := {|
  zero := wrap z;
  Unmarshal b j := members b j (fun ms => a ← member [name] name dec (unwrap b) ms; Ok (wrap a)) |}.

Record ChainHead := mkChainHead { ch_Height : Z; ch_Hash : bytes }.

#[export] Instance ChainHead_Decode : Decode ChainHead := {|
  zero := mkChainHead 0 [];
  Unmarshal c j := members c j (fun ms =>
    let names := [str "height"; str "hash"] in
    height ← member names (str "height") dec_uint64s (ch_Height c) ms;
    hash ← member names (str "hash") dec_string (ch_Hash c) ms;
    Ok (mkChainHead height hash)) |}.

Definition GetChainHead : result ChainHead := call (str "getChainHead") [].

(** the anonymous structs of [GetBalance] and [SendRawTx] *)
Record BalanceOut := mkBalanceOut { bo_Balance : Z }.
#[export] Instance BalanceOut_Decode : Decode BalanceOut :=
  dec_one (str "balance") 0 dec_uint64s mkBalanceOut bo_Balance.
Record TxHashOut := mkTxHashOut { to_TxHash : bytes }.
#[export] Instance TxHashOut_Decode : Decode TxHashOut :=
  dec_one (str "txHash") [] dec_string mkTxHashOut to_TxHash.

Definition GetBalance (addrHex : bytes) : result Z :=
  out ← call (str "getBalance") [JStr addrHex]; Ok (bo_Balance out).

(** a value that is absent is [None] *)
Definition client_GetBlockByHeight (height : Z) : result (option BlockJSON) :=
  b ← call (str "getBlockByHeight") [enc_uint height];
  if bytes_eqb (bj_Hash b) [] then Ok None else Ok (Some b).

Definition SendRawTx (tx : Transaction) : result bytes :=
  out ← call (str "sendRawTx") [Marshal (TxToJSON tx)]; Ok (to_TxHash out).

Definition client_GetTxByHash (hashHex : bytes) : result (option TxJSON) :=
  t ← call (str "getTxByHash") [JStr hashHex];
  if bytes_eqb (tj_Hash t) [] then Ok None else Ok (Some t).

Record LevelJSON := mkLevelJSON { lj_Price : Z; lj_Qty : Z }.
#[export] Instance LevelJSON_Decode : Decode LevelJSON := {|
  zero := mkLevelJSON 0 0;
  Unmarshal l j := members l j (fun ms =>
    let names := [str "price"; str "qty"] in
    p ← member names (str "price") dec_int64s (lj_Price l) ms;
    q ← member names (str "qty") dec_int64s (lj_Qty l) ms;
    Ok (mkLevelJSON p q)) |}.

Record DepthJSON := mkDepthJSON { dj_Bids : list LevelJSON; dj_Asks : list LevelJSON }.
#[export] Instance DepthJSON_Decode : Decode DepthJSON := {|
  zero := mkDepthJSON [] [];
  Unmarshal d j := members d j (fun ms =>
    let names := [str "bids"; str "asks"] in
    b ← member names (str "bids") (dec_slice zero Unmarshal) (dj_Bids d) ms;
    a ← member names (str "asks") (dec_slice zero Unmarshal) (dj_Asks d) ms;
    Ok (mkDepthJSON b a)) |}.

Definition GetOrderBookDepth : result DepthJSON := call (str "getOrderBookDepth") [].

Record OrderJSON := mkOrderJSON {
  oj_Height : Z;
  oj_Index : Z;
  oj_Account : bytes;
  oj_Side : bytes;
  oj_Price : Z;
  oj_Qty : Z;
}.
#[export] Instance OrderJSON_Decode : Decode OrderJSON := {|
  zero := mkOrderJSON 0 0 [] [] 0 0;
  Unmarshal o j := members o j (fun ms =>
    let names := [str "height"; str "index"; str "account"; str "side"; str "price"; str "qty"] in
    h ← member names (str "height") dec_uint64s (oj_Height o) ms;
    i ← member names (str "index") (dec_uint two32) (oj_Index o) ms;
    a ← member names (str "account") dec_string (oj_Account o) ms;
    s ← member names (str "side") dec_string (oj_Side o) ms;
    p ← member names (str "price") dec_int64s (oj_Price o) ms;
    q ← member names (str "qty") dec_int64s (oj_Qty o) ms;
    Ok (mkOrderJSON h i a s p q)) |}.
#[export] Instance orders_Decode : Decode (list OrderJSON) := {|
  zero := [];
  Unmarshal := dec_slice zero Unmarshal |}.

Definition GetOrderBook : result (list OrderJSON) := call (str "getOrderBook") [].

Record AuctionJSON := mkAuctionJSON { uj_Price : Z; uj_Volume : Z; uj_Height : Z }.
#[export] Instance AuctionJSON_Decode : Decode AuctionJSON := {|
  zero := mkAuctionJSON 0 0 0;
  Unmarshal a j := members a j (fun ms =>
    let names := [str "price"; str "volume"; str "height"] in
    p ← member names (str "price") dec_int64s (uj_Price a) ms;
    v ← member names (str "volume") dec_int64s (uj_Volume a) ms;
    h ← member names (str "height") dec_uint64s (uj_Height a) ms;
    Ok (mkAuctionJSON p v h)) |}.

Definition GetLastAuction : result (option AuctionJSON) :=
  a ← call (str "getLastAuction") [];
  if (uj_Height a =? 0) && (uj_Price a =? 0) && (uj_Volume a =? 0) then Ok None else Ok (Some a).

Record HoldingsJSON := mkHoldingsJSON { xj_Base : Z; xj_LockedBase : Z; xj_LockedQuote : Z }.
#[export] Instance HoldingsJSON_Decode : Decode HoldingsJSON := {|
  zero := mkHoldingsJSON 0 0 0;
  Unmarshal x j := members x j (fun ms =>
    let names := [str "base"; str "lockedBase"; str "lockedQuote"] in
    b ← member names (str "base") dec_uint64s (xj_Base x) ms;
    lb ← member names (str "lockedBase") dec_uint64s (xj_LockedBase x) ms;
    lq ← member names (str "lockedQuote") dec_uint64s (xj_LockedQuote x) ms;
    Ok (mkHoldingsJSON b lb lq)) |}.

Definition GetExchangeBalance (addrHex : bytes) : result HoldingsJSON :=
  call (str "getExchangeBalance") [JStr addrHex].

Definition proof_result_fields : list bytes := [str "height"; str "stateRoot"; str "proof"].

Record AccountProofResult := mkAccountProofResult {
  apr_Height : Z;
  apr_StateRoot : bytes;
  apr_Proof : AccountProofJSON;
}.
#[export] Instance AccountProofResult_Decode : Decode AccountProofResult := {|
  zero := mkAccountProofResult 0 [] zero;
  Unmarshal r j := members r j (fun ms =>
    h ← member proof_result_fields (str "height") dec_uint64s (apr_Height r) ms;
    s ← member proof_result_fields (str "stateRoot") dec_string (apr_StateRoot r) ms;
    p ← member proof_result_fields (str "proof") Unmarshal (apr_Proof r) ms;
    Ok (mkAccountProofResult h s p)) |}.

Definition GetAccountProof (addrHex : bytes) : result (option AccountProofResult) :=
  out ← call (str "getAccountProof") [JStr addrHex];
  if bytes_eqb (apr_StateRoot out) [] then Ok None else Ok (Some out).

Record StorageProofResult := mkStorageProofResult {
  spr_Height : Z;
  spr_StateRoot : bytes;
  spr_Proof : StorageProofJSON;
}.
#[export] Instance StorageProofResult_Decode : Decode StorageProofResult := {|
  zero := mkStorageProofResult 0 [] zero;
  Unmarshal r j := members r j (fun ms =>
    h ← member proof_result_fields (str "height") dec_uint64s (spr_Height r) ms;
    s ← member proof_result_fields (str "stateRoot") dec_string (spr_StateRoot r) ms;
    p ← member proof_result_fields (str "proof") Unmarshal (spr_Proof r) ms;
    Ok (mkStorageProofResult h s p)) |}.

Definition GetStorageProof (addrHex keyHex : bytes) : result (option StorageProofResult) :=
  out ← call (str "getStorageProof") [JStr addrHex; JStr keyHex];
  if bytes_eqb (spr_StateRoot out) [] then Ok None else Ok (Some out).
End Client.

(** the checks of a light client; an account and whether its proof holds *)
Definition client_VerifyAccountProof (stateRootHex addrHex : bytes) (ap : AccountProofJSON)
    : result (Account * bool) :=
  stateRoot ← hashFromHex stateRootHex;
  addr ← addressFromHex addrHex;
  proof ← accountProofFromJSON ap;
  Ok (ap_Account proof, VerifyAccountProof stateRoot addr proof).

Definition client_VerifyStorageProof (stateRootHex addrHex keyHex : bytes) (sp : StorageProofJSON)
    : result (Hash * bool) :=
  stateRoot ← hashFromHex stateRootHex;
  addr ← addressFromHex addrHex;
  key ← hashFromHex keyHex;
  proof ← storageProofFromJSON sp;
  Ok (sp_Value proof, VerifyStorageProof stateRoot addr key proof).
