(* ===== verification/RpcProps.v ===== *)
(** * Properties of the JSON-RPC layer

    What the wire forms preserve, that the server answers every request and changes the
    node only through SubmitTx, what the client's calls return when a node serves them,
    and what the checks of a light client establish about any server. *)

From Stdlib Require Import String.
From S2P Require Import Prelude Sha256 Core Pow FeeMarket TrieNode Trie StateDB Mpt MptProofs Pos StackVM Exchange.
From S2P Require Import ExchangeProps Adapter Transition TransitionTheorems Chain BlockBuilder Store.
From S2P Require Import StoreProps Node NodeProps GoStd Rpc.

(** ** Wire forms *)

(** decoding what was encoded gives the value back, into any variable *)
Class WireLaw A `{Encode A} `{Decode A} (ok : A -> Prop) :=
  decode_encode : forall a0 a, ok a -> Unmarshal a0 (Marshal a) = Ok a.

Definition txj_ok (t : TxJSON) : Prop :=
  is_u64 (tj_Value t) /\ is_u64 (tj_Nonce t) /\ is_u64 (tj_GasLimit t) /\ is_u64 (tj_ChainID t) /\
  is_u64 (tj_GasFeeCap t) /\ is_u64 (tj_GasTipCap t).
Definition hj_ok (h : HeaderJSON) : Prop :=
  is_u64 (hj_Height h) /\ is_i64 (hj_Timestamp h) /\ is_u32 (hj_Difficulty h) /\
  is_u64 (hj_Nonce h) /\ is_u64 (hj_BaseFee h) /\ is_u64 (hj_GasUsed h).
Definition bj_ok (b : BlockJSON) : Prop := hj_ok (bj_Header b) /\ Forall txj_ok (bj_Txs b).
Definition aj_ok (a : AccountJSON) : Prop := is_u64 (aj_Balance a) /\ is_u64 (aj_Nonce a).
Definition apj_ok (p : AccountProofJSON) : Prop := aj_ok (apj_Account p).
Definition spj_ok (p : StorageProofJSON) : Prop := apj_ok (spj_AccountProof p).
Definition rq_ok (r : Request) : Prop := rq_ID r <> None.
Definition re_ok (e : RPCError) : Prop := is_i64 (re_Code e).

Ltac wire_solve :=
  wire_members; cbn [dec_string];
  repeat first [ rewrite dec_enc_uint64s by done; cbn [mbind result_bind]
               | rewrite dec_enc_int by done; cbn [mbind result_bind]
               | rewrite dec_enc_uint by done; cbn [mbind result_bind] ];
  try done.

#[export] Instance TxJSON_law : WireLaw TxJSON txj_ok.
Proof.
  intros a0 a (? & ? & ? & ? & ? & ?).
  cbn [Marshal TxJSON_Encode Unmarshal TxJSON_Decode members]. wire_solve. by destruct a.
Qed.

#[export] Instance HeaderJSON_law : WireLaw HeaderJSON hj_ok.
Proof.
  intros a0 a (? & ? & ? & ? & ? & ?).
  cbn [Marshal HeaderJSON_Encode Unmarshal HeaderJSON_Decode members]. wire_solve. by destruct a.
Qed.

#[export] Instance AccountJSON_law : WireLaw AccountJSON aj_ok.
Proof.
  intros a0 a (? & ?).
  cbn [Marshal AccountJSON_Encode Unmarshal AccountJSON_Decode members]. wire_solve. by destruct a.
Qed.

#[export] Instance RPCError_law : WireLaw RPCError re_ok.
Proof.
  intros a0 a ?.
  cbn [Marshal RPCError_Encode Unmarshal RPCError_Decode members]. wire_solve. by destruct a.
Qed.

Lemma dec_slice_map {A B} (z : A) (dec : A -> json -> result A) (enc : B -> json) (f : B -> A) a0 l :
  (forall z b, b ∈ l -> dec z (enc b) = Ok (f b)) -> dec_slice z dec a0 (JArr (map enc l)) = Ok (map f l).
Proof. apply dec_elems_map. Qed.

Lemma dec_slice_id {A} (z : A) (dec : A -> json -> result A) (enc : A -> json) a0 l :
  (forall z b, b ∈ l -> dec z (enc b) = Ok b) -> dec_slice z dec a0 (JArr (map enc l)) = Ok l.
Proof. intros Hl. rewrite (dec_slice_map z dec enc id) by done. by rewrite map_id. Qed.

#[export] Instance BlockJSON_law : WireLaw BlockJSON bj_ok.
Proof.
  intros a0 a [Hh Hts].
  cbn [Marshal BlockJSON_Encode Unmarshal BlockJSON_Decode members]. wire_solve.
  rewrite (decode_encode _ (bj_Header a) Hh). cbn [mbind result_bind].
  rewrite dec_slice_id; [by destruct a|].
  intros z t Ht. apply decode_encode. by eapply Forall_forall in Hts.
Qed.

#[export] Instance AccountProofJSON_law : WireLaw AccountProofJSON apj_ok.
Proof.
  intros a0 a Ha.
  cbn [Marshal AccountProofJSON_Encode Unmarshal AccountProofJSON_Decode members]. wire_solve.
  rewrite (decode_encode _ (apj_Account a) Ha). cbn [mbind result_bind].
  rewrite dec_slice_id by done. by destruct a.
Qed.

#[export] Instance StorageProofJSON_law : WireLaw StorageProofJSON spj_ok.
Proof.
  intros a0 a Ha.
  cbn [Marshal StorageProofJSON_Encode Unmarshal StorageProofJSON_Decode members]. wire_solve.
  rewrite (decode_encode _ (spj_AccountProof a) Ha). cbn [mbind result_bind].
  rewrite dec_slice_id by done. by destruct a.
Qed.

(** an envelope carries its identifier and parameters unchanged *)
#[export] Instance Request_law : WireLaw Request rq_ok.
Proof.
  intros a0 [v [i|] m ps] Hid; [|done].
  cbn [Marshal Request_Encode Unmarshal Request_Decode members rq_JSONRPC rq_ID rq_Method rq_Params
       default]. wire_members. cbn [dec_string dec_raw mbind result_bind].
  rewrite <- (map_id ps) at 1. rewrite (dec_slice_id JNull _ id) by done. done.
Qed.

(** what a client reads in the envelope the server writes *)
Lemma Unmarshal_result id j :
  Unmarshal (zero : Response) (writeResult id j) =
  Ok (mkResponse (str "2.0") (Some (default JNull id)) (Some j) None).
Proof.
  unfold writeResult. cbn [Marshal Response_Encode Unmarshal Response_Decode members zero
    rs_JSONRPC rs_ID rs_Result rs_Error app]. wire_members. done.
Qed.

Lemma Unmarshal_error id code msg :
  is_i64 code ->
  Unmarshal (zero : Response) (writeErr id code msg) =
  Ok (mkResponse (str "2.0") (Some (default JNull id)) None (Some (mkRPCError code msg))).
Proof.
  intros Hc. unfold writeErr. cbn [Marshal Response_Encode Unmarshal Response_Decode members zero
    rs_JSONRPC rs_ID rs_Result rs_Error app]. wire_members.
  change (dec_pointer None (Marshal (mkRPCError code msg)))
    with (a ← Unmarshal (zero : RPCError) (Marshal (mkRPCError code msg)); Ok (Some a)).
  by rewrite (decode_encode (zero : RPCError) (mkRPCError code msg) Hc).
Qed.

(** ** Hexadecimal fields *)

Lemma hexBytes_Encode b : all_bytes b -> hexBytes (EncodeToString b) = Ok b.
Proof.
  intros Hb. unfold hexBytes.
  replace (_ && _) with false.
  - destruct b as [|x b]; [done|]. by apply (Decode_Encode (x :: b)).
  - symmetry. destruct Hb as [|x b Hx Hb]; [done|]. cbn [EncodeToString].
    cbn [take firstn]. apply andb_false_iff. right.
    destruct (byte_nibbles x Hx) as [_ Hl]. set (d := hex_digit (x mod 16)).
    assert (d <> 120 /\ d <> 88) as [H1 H2]
      by (unfold d, hex_digit; destruct (x mod 16 <? 10) eqn:E; lia).
    change (str "0x") with [48; 120]. change (str "0X") with [48; 88]. cbn [bytes_eqb].
    apply Z.eqb_neq in H1, H2. rewrite H1, H2. by rewrite !andb_false_r.
Qed.

Lemma addressFromHex_Hex a : addr_wf a -> addressFromHex (Hex a) = Ok a.
Proof.
  intros [Hl Hb]. unfold addressFromHex, Hex. rewrite hexBytes_Encode by done.
  cbn [mbind result_bind]. rewrite Hl, Nat.eqb_refl. cbn [negb]. by rewrite copy_fixed_id.
Qed.

Lemma hashFromHex_Hex h : hash_wf h -> hashFromHex (Hex h) = Ok h.
Proof.
  intros [Hl Hb]. unfold hashFromHex, Hex. rewrite hexBytes_Encode by done.
  cbn [mbind result_bind]. rewrite Hl, Nat.eqb_refl. cbn [negb]. by rewrite copy_fixed_id.
Qed.

Create Rewrite HintDb hex.
#[export] Hint Rewrite addressFromHex_Hex hashFromHex_Hex hexBytes_Encode using done : hex.

(** ** Conversions *)

Lemma TxFromJSON_TxToJSON tx : tx_wf tx -> TxFromJSON (TxToJSON tx) = Ok tx.
Proof.
  intros (? & ? & _ & _ & _ & _ & _ & _ & ? & ?). unfold TxFromJSON, TxToJSON.
  cbn [tj_From tj_To tj_Data tj_Signature tj_Value tj_Nonce tj_GasLimit tj_ChainID tj_GasFeeCap
       tj_GasTipCap].
  autorewrite with hex. cbn [mbind result_bind]. autorewrite with hex. by destruct tx.
Qed.

Lemma HeaderFromJSON_headerToJSON h : header_wf h -> HeaderFromJSON (headerToJSON h) = Ok h.
Proof.
  intros (? & ? & ? & ? & ? & ? & ? & ? & ? & ? & ?). unfold HeaderFromJSON, headerToJSON.
  cbn [hj_Height hj_PrevHash hj_MerkleRoot hj_StateRoot hj_Coinbase hj_Timestamp hj_Difficulty
       hj_Nonce hj_BaseFee hj_GasUsed hj_ProposerSig].
  repeat (autorewrite with hex; cbn [mbind result_bind]). by destruct h.
Qed.

Lemma txs_from_json_map l : Forall tx_wf l -> txs_from_json (map TxToJSON l) = Ok l.
Proof.
  induction 1 as [|tx l Htx Hl IH]; [done|]. cbn [map txs_from_json].
  by rewrite TxFromJSON_TxToJSON, IH.
Qed.

Definition block_wf (b : Block) : Prop := header_wf (b_Header b) /\ Forall tx_wf (b_Txs b).

Lemma BlockFromJSON_BlockToJSON b : block_wf b -> BlockFromJSON (BlockToJSON b) = Ok b.
Proof.
  intros [Hh Ht]. unfold BlockFromJSON, BlockToJSON. cbn [bj_Header bj_Txs].
  rewrite HeaderFromJSON_headerToJSON by done. cbn [mbind result_bind].
  rewrite txs_from_json_map by done. by destruct b.
Qed.

Lemma TxToJSON_ok tx : tx_wf tx -> txj_ok (TxToJSON tx).
Proof. intros (? & ? & ? & ? & ? & ? & ? & ? & ? & ?). by unfold txj_ok. Qed.

Lemma BlockToJSON_ok b : block_wf b -> bj_ok (BlockToJSON b).
Proof.
  intros [(? & ? & ? & ? & ? & ? & ? & ? & ? & ? & ?) Ht]. split; [by unfold hj_ok|].
  cbn [BlockToJSON bj_Txs]. apply Forall_map. eapply Forall_impl; [done|]. apply TxToJSON_ok.
Qed.

Lemma proofFromJSON_proofToJSON p : Forall all_bytes p -> proofFromJSON (proofToJSON p) = Ok p.
Proof.
  induction 1 as [|b p Hb Hp IH]; [done|]. cbn [proofToJSON map proofFromJSON].
  rewrite hexBytes_Encode by done. cbn [mbind result_bind]. unfold proofToJSON in IH. by rewrite IH.
Qed.

Lemma accountFromJSON_accountToJSON a : account_typed a -> accountFromJSON (accountToJSON a) = Ok a.
Proof.
  intros (? & ? & ? & ?). unfold accountFromJSON, accountToJSON.
  cbn [aj_Balance aj_Nonce aj_CodeHash aj_StorageRoot].
  repeat (autorewrite with hex; cbn [mbind result_bind]). by destruct a.
Qed.

Lemma accountProof_json ap :
  account_proof_wf ap -> accountProofFromJSON (accountProofToJSON ap) = Ok ap.
Proof.
  intros [Ha Hp]. unfold accountProofFromJSON, accountProofToJSON. cbn [apj_Account apj_Proof].
  rewrite accountFromJSON_accountToJSON by done. cbn [mbind result_bind].
  rewrite proofFromJSON_proofToJSON by done. by destruct ap.
Qed.

Lemma accountProofToJSON_ok ap : account_proof_wf ap -> apj_ok (accountProofToJSON ap).
Proof. intros [(? & ? & ? & ?) _]. done. Qed.

Definition storage_proof_wf (sp : StorageProof) : Prop :=
  account_proof_wf (sp_AccountProof sp) /\ Forall all_bytes (sp_SlotProof sp) /\ hash_wf (sp_Value sp).

Lemma storageProof_json sp :
  storage_proof_wf sp -> storageProofFromJSON (storageProofToJSON sp) = Ok sp.
Proof.
  intros (Ha & Hp & Hv). unfold storageProofFromJSON, storageProofToJSON.
  cbn [spj_AccountProof spj_SlotProof spj_Value].
  rewrite accountProof_json by done. cbn [mbind result_bind].
  rewrite proofFromJSON_proofToJSON by done. cbn [mbind result_bind].
  rewrite hashFromHex_Hex by done. by destruct sp.
Qed.

(** ** The server *)

Section Server.
Context `{HK : Secp} `{HBolt : Bolt} `{HGob : Gob}.
Context `{HE : Engine} `{HG : GethEVM} `{HB : Blst} `{HBK : !BlstKeys}.
Context `{HT : ErrorText} `{HO : OrderbookText}.

(** the codes of a request that was decoded *)
Definition dispatch_code (c : Z) : Prop :=
  c = codeMethodNotFound \/ c = codeInvalidParams \/ c = codeInternalError.

Definition outcome_ok (o : outcome) : Prop :=
  match o with Result _ => True | Failure e => dispatch_code (re_Code e) end.

Lemma fail_ok c e : dispatch_code c -> outcome_ok (fail c e).
Proof. done. Qed.

Lemma param_ok {A} (r : result A) k : (forall a, r = Ok a -> outcome_ok (k a)) -> outcome_ok (param r k).
Proof. intros Hk. destruct r; [by apply Hk|]. apply fail_ok. unfold dispatch_code. auto. Qed.

(** what [sendRawTx] does to the node *)
Lemma sendRawTx_cases n ps :
  (fst (sendRawTx n ps) = n /\ exists e, snd (sendRawTx n ps) = fail codeInvalidParams e) \/
  exists tx, SubmitTx n tx = (fst (sendRawTx n ps), Ok tt) /\
    snd (sendRawTx n ps) = Result (JObj [(str "txHash", JStr (Hex (tx_Hash tx)))]).
Proof.
  unfold sendRawTx. destruct (decodeParam ps 0) as [txj|e]; [|left; cbn [fst snd]; eauto].
  destruct (TxFromJSON txj) as [tx|e]; [|left; cbn [fst snd]; eauto].
  destruct (SubmitTx n tx) as [n' [[]|e]] eqn:E; cbn [fst snd]; [right; by exists tx|].
  left. split; [|eauto]. unfold SubmitTx in E. repeat case_match; by simplify_eq.
Qed.

(** only [sendRawTx] changes the node *)
Lemma dispatch_cases n req :
  fst (dispatch n req) = n \/
  (rq_Method req = str "sendRawTx" /\ dispatch n req = sendRawTx n (rq_Params req)).
Proof.
  unfold dispatch.
  repeat match goal with
  | |- context [bytes_eqb (rq_Method req) ?s] =>
      let E := fresh in destruct (bytes_eqb (rq_Method req) s) eqn:E;
      [first [left; reflexivity | right; split; [by apply bytes_eqb_eq in E|reflexivity]]|]
  end. by left.
Qed.

Ltac outcome :=
  repeat first
    [ exact I
    | apply fail_ok; unfold dispatch_code; by auto
    | apply param_ok; intros ? _
    | match goal with |- outcome_ok (match ?x with _ => _ end) => destruct x end
    | match goal with |- outcome_ok (let '(_, _) := ?x in _) => destruct x end ].

Lemma dispatch_ok n req : outcome_ok (snd (dispatch n req)).
Proof.
  unfold dispatch.
  repeat match goal with
  | |- context [bytes_eqb (rq_Method req) ?s] =>
      destruct (bytes_eqb (rq_Method req) s); [cbn [snd]|]
  end.
  - exact I.
  - unfold getBlockByHeight. outcome.
  - unfold getBalance. outcome.
  - destruct (sendRawTx_cases n (rq_Params req)) as [(_ & e & ->)|(tx & _ & ->)]; outcome.
  - unfold getTxByHash. outcome.
  - unfold getOrderBookDepth. outcome.
  - unfold getOrderBook. outcome.
  - unfold getLastAuction. outcome.
  - unfold getExchangeBalance. outcome.
  - unfold getAccountProof. outcome.
  - unfold getStorageProof. outcome.
  - unfold dispatch_code. by left.
Qed.

Lemma outcome_code e : outcome_ok (Failure e) -> re_ok e.
Proof. unfold re_ok. intros [->|[->| ->]]; done. Qed.

(** the request of a client, as the server decodes it *)
Definition request_of (method : bytes) (ps : list json) : Request :=
  mkRequest (str "2.0") (Some (JNum (str "1"))) method ps.

Lemma ServeHTTP_request n req :
  rq_ok req ->
  ServeHTTP n (str "POST") (Some (Marshal req)) =
  let '(n', o) := dispatch n req in
  (n', match o with
       | Result j => writeResult (rq_ID req) j
       | Failure e => writeErr (rq_ID req) (re_Code e) (re_Message e)
       end).
Proof.
  intros Hid. unfold ServeHTTP. rewrite bytes_eqb_refl. cbn [negb].
  rewrite (decode_encode (zero : Request) req Hid). by destruct (dispatch n req) as [n' []].
Qed.

(** what a client makes of a result *)
Definition read_result {A} `{Decode A} (j : json) : result A :=
  match j with JNull => Ok zero | j => Unmarshal zero j end.

(** what a call returns when node [n] serves it *)
Lemma call_served {A} `{Decode A} n method ps :
  call (A := A) (served n) method ps =
  match snd (dispatch n (request_of method ps)) with
  | Result j => read_result j
  | Failure e => Err (ErrRPC (re_Code e))
  end.
Proof.
  unfold call, served. fold (request_of method ps). rewrite ServeHTTP_request by done.
  pose proof (dispatch_ok n (request_of method ps)) as Hok.
  destruct (dispatch n (request_of method ps)) as [n' [j|e]]; cbn [snd mbind result_bind] in *.
  - rewrite Unmarshal_result. cbn [mbind result_bind rs_Error rs_Result]. by destruct j.
  - rewrite Unmarshal_error by (by apply outcome_code). done.
Qed.

(** *** One call each *)

Lemma decodeParam_string s ps : decodeParam (JStr s :: ps) 0 = Ok s.
Proof. done. Qed.

Lemma GetChainHead_served n :
  is_u64 (h_Height (b_Header (node_Head n))) ->
  GetChainHead (served n) =
  Ok (mkChainHead (h_Height (b_Header (node_Head n))) (Hex (block_Hash (node_Head n)))).
Proof.
  intros Hh. unfold GetChainHead. rewrite call_served.
  change (dispatch n _) with (n, getChainHead n). unfold getChainHead. cbn [snd].
  cbn [read_result Unmarshal ChainHead_Decode members zero ch_Height ch_Hash]. wire_members.
  unfold dec_str. fold (enc_uint64s (h_Height (b_Header (node_Head n)))).
  by rewrite dec_enc_uint64s.
Qed.

Lemma GetBalance_served n a :
  addr_wf a -> is_u64 (node_Balance n a) -> GetBalance (served n) (Hex a) = Ok (node_Balance n a).
Proof.
  intros Ha Hb. unfold GetBalance. rewrite call_served.
  change (dispatch n _) with (n, getBalance n [JStr (Hex a)]). unfold getBalance.
  rewrite decodeParam_string. cbn [param snd]. rewrite addressFromHex_Hex by done. cbn [param snd].
  cbn [read_result Unmarshal BalanceOut_Decode dec_one members zero bo_Balance]. wire_members.
  unfold dec_str. fold (enc_uint64s (node_Balance n a)). by rewrite dec_enc_uint64s.
Qed.

Lemma Hex_hash_nonempty h : hash_wf h -> bytes_eqb (Hex h) [] = false.
Proof.
  intros [Hl _]. destruct (bytes_eqb (Hex h) []) eqn:E; [|done]. apply bytes_eqb_eq in E.
  unfold Hex in E. rewrite Encode_nil in E. by subst.
Qed.

Lemma read_block (b : BlockJSON) : bj_ok b -> read_result (Marshal b) = Ok b.
Proof. intros Hb. exact (decode_encode (zero : BlockJSON) b Hb). Qed.

Lemma GetBlockByHeight_served n height :
  is_u64 height -> (forall b, GetBlockByHeight n height = Some b -> block_wf b) ->
  client_GetBlockByHeight (served n) height = Ok (BlockToJSON <$> GetBlockByHeight n height).
Proof.
  intros Hh Hb. unfold client_GetBlockByHeight. rewrite call_served.
  change (dispatch n _) with (n, getBlockByHeight n [enc_uint height]). unfold getBlockByHeight.
  replace (decodeParam (A := Z) [enc_uint height] 0) with (Ok height)
    by (symmetry; by apply dec_enc_uint).
  cbn [param snd]. destruct (GetBlockByHeight n height) as [b|] eqn:E; [|done].
  specialize (Hb b eq_refl).
  rewrite read_block by (by apply BlockToJSON_ok).
  cbn [mbind result_bind BlockToJSON bj_Hash]. by rewrite Hex_hash_nonempty by apply SumHash_wf.
Qed.

Lemma read_tx (t : TxJSON) : txj_ok t -> read_result (Marshal t) = Ok t.
Proof. intros Ht. exact (decode_encode (zero : TxJSON) t Ht). Qed.

Lemma GetTxByHash_served n h :
  hash_wf h -> (forall tx, GetTxByHash n h = Some tx -> tx_wf tx) ->
  client_GetTxByHash (served n) (Hex h) = Ok (TxToJSON <$> GetTxByHash n h).
Proof.
  intros Hh Ht. unfold client_GetTxByHash. rewrite call_served.
  change (dispatch n _) with (n, getTxByHash n [JStr (Hex h)]). unfold getTxByHash.
  rewrite decodeParam_string. cbn [param snd]. rewrite hashFromHex_Hex by done. cbn [param snd].
  destruct (GetTxByHash n h) as [tx|] eqn:E; [|done]. specialize (Ht tx eq_refl).
  rewrite read_tx by (by apply TxToJSON_ok).
  cbn [mbind result_bind TxToJSON tj_Hash]. by rewrite Hex_hash_nonempty by apply SumHash_wf.
Qed.

Lemma GetAccountProof_served n a :
  addr_wf a ->
  (forall ap h root, node_AccountProof n a = Some (ap, h, root) ->
     account_proof_wf ap /\ is_u64 h /\ hash_wf root) ->
  GetAccountProof (served n) (Hex a) =
  Ok ((fun '(ap, h, root) => mkAccountProofResult h (Hex root) (accountProofToJSON ap))
        <$> node_AccountProof n a).
Proof.
  intros Ha Hp. unfold GetAccountProof. rewrite call_served.
  change (dispatch n _) with (n, getAccountProof n [JStr (Hex a)]). unfold getAccountProof.
  rewrite decodeParam_string. cbn [param snd]. rewrite addressFromHex_Hex by done. cbn [param snd].
  destruct (node_AccountProof n a) as [[[ap h] root]|] eqn:E; [|done].
  destruct (Hp _ _ _ eq_refl) as (Hap & Hh & Hr).
  cbn [read_result Unmarshal AccountProofResult_Decode members zero apr_Height apr_StateRoot apr_Proof].
  wire_members. unfold dec_str. fold (enc_uint64s h).
  rewrite dec_enc_uint64s by done. cbn [mbind result_bind dec_string].
  rewrite (decode_encode _ (accountProofToJSON ap)) by (by apply accountProofToJSON_ok).
  cbn [mbind result_bind apr_StateRoot]. by rewrite Hex_hash_nonempty.
Qed.

(** [found] is false exactly when the node has no auction, or reports one of zeros *)
Lemma GetLastAuction_served n p v h :
  node_LastAuction n = Some (p, v, h) -> is_i64 p -> is_i64 v -> is_u64 h ->
  GetLastAuction (served n) =
  Ok (if (h =? 0) && (p =? 0) && (v =? 0) then None else Some (mkAuctionJSON p v h)).
Proof.
  intros E Hp Hv Hh. unfold GetLastAuction. rewrite call_served.
  change (dispatch n _) with (n, getLastAuction n). unfold getLastAuction. rewrite E. cbn [snd].
  cbn [read_result Unmarshal AuctionJSON_Decode members zero uj_Price uj_Volume uj_Height]. wire_members.
  unfold dec_str, int_str. fold (enc_uint64s h).
  rewrite !dec_enc_int64s by done. cbn [mbind result_bind]. rewrite dec_enc_uint64s by done. cbn [mbind result_bind uj_Price uj_Volume uj_Height].
  by destruct (_ && _).
Qed.

Lemma i64_of_range x : is_i64 (i64_of x).
Proof.
  unfold i64_of. pose proof (u64_range x). unfold two63, two64 in *.
  destruct (Z.ltb_spec (u64 x) 9223372036854775808); lia.
Qed.

Definition level_json (l : Level) : LevelJSON := mkLevelJSON (i64_of (l_Price l)) (i64_of (l_Qty l)).

Lemma dec_levels a0 levels :
  dec_slice (zero : LevelJSON) Unmarshal a0 (levelsToJSON levels) = Ok (map level_json levels).
Proof.
  unfold levelsToJSON. apply dec_slice_map. intros z l _.
  cbn [Unmarshal LevelJSON_Decode members zero lj_Price lj_Qty]. wire_members. unfold int_str.
  rewrite !dec_enc_int64s by apply i64_of_range. done.
Qed.

Lemma GetOrderBookDepth_served n :
  GetOrderBookDepth (served n) =
  match OrderBookDepth n with
  | Ok (bids, asks) => Ok (mkDepthJSON (map level_json bids) (map level_json asks))
  | Err _ => Err (ErrRPC codeInternalError)
  end.
Proof.
  unfold GetOrderBookDepth. rewrite call_served.
  change (dispatch n _) with (n, getOrderBookDepth n). unfold getOrderBookDepth. cbn [snd].
  destruct (OrderBookDepth n) as [[bids asks]|e]; [|done].
  cbn [read_result Unmarshal DepthJSON_Decode members zero dj_Bids dj_Asks]. wire_members.
  rewrite !dec_levels. done.
Qed.

Definition order_json (v : OrderView) : OrderJSON :=
  mkOrderJSON (ov_Height v) (ov_Index v) (Hex (ov_Account v)) (Side_String (ov_Side v))
    (i64_of (ov_Price v)) (i64_of (ov_Qty v)).

Lemma GetOrderBook_served n views :
  OrderBookSnapshot n = Ok views ->
  Forall (fun v => is_u64 (ov_Height v) /\ is_u32 (ov_Index v)) views ->
  GetOrderBook (served n) = Ok (map order_json views).
Proof.
  intros E Hv. unfold GetOrderBook. rewrite call_served.
  change (dispatch n _) with (n, getOrderBook n). unfold getOrderBook. rewrite E. cbn [snd].
  apply dec_slice_map. intros z v Hin. eapply Forall_forall in Hv as [Hh Hi]; [|done].
  unfold orderToJSON.
  cbn [Unmarshal OrderJSON_Decode members zero oj_Height oj_Index oj_Account oj_Side oj_Price oj_Qty].
  wire_members. unfold dec_str, int_str. fold (enc_uint64s (ov_Height v)).
  rewrite dec_enc_uint64s, dec_enc_uint, !dec_enc_int64s by (done || apply i64_of_range). done.
Qed.

Lemma GetExchangeBalance_served n a base lockedBase lockedQuote :
  addr_wf a -> ExchangeBalance n a = (base, lockedBase, lockedQuote) ->
  is_u64 base -> is_u64 lockedBase -> is_u64 lockedQuote ->
  GetExchangeBalance (served n) (Hex a) = Ok (mkHoldingsJSON base lockedBase lockedQuote).
Proof.
  intros Ha E Hb Hlb Hlq. unfold GetExchangeBalance. rewrite call_served.
  change (dispatch n _) with (n, getExchangeBalance n [JStr (Hex a)]). unfold getExchangeBalance.
  rewrite decodeParam_string. cbn [param snd]. rewrite addressFromHex_Hex by done. cbn [param snd].
  rewrite E. cbn [read_result Unmarshal HoldingsJSON_Decode members zero xj_Base xj_LockedBase xj_LockedQuote].
  wire_members. unfold dec_str. fold (enc_uint64s base) (enc_uint64s lockedBase) (enc_uint64s lockedQuote).
  rewrite !dec_enc_uint64s by done. done.
Qed.

Lemma GetStorageProof_served n a k :
  addr_wf a -> hash_wf k ->
  (forall sp h root, node_StorageProof n a k = Some (sp, h, root) ->
     storage_proof_wf sp /\ is_u64 h /\ hash_wf root) ->
  GetStorageProof (served n) (Hex a) (Hex k) =
  Ok ((fun '(sp, h, root) => mkStorageProofResult h (Hex root) (storageProofToJSON sp))
        <$> node_StorageProof n a k).
Proof.
  intros Ha Hk Hp. unfold GetStorageProof. rewrite call_served.
  change (dispatch n _) with (n, getStorageProof n [JStr (Hex a); JStr (Hex k)]).
  unfold getStorageProof. rewrite decodeParam_string. cbn [param snd].
  change (decodeParam (A := bytes) [JStr (Hex a); JStr (Hex k)] 1) with (Ok (Hex k)). cbn [param snd].
  rewrite addressFromHex_Hex by done. cbn [param snd]. rewrite hashFromHex_Hex by done. cbn [param snd].
  destruct (node_StorageProof n a k) as [[[sp h] root]|] eqn:E; [|done].
  destruct (Hp _ _ _ eq_refl) as (Hsp & Hh & Hr).
  cbn [read_result Unmarshal StorageProofResult_Decode members zero spr_Height spr_StateRoot spr_Proof].
  wire_members. unfold dec_str. fold (enc_uint64s h).
  rewrite dec_enc_uint64s by done. cbn [mbind result_bind dec_string].
  rewrite (decode_encode _ (storageProofToJSON sp))
    by (destruct Hsp as (? & _); by apply accountProofToJSON_ok).
  cbn [mbind result_bind spr_StateRoot]. by rewrite Hex_hash_nonempty.
Qed.

Lemma SendRawTx_dispatch n tx :
  tx_wf tx ->
  dispatch n (request_of (str "sendRawTx") [Marshal (TxToJSON tx)]) =
  match SubmitTx n tx with
  | (n, Err e) => (n, fail codeInvalidParams e)
  | (n, Ok _) => (n, Result (JObj [(str "txHash", JStr (Hex (tx_Hash tx)))]))
  end.
Proof.
  intros Htx. change (dispatch n _) with (sendRawTx n [Marshal (TxToJSON tx)]). unfold sendRawTx.
  replace (decodeParam (A := TxJSON) [Marshal (TxToJSON tx)] 0) with (Ok (TxToJSON tx))
    by (symmetry; apply decode_encode; by apply TxToJSON_ok).
  by rewrite TxFromJSON_TxToJSON.
Qed.

Lemma SendRawTx_served n tx :
  tx_wf tx ->
  SendRawTx (served n) tx =
  match snd (SubmitTx n tx) with
  | Ok _ => Ok (Hex (tx_Hash tx))
  | Err _ => Err (ErrRPC codeInvalidParams)
  end.
Proof.
  intros Htx. unfold SendRawTx. rewrite call_served, SendRawTx_dispatch by done.
  destruct (SubmitTx n tx) as [n' [[]|e]]; [|done]. cbn [snd].
  cbn [read_result Unmarshal TxHashOut_Decode dec_one members zero to_TxHash]. wire_members. done.
Qed.
End Server.

(** ** What the layer guarantees *)

(** C14: blocks survive the wire.  A block written with [BlockToJSON], encoded, decoded into
    any variable and read back with [BlockFromJSON] is the block itself, whatever its
    transactions, consensus fields and signatures; so the reader recomputes the same
    block hash, and it is the one the wire form names. *)
Theorem wire_block_roundtrip b b0 :
  block_wf b ->
  exists j, Unmarshal b0 (Marshal (BlockToJSON b)) = Ok j /\ BlockFromJSON j = Ok b /\
    bj_Hash j = Hex (block_Hash b) /\ map tj_Hash (bj_Txs j) = map (fun tx => Hex (tx_Hash tx)) (b_Txs b).
Proof.
  intros Hb. exists (BlockToJSON b). split_and!.
  - apply decode_encode. by apply BlockToJSON_ok.
  - by apply BlockFromJSON_BlockToJSON.
  - done.
  - cbn [BlockToJSON bj_Txs]. rewrite map_map. done.
Qed.

Definition wire_block : Block :=
  mkBlock (mkHeader 3 (replicate 32 171) zero_hash (replicate 32 255) (replicate 20 7) (-5) 12
             18446744073709551615 7 21000 [1; 2; 3])
    [mkTx (replicate 20 1) zero_addr 5 0 0 1337 0 0 [] (replicate 65 9)].

Lemma wire_block_wf : block_wf wire_block.
Proof.
  assert (R : forall n x, is_byte x -> all_bytes (replicate n x))
    by (intros; by apply Forall_replicate).
  split; [|constructor; [|constructor]]; unfold header_wf, tx_wf, hash_wf, addr_wf; split_and!;
    try done; try apply R; unfold is_byte; try lia.
  cbn. repeat constructor; lia.
Qed.

Lemma wire_block_roundtrip_witness :
  exists j, Unmarshal (zero : BlockJSON) (Marshal (BlockToJSON wire_block)) = Ok j /\
    BlockFromJSON j = Ok wire_block.
Proof.
  destruct (wire_block_roundtrip wire_block zero wire_block_wf) as (j & P & Q & _).
  exists j. exact (conj P Q).
Defined.

(** C32: every request is answered, and a request changes the node only by submitting a
    transaction.  Whatever the HTTP method and body, the reply is a response envelope
    that echoes the request's identifier and holds a result or an error of one of the
    five codes, never both; and the node after it is the node before, or the node
    after an accepted SubmitTx of a POST. *)
Theorem ServeHTTP_answers `{Secp} `{Bolt} `{Gob} `{Engine} `{GethEVM} `{Blst} `{!BlstKeys}
    `{ErrorText} `{OrderbookText} n m body :
  let '(n', j) := ServeHTTP n m body in
  (exists resp, Unmarshal zero j = Ok resp /\ rs_JSONRPC resp = str "2.0" /\
     (forall b req, m = str "POST" -> body = Some b -> Unmarshal zero b = Ok req ->
        rs_ID resp = Some (default JNull (rq_ID req))) /\
     match rs_Result resp, rs_Error resp with
     | Some _, None => True
     | None, Some e => re_Code e ∈ [codeParseError; codeInvalidRequest; codeMethodNotFound;
                                    codeInvalidParams; codeInternalError]
     | _, _ => False
     end) /\
  (n' = n \/ (m = str "POST" /\ exists tx, SubmitTx n tx = (n', Ok tt))).
Proof.
  unfold ServeHTTP. destruct (bytes_eqb m (str "POST")) eqn:Em; cbn [negb].
  2: { split; [|by left]. eexists. split; [by apply Unmarshal_error|]. split_and!; [done| |elem].
       intros b req -> _ _. by rewrite bytes_eqb_refl in Em. }
  apply bytes_eqb_eq in Em. destruct body as [b|].
  2: { split; [|by left]. eexists. split; [by apply Unmarshal_error|]. split_and!; [done..|elem]. }
  destruct (Unmarshal (zero : Request) b) as [req|e] eqn:Eb.
  2: { split; [|by left]. eexists. split; [by apply Unmarshal_error|]. split_and!; [done| |elem].
       intros b' req _ [= <-]. by rewrite Eb. }
  pose proof (dispatch_ok n req) as Hok. pose proof (dispatch_cases n req) as Hc.
  destruct (dispatch n req) as [n' o] eqn:Ed. cbn [snd fst] in *.
  assert (n' = n \/ (m = str "POST" /\ exists tx, SubmitTx n tx = (n', Ok tt))) as Hn.
  { destruct Hc as [->|[_ Es]]; [by left|].
    destruct (sendRawTx_cases n (rq_Params req)) as [[Hn _]|(tx & Hs & _)];
      rewrite <- Es in *; cbn [fst] in *; [by left|right; eauto]. }
  destruct o as [j|e]; (split; [|exact Hn]); eexists.
  - split; [apply Unmarshal_result|]. split_and!; [done| |done]. intros b' r _ [= <-] Er. rewrite Eb in Er. by simplify_eq.
  - split; [apply Unmarshal_error; by apply outcome_code|]. split_and!; [done| |].
    + intros b' r _ [= <-] Er. rewrite Eb in Er. by simplify_eq.
    + destruct Hok as [->|[->| ->]]; elem.
Qed.

(** C15: submitting over the wire is submitting.  [Client.SendRawTx] to a node leaves that
    node exactly as [SubmitTx] would, returns the transaction's hash when it is
    admitted and the invalid-parameters error when it is not. *)
Theorem SendRawTx_submits `{Secp} `{Bolt} `{Gob} `{Engine} `{GethEVM} `{Blst} `{!BlstKeys}
    `{ErrorText} `{OrderbookText} n tx :
  tx_wf tx ->
  fst (ServeHTTP n (str "POST")
         (Some (Marshal (request_of (str "sendRawTx") [Marshal (TxToJSON tx)])))) = fst (SubmitTx n tx) /\
  SendRawTx (served n) tx =
  match snd (SubmitTx n tx) with
  | Ok _ => Ok (Hex (tx_Hash tx))
  | Err _ => Err (ErrRPC codeInvalidParams)
  end.
Proof.
  intros Htx. split; [|by apply SendRawTx_served].
  rewrite ServeHTTP_request by done. rewrite SendRawTx_dispatch by done.
  by destruct (SubmitTx n tx) as [n' []].
Qed.

(** The client reads what the node holds.  Served by a node, a balance query returns the
    node's balance; a block query returns a form that reads back as the canonical block
    at that height, and nothing exactly when there is none; a transaction query
    likewise; and the aggregated book is the node's, bids and asks in order. *)
Theorem client_reads_node `{Secp} `{Bolt} `{Gob} `{Engine} `{GethEVM} `{Blst} `{!BlstKeys}
    `{ErrorText} `{OrderbookText} n a height h :
  addr_wf a -> is_u64 (node_Balance n a) -> is_u64 height -> hash_wf h ->
  (forall b, GetBlockByHeight n height = Some b -> block_wf b) ->
  (forall tx, GetTxByHash n h = Some tx -> tx_wf tx) ->
  GetBalance (served n) (Hex a) = Ok (node_Balance n a) /\
  (exists ob, client_GetBlockByHeight (served n) height = Ok ob /\
     match ob with
     | Some j => exists b, GetBlockByHeight n height = Some b /\ BlockFromJSON j = Ok b
     | None => GetBlockByHeight n height = None
     end) /\
  (exists ot, client_GetTxByHash (served n) (Hex h) = Ok ot /\
     match ot with
     | Some j => exists tx, GetTxByHash n h = Some tx /\ TxFromJSON j = Ok tx
     | None => GetTxByHash n h = None
     end) /\
  GetOrderBookDepth (served n) =
  match OrderBookDepth n with
  | Ok (bids, asks) => Ok (mkDepthJSON (map level_json bids) (map level_json asks))
  | Err _ => Err (ErrRPC codeInternalError)
  end.
Proof.
  intros Ha Hbal Hht Hh Hb Ht. split_and!.
  - by apply GetBalance_served.
  - exists (BlockToJSON <$> GetBlockByHeight n height). split; [by apply GetBlockByHeight_served|].
    destruct (GetBlockByHeight n height) as [b|]; [|done]. exists b. split; [done|].
    by apply BlockFromJSON_BlockToJSON, Hb.
  - exists (TxToJSON <$> GetTxByHash n h). split; [by apply GetTxByHash_served|].
    destruct (GetTxByHash n h) as [tx|]; [|done]. exists tx. split; [done|].
    by apply TxFromJSON_TxToJSON, Ht.
  - apply GetOrderBookDepth_served.
Qed.

(** ** Examples *)

#[local] Existing Instance toy_secp.
#[local] Existing Instance toy_bolt.
#[local] Existing Instance toy_gob.
#[local] Existing Instance toy_engine.
#[local] Existing Instance toy_evm.
#[local] Existing Instance toy_blst.
#[local] Existing Instance toy_blst_keys.
Definition toy_error_text : ErrorText := {| Error_text _ := str "error" |}.
Definition toy_side_text : OrderbookText :=
  {| Side_String s := match s with Buy => str "buy" | Sell => str "sell" end |}.
#[local] Existing Instance toy_error_text.
#[local] Existing Instance toy_side_text.

Definition signed_payment : Transaction := Eval vm_compute in pay_bob 1337 0.

Lemma SendRawTx_submits_witness :
  SendRawTx (served sample_node) signed_payment =
  match snd (SubmitTx sample_node signed_payment) with
  | Ok _ => Ok (Hex (tx_Hash signed_payment))
  | Err _ => Err (ErrRPC codeInvalidParams)
  end.
Proof.
  destruct (SendRawTx_submits sample_node signed_payment) as [_ P]; [|exact P].
  unfold signed_payment. tx_wf_tac.
Defined.

Lemma client_reads_node_witness :
  GetBalance (served sample_node) (Hex bob) = Ok (node_Balance sample_node bob).
Proof.
  destruct (client_reads_node sample_node bob 0 zero_hash) as [P _]; [..|exact P].
  - split; [done|]. apply Forall_replicate. unfold is_byte. lia.
  - split; vm_compute; [intros [=]|reflexivity].
  - done.
  - apply zero_hash_wf.
  - intros b Hb. vm_compute in Hb. injection Hb as <-.
    split; [|constructor]. unfold header_wf, hash_wf, addr_wf.
    split_and!; try done; repeat constructor; lia.
  - intros tx Htx. vm_compute in Htx. discriminate Htx.
Defined.
