(* ===== verification/Cli.v ===== *)
(** * The command line

    Models cmd/l1/main.go: the commands [wallet], [balance], [send] and [node], with the
    values the flags parse to as records, what is printed as [output], and the HTTP
    exchanges of a client as a function of their number.  Of [node]: the configuration it
    builds, the addresses it is given and the body of its loop; its start is in
    [Discovery]. *)

From Stdlib Require Import String.
From S2P Require Import Prelude Sha256 Core Pow FeeMarket StateDB Mpt Pos StackVM Exchange.
From S2P Require Import Adapter Transition Chain BlockBuilder Store Node P2P GoStd Rpc.

(** ** Keys as bytes *)

(** [secp.PrivKeyFromBytes], [priv.Serialize] *)
Class SecpBytes `{Secp} := {
  PrivKeyFromBytes : bytes -> PrivKey;
  PrivKey_Serialize : PrivKey -> bytes;
}.

(** [new(blst.SecretKey).Deserialize], [sk.Serialize] *)
Class BlstBytes `{BlstKeys} := {
  SecretKey_Deserialize : bytes -> option SecretKey;
  SecretKey_Serialize : SecretKey -> bytes;
}.

Definition wallet_KeyFromBytes `{SecpBytes} (b : bytes) : PrivKey := PrivKeyFromBytes b.
Definition wallet_Bytes `{SecpBytes} (k : PrivKey) : bytes := PrivKey_Serialize k.

Definition pos_KeyFromBytes `{BlstBytes} (b : bytes) : result SecretKey :=
  match SecretKey_Deserialize b with Some sk => Ok sk | None => Err ErrBadSecretKey end.
Definition pos_Bytes `{BlstBytes} (k : SecretKey) : bytes := SecretKey_Serialize k.

(** [hex.DecodeString(strings.TrimPrefix(s, "0x"))] *)
Definition flag_bytes (s : bytes) : result bytes := DecodeString (TrimPrefix s (str "0x")).

(** ** Specifications of accounts and validators *)

Definition parseAddress (s : bytes) : result Address :=
  b ← flag_bytes s;
  if negb (length b =? AddrLen)%nat then Err ErrBadLength else Ok (copy_fixed AddrLen b).

(** one entry of [parseAlloc], trimmed and not empty *)
Definition alloc_entry (part : bytes) : result (Address * Z) :=
  match SplitN part colon 2 with
  | [k; v] =>
      addr ← parseAddress (TrimSpace k);
      amt ← ParseUint (TrimSpace v);
      Ok (addr, amt)
  | _ => Err ErrBadEntry
  end.

Fixpoint alloc_loop (alloc : gmap Address Z) (parts : list bytes) : result (gmap Address Z) :=
  match parts with
  | [] => Ok alloc
  | part :: rest =>
      let part := TrimSpace part in
      if bytes_eqb part [] then alloc_loop alloc rest
      else
        '(addr, amt) ← alloc_entry part;
        alloc_loop (<[addr := amt]> alloc) rest
  end.

Definition parseAlloc (spec : bytes) : result (gmap Address Z) :=
  let spec := TrimSpace spec in
  if bytes_eqb spec [] then Ok ∅ else alloc_loop ∅ (Split spec comma).

Definition validator_entry (part : bytes) : result ValidatorInfo :=
  match SplitN part colon 3 with
  | [a; p; s] =>
      addr ← parseAddress (TrimSpace a);
      pubKey ← flag_bytes (TrimSpace p);
      stake ← ParseUint (TrimSpace s);
      Ok (mkValidator addr pubKey stake)
  | _ => Err ErrBadEntry
  end.

Fixpoint validators_loop (parts : list bytes) : result (list ValidatorInfo) :=
  match parts with
  | [] => Ok []
  | part :: rest =>
      let part := TrimSpace part in
      if bytes_eqb part [] then validators_loop rest
      else
        v ← validator_entry part;
        out ← validators_loop rest;
        Ok (v :: out)
  end.

Definition parseValidators (spec : bytes) : result (list ValidatorInfo) :=
  let spec := TrimSpace spec in
  if bytes_eqb spec [] then Ok [] else validators_loop (Split spec comma).

Definition parse_consensus (spec : bytes) : result Mode :=
  let s := ToLower (TrimSpace spec) in
  if bytes_eqb s [] || bytes_eqb s (str "pow") then Ok PoW
  else if bytes_eqb s (str "pos") then Ok PoS
  else Err ErrBadConsensus.

(** the startup peers, and the DHT's bootstrap peers *)
Definition split_addrs (spec : bytes) : list bytes :=
  List.filter (fun a => negb (bytes_eqb a [])) (map TrimSpace (Split spec comma)).

(** ** The client's commands *)

(** what a command prints *)
Inductive output :=
| PrintWallet (key addr : bytes)
| PrintBalance (b : Z)
| PrintUntouched
| PrintVerified (b height : Z) (stateRoot : bytes)
| PrintTxHash (h : bytes).

(** the [i]-th exchange of the command with the server at its URL *)
Abbreviation server := (nat -> json -> result json) (only parsing).

Definition cmdBalanceVerify (post : server) (addrHex : bytes) : result output :=
  found ← GetAccountProof (post 0%nat) addrHex;
  match found with
  | None => Ok PrintUntouched
  | Some res =>
      blk ← client_GetBlockByHeight (post 1%nat) (apr_Height res);
      match blk with
      | None => Err ErrBlockMissing
      | Some blk =>
          header ← HeaderFromJSON (bj_Header blk);
          if negb (bytes_eqb (Hex (h_StateRoot header)) (apr_StateRoot res))
          then Err ErrStateRootMismatch
          else if negb (MeetsTarget (header_Hash header) (h_Difficulty header)) then Err ErrHeaderPoW
          else
            '(acct, ok) ← client_VerifyAccountProof (apr_StateRoot res) addrHex (apr_Proof res);
            if negb ok then Err ErrProofRejected
            else Ok (PrintVerified (Balance acct) (apr_Height res) (apr_StateRoot res))
      end
  end.

Record BalanceFlags := mkBalanceFlags { bf_addr : bytes; bf_verify : bool }.

Definition cmdBalance (post : server) (fl : BalanceFlags) : result output :=
  if bytes_eqb (bf_addr fl) [] then Err ErrFlagRequired
  else if negb (bf_verify fl) then bal ← GetBalance (post 0%nat) (bf_addr fl); Ok (PrintBalance bal)
  else cmdBalanceVerify post (bf_addr fl).

Record SendFlags := mkSendFlags {
  sf_key : bytes;
  sf_to : bytes;
  sf_value : Z;
  sf_nonce : Z;  (* int64, -1 when the flag is absent *)
  sf_maxFee : Z;
  sf_maxPriorityFee : Z;
}.

Section Wallet.
Context `{HK : Secp} `{HKB : !SecpBytes}.

(** [key] is what [wallet.NewKey] generates *)
Definition cmdWallet (args : list bytes) (key : result PrivKey) : result output :=
  match args with
  | a :: _ =>
      if negb (bytes_eqb a (str "new")) then Err ErrUsage
      else
        k ← key;
        Ok (PrintWallet (EncodeToString (wallet_Bytes k)) (Hex (Key_Address k)))
  | [] => Err ErrUsage
  end.

(** the transaction of [cmdSend], signed *)
Definition send_tx (fl : SendFlags) : result Transaction :=
  if bytes_eqb (sf_key fl) [] || bytes_eqb (sf_to fl) [] then Err ErrFlagRequired
  else
    keyBytes ← flag_bytes (sf_key fl);
    let key := wallet_KeyFromBytes keyBytes in
    toAddr ← parseAddress (sf_to fl);
    let txNonce := if 0 <=? sf_nonce fl then u64 (sf_nonce fl) else 0 in
    Ok (Key_Sign key (mkTx zero_addr toAddr (sf_value fl) txNonce 21000 DefaultChainID (sf_maxFee fl)
                        (sf_maxPriorityFee fl) [] [])).

Definition cmdSend (post : server) (fl : SendFlags) : result output :=
  tx ← send_tx fl;
  txHash ← SendRawTx (post 0%nat) tx;
  Ok (PrintTxHash txHash).
End Wallet.

(** ** The node *)

Record NodeFlags := mkNodeFlags {
  nf_minerKey : bytes;
  nf_difficulty : Z;  (* uint *)
  nf_alloc : bytes;
  nf_baseAlloc : bytes;
  nf_peers : bytes;
  nf_genesisTimestamp : Z;
  nf_consensus : bytes;
  nf_validators : bytes;
  nf_validatorBLSKey : bytes;
}.

Section NodeCommand.
Context `{HK : Secp} `{HKB : !SecpBytes} `{HBolt : Bolt} `{HGob : Gob} `{HGobTx : GobTx}.
Context `{HE : Engine} `{HG : GethEVM} `{HB : Blst} `{HBK : !BlstKeys} `{HBB : !BlstBytes}.
Context `{HT : ErrorText} `{HO : OrderbookText}.

(** [newKey] and [newBLS] are what the generators return when a key is not given *)
Definition miner_key (fl : NodeFlags) (newKey : result PrivKey) : result PrivKey :=
  if negb (bytes_eqb (nf_minerKey fl) []) then
    b ← flag_bytes (nf_minerKey fl); Ok (wallet_KeyFromBytes b)
  else newKey.

Definition validator_key (fl : NodeFlags) (mode : Mode) (newBLS : result SecretKey)
    : result (option SecretKey) :=
  if bool_decide (mode = PoS) then
    if negb (bytes_eqb (nf_validatorBLSKey fl) []) then
      b ← flag_bytes (nf_validatorBLSKey fl);
      k ← pos_KeyFromBytes b; Ok (Some k)
    else k ← newBLS; Ok (Some k)
  else Ok None.

Definition node_config (fl : NodeFlags) (newKey : result PrivKey) (newBLS : result SecretKey)
    : result Config :=
  minerKey ← miner_key fl newKey;
  alloc ← parseAlloc (nf_alloc fl);
  baseAlloc ← parseAlloc (nf_baseAlloc fl);
  mode ← parse_consensus (nf_consensus fl);
  validators ← parseValidators (nf_validators fl);
  validatorKey ← validator_key fl mode newBLS;
  Ok (mkConfig minerKey (u32 (nf_difficulty fl)) alloc baseAlloc (nf_genesisTimestamp fl) 0 0 mode
        validators validatorKey).

(** the node [cmdNode] runs *)
Definition start_node (fl : NodeFlags) (newKey : result PrivKey) (newBLS : result SecretKey)
    (opened : option DB) (now : Z) : result Node :=
  cfg ← node_config fl newKey newBLS;
  New_node cfg opened now.

(** one tick of the loop: the node, and what it published *)
Definition tick (fuel : nat) (mode : Mode) (n : Node) (now : Z) : Node * list bytes :=
  if bool_decide (mode = PoS) then
    let '(n, r) := ProposeBlock n now in
    let sent := match r with Ok blk => AnnounceBlock blk | Err _ => [] end in
    let '(n, _) := MaybeAttest n in
    (n, sent)
  else
    match MineBlock fuel n now with
    | (n, Err _) => (n, [])
    | (n, Ok blk) => (n, AnnounceBlock blk)
    end.

(** what happens to a running process: a tick, an HTTP request, a message or stream *)
Inductive event :=
| ETick (now : Z)
| EHTTP (httpMethod : bytes) (body : option json)
| EBlockMsg (data : bytes) (own from_peer : bool)
| ETxMsg (data : bytes) (own : bool)
| ESyncItem (i : nat) (item : option stream_item)
| EServeOpen (start : Z)
| EServeClose.

Definition with_node (p : P2P) (n : Node) : P2P := mkP2P n (p_syncs p) (p_inbound p).

Definition process (fuel : nat) (mode : Mode) (p : P2P) (e : event) : P2P * list bytes :=
  match e with
  | ETick now => let '(n, sent) := tick fuel mode (p_node p) now in (with_node p n, sent)
  | EHTTP m body => (with_node p (fst (ServeHTTP (p_node p) m body)), [])
  | EBlockMsg data own from_peer => (readBlock p data own from_peer, [])
  | ETxMsg data own => (readTx p data own, [])
  | ESyncItem i item => (sync_recv p i item, [])
  | EServeOpen start => (fst (serve_open p start), [])
  | EServeClose => (serve_close p, [])
  end.

(** a run: the process after a sequence of events, and everything it published *)
Fixpoint run (fuel : nat) (mode : Mode) (p : P2P) (es : list event) : P2P * list bytes :=
  match es with
  | [] => (p, [])
  | e :: es' =>
      let '(p, sent) := process fuel mode p e in
      let '(p, sent') := run fuel mode p es' in
      (p, sent ++ sent')
  end.
End NodeCommand.

(** ** Commands *)

Inductive command := CmdWallet | CmdBalance | CmdSend | CmdNode | CmdHelp | CmdUnknown.

(** [main]'s choice by [os.Args[1]]; [None] when there is no argument *)
Definition main_command (args : list bytes) : option command :=
  match args with
  | _ :: c :: _ =>
      let named s := bytes_eqb c (str s) in
      Some (if named "wallet"%string then CmdWallet
            else if named "balance"%string then CmdBalance
            else if named "send"%string then CmdSend
            else if named "node"%string then CmdNode
            else if named "-h"%string || named "--help"%string || named "help"%string then CmdHelp
            else CmdUnknown)
  | _ => None
  end.

(** the exit status, from how the command ended *)
Definition exit_status (c : option command) (failed : bool) : Z :=
  match c with
  | None | Some CmdUnknown => 2
  | Some CmdHelp => 0
  | Some _ => if failed then 1 else 0
  end.
