(* ===== verification/CliProps.v ===== *)
(** * Properties of the command line

    What [balance --verify] establishes about any server and prints for an honest one,
    what [send] submits, how the genesis specifications parse, and the invariant of a
    running process under ticks, requests and messages in any order. *)

From Stdlib Require Import String.
From S2P Require Import Prelude Sha256 Core Pow FeeMarket TrieNode Trie TrieTree TrieRefine TrieProps.
From S2P Require Import StateDB Mpt MptProofs Pos StackVM Exchange ExchangeProps Adapter Transition.
From S2P Require Import TransitionTheorems Chain ChainProps ChainTheorems ForkChoice BlockBuilder Store.
From S2P Require Import StoreProps Node NodeProps P2P P2PProps GoStd Rpc RpcProps Cli.

(** ** The head of a running node *)

Section Head.
Context `{HK : Secp} `{HBolt : Bolt} `{HGob : Gob}.
Context `{HE : Engine} `{HG : GethEVM} `{HB : Blst} `{HBK : !BlstKeys}.

Lemma chain_head_hash v c : chain_inv v c -> block_Hash (Head c) = c_head c.
Proof.
  intros I. destruct (ci_head _ _ I) as [b Hb]. unfold Head, block_at. rewrite Hb.
  by apply (li_hash _ _ (ci_ledger _ _ I)).
Qed.

(** the height index maps the head's height to the head *)
Lemma head_indexed v c : chain_inv v c -> GetByHeight c (h_Height (b_Header (Head c))) = Some (Head c).
Proof.
  intros I. pose proof (chain_head_hash v c I) as Hh. destruct I as [L [b Hb] _ _ (path & Hc & Hi)].
  destruct (li_path _ _ L _ _ Hb) as [p P]. rewrite (chainTo_path _ _ _ P) in Hc. injection Hc as ->.
  destruct P as [P _]. destruct (reaches_last _ _ _ _ P) as (b' & Hb' & Hl).
  rewrite Hb in Hb'. injection Hb' as <-. apply last_Some in Hl as [l ->].
  assert (Head c = b) as Eb by (unfold Head, block_at; by rewrite Hb).
  unfold GetByHeight. rewrite Hi, Eb. unfold index_of. rewrite foldl_app. cbn [foldl].
  rewrite lookup_insert_eq. rewrite Eb in Hh. by rewrite Hh.
Qed.

(** beyond genesis, the head announces the root of the node's state *)
Lemma head_state_root v c :
  chain_inv v c -> c_head c <> c_genesisHash c ->
  StateRoot (State c) = h_StateRoot (b_Header (Head c)).
Proof.
  intros [L [b Hb] _ Hs _] Hne. destruct (li_root _ _ L _ _ Hb Hne) as (st & Hd & Hr).
  rewrite Hs in Hd. injection Hd as <-. unfold Head, block_at. by rewrite Hb.
Qed.

(** the stored blocks of a proof-of-work chain carry their work, genesis excepted *)
Definition worked (c : Chain) : Prop :=
  c_consensusMode c = PoW ->
  forall h b, c_blocks c !! h = Some b -> h <> c_genesisHash c ->
    MeetsTarget h (h_Difficulty (b_Header b)) = true.

Lemma AddBlock_worked v c b : worked c -> worked (fst (AddBlock c b v)).
Proof.
  intros W. destruct (snd (AddBlock c b v)) as [[]|e] eqn:Er; [|by rewrite (AddBlock_err _ _ _ _ Er)].
  pose proof (AddBlock_surj c b v Er) as E. pose proof (AddBlock_mode c b v) as M.
  destruct (AddBlock_ok _ _ _ _ E) as (w & st & A & EB & _ & EG & _).
  unfold worked. rewrite M, EB, EG. intros Hm h x Hx Hne.
  apply lookup_insert_Some in Hx as [[<- <-]|[_ Hx]]; [|by apply (W Hm)].
  pose proof (ac_consensus _ _ _ _ _ A) as C. unfold check_consensus in C. rewrite Hm in C.
  cbn [bool_decide decide_rel] in C. destruct (MeetsTarget (block_Hash b) _); [done|].
  by case_bool_decide.
Qed.

Lemma NewChain_worked genesis alloc baseAlloc : worked (NewChainWithAlloc genesis alloc baseAlloc).
Proof.
  intros _ h b Hb Hne. cbn in Hb. apply lookup_singleton_Some in Hb as [<- _]. by destruct Hne.
Qed.

Lemma load_blocks_worked s c h k c' : worked c -> load_blocks s c h k = Ok c' -> worked c'.
Proof.
  revert c h. induction k as [|k IH]; intros c h I; cbn [load_blocks]; [by intros <-%Ok_inj|].
  destruct (need _) as [ch|]; [|done]. cbn [mbind result_bind].
  destruct (need _) as [b|]; [|done]. cbn [mbind result_bind].
  pose proof (AddBlock_worked (Some wallet_Verify) c b I) as I'.
  destruct (AddBlock c b (Some wallet_Verify)) as [c1 [u|]]; [|done]. by apply IH.
Qed.

Lemma Load_worked s c : Store.Load s = Ok (Some c) -> worked c.
Proof.
  unfold Store.Load. destruct (GetHead s) as [[hh|]|]; [|done|done]. cbn [mbind result_bind].
  destruct (need (GetCanonical s 0)) as [gh|]; [|done]. cbn [mbind result_bind].
  destruct (need (GetBlock s gh)) as [g|]; [|done]. cbn [mbind result_bind].
  destruct (GetGenesisAlloc s) as [al|]; [|done]. cbn [mbind result_bind].
  destruct (GetGenesisBaseAlloc s) as [ba|]; [|done]. cbn [mbind result_bind].
  destruct (need (GetBlock s hh)) as [hb|]; [|done]. cbn [mbind result_bind].
  destruct (load_blocks _ _ _ _) as [c1|] eqn:E; [|done]. cbn [mbind result_bind].
  case_bool_decide; [|done]. intros Eq%Ok_inj. injection Eq as <-.
  eapply load_blocks_worked; [apply NewChain_worked|exact E].
Qed.

(** the fields [worked] speaks of *)
Lemma worked_same c c' :
  c_blocks c' = c_blocks c -> c_genesisHash c' = c_genesisHash c ->
  (c_consensusMode c' = PoW -> c_consensusMode c = PoW) -> worked c -> worked c'.
Proof. unfold worked. intros -> -> Hm W H. by apply W, Hm. Qed.

Lemma SetChainID_worked c id : worked c -> worked (SetChainID c id).
Proof. by apply worked_same. Qed.

Lemma configure_worked cfg c c' : worked c -> configure cfg c = Ok c' -> worked c'.
Proof.
  intros W. unfold configure. case_bool_decide; [|by intros <-%Ok_inj].
  destruct (NewValidatorSet _) as [vs|]; [|done]. cbn [mbind result_bind].
  unfold SetConsensusMode. destruct (_ && _); [done|]. intros <-%Ok_inj Hm. done.
Qed.

Lemma New_node_worked cfg opened now n : New_node cfg opened now = Ok n -> worked (n_chain n).
Proof.
  assert (Hf : forall store cap id n, fresh cfg store cap id now = Ok n -> worked (n_chain n)).
  { intros store cap id n'. unfold fresh. cbv zeta.
    destruct (configure _ _) as [c|] eqn:Ec; [|done]. cbn [mbind result_bind].
    destruct (match store with None => _ | Some _ => _ end) as [st|]; [|done]. cbn [mbind result_bind].
    intros <-%Ok_inj. cbn [n_chain]. eapply configure_worked; [|exact Ec].
    apply SetChainID_worked, NewChain_worked. }
  unfold New_node. cbv zeta. destruct opened as [s|]; [|by apply Hf].
  destruct (Store.Load s) as [[c|]|] eqn:El; cbn [mbind result_bind]; [|by apply Hf|done].
  unfold resume. cbv zeta. case_bool_decide; [done|]. intros <-%Ok_inj. cbn [n_chain].
  by eapply SetChainID_worked, Load_worked.
Qed.

(** a step leaves the blocks alone, or adds one *)
Lemma node_step_chain n n' :
  node_step n n' ->
  (c_blocks (n_chain n') = c_blocks (n_chain n) /\ c_genesisHash (n_chain n') = c_genesisHash (n_chain n) /\
   c_consensusMode (n_chain n') = c_consensusMode (n_chain n)) \/
  exists b, n_chain n' = fst (AddBlock (n_chain n) b (Some wallet_Verify)).
Proof.
  intros S. destruct S as [n1 tx|fuel n1 now|n1 now|n1|n1 b|n1 mode b E].
  - left. by rewrite SubmitTx_chain.
  - unfold MineBlock. cbv zeta. destruct (deriveStateRoot _ _ _) as [[root g]|]; [|by left].
    destruct (Mine _ _ _) as [[[h hash] []]|]; [|by left..]. right. eexists. apply commitBlock_chain.
  - unfold ProposeBlock. cbv zeta. destruct (negb _); [by left|].
    destruct (EffectiveValidatorSet _) as [act total].
    destruct (SelectProposer _ _ _); [|by left]. destruct (negb _); [by left|].
    destruct (n_validatorKey n1); [|by left]. destruct (deriveStateRoot _ _ _) as [[root g]|]; [|by left].
    right. eexists. apply commitBlock_chain.
  - left. unfold MaybeAttest. destruct (n_validatorKey n1) as [key|]; [|done]. destruct (negb _); [done|].
    cbv zeta. destruct (_ || _); [done|]. pose proof (SubmitTx_chain n1 (attestation_tx n1 key)) as E.
    destruct (SubmitTx _ _) as [n2 [u|e]]; cbn [fst with_attested n_chain] in *; by rewrite E.
  - right. exists b. unfold AcceptExternalBlock.
    destruct (AddBlock (n_chain n1) b _) as [c [u|e]]; cbn [fst]; [by rewrite save_node_chain|by destruct e].
  - by left.
Qed.

Lemma node_worked n : node_reachable n -> worked (n_chain n).
Proof.
  induction 1 as [cfg o now n E|n n' _ IH S]; [by eapply New_node_worked|].
  destruct (node_step_chain n n' S) as [(Eb & Eg & Em)|[b ->]]; [|by apply AddBlock_worked].
  eapply worked_same; [done|done| |done]. congruence.
Qed.

(** a proof-of-work node past genesis serves a head that stands on its own *)
Lemma head_stands n :
  node_reachable n -> node_ConsensusMode n = PoW -> c_head (n_chain n) <> c_genesisHash (n_chain n) ->
  GetBlockByHeight n (h_Height (b_Header (node_Head n))) = Some (node_Head n) /\
  StateRoot (State (n_chain n)) = h_StateRoot (b_Header (node_Head n)) /\
  MeetsTarget (block_Hash (node_Head n)) (h_Difficulty (b_Header (node_Head n))) = true.
Proof.
  intros R Hm Hne. pose proof (ni_chain _ (node_reachable_inv n R)) as I. split_and!.
  - by eapply head_indexed.
  - by eapply head_state_root.
  - unfold node_Head. rewrite (chain_head_hash _ _ I). destruct (ci_head _ _ I) as [b Hb].
    apply (node_worked n R Hm _ _); [|done]. unfold Head, block_at. by rewrite Hb.
Qed.
End Head.

(** ** What a decoded response is worth *)

(** opens a chain of binds that ended in a value *)
Ltac binds H :=
  repeat match type of H with
  | (?r ≫= _) = Ok _ => let E := fresh "E" in destruct r eqn:E; cbn [mbind result_bind] in H; [|discriminate H]
  end.

Lemma member_inv {A} (P : A -> Prop) names name (dec : A -> json -> result A) a ms a' :
  (forall a j a', P a -> dec a j = Ok a' -> P a') -> P a -> member names name dec a ms = Ok a' -> P a'.
Proof.
  intros Hdec. revert a; induction ms as [|[k v] ms IH]; intros a Ha; cbn [member].
  - by intros <-%Ok_inj.
  - destruct (field_of names k) as [f|]; [|by apply IH].
    destruct (bytes_eqb f name); [|by apply IH].
    destruct (dec a v) as [a1|] eqn:E; [|done]. cbn [mbind result_bind]. apply IH. by eapply Hdec.
Qed.

Lemma ParseUint_range s v : ParseUint s = Ok v -> is_u64 v.
Proof.
  intros E. pose proof E as E'. apply ParseUint_exact in E as (_ & Hd & -> & Hlt). split; [|done].
  clear Hlt E'. unfold digits_value. assert (G : forall n, 0 <= n ->
    0 <= foldl (fun n c => n * 10 + (c - 48)) n s); [|by apply G].
  induction s as [|c s IH]; intros n Hn; [done|]. simpl in *. apply andb_true_iff in Hd as [Hc Hd].
  unfold is_digit in Hc. rewrite andb_true_iff, !Z.leb_le in Hc. apply IH; [done|lia].
Qed.

Lemma dec_uint64s_range a j v : is_u64 a -> dec_uint64s a j = Ok v -> is_u64 v.
Proof.
  intros Ha. unfold dec_uint64s, dec_quoted. destruct j as [| | |s| |]; try done; [by intros <-%Ok_inj|].
  destruct s as [|c s]; [done|]. destruct (c =? 110).
  - destruct (bytes_eqb _ _); [|done]. by intros <-%Ok_inj.
  - destruct (_ || _); [|done]. destruct (ParseUint (c :: s)) as [x|] eqn:E; [|done].
    intros <-%Ok_inj. by eapply ParseUint_range.
Qed.

Lemma members_inv {A} (P : A -> Prop) a j k a' :
  P a -> (forall ms, k ms = Ok a' -> P a') -> members a j k = Ok a' -> P a'.
Proof. intros Ha Hk. destruct j; try done; [by intros <-%Ok_inj|apply Hk]. Qed.

Lemma Unmarshal_account_ok (a : AccountJSON) j a' : aj_ok a -> Unmarshal a j = Ok a' -> aj_ok a'.
Proof.
  intros [Hb Hn]. cbn [Unmarshal AccountJSON_Decode]. apply members_inv; [done|]. intros ms H.
  binds H. apply Ok_inj in H as <-.
  split; (eapply (member_inv (fun x => is_u64 x)); [exact dec_uint64s_range| |eassumption]; done).
Qed.

Lemma Unmarshal_account_proof_ok (p : AccountProofJSON) j p' :
  apj_ok p -> Unmarshal p j = Ok p' -> apj_ok p'.
Proof.
  intros Hp. cbn [Unmarshal AccountProofJSON_Decode]. apply members_inv; [done|]. intros ms H.
  binds H. apply Ok_inj in H as <-. unfold apj_ok. cbn [apj_Account].
  eapply (member_inv aj_ok); [exact Unmarshal_account_ok|exact Hp|eassumption].
Qed.

Lemma Unmarshal_proof_result_ok (r : AccountProofResult) j r' :
  apj_ok (apr_Proof r) -> Unmarshal r j = Ok r' -> apj_ok (apr_Proof r').
Proof.
  intros Hr. cbn [Unmarshal AccountProofResult_Decode].
  apply (members_inv (fun r => apj_ok (apr_Proof r))); [done|]. intros ms H.
  binds H. apply Ok_inj in H as <-. cbn [apr_Proof].
  eapply (member_inv apj_ok); [exact Unmarshal_account_proof_ok|exact Hr|eassumption].
Qed.

(** a proof received from any server has words for balance and nonce *)
Lemma GetAccountProof_typed post addrHex r :
  GetAccountProof post addrHex = Ok (Some r) -> apj_ok (apr_Proof r).
Proof.
  unfold GetAccountProof, call. intros H. binds H.
  destruct (bytes_eqb _ []); [done|]. apply Ok_inj in H. injection H as ->.
  binds E. destruct (rs_Error _); [done|]. assert (Z0 : apj_ok (apr_Proof zero)) by done.
  destruct (rs_Result _) as [[]|]; try (by apply Ok_inj in E as <-);
    by eapply Unmarshal_proof_result_ok.
Qed.

Lemma hexBytes_bytes s b : hexBytes s = Ok b -> all_bytes b.
Proof.
  unfold hexBytes. destruct (bytes_eqb _ []); [by intros <-%Ok_inj|]. intros E. by apply Decode_bytes in E as [? _].
Qed.

Lemma hashFromHex_wf s h : hashFromHex s = Ok h -> hash_wf h.
Proof.
  unfold hashFromHex. intros H. binds H. destruct (Nat.eqb_spec (length a) HashLen) as [El|]; [|done].
  apply Ok_inj in H as <-. rewrite copy_fixed_id by done. split; [done|by eapply hexBytes_bytes].
Qed.

Lemma addressFromHex_wf s a : addressFromHex s = Ok a -> addr_wf a.
Proof.
  unfold addressFromHex. intros H. binds H. destruct (Nat.eqb_spec (length a0) AddrLen) as [El|]; [|done].
  apply Ok_inj in H as <-. rewrite copy_fixed_id by done. split; [done|by eapply hexBytes_bytes].
Qed.

Lemma accountProofFromJSON_typed j ap :
  apj_ok j -> accountProofFromJSON j = Ok ap -> account_typed (ap_Account ap).
Proof.
  intros [Hb Hn] H. unfold accountProofFromJSON in H. binds H. apply Ok_inj in H as <-.
  unfold accountFromJSON in E. binds E. apply Ok_inj in E as <-.
  split_and!; cbn; try lia; by eapply hashFromHex_wf.
Qed.

Lemma proofFromJSON_bytes l p : proofFromJSON l = Ok p -> Forall all_bytes p.
Proof.
  revert p. induction l as [|s l IH]; intros p H; cbn [proofFromJSON] in H; [apply Ok_inj in H as <-; constructor|].
  binds H. apply Ok_inj in H as <-. constructor; [by eapply hexBytes_bytes|by apply IH].
Qed.

Lemma accountProofFromJSON_bytes j ap :
  accountProofFromJSON j = Ok ap -> Forall all_bytes (ap_Proof ap).
Proof.
  intros H. unfold accountProofFromJSON in H. binds H. apply Ok_inj in H as <-. cbn [ap_Proof].
  by eapply proofFromJSON_bytes.
Qed.

Lemma HeaderFromJSON_root j h : HeaderFromJSON j = Ok h -> hash_wf (h_StateRoot h).
Proof.
  unfold HeaderFromJSON. intros H. binds H. apply Ok_inj in H as <-. cbn [h_StateRoot].
  by eapply hashFromHex_wf.
Qed.

(** ** The light client *)

(** what [balance --verify] has checked when it prints a balance *)
Lemma verified_checks (post : nat -> json -> result json) addrHex bal height rootHex :
  cmdBalanceVerify post addrHex = Ok (PrintVerified bal height rootHex) ->
  exists a res blk header ap, addressFromHex addrHex = Ok a /\
    GetAccountProof (post 0%nat) addrHex = Ok (Some res) /\
    accountProofFromJSON (apr_Proof res) = Ok ap /\
    client_GetBlockByHeight (post 1%nat) (apr_Height res) = Ok (Some blk) /\
    HeaderFromJSON (bj_Header blk) = Ok header /\
    height = apr_Height res /\ rootHex = Hex (h_StateRoot header) /\
    hash_wf (h_StateRoot header) /\
    MeetsTarget (header_Hash header) (h_Difficulty header) = true /\
    account_typed (ap_Account ap) /\ VerifyAccountProof (h_StateRoot header) a ap = true /\
    bal = Balance (ap_Account ap).
Proof.
  unfold cmdBalanceVerify. intros H. binds H. destruct a as [res|]; [|done].
  pose proof (GetAccountProof_typed _ _ _ E) as Hty. binds H. destruct a as [blk|]; [|done]. binds H.
  destruct (bytes_eqb (Hex (h_StateRoot a)) (apr_StateRoot res)) eqn:Er; [|done]. cbn [negb] in H.
  destruct (MeetsTarget (header_Hash a) (h_Difficulty a)) eqn:Em; [|done]. cbn [negb] in H. binds H.
  destruct a0 as [acct ok]. destruct ok; [|done]. cbn [negb] in H. apply Ok_inj in H.
  injection H as <- <- <-. apply bytes_eqb_eq in Er. pose proof (HeaderFromJSON_root _ _ E1) as Hw.
  unfold client_VerifyAccountProof in E2. rewrite <- Er, hashFromHex_Hex in E2 by done.
  cbn [mbind result_bind] in E2. binds E2. apply Ok_inj in E2. injection E2 as <- Ev.
  exists a0, res, blk, a, a1. split_and!; try done. by eapply accountProofFromJSON_typed.
Qed.

(** C12: what a light client learns.  Against any server whatsoever, when [balance --verify]
    prints a balance, the server answered the two requests with an account proof and a
    block; the printed height is the one of the first answer, the printed root is that of
    the block's header, and that header meets its own declared target; and every state with
    this root, however it was written, gives the address exactly the printed balance, unless
    two of the byte strings hashed in that state or sent in the answer's proof (which are
    lists of bytes) collide. *)
Theorem light_client_sound post addrHex bal height rootHex :
  cmdBalanceVerify post addrHex = Ok (PrintVerified bal height rootHex) ->
  exists a res blk header ap,
    addressFromHex addrHex = Ok a /\
    GetAccountProof (post 0%nat) addrHex = Ok (Some res) /\
    accountProofFromJSON (apr_Proof res) = Ok ap /\ Forall all_bytes (ap_Proof ap) /\
    client_GetBlockByHeight (post 1%nat) (apr_Height res) = Ok (Some blk) /\
    HeaderFromJSON (bj_Header blk) = Ok header /\
    height = apr_Height res /\ rootHex = Hex (h_StateRoot header) /\
    MeetsTarget (header_Hash header) (h_Difficulty header) = true /\
    forall ops, Forall world_op_ok ops -> StateRoot (world_of ops) = h_StateRoot header ->
      hash_safe (a :: world_log ops ++ ap_Proof ap) -> balance (world_of ops) a = bal.
Proof.
  intros H. destruct (verified_checks _ _ _ _ _ H)
    as (a & res & blk & header & ap & Ha & Hres & Hap & Hblk & Hhd & Hht & Hr & _ & Ht & Hty & Hv & ->).
  exists a, res, blk, header, ap. split_and!; try done; [by eapply accountProofFromJSON_bytes|].
  intros ops Hok Hroot HS. set (U := a :: _) in *.
  assert (W : winv U (world_of ops) (foldl ghost_op ghost0 ops)).
  { apply world_of_winv; [done|done|]. intros e He. apply list_elem_of_further, elem_of_app. by left. }
  unfold balance. cbn [GetAccount mpt_StateDB]. cbn [StateRoot mpt_StateDB] in Hroot.
  unfold mpt_StateRoot in Hroot. rewrite <- Hroot in Hv. f_equal.
  refine (VerifyAccountProof_true U HS _ _ a ap W _ _ _ Hv).
  - apply list_elem_of_here.
  - intros e He. apply list_elem_of_further, elem_of_app. by right.
  - by apply account_typed_wf.
Qed.

(** the checks in order, when each passes *)
Lemma cmdBalanceVerify_passes (post : nat -> json -> result json) addrHex res blk header acct :
  GetAccountProof (post 0%nat) addrHex = Ok (Some res) ->
  client_GetBlockByHeight (post 1%nat) (apr_Height res) = Ok (Some blk) ->
  HeaderFromJSON (bj_Header blk) = Ok header -> apr_StateRoot res = Hex (h_StateRoot header) ->
  MeetsTarget (header_Hash header) (h_Difficulty header) = true ->
  client_VerifyAccountProof (apr_StateRoot res) addrHex (apr_Proof res) = Ok (acct, true) ->
  cmdBalanceVerify post addrHex = Ok (PrintVerified (Balance acct) (apr_Height res) (apr_StateRoot res)).
Proof.
  intros E1 E2 E3 E4 E5 E6. unfold cmdBalanceVerify. rewrite E1. cbn [mbind result_bind].
  rewrite E2. cbn [mbind result_bind]. rewrite E3. cbn [mbind result_bind].
  rewrite <- E4, bytes_eqb_refl. cbn [negb]. rewrite E5. cbn [negb]. rewrite E6. done.
Qed.

Lemma client_VerifyAccountProof_wire root a ap :
  hash_wf root -> addr_wf a -> account_proof_wf ap ->
  client_VerifyAccountProof (Hex root) (Hex a) (accountProofToJSON ap) =
  Ok (ap_Account ap, VerifyAccountProof root a ap).
Proof.
  intros Hr Ha Hp. unfold client_VerifyAccountProof.
  rewrite hashFromHex_Hex by done. cbn [mbind result_bind].
  rewrite addressFromHex_Hex by done. cbn [mbind result_bind].
  by rewrite accountProof_json.
Qed.

(** the account proof a node serves *)
Lemma served_proof `{Secp} `{Bolt} `{Gob} `{Engine} `{GethEVM} `{Blst} `{!BlstKeys} n a ops :
  State (n_chain n) = world_of ops -> Forall world_op_ok ops ->
  hash_safe (a :: world_log ops) -> Forall all_bytes (a :: world_log ops) ->
  match node_AccountProof n a with
  | Some (ap, h, root) =>
      account_proof_wf ap /\ Balance (ap_Account ap) = node_Balance n a /\
      h = h_Height (b_Header (node_Head n)) /\ root = h_StateRoot (b_Header (node_Head n)) /\
      VerifyAccountProof (StateRoot (State (n_chain n))) a ap = true
  | None => node_Balance n a = 0
  end.
Proof.
  intros Es Hok HS Hb. set (U := a :: world_log ops) in *.
  assert (W : winv U (world_of ops) (foldl ghost_op ghost0 ops)).
  { apply world_of_winv; [done|done|]. intros e He. by apply list_elem_of_further. }
  pose proof (mpt_AccountProof_spec U HS _ _ a W (list_elem_of_here _ _)) as P.
  unfold node_AccountProof, node_Balance. rewrite Es. cbn [GetAccount mpt_StateDB].
  destruct (mpt_AccountProof (world_of ops) a) as [ap|].
  - destruct P as (Ea & Hv & Hty & Hin). cbn [mbind option_bind]. split_and!; try done.
    + split; [done|]. apply Forall_forall. intros e He. rewrite Forall_forall in Hb. by apply Hb, Hin.
    + by rewrite Ea.
  - cbn [mbind option_bind]. by rewrite P.
Qed.

(** C13: an honest node is believed.  Served by a proof-of-work node that is past genesis,
    [balance --verify] succeeds: it prints the node's own balance of the address, at the
    head's height and under the head's state root, or says that the account was never
    touched, and then the node's balance is 0. *)
Theorem light_client_complete `{Secp} `{Bolt} `{Gob} `{Engine} `{GethEVM} `{Blst} `{!BlstKeys}
    `{ErrorText} `{OrderbookText} n a ops :
  node_reachable n -> node_ConsensusMode n = PoW -> c_head (n_chain n) <> c_genesisHash (n_chain n) ->
  block_wf (node_Head n) -> addr_wf a ->
  State (n_chain n) = world_of ops -> Forall world_op_ok ops ->
  hash_safe (a :: world_log ops) -> Forall all_bytes (a :: world_log ops) ->
  let head := b_Header (node_Head n) in
  cmdBalanceVerify (fun _ => served n) (Hex a) =
  Ok (PrintVerified (node_Balance n a) (h_Height head) (Hex (h_StateRoot head))) \/
  (cmdBalanceVerify (fun _ => served n) (Hex a) = Ok PrintUntouched /\ node_Balance n a = 0).
Proof.
  intros R Hm Hne Hwf Ha Es Hok HS Hb head.
  destruct (head_stands n R Hm Hne) as (Hidx & Hroot & Htgt).
  pose proof (served_proof n a ops Es Hok HS Hb) as P.
  assert (Hht : is_u64 (h_Height head)) by apply Hwf.
  assert (Hsr : hash_wf (h_StateRoot head)) by apply Hwf.
  assert (E1 := GetAccountProof_served n a Ha).
  specialize (E1 ltac:(intros ap h root E; rewrite E in P; destruct P as (? & _ & -> & -> & _); done)).
  destruct (node_AccountProof n a) as [[[ap h] root]|].
  2: { right. unfold cmdBalanceVerify. by rewrite E1. }
  destruct P as (Hap & Hbal & -> & -> & Hv). left. rewrite <- Hbal.
  assert (E2 := GetBlockByHeight_served n (h_Height head) Hht).
  specialize (E2 ltac:(intros b Eb; unfold head in Eb; rewrite Hidx in Eb; by injection Eb as <-)).
  unfold head in E2 at 2. rewrite Hidx in E2.
  refine (cmdBalanceVerify_passes _ _ _ _ head _ E1 E2 _ _ Htgt _).
  - by apply HeaderFromJSON_headerToJSON, Hwf.
  - done.
  - cbn [apr_StateRoot apr_Proof]. rewrite client_VerifyAccountProof_wire by done.
    by rewrite <- Hroot, Hv.
Qed.

(** *** A server that makes it up *)

(** the root and the proof of a trie that holds one account *)
Definition forged_leaf (a : Address) (acct : Account) : tree := TLeaf (path a) (encodeAccount acct).
Definition forged_root (a : Address) (acct : Account) : Hash := TrieRefine.thash (forged_leaf a acct).
Definition forged_proof (a : Address) (acct : Account) : AccountProof :=
  mkAccountProof acct (tproof (forged_leaf a acct) (path a)).

(** a header of difficulty 0 *)
Definition forged_header (height : Z) (root : Hash) : Header :=
  mkHeader height zero_hash zero_hash root zero_addr 0 0 0 0 0 [].

Definition forged_block (height : Z) (root : Hash) : Block := mkBlock (forged_header height root) [].

(** answers the two requests of [balance --verify] with them *)
Definition liar (a : Address) (acct : Account) (height : Z) (i : nat) (req : json) : result json :=
  Ok (writeResult None
        (match i with
         | O => JObj [(str "height", dec_str height);
                      (str "proof", Marshal (accountProofToJSON (forged_proof a acct)));
                      (str "stateRoot", JStr (Hex (forged_root a acct)))]
         | _ => Marshal (BlockToJSON (forged_block height (forged_root a acct)))
         end)).

Lemma forged_leaf_wf a acct : twf 64 (forged_leaf a acct).
Proof.
  pose proof (length_path a). constructor; [apply path_nibbles|lia|lia|apply encodeAccount_ok].
Qed.

Lemma forged_verifies a acct : VerifyAccountProof (forged_root a acct) a (forged_proof a acct) = true.
Proof.
  unfold VerifyAccountProof, VerifyProof. cbn [forged_proof ap_Account ap_Proof].
  eapply verify_tproof; [apply forged_leaf_wf|]. cbn [forged_leaf tget]. by rewrite decide_True.
Qed.

Lemma mask_loop_ge n b mask count :
  match mask_loop n b mask count with inl c | inr c => count <= c end.
Proof.
  revert mask count; induction n as [|n IH]; intros mask count; cbn [mask_loop]; [lia|].
  destruct (mask =? 0); [lia|]. destruct (negb _); [lia|].
  specialize (IH (Z.shiftr mask 1) (count + 1)). destruct (mask_loop _ _ _ _); lia.
Qed.

Lemma leading_zeros_ge h c : c <= leading_zeros_from h c.
Proof.
  revert c; induction h as [|b h IH]; intros c; cbn [leading_zeros_from]; [lia|].
  destruct (b =? 0); [specialize (IH (c + 8)); lia|].
  pose proof (mask_loop_ge 9 b 128 c). destruct (mask_loop 9 b 128 c) as [x|x]; [done|].
  specialize (IH x). lia.
Qed.

(** no work is needed to meet difficulty 0 *)
Lemma MeetsTarget_zero h : MeetsTarget h 0 = true.
Proof. apply Z.leb_le, (leading_zeros_ge h 0). Qed.

Lemma packNibbles_bytes ns : all_nibbles ns -> all_bytes (packNibbles ns).
Proof.
  induction ns as [|a|a b ns IH] using list_ind2; intros Hn; cbn [packNibbles].
  - constructor.
  - apply Forall_singleton in Hn. apply Forall_singleton. unfold is_byte, is_nibble in *.
    change 255 with (Z.ones 8). rewrite Z.land_ones by lia. apply Z.mod_pos_bound. lia.
  - apply Forall_cons in Hn as [Ha Hn]. apply Forall_cons in Hn as [Hb Hn].
    constructor; [|by apply IH]. rewrite pack_pair by done. unfold is_byte, is_nibble in *. lia.
Qed.

Lemma encodeAccount_bytes acct : account_typed acct -> all_bytes (encodeAccount acct).
Proof.
  intros (_ & _ & [Lc Hc] & [Ls Hs]). unfold encodeAccount.
  rewrite !copy_fixed_id by done. rewrite !Forall_app. split_and!; try done; apply be_bytes.
Qed.

Lemma forged_leaf_bytes a acct : account_typed acct -> all_bytes (tenc (forged_leaf a acct)).
Proof.
  intros Ht. cbn [tenc forged_leaf encode].
  rewrite !Forall_app. split_and!; try apply be_bytes.
  - repeat constructor; done.
  - apply packNibbles_bytes, path_nibbles.
  - by apply encodeAccount_bytes.
Qed.

Lemma forged_proof_wf a acct : account_typed acct -> account_proof_wf (forged_proof a acct).
Proof.
  intros Ht. split; [done|]. cbn [forged_proof ap_Proof forged_leaf tproof].
  apply Forall_singleton. by apply forged_leaf_bytes.
Qed.

Lemma call_answered {A} `{Decode A} (post : json -> result json) m ps j :
  (forall req, post req = Ok (writeResult None j)) -> call (A := A) post m ps = read_result j.
Proof.
  intros Hp. unfold call. rewrite Hp. cbn [mbind result_bind]. rewrite Unmarshal_result.
  cbn [mbind result_bind rs_Error rs_Result]. by destruct j.
Qed.

Lemma liar_proof a acct height addrHex :
  account_typed acct -> is_u64 height ->
  GetAccountProof (liar a acct height 0) addrHex =
  Ok (Some (mkAccountProofResult height (Hex (forged_root a acct)) (accountProofToJSON (forged_proof a acct)))).
Proof.
  intros Hty Hht. unfold GetAccountProof. erewrite call_answered by reflexivity.
  cbn [read_result Unmarshal AccountProofResult_Decode members zero apr_Height apr_StateRoot apr_Proof].
  wire_members. unfold dec_str. fold (enc_uint64s height).
  rewrite dec_enc_uint64s by done. cbn [mbind result_bind dec_string].
  rewrite (decode_encode _ (accountProofToJSON (forged_proof a acct)))
    by (by apply accountProofToJSON_ok, forged_proof_wf).
  cbn [mbind result_bind apr_StateRoot]. by rewrite Hex_hash_nonempty by apply SumHash_wf.
Qed.

Lemma forged_block_wf height root : is_u64 height -> hash_wf root -> block_wf (forged_block height root).
Proof.
  intros Hh Hr. split; [|constructor]. unfold header_wf.
  cbn [forged_block forged_header b_Header h_Height h_PrevHash h_MerkleRoot h_StateRoot h_Coinbase
       h_Timestamp h_Difficulty h_Nonce h_BaseFee h_GasUsed h_ProposerSig].
  pose proof zero_hash_wf. pose proof zero_addr_wf. split_and!; try done; try lia; try apply Hr; constructor.
Qed.

Lemma liar_block a acct height h :
  is_u64 height ->
  client_GetBlockByHeight (liar a acct height 1) h =
  Ok (Some (BlockToJSON (forged_block height (forged_root a acct)))).
Proof.
  intros Hht. unfold client_GetBlockByHeight. erewrite call_answered by reflexivity.
  rewrite read_block by (apply BlockToJSON_ok, forged_block_wf; [done|apply SumHash_wf]).
  cbn [mbind result_bind BlockToJSON bj_Hash]. by rewrite Hex_hash_nonempty by apply SumHash_wf.
Qed.

Lemma liar_believed a acct height :
  addr_wf a -> account_typed acct -> is_u64 height ->
  cmdBalanceVerify (liar a acct height) (Hex a) =
  Ok (PrintVerified (Balance acct) height (Hex (forged_root a acct))).
Proof.
  intros Ha Hty Hht.
  assert (Hr : hash_wf (forged_root a acct)) by apply SumHash_wf.
  refine (cmdBalanceVerify_passes _ _ _ _ (forged_header height (forged_root a acct)) acct
            (liar_proof a acct height (Hex a) Hty Hht) (liar_block a acct height _ Hht) _ _ _ _).
  - by apply HeaderFromJSON_headerToJSON, forged_block_wf.
  - done.
  - apply MeetsTarget_zero.
  - cbn [apr_StateRoot apr_Proof]. rewrite client_VerifyAccountProof_wire by (done || by apply forged_proof_wf).
    by rewrite forged_verifies.
Qed.

(** The check of the header can be met for free.  For every address and every account
    there is a server, answering with a header of difficulty 0 over a trie of its own,
    against which [balance --verify] prints that account's balance as verified at any
    height it likes: the target a header is held to is the one it declares itself. *)
Theorem verified_balance_forgeable a acct height :
  addr_wf a -> account_typed acct -> is_u64 height ->
  exists post, cmdBalanceVerify post (Hex a) =
    Ok (PrintVerified (Balance acct) height (Hex (forged_root a acct))).
Proof.
  intros Ha Hty Hht. exists (liar a acct height). by apply liar_believed.
Qed.

(** ** A running process *)

Section Process.
Context `{HK : Secp} `{HKB : !SecpBytes} `{HBolt : Bolt} `{HGob : Gob} `{HGobTx : GobTx}.
Context `{HE : Engine} `{HG : GethEVM} `{HB : Blst} `{HBK : !BlstKeys} `{HBB : !BlstBytes}.
Context `{HT : ErrorText} `{HO : OrderbookText}.

Abbreviation stored n b := (c_blocks (n_chain n) !! block_Hash b = Some b).

Lemma AddBlock_blocks v c b : c_blocks c ⊆ c_blocks (fst (AddBlock c b v)).
Proof.
  destruct (snd (AddBlock c b v)) as [[]|e] eqn:Er; [|by rewrite (AddBlock_err _ _ _ _ Er)].
  destruct (AddBlock_ok _ _ _ _ (AddBlock_surj c b v Er)) as (w & st & A & -> & _).
  apply insert_subseteq. exact (ac_fresh _ _ _ _ _ A).
Qed.

Lemma node_step_blocks n n' : node_step n n' -> c_blocks (n_chain n) ⊆ c_blocks (n_chain n').
Proof.
  intros S. destruct (node_step_chain n n' S) as [(-> & _)|[b ->]]; [done|apply AddBlock_blocks].
Qed.

Lemma steps_blocks n n' : rtc node_step n n' -> c_blocks (n_chain n) ⊆ c_blocks (n_chain n').
Proof.
  induction 1 as [n|n1 n2 n3 S _ IH]; [done|]. etrans; [by apply node_step_blocks|done].
Qed.

Lemma steps_reachable n n' : rtc node_step n n' -> node_reachable n -> node_reachable n'.
Proof. induction 1 as [n|n1 n2 n3 S _ IH]; [done|]. intros R. apply IH. by eapply nr_step. Qed.

Lemma commitBlock_stored n blk txs n' b :
  commitBlock n blk txs = (n', Ok b) -> stored n' b.
Proof.
  intros E. pose proof (commitBlock_chain n blk txs) as Ec. rewrite E in Ec. cbn [fst] in Ec.
  unfold commitBlock in E. destruct (AddBlock (n_chain n) blk _) as [c [[]|e]] eqn:Ea; [|done].
  cbv zeta in E. destruct (save_node _) as [n1 [u|e]]; [|done]. injection E as -> <-.
  cbn [fst] in Ec. rewrite Ec. destruct (AddBlock_ok _ _ _ _ Ea) as (w & st & _ & -> & _).
  apply lookup_insert_eq.
Qed.

Lemma MineBlock_stored fuel n now n' b : MineBlock fuel n now = (n', Ok b) -> stored n' b.
Proof.
  unfold MineBlock. cbv zeta. destruct (deriveStateRoot _ _ _) as [[root g]|]; [|done].
  destruct (Mine _ _ _) as [[[h hash] []]|]; [|done..]. apply commitBlock_stored.
Qed.

Lemma ProposeBlock_stored n now n' b : ProposeBlock n now = (n', Ok b) -> stored n' b.
Proof.
  unfold ProposeBlock. cbv zeta. destruct (negb _); [done|].
  destruct (EffectiveValidatorSet _) as [act total].
  destruct (SelectProposer _ _ _); [|done]. destruct (negb _); [done|].
  destruct (n_validatorKey n); [|done]. destruct (deriveStateRoot _ _ _) as [[root g]|]; [|done].
  apply commitBlock_stored.
Qed.

(** a published message is the encoding of a block the node stores *)
Definition announced (n : Node) (data : bytes) : Prop :=
  exists b, EncodeBlock b = Ok data /\ stored n b.

Lemma announced_mono n n' data : rtc node_step n n' -> announced n data -> announced n' data.
Proof.
  intros S (b & Hd & Hb). exists b. split; [done|]. by eapply lookup_weaken, steps_blocks.
Qed.

Lemma AnnounceBlock_announced n b data : stored n b -> data ∈ AnnounceBlock b -> announced n data.
Proof.
  unfold AnnounceBlock, PublishBlock. intros Hb. destruct (EncodeBlock b) as [d|] eqn:E; intros Hd.
  - apply list_elem_of_singleton in Hd as ->. by exists b.
  - by apply not_elem_of_nil in Hd.
Qed.

Lemma tick_spec fuel mode n now :
  rtc node_step n (fst (tick fuel mode n now)) /\
  forall data, data ∈ snd (tick fuel mode n now) -> announced (fst (tick fuel mode n now)) data.
Proof.
  unfold tick. case_bool_decide.
  - pose proof (ns_propose n now) as S1. pose proof (ProposeBlock_stored n now) as P.
    destruct (ProposeBlock n now) as [n1 r]. cbn [fst] in S1. pose proof (ns_attest n1) as S2.
    destruct (MaybeAttest n1) as [n2 r2]. cbn [fst snd] in *.
    split; [by eapply rtc_l, rtc_once|]. intros data Hd. apply (announced_mono n1); [by apply rtc_once|].
    destruct r as [b|]; [|by apply not_elem_of_nil in Hd]. eapply AnnounceBlock_announced; [|done]. by apply P.
  - pose proof (ns_mine fuel n now) as S1. pose proof (MineBlock_stored fuel n now) as P.
    destruct (MineBlock fuel n now) as [n1 [b|e]]; cbn [fst snd] in *; (split; [by apply rtc_once|]).
    + intros data. apply AnnounceBlock_announced. by apply P.
    + intros data Hd. by apply not_elem_of_nil in Hd.
Qed.

Lemma ServeHTTP_steps n m body : rtc node_step n (fst (ServeHTTP n m body)).
Proof.
  unfold ServeHTTP. destruct (negb _); [done|]. destruct body as [b|]; [|done].
  destruct (Unmarshal (zero : Request) b) as [req|e]; [|done].
  assert (S : rtc node_step n (fst (dispatch n req))).
  { destruct (dispatch_cases n req) as [->|[_ ->]]; [done|].
    destruct (sendRawTx_cases n (rq_Params req)) as [[-> _]|(tx & E & _)]; [done|].
    apply rtc_once. pose proof (ns_submit n tx) as S. by rewrite E in S. }
  by destruct (dispatch n req) as [n' []].
Qed.

Lemma accept_step n b n' r : AcceptExternalBlock n b = (n', r) -> rtc node_step n n'.
Proof. intros E. apply rtc_once. pose proof (ns_accept n b) as S. by rewrite E in S. Qed.

Lemma p2p_step_nodes p p' : p2p_step p p' -> rtc node_step (p_node p) (p_node p').
Proof.
  intros S. destruct S as [p data own from|p data own|p i item|p start|p].
  - unfold readBlock. destruct own; [done|]. destruct (DecodeBlock data) as [b|]; [|done].
    unfold handleBlock. destruct (AcceptExternalBlock (p_node p) b) as [n r] eqn:E.
    apply accept_step in E. by repeat case_match.
  - unfold readTx. destruct own; [done|]. destruct (decodeTx data) as [tx|]; [|done].
    apply rtc_once, ns_submit.
  - unfold sync_recv. destruct (p_syncs p !! i) as [gap|]; [|done]. destruct item as [[b|]|]; [|done|].
    + destruct (AcceptExternalBlock (p_node p) b) as [n r] eqn:E. apply accept_step in E. by destruct r.
    + cbn [p_node]. apply rtc_once, ns_accept.
  - unfold serve_open. by case_match.
  - done.
Qed.

Lemma process_spec fuel mode p e :
  within_limits p ->
  within_limits (fst (process fuel mode p e)) /\
  rtc node_step (p_node p) (p_node (fst (process fuel mode p e))) /\
  forall data, data ∈ snd (process fuel mode p e) -> announced (p_node (fst (process fuel mode p e))) data.
Proof.
  intros L.
  assert (Hp : forall p', p2p_step p p' ->
    within_limits p' /\ rtc node_step (p_node p) (p_node p') /\
    forall data, data ∈ [] -> announced (p_node p') data).
  { intros p' S. split; [by eapply p2p_step_limits|]. split; [by apply p2p_step_nodes|].
    intros data Hd. by apply not_elem_of_nil in Hd. }
  destruct e as [now|m body|data own from|data own|i item|start|]; cbn [process fst snd];
    try (apply Hp; by constructor).
  - destruct (tick_spec fuel mode (p_node p) now) as [S A].
    destruct (tick fuel mode (p_node p) now) as [n sent]. cbn [fst snd with_node p_node] in *.
    split_and!; [|done|done]. destruct L as (R & ? & ?). split_and!; [by eapply steps_reachable|done|done].
  - pose proof (ServeHTTP_steps (p_node p) m body) as S. cbn [with_node p_node].
    split_and!; [|done|intros data Hd; by apply not_elem_of_nil in Hd].
    destruct L as (R & ? & ?). split_and!; [by eapply steps_reachable|done|done].
Qed.

Lemma run_spec fuel mode p es :
  within_limits p ->
  within_limits (fst (run fuel mode p es)) /\
  rtc node_step (p_node p) (p_node (fst (run fuel mode p es))) /\
  forall data, data ∈ snd (run fuel mode p es) -> announced (p_node (fst (run fuel mode p es))) data.
Proof.
  revert p; induction es as [|e es IH]; intros p L; cbn [run].
  { split_and!; [done|done|]. intros data Hd. by apply not_elem_of_nil in Hd. }
  destruct (process_spec fuel mode p e L) as (L1 & S1 & A1).
  destruct (process fuel mode p e) as [p1 sent]. cbn [fst snd] in *.
  destruct (IH p1 L1) as (L2 & S2 & A2). destruct (run fuel mode p1 es) as [p2 sent']. cbn [fst snd] in *.
  split_and!; [done|by etrans|]. intros data [Hd|Hd]%elem_of_app; [|by apply A2].
  eapply announced_mono; [done|]. by apply A1.
Qed.

Lemma start_node_reachable fl newKey newBLS opened now n :
  start_node fl newKey newBLS opened now = Ok n -> node_reachable n.
Proof.
  unfold start_node. destruct (node_config _ _ _) as [cfg|]; [|done]. cbn [mbind result_bind].
  apply nr_new.
Qed.
End Process.

(** C11: a running process.  Started by [l1 node] with any flags and any database, after any
    sequence of ticks, HTTP requests, gossip messages and sync streams: every pending
    transaction is signed and carries the chain's id, the pool and the sync slots are
    within their limits, no stored block outweighs the head, replaying the head's branch
    gives the state; and each message it published is a block that it stores. *)
Theorem process_invariant `{Secp} `{!SecpBytes} `{Bolt} `{Gob} `{GobTx} `{Engine} `{GethEVM} `{Blst}
    `{!BlstKeys} `{!BlstBytes} `{ErrorText} `{OrderbookText}
    fl newKey newBLS opened now n fuel mode es p sent :
  start_node fl newKey newBLS opened now = Ok n ->
  run fuel mode (mkP2P n [] 0) es = (p, sent) ->
  let n' := p_node p in
  (forall tx, tx ∈ n_mempool n' -> wallet_Verify tx = true /\ tx_ChainID tx = ChainID (n_chain n')) /\
  MempoolLen n' <= MempoolCap n' /\
  (length (p_syncs p) <= maxConcurrentSyncs)%nat /\ (p_inbound p <= maxConcurrentInboundSyncs)%nat /\
  (forall h, is_Some (c_blocks (n_chain n') !! h) ->
     TotalDifficulty (n_chain n') h <= TotalDifficulty (n_chain n') (c_head (n_chain n'))) /\
  deriveState (n_chain n') (c_head (n_chain n')) (Some wallet_Verify) = Ok (State (n_chain n')) /\
  (forall data, data ∈ sent ->
     exists b, EncodeBlock b = Ok data /\ c_blocks (n_chain n') !! block_Hash b = Some b).
Proof.
  intros Hs Hr n'. assert (L : within_limits (mkP2P n [] 0)).
  { split_and!; [by eapply start_node_reachable|cbn; lia|cbn; lia]. }
  destruct (run_spec fuel mode _ es L) as ((R & Hsy & Hin) & _ & A). rewrite Hr in *. cbn [fst snd] in *.
  destruct (node_reachable_inv _ R) as [I P C D]. split_and!; try done.
  - intros tx Ht. rewrite Forall_forall in P. unfold ChainID, n'. rewrite D. by apply P.
  - apply I.
  - apply I.
Qed.

(** ** Sending *)

(** the serialized form of a key reads back as the key; bytes, and not empty *)
Class SecpBytesLaws `{SecpBytes} : Prop := {
  FromBytes_Serialize k : PrivKeyFromBytes (PrivKey_Serialize k) = k;
  Serialize_bytes k : all_bytes (PrivKey_Serialize k);
  Serialize_nonempty k : PrivKey_Serialize k <> [];
  Sign_bytes k d : all_bytes (SignCompact k d);
}.

Lemma flag_bytes_Encode b : all_bytes b -> flag_bytes (EncodeToString b) = Ok b.
Proof.
  intros Hb. unfold flag_bytes, TrimPrefix.
  replace (HasPrefix (str "0x") (EncodeToString b)) with false; [by apply Decode_Encode|].
  symmetry. destruct Hb as [|x b Hx Hb]; [done|]. cbn [EncodeToString].
  destruct (byte_nibbles x Hx) as [_ Hl]. change (str "0x") with [48; 120]. cbn [HasPrefix].
  apply andb_false_iff. right. apply andb_false_iff. left. apply Z.eqb_neq.
  unfold hex_digit. destruct (x mod 16 <? 10) eqn:E; lia.
Qed.

Lemma parseAddress_Hex a : addr_wf a -> parseAddress (Hex a) = Ok a.
Proof.
  intros [Hl Hb]. unfold parseAddress, Hex. rewrite flag_bytes_Encode by done.
  cbn [mbind result_bind]. rewrite Hl, Nat.eqb_refl. cbn [negb]. by rewrite copy_fixed_id.
Qed.

Lemma Encode_nonempty b : b <> [] -> bytes_eqb (EncodeToString b) [] = false.
Proof. by destruct b. Qed.

Section Send.
Context `{HK : Secp} `{HKB : !SecpBytes} `{HL : !SecpBytesLaws} `{HBolt : Bolt} `{HGob : Gob}.
Context `{HE : Engine} `{HG : GethEVM} `{HB : Blst} `{HBK : !BlstKeys}.
Context `{HT : ErrorText} `{HO : OrderbookText}.

Lemma Key_Address_wf k : addr_wf (Key_Address k).
Proof.
  unfold Key_Address, pubKeyAddress. set (d := SumHash _).
  assert (Hd : hash_wf d) by apply SumHash_wf. destruct Hd as [Hl Hb]. split; [apply length_copy_fixed|].
  unfold copy_fixed. apply Forall_app. split.
  - by apply Forall_take, Forall_drop.
  - apply Forall_replicate. unfold is_byte. lia.
Qed.

(** the flags of [l1 send] for a key printed by [l1 wallet new] *)
Definition send_flags (k : PrivKey) (to : Address) (value nonce fee tip : Z) : SendFlags :=
  mkSendFlags (EncodeToString (wallet_Bytes k)) (Hex to) value nonce fee tip.

(** the transfer they stand for; a nonce that is not given is 0 *)
Definition payment (k : PrivKey) (to : Address) (value nonce fee tip : Z) : Transaction :=
  Key_Sign k (mkTx zero_addr to value (if 0 <=? nonce then u64 nonce else 0) 21000 DefaultChainID fee tip [] []).

Lemma send_tx_flags k to value nonce fee tip :
  addr_wf to -> send_tx (send_flags k to value nonce fee tip) = Ok (payment k to value nonce fee tip).
Proof.
  intros Ht. unfold send_tx, send_flags. cbn [sf_key sf_to sf_value sf_nonce sf_maxFee sf_maxPriorityFee].
  unfold Hex, wallet_Bytes. rewrite Encode_nonempty by apply Serialize_nonempty.
  rewrite Encode_nonempty by (destruct Ht as [Hl _]; by destruct to). cbn [orb].
  rewrite flag_bytes_Encode by apply Serialize_bytes. cbn [mbind result_bind].
  fold (Hex to). rewrite parseAddress_Hex by done. cbn [mbind result_bind].
  unfold wallet_KeyFromBytes. by rewrite FromBytes_Serialize.
Qed.

Lemma payment_wf k to value nonce fee tip :
  addr_wf to -> is_u64 value -> is_u64 fee -> is_u64 tip -> tx_wf (payment k to value nonce fee tip).
Proof.
  intros Ht Hv Hf Htip. unfold tx_wf, payment.
  cbn [Key_Sign set_From set_Signature tx_From tx_To tx_Value tx_Nonce tx_GasLimit tx_ChainID
       tx_GasFeeCap tx_GasTipCap tx_Data tx_Signature].
  assert (Hn : is_u64 (if 0 <=? nonce then u64 nonce else 0)).
  { destruct (0 <=? nonce); [apply u64_range|done]. }
  unfold DefaultChainID, two64 in *.
  split_and!; first [apply Key_Address_wf | apply Ht | apply Sign_bytes | lia | constructor].
Qed.

Lemma cmdSend_served n fl tx :
  send_tx fl = Ok tx -> tx_wf tx ->
  cmdSend (fun _ => served n) fl =
  match snd (SubmitTx n tx) with
  | Ok _ => Ok (PrintTxHash (Hex (tx_Hash tx)))
  | Err _ => Err (ErrRPC codeInvalidParams)
  end.
Proof.
  intros E Htx. unfold cmdSend. rewrite E. cbn [mbind result_bind].
  rewrite SendRawTx_served by done. by destruct (snd (SubmitTx n tx)).
Qed.

(** without [--nonce], only the first transaction of an account can be sent *)
Lemma default_nonce_refused n k to value fee tip :
  addr_wf to -> is_u64 value -> is_u64 fee -> is_u64 tip ->
  fst (projectSender n (Key_Address k)) <> 0 ->
  cmdSend (fun _ => served n) (send_flags k to value (-1) fee tip) = Err (ErrRPC codeInvalidParams).
Proof.
  intros Ht Hv Hf Htip Hn.
  rewrite (cmdSend_served n _ _ (send_tx_flags k to value (-1) fee tip Ht)) by (by apply payment_wf).
  destruct (SubmitTx_cases n (payment k to value (-1) fee tip)) as [[A _]|[_ [e ->]]]; [|done].
  destruct A as [_ _ A _ _]. by destruct Hn.
Qed.
End Send.

(** C34: from [l1 wallet new] to a pending transaction.  The key and address that [wallet new]
    prints belong together: [send] with that key signs for that address, and the
    signature verifies.  Sent to a node on the default chain id, the transfer is pending
    exactly when its nonce is the sender's next one, it goes to the sender itself or its
    value is covered by what the sender's pending transactions leave, and the pool has room,
    and then its hash is printed; otherwise the command reports the invalid-parameters
    error and the node is unchanged. *)
Theorem wallet_to_pool `{Secp} `{!SecpLaws} `{!SecpBytes} `{!SecpBytesLaws} `{Bolt} `{Gob} `{Engine}
    `{GethEVM} `{Blst} `{!BlstKeys} `{ErrorText} `{OrderbookText} n k to value nonce fee tip :
  addr_wf to -> is_u64 value -> is_u64 nonce -> is_u64 fee -> is_u64 tip ->
  n_chainID n = DefaultChainID ->
  exists keyHex addrHex tx,
    cmdWallet [str "new"] (Ok k) = Ok (PrintWallet keyHex addrHex) /\
    send_tx (mkSendFlags keyHex (Hex to) value nonce fee tip) = Ok tx /\
    addrHex = Hex (tx_From tx) /\ wallet_Verify tx = true /\
    let next := projectSender n (tx_From tx) in
    let outcome := cmdSend (fun _ => served n) (mkSendFlags keyHex (Hex to) value nonce fee tip) in
    (nonce = fst next /\ (tx_From tx = to \/ value <= snd next) /\ MempoolLen n < n_maxMempool n ->
       outcome = Ok (PrintTxHash (Hex (tx_Hash tx))) /\
       SubmitTx n tx = (with_mempool n (n_mempool n ++ [tx]), Ok tt)) /\
    (~ (nonce = fst next /\ (tx_From tx = to \/ value <= snd next) /\ MempoolLen n < n_maxMempool n) ->
       outcome = Err (ErrRPC codeInvalidParams) /\ fst (SubmitTx n tx) = n).
Proof.
  intros Ht Hv Hn Hf Htip Hid. set (tx := payment k to value nonce fee tip).
  assert (En : tx_Nonce tx = nonce).
  { unfold tx, payment. cbn [Key_Sign set_From set_Signature tx_Nonce].
    destruct (Z.leb_spec 0 nonce); [by apply u64_small|lia]. }
  destruct (Key_Sign_verifies k (mkTx zero_addr to value (if 0 <=? nonce then u64 nonce else 0) 21000
    DefaultChainID fee tip [] [])) as [Hsig _].
  assert (C := cmdSend_served n _ tx (send_tx_flags k to value nonce fee tip Ht)
                 (payment_wf k to value nonce fee tip Ht Hv Hf Htip)). unfold send_flags in C.
  exists (EncodeToString (wallet_Bytes k)), (Hex (Key_Address k)), tx.
  split_and!; [done|by apply send_tx_flags|done|exact Hsig|]. cbv zeta. split.
  - intros (Hne & Hfu & Hro). assert (A : admissible n tx).
    { split; [exact Hsig|by rewrite Hid|by rewrite En|exact Hfu|exact Hro]. }
    pose proof (SubmitTx_ok n tx A) as E. split; [|exact E]. rewrite C, E. done.
  - intros Hno. destruct (SubmitTx_cases n tx) as [[A _]|[_ [e E]]].
    + destruct Hno. destruct A as [_ _ A1 A2 A3]. rewrite En in A1. by split_and!.
    + rewrite C, E. done.
Qed.

(** ** Examples *)

#[local] Existing Instance toy_secp.
#[local] Existing Instance toy_secp_laws.
#[local] Existing Instance toy_bolt.
#[local] Existing Instance toy_gob.
#[local] Existing Instance toy_engine.
#[local] Existing Instance toy_evm.
#[local] Existing Instance toy_blst.
#[local] Existing Instance toy_blst_keys.
#[local] Existing Instance toy_error_text.
#[local] Existing Instance toy_side_text.

Definition toy_secp_bytes : SecpBytes := {|
  PrivKeyFromBytes b := match b with x :: _ => if x =? 1 then Key1 else Key2 | [] => Key2 end;
  PrivKey_Serialize k := [toy_tag k] |}.
Definition toy_blst_bytes : BlstBytes := {|
  SecretKey_Deserialize b := match b with [x] => Some x | _ => None end;
  SecretKey_Serialize k := [k] |}.
Definition toy_gob_tx : GobTx := {| gob_tx _ := Err ErrStoreCorrupt; gob_untx _ := None |}.
#[local] Existing Instance toy_secp_bytes.
#[local] Existing Instance toy_blst_bytes.
#[local] Existing Instance toy_gob_tx.

#[local] Instance toy_secp_bytes_laws : SecpBytesLaws.
Proof.
  split; try (by intros []).
  - intros k. apply Forall_singleton. by destruct k.
  - intros k d. constructor; [by destruct k|]. apply Forall_replicate. unfold is_byte. lia.
Qed.

Lemma bob_wf : addr_wf bob.
Proof. split; [done|]. apply Forall_replicate. unfold is_byte. lia. Qed.

(** a balance that no chain ever gave *)
Definition invented : Account := mkAccount 123456789 0 zero_hash zero_hash.
Lemma invented_typed : account_typed invented.
Proof. split_and!; [done|done|done|done|apply zero_hash_wf|apply zero_hash_wf]. Qed.

Lemma verified_balance_forgeable_witness :
  exists post, cmdBalanceVerify post (Hex bob) =
    Ok (PrintVerified 123456789 7 (Hex (forged_root bob invented))).
Proof. apply (verified_balance_forgeable bob invented 7); [apply bob_wf|apply invented_typed|done]. Defined.

Lemma light_client_sound_witness :
  exists header, Hex (forged_root bob invented) = Hex (h_StateRoot header) /\
    MeetsTarget (header_Hash header) (h_Difficulty header) = true.
Proof.
  destruct (light_client_sound (liar bob invented 7) (Hex bob) 123456789 7 (Hex (forged_root bob invented)))
    as (a & res & blk & header & ap & _ & _ & _ & _ & _ & _ & _ & P & Q & _).
  - apply (liar_believed bob invented 7); [apply bob_wf|apply invented_typed|done].
  - exists header. exact (conj P Q).
Defined.

(** a node without allocations that mined one block *)
Definition bare_config : Config :=
  @mkConfig toy_secp toy_blst toy_blst_keys Key2 1 ∅ ∅ 1700000000 0 0 PoW [] None.
Definition bare_node : Node := Eval vm_compute in
  match New_node bare_config None 0 with
  | Ok n => n
  | Err _ => mkNode sample_chain None [] 0 (Key2 : @PrivKey toy_secp) 0 0 None 0 ∅ ∅
  end.
Definition mined_node : Node := Eval vm_compute in fst (MineBlock 64 bare_node 1700000010).
Definition miner_addr : Address := Eval vm_compute in @Key_Address toy_secp Key2.
Definition miner_ops : list world_op := [WAccount miner_addr 50 0].

Lemma mined_node_reachable : node_reachable mined_node.
Proof.
  assert (E : New_node bare_config None 0 = Ok bare_node) by (vm_compute; reflexivity).
  assert (E' : fst (MineBlock 64 bare_node 1700000010) = mined_node) by (vm_compute; reflexivity).
  apply (nr_step bare_node); [exact (nr_new _ _ _ _ E)|]. rewrite <- E'. apply ns_mine.
Qed.

Lemma light_client_complete_witness :
  let head := b_Header (node_Head mined_node) in
  cmdBalanceVerify (fun _ => served mined_node) (Hex miner_addr) =
  Ok (PrintVerified (node_Balance mined_node miner_addr) (h_Height head) (Hex (h_StateRoot head))) \/
  (cmdBalanceVerify (fun _ => served mined_node) (Hex miner_addr) = Ok PrintUntouched /\
   node_Balance mined_node miner_addr = 0).
Proof.
  apply (light_client_complete mined_node miner_addr miner_ops).
  - apply mined_node_reachable.
  - reflexivity.
  - vm_compute. discriminate.
  - assert (E : exists b, node_Head mined_node = b /\ block_wf b).
    { eexists. split; [vm_compute; reflexivity|]. split; [|constructor].
      unfold header_wf, hash_wf, addr_wf. split_and!; try done; repeat constructor; done. }
    destruct E as (b & -> & Hb). exact Hb.
  - split; [done|]. repeat constructor; done.
  - vm_compute. reflexivity.
  - repeat constructor; done.
  - apply hash_safeb_sound. vm_compute. reflexivity.
  - apply (bool_decide_unpack _). vm_compute. exact I.
Defined.

(** the flags that start the sample node *)
Definition sample_flags : NodeFlags :=
  mkNodeFlags (str "02") 1 (Hex key1_addr ++ str ":1000") [] [] 1700000000 (str "pow") [] [].

Lemma sample_flags_start :
  start_node sample_flags (Err ErrUsage) (Err ErrUsage) None 0 = Ok sample_node.
Proof.
  assert (E : node_config sample_flags (Err ErrUsage) (Err ErrUsage) = Ok (sample_config 0))
    by (vm_compute; reflexivity).
  unfold start_node. rewrite E. exact sample_node_new.
Qed.

Definition sample_events : list event :=
  [EHTTP (str "POST") (Some (Marshal (request_of (str "sendRawTx") [Marshal (TxToJSON signed_payment)])));
   ETick 1700000010; EHTTP (str "GET") None].

Lemma process_invariant_witness :
  let p := fst (run 64 PoW (mkP2P sample_node [] 0) sample_events) in
  MempoolLen (p_node p) <= MempoolCap (p_node p).
Proof.
  destruct (process_invariant sample_flags (Err ErrUsage) (Err ErrUsage) None 0 sample_node 64 PoW
    sample_events _ _ sample_flags_start (surjective_pairing _)) as (_ & P & _). exact P.
Defined.

Lemma wallet_to_pool_witness :
  exists keyHex addrHex, cmdWallet [str "new"] (Ok (Key1 : @PrivKey toy_secp)) = Ok (PrintWallet keyHex addrHex).
Proof.
  destruct (wallet_to_pool sample_node (Key1 : @PrivKey toy_secp) bob 70 0 0 0) as (k & a & tx & P & _);
    [apply bob_wf|done|done|done|done|reflexivity|]. exists k, a. exact P.
Defined.

(** the genesis block is not mined: on a fresh chain the default difficulty is not met, and an
    honest node's own answer is refused *)
Definition fresh_node : Node := Eval vm_compute in
  match New_node (@mkConfig toy_secp toy_blst toy_blst_keys Key2 8 {[key1_addr := 1000]} ∅ 1700000000 0 0
                    PoW [] None) None 0 with
  | Ok n => n
  | Err _ => sample_node
  end.

Example fresh_chain_refused :
  cmdBalanceVerify (fun _ => served fresh_node) (Hex key1_addr) = Err ErrHeaderPoW.
Proof. vm_compute. reflexivity. Qed.

(** a specification with spaces, an empty entry and a prefix; the last amount of an address counts *)
Example alloc_example :
  parseAlloc (str " 0x0202020202020202020202020202020202020202 : 5 ,, 0202020202020202020202020202020202020202:7 ")
  = Ok {[bob := 7]}.
Proof. vm_compute. reflexivity. Qed.

Example alloc_overflow :
  parseAlloc (str "0202020202020202020202020202020202020202:18446744073709551616") = Err ErrRange.
Proof. vm_compute. reflexivity. Qed.
