(* ===== verification/CliParse.v ===== *)
(** * The genesis specifications of the command line

    [parseAlloc] and [parseValidators] of cmd/l1/main.go invert the format their comments
    give, and whatever they accept is well typed. *)

From Stdlib Require Import String.
From S2P Require Import Prelude Sha256 Core Pow FeeMarket StateDB Mpt Pos StackVM Exchange.
From S2P Require Import Adapter Transition Chain ChainProps BlockBuilder Store Node P2P GoStd Rpc RpcProps Cli CliProps.

(** ** Printing *)

Fixpoint join (sep : Z) (parts : list bytes) : bytes :=
  match parts with
  | [] => []
  | [p] => p
  | p :: rest => p ++ sep :: join sep rest
  end.

(** addrHex:amount,addrHex:amount,... *)
Definition alloc_text (p : Address * Z) : bytes := Hex (fst p) ++ colon :: FormatUint (snd p).
Definition alloc_spec (l : list (Address * Z)) : bytes := join comma (map alloc_text l).

(** addrHex:blsPubKeyHex:stake,... *)
Definition validator_text (v : ValidatorInfo) : bytes :=
  Hex (v_Address v) ++ colon :: EncodeToString (v_BLSPubKey v) ++ colon :: FormatUint (v_Stake v).
Definition validator_spec (l : list ValidatorInfo) : bytes := join comma (map validator_text l).

(** ** Characters *)

(** a character of a hexadecimal or decimal number *)
Definition plain_char (c : Z) : bool := is_digit c || ((97 <=? c) && (c <=? 102)).
Abbreviation plain s := (forallb plain_char s = true).

Lemma plain_char_range c : plain_char c = true -> 48 <= c <= 57 \/ 97 <= c <= 102.
Proof.
  unfold plain_char, is_digit. rewrite orb_true_iff, !andb_true_iff, !Z.leb_le. lia.
Qed.

Lemma plain_hex b : all_bytes b -> plain (EncodeToString b).
Proof.
  assert (D : forall i, 0 <= i < 16 -> plain_char (hex_digit i) = true).
  { intros i Hi. unfold plain_char, is_digit, hex_digit. destruct (Z.ltb_spec i 10);
      rewrite orb_true_iff, !andb_true_iff, !Z.leb_le; lia. }
  induction 1 as [|x b Hx _ IH]; [done|]. destruct (byte_nibbles x Hx).
  cbn [EncodeToString forallb]. by rewrite !D, IH.
Qed.

Lemma plain_dec x : 0 <= x -> plain (FormatUint x).
Proof.
  intros Hx. pose proof (decimal_digits_all 20 x Hx) as Hd. unfold FormatUint, decimal.
  apply forallb_forall. intros c Hc. rewrite forallb_forall in Hd. unfold plain_char. by rewrite Hd.
Qed.

Lemma plain_not_elem sep s : plain s -> plain_char sep = false -> sep ∉ s.
Proof.
  intros Hs Hsep Hin. apply list_elem_of_In in Hin. rewrite forallb_forall in Hs.
  apply Hs in Hin. congruence.
Qed.

Definition spaceless (s : bytes) : Prop := forallb (fun c => negb (is_space c)) s = true.

Lemma plain_char_space c : plain_char c = true -> is_space c = false.
Proof.
  intros Hc%plain_char_range. unfold is_space.
  apply orb_false_iff. split; [apply Z.eqb_neq; lia|]. apply andb_false_iff. right. apply Z.leb_gt. lia.
Qed.

Lemma plain_spaceless s : plain s -> spaceless s.
Proof.
  intros Hs. apply forallb_forall. intros c Hc. rewrite forallb_forall in Hs.
  by rewrite plain_char_space by (by apply Hs).
Qed.

Lemma spaceless_app a b : spaceless a -> spaceless b -> spaceless (a ++ b).
Proof. unfold spaceless. rewrite forallb_app. by intros -> ->. Qed.

Lemma spaceless_cons c b : is_space c = false -> spaceless b -> spaceless (c :: b).
Proof. unfold spaceless. cbn [forallb]. by intros -> ->. Qed.

Lemma trim_left_spaceless s : spaceless s -> trim_left s = s.
Proof.
  destruct s as [|c s]; [done|]. unfold spaceless. cbn [forallb trim_left].
  rewrite andb_true_iff, negb_true_iff. by intros [-> _].
Qed.

Lemma TrimSpace_spaceless s : spaceless s -> TrimSpace s = s.
Proof.
  intros Hs. unfold TrimSpace. rewrite (trim_left_spaceless s) by done.
  rewrite trim_left_spaceless; [apply rev_involutive|].
  apply forallb_forall. intros c Hc. unfold spaceless in Hs. rewrite forallb_forall in Hs.
  apply Hs. by apply in_rev.
Qed.

(** ** Splitting *)

Lemma cut_hit sep a b : sep ∉ a -> cut sep (a ++ sep :: b) = (a, Some b).
Proof.
  induction a as [|c a IH]; intros Hn; cbn [app cut]; [by rewrite Z.eqb_refl|].
  apply not_elem_of_cons in Hn as [Hne Hn]. destruct (Z.eqb_spec c sep); [congruence|].
  by rewrite IH.
Qed.

Lemma cut_miss sep a : sep ∉ a -> cut sep a = (a, None).
Proof.
  induction a as [|c a IH]; intros Hn; cbn [cut]; [done|].
  apply not_elem_of_cons in Hn as [Hne Hn]. destruct (Z.eqb_spec c sep); [congruence|].
  by rewrite IH.
Qed.

Lemma SplitN_step s sep n :
  SplitN s sep (S (S n)) =
  match cut sep s with (a, None) => [a] | (a, Some b) => a :: SplitN b sep (S n) end.
Proof. done. Qed.

Lemma SplitN_join sep parts n :
  parts <> [] -> (length parts <= S n)%nat -> Forall (fun p => sep ∉ p) parts ->
  SplitN (join sep parts) sep (S n) = parts.
Proof.
  revert n; induction parts as [|p parts IH]; intros n Hne Hlen Hp; [done|].
  apply Forall_cons in Hp as [Hp Hps]. destruct parts as [|q parts].
  - destruct n as [|n]; [done|]. cbn [join]. rewrite SplitN_step. by rewrite cut_miss.
  - destruct n as [|n]; [cbn [length] in Hlen; lia|].
    change (join sep (p :: q :: parts)) with (p ++ sep :: join sep (q :: parts)).
    rewrite SplitN_step, cut_hit by done. f_equal. apply IH; [done|cbn [length] in *; lia|done].
Qed.

Lemma length_join sep parts : (length parts <= S (length (join sep parts)))%nat.
Proof.
  induction parts as [|p [|q parts] IH]; [cbn; lia|cbn; lia|].
  change (join sep (p :: q :: parts)) with (p ++ sep :: join sep (q :: parts)).
  rewrite length_app, length_cons. cbn [length] in *. lia.
Qed.

Lemma Split_join sep parts :
  parts <> [] -> Forall (fun p => sep ∉ p) parts -> Split (join sep parts) sep = parts.
Proof.
  intros Hne Hp. apply SplitN_join; [done|apply length_join|done].
Qed.

(** ** Entries *)

Lemma comma_plain : plain_char comma = false.
Proof. done. Qed.
Lemma colon_plain : plain_char colon = false.
Proof. done. Qed.

Lemma not_elem_of_join3 sep s t : sep <> colon -> sep ∉ s -> sep ∉ t -> sep ∉ s ++ colon :: t.
Proof. intros H1 H2 H3. rewrite elem_of_app, elem_of_cons. intros [?|[?|?]]; done. Qed.

Definition alloc_ok (p : Address * Z) : Prop := addr_wf (fst p) /\ is_u64 (snd p).
Definition validator_ok (v : ValidatorInfo) : Prop :=
  addr_wf (v_Address v) /\ all_bytes (v_BLSPubKey v) /\ is_u64 (v_Stake v).

Lemma alloc_text_spec p :
  alloc_ok p ->
  alloc_text p <> [] /\ (comma ∉ alloc_text p) /\ spaceless (alloc_text p) /\
  alloc_entry (alloc_text p) = Ok p.
Proof.
  intros [Ha Hv]. assert (Pa := plain_hex _ (proj2 Ha)). assert (Pv := plain_dec (snd p) ltac:(lia)).
  unfold alloc_text, Hex. split_and!.
  - by destruct (EncodeToString (fst p)).
  - apply not_elem_of_join3; [done|by apply plain_not_elem..].
  - apply spaceless_app; [by apply plain_spaceless|]. apply spaceless_cons; [done|by apply plain_spaceless].
  - unfold alloc_entry. cbn [SplitN]. rewrite cut_hit by (by apply plain_not_elem).
    rewrite !TrimSpace_spaceless by (by apply plain_spaceless). fold (Hex (fst p)).
    rewrite parseAddress_Hex by done. cbn [mbind result_bind]. rewrite ParseUint_Format by done.
    by destruct p.
Qed.

Lemma validator_text_spec v :
  validator_ok v ->
  validator_text v <> [] /\ (comma ∉ validator_text v) /\ spaceless (validator_text v) /\
  validator_entry (validator_text v) = Ok v.
Proof.
  intros (Ha & Hk & Hs). assert (Pa := plain_hex _ (proj2 Ha)). assert (Pk := plain_hex _ Hk).
  assert (Ps := plain_dec (v_Stake v) ltac:(lia)). unfold validator_text, Hex. split_and!.
  - by destruct (EncodeToString (v_Address v)).
  - repeat apply not_elem_of_join3; [done|by apply plain_not_elem|done|by apply plain_not_elem..].
  - repeat (apply spaceless_app; [by apply plain_spaceless|]; apply spaceless_cons; [done|]).
    by apply plain_spaceless.
  - unfold validator_entry. cbn [SplitN]. rewrite cut_hit by (by apply plain_not_elem).
    rewrite cut_hit by (by apply plain_not_elem).
    rewrite !TrimSpace_spaceless by (by apply plain_spaceless). fold (Hex (v_Address v)).
    rewrite parseAddress_Hex by done. cbn [mbind result_bind].
    rewrite flag_bytes_Encode by done. cbn [mbind result_bind]. rewrite ParseUint_Format by done.
    by destruct v.
Qed.

Lemma spaceless_join parts : Forall spaceless parts -> spaceless (join comma parts).
Proof.
  induction 1 as [|p parts Hp Hps IH]; [done|]. destruct parts as [|q parts]; [done|].
  change (join comma (p :: q :: parts)) with (p ++ comma :: join comma (q :: parts)).
  apply spaceless_app; [done|]. by apply spaceless_cons.
Qed.

Lemma join_nonempty sep p parts : p <> [] -> bytes_eqb (join sep (p :: parts)) [] = false.
Proof. destruct p as [|c p]; [done|]. intros _. by destruct parts. Qed.

(** the entries of a specification, split *)
Lemma spec_split {A} (text : A -> bytes) (x : A) (l : list A) :
  Forall (fun x => text x <> [] /\ (comma ∉ text x) /\ spaceless (text x)) (x :: l) ->
  let spec := join comma (map text (x :: l)) in
  TrimSpace spec = spec /\ bytes_eqb spec [] = false /\ Split spec comma = map text (x :: l).
Proof.
  intros Hl spec. split_and!.
  - apply TrimSpace_spaceless, spaceless_join, Forall_map. eapply Forall_impl; [done|]. by intros ? (_ & _ & ?).
  - apply Forall_cons in Hl as [(Hx & _) _]. by apply join_nonempty.
  - apply Split_join; [done|]. apply Forall_map. eapply Forall_impl; [done|]. by intros ? (_ & ? & _).
Qed.

Lemma alloc_loop_text m l :
  Forall alloc_ok l ->
  alloc_loop m (map alloc_text l) = Ok (foldl (fun m p => <[fst p := snd p]> m) m l).
Proof.
  revert m; induction l as [|p l IH]; intros m Hl; [done|]. apply Forall_cons in Hl as [Hp Hl].
  destruct (alloc_text_spec p Hp) as (Hne & _ & Hsp & He). cbn [map alloc_loop].
  rewrite TrimSpace_spaceless by done.
  destruct (bytes_eqb (alloc_text p) []) eqn:E; [by apply bytes_eqb_eq in E|].
  rewrite He. cbn [mbind result_bind]. destruct p as [a v]. by apply IH.
Qed.

Lemma validators_loop_text l : Forall validator_ok l -> validators_loop (map validator_text l) = Ok l.
Proof.
  induction 1 as [|v l Hv Hl IH]; [done|].
  destruct (validator_text_spec v Hv) as (Hne & _ & Hsp & He). cbn [map validators_loop].
  rewrite TrimSpace_spaceless by done.
  destruct (bytes_eqb (validator_text v) []) eqn:E; [by apply bytes_eqb_eq in E|].
  rewrite He. cbn [mbind result_bind]. by rewrite IH.
Qed.

(** ** What is accepted *)

Lemma parseAddress_wf s a : parseAddress s = Ok a -> addr_wf a.
Proof.
  unfold parseAddress, flag_bytes. intros H. binds H.
  destruct (Nat.eqb_spec (length a0) AddrLen) as [El|]; [|done].
  apply Ok_inj in H as <-. rewrite copy_fixed_id by done. apply Decode_bytes in E as [Hb _]. by split.
Qed.

Lemma alloc_entry_ok s p : alloc_entry s = Ok p -> alloc_ok p.
Proof.
  unfold alloc_entry. destruct (SplitN s colon 2) as [|k [|v [|]]]; try done.
  intros H. binds H. apply Ok_inj in H as <-. split; cbn [fst snd].
  - by eapply parseAddress_wf.
  - by eapply ParseUint_range.
Qed.

Lemma alloc_loop_ok m parts m' :
  map_Forall (fun a v => alloc_ok (a, v)) m -> alloc_loop m parts = Ok m' ->
  map_Forall (fun a v => alloc_ok (a, v)) m'.
Proof.
  revert m; induction parts as [|s parts IH]; intros m Hm; cbn [alloc_loop]; [by intros <-%Ok_inj|].
  destruct (bytes_eqb _ []); [by apply IH|]. intros H. binds H. destruct a as [addr amt].
  apply alloc_entry_ok in E. apply (IH (<[addr := amt]> m)); [|done]. by apply map_Forall_insert_2.
Qed.

Lemma validators_loop_ok parts l : validators_loop parts = Ok l -> Forall validator_ok l.
Proof.
  revert l; induction parts as [|s parts IH]; intros l; cbn [validators_loop]; [by intros <-%Ok_inj|].
  destruct (bytes_eqb _ []); [by apply IH|]. intros H. binds H. apply Ok_inj in H as <-.
  constructor; [|by apply IH]. clear IH E0. unfold validator_entry in E.
  destruct (SplitN _ colon 3) as [|a1 [|a2 [|a3 [|]]]]; try done. binds E. apply Ok_inj in E as <-.
  split_and!; cbn [v_Address v_BLSPubKey v_Stake];
    [by eapply parseAddress_wf|unfold flag_bytes in E1; by apply Decode_bytes in E1 as [? _]
    |by eapply ParseUint_range..].
Qed.

(** ** Properties *)

(** The genesis allocation.  Parsing the text of any list of entries gives the map that
    assigns each address its last amount, the empty list the empty map; and whatever
    text is accepted, every address of the result has 20 bytes and every amount fits 64
    bits. *)
Theorem parseAlloc_exact :
  (forall l, Forall alloc_ok l ->
     parseAlloc (alloc_spec l) = Ok (foldl (fun m p => <[fst p := snd p]> m) ∅ l)) /\
  (forall spec m, parseAlloc spec = Ok m -> map_Forall (fun a v => addr_wf a /\ is_u64 v) m).
Proof.
  split.
  - intros l Hl. destruct l as [|p l]; [done|]. unfold parseAlloc, alloc_spec.
    destruct (spec_split alloc_text p l) as (-> & -> & ->); [|by apply alloc_loop_text].
    eapply Forall_impl; [done|]. intros q Hq. by destruct (alloc_text_spec q Hq) as (? & ? & ? & _).
  - intros spec m. unfold parseAlloc. destruct (bytes_eqb _ []).
    + intros <-%Ok_inj. apply map_Forall_empty.
    + apply alloc_loop_ok, map_Forall_empty.
Qed.

(** The validator set.  Parsing the text of any list of validators gives that list, in
    its order; and whatever text is accepted, every validator has an address of 20
    bytes and a stake that fits 64 bits. *)
Theorem parseValidators_exact :
  (forall l, Forall validator_ok l -> parseValidators (validator_spec l) = Ok l) /\
  (forall spec l, parseValidators spec = Ok l -> Forall validator_ok l).
Proof.
  split.
  - intros l Hl. destruct l as [|v l]; [done|]. unfold parseValidators, validator_spec.
    destruct (spec_split validator_text v l) as (-> & -> & ->); [|by apply validators_loop_text].
    eapply Forall_impl; [done|]. intros q Hq. by destruct (validator_text_spec q Hq) as (? & ? & ? & _).
  - intros spec l. unfold parseValidators. destruct (bytes_eqb _ []); [by intros <-%Ok_inj|].
    apply validators_loop_ok.
Qed.
