(* ===== verification/Discovery.v ===== *)
(** * Hosts, discovery and the start of a node

    Models p2p/host.go, p2p/mdns.go, p2p/dht.go, p2p/relay.go, the set-up half of
    p2p/gossip.go ([NewP2P], [Start], [Wire]) and the start of [cmdNode] in cmd/l1/main.go.
    What these do is call libp2p in a certain order: a run is the sequence of calls made,
    and the library answers each call from the history before it, so that every statement
    here holds whatever the network does. *)

From Stdlib Require Import String.
From S2P Require Import Prelude Sha256 Core Pow FeeMarket StateDB Mpt Pos StackVM Exchange.
From S2P Require Import Adapter Transition Chain BlockBuilder Store Node P2P GoStd Rpc Cli.

Create HintDb calls.

(** ** The library *)

(** peer identities and multiaddresses *)
Class Peers := {
  PeerID : Type;
  #[global] PeerID_eq :: EqDecision PeerID;
  PeerID_String : PeerID -> bytes;
  Multiaddr : Type;
  NewMultiaddr : bytes -> result Multiaddr;
  Multiaddr_String : Multiaddr -> bytes;
  IdKey : Type;
  IDFromPrivateKey : IdKey -> PeerID;
  (** [crypto.GenerateEd25519Key] on a reader of the given 32 bytes *)
  GenerateEd25519Key : bytes -> result IdKey;
}.

Record AddrInfo `{Peers} := mkAddrInfo { ai_ID : PeerID; ai_Addrs : list Multiaddr }.
Arguments mkAddrInfo {_} _ _.

Class AddrInfos `{Peers} := {
  AddrInfoFromP2pAddr : Multiaddr -> result AddrInfo;
  AddrInfoToP2pAddrs : AddrInfo -> result (list Multiaddr);
}.

(** the calls whose effects are outside the process *)
Inductive lib_call `{Peers} :=
| CNewConnManager (low high grace : Z)
| CNewHost (id : IdKey) (listen : list bytes)
| CListenTCP (addr : bytes)
| CAddAddrs (info : AddrInfo)
| CConnect (info : AddrInfo)
| CNewGossipSub
| CRegisterTopicValidator (topic : bytes)
| CJoin (topic : bytes)
| CSubscribe (topic : bytes)
| CSetStreamHandler (protocol : bytes)
| CNewRelay
| CReserve (relay : AddrInfo)
| CStartMdns (tag : bytes)
| CNewDHT (prefix : bytes)
| CBootstrap
| CCloseDHT
| CAdvertise (rendezvous : bytes).

(** what the library answers after a history of calls *)
Class Libp2p `{Peers} := {
  lib_do : list lib_call -> lib_call -> result unit;
  lib_Addrs : list lib_call -> list Multiaddr;
  lib_Connected : list lib_call -> PeerID -> bool;
  lib_FindPeers : list lib_call -> bytes -> result (list AddrInfo);
}.

(** a computation that calls the library: the calls made so far and a result *)
Definition M `{Peers} (A : Type) : Type := list lib_call -> list lib_call * result A.

#[export] Instance M_ret `{Peers} : MRet M := fun A a tr => (tr, Ok a).
#[export] Instance M_bind `{Peers} : MBind M := fun A B k m tr =>
  match m tr with
  | (tr, Ok a) => k a tr
  | (tr, Err e) => (tr, Err e)
  end.

Section Discovery.
Context `{HP : Peers} `{HAI : !AddrInfos} `{HL : !Libp2p}.

Definition issue (c : lib_call) : M unit := fun tr => (tr ++ [c], lib_do tr c).
Definition lift {A} (r : result A) : M A := fun tr => (tr, r).

(** the error is dropped or only logged *)
Definition ignoring {A} (m : M A) : M unit := fun tr => (fst (m tr), Ok tt).

(** ** host.go *)

Definition connLow : Z := 20.
Definition connHigh : Z := 100.

Definition newConnManager : M unit := issue (CNewConnManager connLow connHigh 10).

Record HostConfig := mkHostConfig {
  hc_ListenHost : bytes;
  hc_ListenPort : Z;
  hc_IdentityKey : option IdKey;
}.

Record Host := mkHost { host_ID : PeerID; host_Addrs : list Multiaddr }.

Definition tcp_addr (host : bytes) (port : Z) : bytes :=
  str "/ip4/" ++ host ++ str "/tcp/" ++ FormatInt port.
Definition quic_addr (host : bytes) (port : Z) : bytes :=
  str "/ip4/" ++ host ++ str "/udp/" ++ FormatInt port ++ str "/quic-v1".

Definition host_listens : M (list Multiaddr) := fun tr => (tr, Ok (lib_Addrs tr)).

(** [generated] is what [crypto.GenerateKeyPair] returns *)
Definition NewHostWithConfig (cfg : HostConfig) (generated : result IdKey) : M Host :=
  let listenHost := if bytes_eqb (hc_ListenHost cfg) [] then str "127.0.0.1" else hc_ListenHost cfg in
  priv ← lift (match hc_IdentityKey cfg with None => generated | Some k => Ok k end);
  _ ← newConnManager;
  _ ← issue (CNewHost priv [tcp_addr listenHost (hc_ListenPort cfg); quic_addr listenHost (hc_ListenPort cfg)]);
  addrs ← host_listens;
  mret (mkHost (IDFromPrivateKey priv) addrs).

Definition NewHost (listenPort : Z) (generated : result IdKey) : M Host :=
  NewHostWithConfig (mkHostConfig [] listenPort None) generated.

Definition IdentityFromSeed (hexSeed : bytes) : result IdKey :=
  raw ← DecodeString (TrimPrefix hexSeed (str "0x"));
  GenerateEd25519Key (sha256 raw).

(** [Connect] from the host to another *)
Definition Connect (b : Host) : M unit :=
  let info := mkAddrInfo (host_ID b) (host_Addrs b) in
  _ ← ignoring (issue (CAddAddrs info));
  issue (CConnect info).

Definition FullAddrs (h : Host) : list bytes :=
  match AddrInfoToP2pAddrs (mkAddrInfo (host_ID h) (host_Addrs h)) with
  | Err _ => []
  | Ok addrs => map Multiaddr_String addrs
  end.

Definition parse_addr (addr : bytes) : result AddrInfo :=
  m ← NewMultiaddr addr;
  AddrInfoFromP2pAddr m.

Definition ConnectAddr (addr : bytes) : M unit :=
  info ← lift (parse_addr addr);
  _ ← ignoring (issue (CAddAddrs info));
  issue (CConnect info).

(** ** mdns.go *)

Definition DefaultMDNSTag : bytes := str "l1chain-mdns".

Definition HandlePeerFound (h : Host) (pi : AddrInfo) : M unit :=
  if bool_decide (ai_ID pi = host_ID h) then mret tt
  else ignoring (issue (CConnect pi)).

Definition EnableMDNS (serviceTag : bytes) : M unit :=
  let serviceTag := if bytes_eqb serviceTag [] then DefaultMDNSTag else serviceTag in
  issue (CStartMdns serviceTag).

(** ** dht.go *)

Definition DefaultDHTRendezvous : bytes := str "l1chain-dht".
Definition dhtProtocolPrefix : bytes := str "/l1chain".

(** the loop over the bootstrap peers *)
Fixpoint dial_bootstrap (h : Host) (pis : list AddrInfo) : M unit :=
  match pis with
  | [] => mret tt
  | pi :: rest =>
      if bool_decide (ai_ID pi = host_ID h) then dial_bootstrap h rest
      else
        _ ← ignoring (issue (CConnect pi));
        dial_bootstrap h rest
  end.

Definition bootstrap_or_close : M unit := fun tr =>
  match issue CBootstrap tr with
  | (tr, Ok _) => (tr, Ok tt)
  | (tr, Err e) => (fst (issue CCloseDHT tr), Err e)
  end.

Definition Connectedness (id : PeerID) : M bool := fun tr => (tr, Ok (lib_Connected tr id)).

(** the loop over the peers a search found *)
Fixpoint dial_found (h : Host) (found : list AddrInfo) : M unit :=
  match found with
  | [] => mret tt
  | pi :: rest =>
      if bool_decide (ai_ID pi = host_ID h) then dial_found h rest
      else
        connected ← Connectedness (ai_ID pi);
        if connected : bool then dial_found h rest
        else
          _ ← ignoring (issue (CConnect pi));
          dial_found h rest
  end.

Definition FindPeers (rendezvous : bytes) : M (result (list AddrInfo)) :=
  fun tr => (tr, Ok (lib_FindPeers tr rendezvous)).

(** one round of the background loop *)
Definition dht_round (h : Host) (rendezvous : bytes) : M unit :=
  _ ← ignoring (issue (CAdvertise rendezvous));
  found ← FindPeers rendezvous;
  match found with
  | Err _ => mret tt
  | Ok found => dial_found h found
  end.

(** the round that the background loop repeats until the context ends *)
Definition EnableDHTDiscovery (h : Host) (bootstrapPeers : list AddrInfo) (rendezvous : bytes)
    : M (M unit) :=
  _ ← issue (CNewDHT dhtProtocolPrefix);
  _ ← bootstrap_or_close;
  _ ← dial_bootstrap h bootstrapPeers;
  mret (dht_round h rendezvous).

(** ** relay.go *)

Definition EnableRelayService : M unit := issue CNewRelay.
Definition ReserveRelaySlot (relay : AddrInfo) : M unit := issue (CReserve relay).

Definition circuit_string (relayID targetID : PeerID) : bytes :=
  str "/p2p/" ++ PeerID_String relayID ++ str "/p2p-circuit/p2p/" ++ PeerID_String targetID.
Definition CircuitAddr (relayID targetID : PeerID) : result Multiaddr :=
  NewMultiaddr (circuit_string relayID targetID).

(** ** gossip.go: setting up *)

Definition BlockTopic : bytes := str "l1/blocks".
Definition TxTopic : bytes := str "l1/txs".
Definition SyncProtocol : bytes := str "/l1/sync/1.0.0".

Definition NewP2P : M unit :=
  _ ← issue CNewGossipSub;
  _ ← issue (CRegisterTopicValidator BlockTopic);
  _ ← issue (CRegisterTopicValidator TxTopic);
  _ ← issue (CJoin BlockTopic);
  issue (CJoin TxTopic).

Definition Start : M unit :=
  _ ← ignoring (issue (CSetStreamHandler SyncProtocol));
  _ ← issue (CSubscribe BlockTopic);
  issue (CSubscribe TxTopic).
Definition Wire : M unit := Start.

(** ** [cmdNode] up to its loop *)

Record NetFlags := mkNetFlags {
  wf_rpcAddr : bytes;
  wf_listenHost : bytes;
  wf_listen : Z;
  wf_identityKey : bytes;
  wf_relayService : bool;
  wf_relay : bytes;
  wf_mdns : bool;
  wf_dht : bool;
  wf_dhtBootstrap : bytes;
}.

Definition host_config (wf : NetFlags) : result HostConfig :=
  if negb (bytes_eqb (wf_identityKey wf) []) then
    id ← IdentityFromSeed (wf_identityKey wf);
    Ok (mkHostConfig (wf_listenHost wf) (wf_listen wf) (Some id))
  else Ok (mkHostConfig (wf_listenHost wf) (wf_listen wf) None).

Definition start_relays (wf : NetFlags) : M unit :=
  _ ← (if wf_relayService wf then EnableRelayService else mret tt);
  if negb (bytes_eqb (wf_relay wf) []) then
    relayInfo ← lift (parse_addr (wf_relay wf));
    ReserveRelaySlot relayInfo
  else mret tt.

Fixpoint dial_peers (addrs : list bytes) : M unit :=
  match addrs with
  | [] => mret tt
  | addr :: rest =>
      _ ← ignoring (ConnectAddr addr);
      dial_peers rest
  end.

Fixpoint bootstrap_infos (addrs : list bytes) : result (list AddrInfo) :=
  match addrs with
  | [] => Ok []
  | addr :: rest =>
      pi ← parse_addr addr;
      pis ← bootstrap_infos rest;
      Ok (pi :: pis)
  end.

Definition start_discovery (wf : NetFlags) (h : Host) : M unit :=
  _ ← (if wf_mdns wf then EnableMDNS DefaultMDNSTag else mret tt);
  if wf_dht wf then
    dhtBootstrap ← lift (bootstrap_infos (split_addrs (wf_dhtBootstrap wf)));
    _ ← EnableDHTDiscovery h dhtBootstrap DefaultDHTRendezvous;
    mret tt
  else mret tt.

(** everything after the node is built: the host that runs, or the error [cmdNode] returns *)
Definition start_network (wf : NetFlags) (peers : bytes) (generated : result IdKey) : M Host :=
  _ ← issue (CListenTCP (wf_rpcAddr wf));
  hostCfg ← lift (host_config wf);
  h ← NewHostWithConfig hostCfg generated;
  _ ← NewP2P;
  _ ← Wire;
  _ ← start_relays wf;
  _ ← dial_peers (split_addrs peers);
  _ ← start_discovery wf h;
  mret h.

(** the process [cmdNode] runs, once everything started *)
Context `{HK : Secp} `{HKB : !SecpBytes} `{HBolt : Bolt} `{HGob : Gob}.
Context `{HE : Engine} `{HG : GethEVM} `{HB : Blst} `{HBK : !BlstKeys} `{HBB : !BlstBytes}.

Definition cmdNode_start (fl : NodeFlags) (wf : NetFlags) (newKey : result PrivKey)
    (newBLS : result SecretKey) (opened : option DB) (now : Z) (generated : result IdKey)
    : M (Host * P2P) :=
  n ← lift (start_node fl newKey newBLS opened now);
  h ← start_network wf (nf_peers fl) generated;
  mret (h, mkP2P n [] 0).
End Discovery.

(** ** Reasoning about histories *)

Section Triples.
Context `{HP : Peers} `{HAI : !AddrInfos} `{HL : !Libp2p}.

(** from a history in [P], [m] ends with a value and a history in [Q], or fails in [E] *)
Definition triple {A} (P : list lib_call -> Prop) (m : M A) (Q : A -> list lib_call -> Prop)
    (E : list lib_call -> Prop) : Prop :=
  forall tr, P tr -> match m tr with (tr', Ok a) => Q a tr' | (tr', Err _) => E tr' end.

Lemma triple_bind {A B} P (m : M A) (k : A -> M B) Q R E :
  triple P m Q E -> (forall a, triple (Q a) (k a) R E) -> triple P (m ≫= k) R E.
Proof.
  intros Hm Hk tr Hp. unfold mbind, M_bind. specialize (Hm tr Hp).
  destruct (m tr) as [tr' [a|e]]; [exact (Hk a tr' Hm)|done].
Qed.

Lemma triple_impl {A} (P P' : list lib_call -> Prop) (m : M A) (Q Q' : A -> list lib_call -> Prop) E :
  triple P' m Q' E -> (forall tr, P tr -> P' tr) -> (forall a tr, Q' a tr -> Q a tr) -> triple P m Q E.
Proof.
  intros Hm Hp Hq tr Ht. specialize (Hm tr (Hp tr Ht)). destruct (m tr) as [tr' [a|e]]; [by apply Hq|done].
Qed.

Lemma triple_pure {A} (phi : Prop) P (m : M A) Q E :
  (phi -> triple P m Q E) -> triple (fun tr => phi /\ P tr) m Q E.
Proof. intros Hm tr [Hphi Hp]. exact (Hm Hphi tr Hp). Qed.

Lemma triple_ret {A} (a : A) (P : A -> list lib_call -> Prop) E : triple (P a) (mret a) P E.
Proof. by intros tr Hp. Qed.

Lemma triple_lift {A} (x : result A) (P : list lib_call -> Prop) :
  triple P (lift x) (fun a tr => x = Ok a /\ P tr) P.
Proof. intros tr Hp. unfold lift. by destruct x. Qed.

Lemma triple_call c (P Q E : list lib_call -> Prop) :
  (forall tr, P tr -> Q (tr ++ [c]) /\ E (tr ++ [c])) -> triple P (issue c) (fun _ => Q) E.
Proof. intros Hc tr Hp. unfold issue. destruct (Hc tr Hp) as [Hq He]. by destruct (lib_do tr c). Qed.

Lemma triple_ignoring {A} (m : M A) (P Q : list lib_call -> Prop) E :
  triple P m (fun _ => Q) Q -> triple P (ignoring m) (fun _ => Q) E.
Proof.
  intros Hm tr Hp. specialize (Hm tr Hp). unfold ignoring. by destruct (m tr) as [tr' [a|e]].
Qed.

(** an invariant of the history that every call of [m] keeps *)
Definition keeps {A} (I : list lib_call -> Prop) (m : M A) : Prop := triple I m (fun _ => I) I.

Lemma keeps_bind {A B} I (m : M A) (k : A -> M B) :
  keeps I m -> (forall a, keeps I (k a)) -> keeps I (m ≫= k).
Proof. intros Hm Hk. exact (triple_bind _ _ _ _ _ _ Hm Hk). Qed.

Lemma keeps_call I c : (forall tr, I tr -> I (tr ++ [c])) -> keeps I (issue c).
Proof. intros Hc. apply triple_call. auto. Qed.

Lemma keeps_ret {A} I (a : A) : keeps I (mret a).
Proof. by intros tr. Qed.

Lemma keeps_lift {A} I (x : result A) : keeps I (lift x).
Proof. intros tr Hi. by destruct x. Qed.

Lemma keeps_ignoring {A} I (m : M A) : keeps I m -> keeps I (ignoring m).
Proof. intros Hm. exact (triple_ignoring m I I I Hm). Qed.
End Triples.

#[export] Hint Resolve keeps_bind keeps_call keeps_ret keeps_lift keeps_ignoring : calls.

(** ** Discovery *)

Section DiscoveryProps.
Context `{HP : Peers} `{HAI : !AddrInfos} `{HL : !Libp2p}.

(** since [tr0], no connection to [self] was asked for *)
Definition no_self_dial (self : PeerID) (tr0 tr : list lib_call) : Prop :=
  exists new, tr = tr0 ++ new /\ forall pi, CConnect pi ∈ new -> ai_ID pi <> self.

Lemma no_self_dial_call self tr0 c :
  (forall pi, c = CConnect pi -> ai_ID pi <> self) -> keeps (no_self_dial self tr0) (issue c).
Proof.
  intros Hc. apply keeps_call. intros tr (new & -> & Hn). exists (new ++ [c]).
  split; [by rewrite app_assoc|]. intros pi [Hi|Hi]%elem_of_app; [by apply Hn|].
  apply list_elem_of_singleton in Hi. by apply Hc.
Qed.

Lemma HandlePeerFound_keeps h pi tr0 : keeps (no_self_dial (host_ID h) tr0) (HandlePeerFound h pi).
Proof.
  unfold HandlePeerFound. case_bool_decide as Hd; [apply keeps_ret|].
  apply keeps_ignoring, no_self_dial_call. by intros pi' [= <-].
Qed.

Lemma dial_bootstrap_keeps h pis tr0 : keeps (no_self_dial (host_ID h) tr0) (dial_bootstrap h pis).
Proof.
  induction pis as [|pi pis IH]; cbn [dial_bootstrap]; [apply keeps_ret|].
  case_bool_decide as Hd; [done|]. apply keeps_bind; [|done].
  apply keeps_ignoring, no_self_dial_call. by intros pi' [= <-].
Qed.

Lemma EnableDHTDiscovery_keeps h pis rendezvous tr0 :
  keeps (no_self_dial (host_ID h) tr0) (EnableDHTDiscovery h pis rendezvous).
Proof.
  unfold EnableDHTDiscovery. apply keeps_bind; [by apply no_self_dial_call|]. intros _.
  apply keeps_bind; [|intros _; apply keeps_bind; [apply dial_bootstrap_keeps|intros _; apply keeps_ret]].
  unfold bootstrap_or_close. intros tr Ht.
  pose proof (no_self_dial_call (host_ID h) tr0 CBootstrap ltac:(done) tr Ht) as Hb.
  destruct (issue CBootstrap tr) as [tr1 [u|e]]; [done|].
  pose proof (no_self_dial_call (host_ID h) tr0 CCloseDHT ltac:(done) tr1 Hb) as Hc.
  by destruct (issue CCloseDHT tr1) as [tr2 [u|e']].
Qed.

Lemma dial_found_keeps h found tr0 : keeps (no_self_dial (host_ID h) tr0) (dial_found h found).
Proof.
  induction found as [|pi found IH]; cbn [dial_found]; [apply keeps_ret|].
  case_bool_decide as Hd; [done|]. apply keeps_bind; [by intros tr Ht|]. intros []; [done|].
  apply keeps_bind; [|done]. apply keeps_ignoring, no_self_dial_call. by intros pi' [= <-].
Qed.

Lemma dht_round_keeps h rendezvous tr0 : keeps (no_self_dial (host_ID h) tr0) (dht_round h rendezvous).
Proof.
  unfold dht_round. apply keeps_bind; [by apply keeps_ignoring, no_self_dial_call|]. intros _.
  apply keeps_bind; [by intros tr Ht|]. intros [found|e]; [apply dial_found_keeps|apply keeps_ret].
Qed.
End DiscoveryProps.

(** A node never dials itself through discovery: whatever is announced on the local network
    or found in the DHT, its own record included, none of the connections that mDNS, the
    seeding of the DHT or a round of its background loop asks for is to its own identity. *)
Theorem discovery_never_dials_self `{Peers} `{!AddrInfos} `{!Libp2p} h pi pis rendezvous (m : M unit) tr :
  m ∈ [HandlePeerFound h pi; ignoring (EnableDHTDiscovery h pis rendezvous); dht_round h rendezvous] ->
  exists new, fst (m tr) = tr ++ new /\ forall pi, CConnect pi ∈ new -> ai_ID pi <> host_ID h.
Proof.
  intros Hm. assert (K : keeps (no_self_dial (host_ID h) tr) m).
  { rewrite !elem_of_cons, elem_of_nil in Hm. destruct Hm as [-> | [-> | [-> | []]]];
      [apply HandlePeerFound_keeps|apply keeps_ignoring, EnableDHTDiscovery_keeps|apply dht_round_keeps]. }
  assert (S : no_self_dial (host_ID h) tr tr).
  { exists []. rewrite app_nil_r. split; [done|]. intros ? []%not_elem_of_nil. }
  specialize (K tr S). by destruct (m tr) as [tr' [u|e]].
Qed.

(** ** Starting *)

Section Startup.
Context `{HP : Peers} `{HAI : !AddrInfos} `{HL : !Libp2p}.

(** the calls of [ConnectAddr] *)
Definition dial_calls (addr : bytes) : list lib_call :=
  match parse_addr addr with
  | Ok info => [CAddAddrs info; CConnect info]
  | Err _ => []
  end.

Lemma ConnectAddr_calls addr tr : fst (ConnectAddr addr tr) = tr ++ dial_calls addr.
Proof.
  unfold ConnectAddr, dial_calls, mbind, M_bind, lift. destruct (parse_addr addr) as [info|e]; cbn [fst].
  - unfold ignoring, issue. cbn [fst]. by rewrite <- app_assoc.
  - by rewrite app_nil_r.
Qed.

(** every startup peer is dialed, whatever happened to the ones before *)
Lemma dial_peers_calls addrs tr : dial_peers addrs tr = (tr ++ flat_map dial_calls addrs, Ok tt).
Proof.
  revert tr. induction addrs as [|addr addrs IH]; intros tr; cbn [dial_peers flat_map].
  - by rewrite app_nil_r.
  - unfold mbind, M_bind, ignoring. by rewrite ConnectAddr_calls, IH, app_assoc.
Qed.

(** an invariant that any call keeps, a computation keeps *)
Definition closed (I : list lib_call -> Prop) : Prop := forall tr c, I tr -> I (tr ++ [c]).

Lemma closed_app I tr new : closed I -> I tr -> I (tr ++ new).
Proof.
  intros HI. revert tr. induction new as [|c new IH]; intros tr Ht; [by rewrite app_nil_r|].
  rewrite (app_assoc tr [c] new : tr ++ c :: new = _). by apply IH, HI.
Qed.

Lemma dial_bootstrap_closed I h pis : closed I -> keeps I (dial_bootstrap h pis).
Proof.
  intros HI. induction pis as [|pi pis IH]; cbn [dial_bootstrap]; [apply keeps_ret|].
  case_bool_decide; [done|]. auto with calls.
Qed.

Lemma start_discovery_closed I wf h : closed I -> keeps I (start_discovery wf h).
Proof.
  intros HI. unfold start_discovery. apply keeps_bind.
  { destruct (wf_mdns wf); [apply keeps_call|apply keeps_ret]. auto. }
  intros _. destruct (wf_dht wf); [|apply keeps_ret]. apply keeps_bind; [apply keeps_lift|].
  intros pis. apply keeps_bind; [|intros _; apply keeps_ret].
  unfold EnableDHTDiscovery. apply keeps_bind; [apply keeps_call; auto|]. intros _.
  apply keeps_bind; [|intros _; apply keeps_bind; [by apply dial_bootstrap_closed|intros _; apply keeps_ret]].
  intros tr Ht.
  unfold bootstrap_or_close, issue.
  by destruct (lib_do tr CBootstrap) as [u|e]; [apply HI|apply HI, HI].
Qed.

Lemma start_relays_closed I wf : closed I -> keeps I (start_relays wf).
Proof.
  intros HI. unfold start_relays, EnableRelayService, ReserveRelaySlot. apply keeps_bind.
  { destruct (wf_relayService wf); [apply keeps_call|apply keeps_ret]. auto. }
  intros _. case_match; [|apply keeps_ret]. apply keeps_bind; [apply keeps_lift|]. auto with calls.
Qed.

(** what must have happened before a connection is asked for, the last call first *)
Definition joined : list lib_call :=
  [CJoin TxTopic; CJoin BlockTopic; CRegisterTopicValidator TxTopic; CRegisterTopicValidator BlockTopic;
   CNewGossipSub].
Definition filters : list lib_call :=
  CSubscribe TxTopic :: CSubscribe BlockTopic :: CSetStreamHandler SyncProtocol :: joined.

Definition guarded (new : list lib_call) : Prop :=
  forall pre pi suf, new = pre ++ CConnect pi :: suf -> filters ⊆ pre.

(** since [tr0], the calls [past] were made, and connections only after the filters *)
Definition stage (tr0 past tr : list lib_call) : Prop :=
  exists new, tr = tr0 ++ new /\ guarded new /\ past ⊆ new.

Lemma guarded_snoc new c : guarded new -> (forall pi, c = CConnect pi -> filters ⊆ new) -> guarded (new ++ [c]).
Proof.
  intros Hg Hc pre pi suf E. destruct (decide (suf = [])) as [->|Hs].
  - apply app_inj_tail in E as [-> ->]. by apply (Hc pi).
  - destruct (exists_last Hs) as (suf' & x & ->).
    rewrite app_comm_cons, app_assoc in E. apply app_inj_tail in E as [-> _]. by apply (Hg pre pi suf').
Qed.

Lemma stage_weaken tr0 past past' tr : past ⊆ past' -> stage tr0 past' tr -> stage tr0 past tr.
Proof. intros Hs (new & -> & Hg & Hp). exists new. split_and!; [done|done|]. intros x Hx. auto. Qed.

Lemma stage_start tr0 past tr : stage tr0 past tr -> stage tr0 [] tr.
Proof. apply stage_weaken, list_subseteq_nil. Qed.

Lemma stage_snoc tr0 past c tr :
  (forall pi, c <> CConnect pi) -> stage tr0 past tr -> stage tr0 (c :: past) (tr ++ [c]).
Proof.
  intros Hc (new & -> & Hg & Hp). exists (new ++ [c]). split_and!; [by rewrite app_assoc| |].
  - apply guarded_snoc; [done|]. intros pi ->. by destruct (Hc pi).
  - intros x [->|Hx]%elem_of_cons; apply elem_of_app; [right; by constructor|left; auto].
Qed.

Lemma stage_quiet tr0 past c :
  (forall pi, c <> CConnect pi) ->
  triple (stage tr0 past) (issue c) (fun _ => stage tr0 (c :: past)) (stage tr0 []).
Proof.
  intros Hc. apply triple_call. intros tr Ht. apply (stage_snoc tr0 past c tr Hc) in Ht.
  split; [done|by apply stage_start in Ht].
Qed.

Lemma stage_closed tr0 past : filters ⊆ past -> closed (stage tr0 past).
Proof.
  intros Hf tr c (new & -> & Hg & Hp). exists (new ++ [c]). split_and!; [by rewrite app_assoc| |].
  - apply guarded_snoc; [done|]. intros pi _ x Hx. auto.
  - intros x Hx. apply elem_of_app. left. auto.
Qed.

Ltac quiet_calls :=
  repeat (eapply triple_bind; [by apply stage_quiet|cbv beta; intros _]); by apply stage_quiet.

Lemma NewHostWithConfig_stage tr0 cfg generated :
  triple (stage tr0 []) (NewHostWithConfig cfg generated)
    (fun h tr => (forall k, hc_IdentityKey cfg = Some k -> host_ID h = IDFromPrivateKey k) /\ stage tr0 [] tr)
    (stage tr0 []).
Proof.
  unfold NewHostWithConfig, newConnManager. eapply triple_bind; [apply triple_lift|].
  cbv beta. intros priv. apply triple_pure. intros Hk.
  do 2 (eapply triple_bind; [by apply stage_quiet|cbv beta; intros _]).
  intros tr Ht. cbn. split; [|by apply stage_start in Ht].
  intros k Ek. rewrite Ek in Hk. injection Hk as ->. done.
Qed.

Lemma NewP2P_stage tr0 : triple (stage tr0 []) NewP2P (fun _ => stage tr0 joined) (stage tr0 []).
Proof. unfold NewP2P. quiet_calls. Qed.

Lemma Wire_stage tr0 : triple (stage tr0 joined) Wire (fun _ => stage tr0 filters) (stage tr0 []).
Proof.
  unfold Wire, Start.
  apply (triple_bind _ _ _ (fun _ => stage tr0 (CSetStreamHandler SyncProtocol :: joined)));
    [|intros _; unfold filters; quiet_calls].
  intros tr Ht. by apply stage_snoc.
Qed.

(** since [tr0], the calls [calls] were made in a row *)
Definition in_a_row (tr0 calls tr : list lib_call) : Prop := exists pre suf, tr = tr0 ++ pre ++ calls ++ suf.

Lemma in_a_row_closed tr0 calls : closed (in_a_row tr0 calls).
Proof. intros tr c (pre & suf & ->). exists pre, (suf ++ [c]). by rewrite <- !app_assoc. Qed.

Definition pinned (wf : NetFlags) (h : Host) : Prop :=
  wf_identityKey wf <> [] ->
  exists k, IdentityFromSeed (wf_identityKey wf) = Ok k /\ host_ID h = IDFromPrivateKey k.

Lemma host_config_pinned wf cfg h :
  host_config wf = Ok cfg -> (forall k, hc_IdentityKey cfg = Some k -> host_ID h = IDFromPrivateKey k) ->
  pinned wf h.
Proof.
  unfold host_config. intros Hc Hk Hne. destruct (bytes_eqb (wf_identityKey wf) []) eqn:Ee.
  { by apply bytes_eqb_eq in Ee. }
  cbn [negb] in Hc. destruct (IdentityFromSeed (wf_identityKey wf)) as [k|] eqn:Ek; [|done].
  injection Hc as <-. exists k. split; [done|]. by apply Hk.
Qed.

(** the last two stages, with the startup peers dialed before *)
Lemma discovery_stage tr0 wf h calls :
  keeps (fun tr => stage tr0 filters tr /\ in_a_row tr0 calls tr) (start_discovery wf h).
Proof.
  apply start_discovery_closed. intros tr c [Hs Hr].
  split; [by apply stage_closed|by apply in_a_row_closed].
Qed.

Lemma dial_peers_stage tr0 addrs :
  triple (stage tr0 filters) (dial_peers addrs)
    (fun _ tr => stage tr0 filters tr /\ in_a_row tr0 (flat_map dial_calls addrs) tr) (stage tr0 []).
Proof.
  intros tr Ht. rewrite dial_peers_calls. split; [by apply closed_app; [apply stage_closed|]|].
  destruct Ht as (new & -> & _). exists new, []. by rewrite app_nil_r, app_assoc.
Qed.

Lemma start_network_stage wf peers generated tr0 :
  triple (stage tr0 []) (start_network wf peers generated)
    (fun h tr => pinned wf h /\ stage tr0 [] tr /\ in_a_row tr0 (flat_map dial_calls (split_addrs peers)) tr)
    (stage tr0 []).
Proof.
  unfold start_network. eapply triple_bind; [by apply stage_quiet|cbv beta; intros _].
  eapply triple_bind.
  { eapply triple_impl; [apply triple_lift| |done]. intros tr. apply stage_start. }
  cbv beta. intros cfg. apply triple_pure. intros Ec.
  eapply triple_bind; [apply NewHostWithConfig_stage|]. cbv beta. intros h. apply triple_pure. intros Hk.
  apply (host_config_pinned wf cfg h Ec) in Hk.
  eapply triple_bind; [apply NewP2P_stage|cbv beta; intros _].
  eapply triple_bind; [apply Wire_stage|cbv beta; intros _].
  eapply triple_bind.
  { intros tr Ht. pose proof (start_relays_closed _ wf (stage_closed tr0 filters ltac:(done)) tr Ht) as S.
    destruct (start_relays wf tr) as [tr' [u|e]]; [exact S|by apply stage_start in S]. }
  cbv beta. intros _. eapply triple_bind; [apply dial_peers_stage|cbv beta; intros _].
  intros tr Ht. pose proof (discovery_stage tr0 wf h _ tr Ht) as S. unfold mbind, M_bind.
  destruct (start_discovery wf h tr) as [tr' [u|e]]; [|by destruct S as [S%stage_start _]].
  destruct S as [S%stage_start R]. done.
Qed.
End Startup.

(** C33: a node filters before it meets anyone, and one bad peer does not keep it from the
    others.  However the library answers, a connection is only asked for after the
    validators of both topics were registered, both topics joined and subscribed, and the
    sync protocol served; when the start succeeds, every startup peer with a well-formed
    address was dialed, in order, whatever became of the ones before it; and a node
    started with a seed has the identity of that seed, on every start. *)
Theorem start_network_spec `{Peers} `{!AddrInfos} `{!Libp2p} wf peers generated tr :
  let '(tr', r) := start_network wf peers generated tr in
  exists new, tr' = tr ++ new /\
    (forall pre pi suf, new = pre ++ CConnect pi :: suf -> filters ⊆ pre) /\
    (forall h, r = Ok h ->
       (exists pre suf, new = pre ++ flat_map dial_calls (split_addrs peers) ++ suf) /\
       (wf_identityKey wf <> [] ->
        exists k, IdentityFromSeed (wf_identityKey wf) = Ok k /\ host_ID h = IDFromPrivateKey k)).
Proof.
  assert (S0 : stage tr [] tr).
  { exists []. rewrite app_nil_r. split_and!; [done| |done]. by intros [|]. }
  pose proof (start_network_stage wf peers generated tr tr S0) as S.
  destruct (start_network wf peers generated tr) as [tr' [h|e]].
  - destruct S as (Hp & (new & -> & Hg & _) & (pre & suf & E)). apply app_inv_head in E. subst new.
    eexists. split; [done|]. split; [exact Hg|]. intros h' [= <-]. eauto.
  - destruct S as (new & -> & Hg & _). exists new. by split_and!.
Qed.

(** ** When a start fails *)

Section Failing.
Context `{HP : Peers} `{HAI : !AddrInfos} `{HL : !Libp2p}.

(** the library refuses nothing but connections *)
Definition willing : Prop := forall tr c, (forall pi, c <> CConnect pi) -> lib_do tr c = Ok tt.

Definition returned {A} (r : result A) : Prop := exists a, r = Ok a.

(** [m] succeeds exactly when [phi], after every history *)
Definition succeeds_iff {A} (m : M A) (phi : Prop) : Prop := forall tr, returned (snd (m tr)) <-> phi.

Lemma succeeds_bind {A B} (m : M A) (k : A -> M B) phi psi :
  succeeds_iff m phi -> (forall a, succeeds_iff (k a) psi) -> succeeds_iff (m ≫= k) (phi /\ psi).
Proof.
  intros Hm Hk tr. specialize (Hm tr). unfold mbind, M_bind.
  destruct (m tr) as [tr' [a|e]]; cbn [snd] in *.
  - rewrite (Hk a tr'), <- Hm. split; [|tauto]. intros Hp. split; [by exists a|done].
  - rewrite <- Hm. split; [by intros [? ?]|by intros [[? ?] _]].
Qed.

Lemma succeeds_always {A} (m : M A) : (forall tr, returned (snd (m tr))) -> succeeds_iff m True.
Proof. by intros Hm tr. Qed.

Lemma succeeds_lift {A} (x : result A) : succeeds_iff (lift x) (returned x).
Proof. by intros tr. Qed.

Lemma succeeds_equiv {A} (m : M A) (phi psi : Prop) : succeeds_iff m phi -> (phi <-> psi) -> succeeds_iff m psi.
Proof. intros Hm E tr. by rewrite <- E. Qed.

Context (Hwilling : willing).

Lemma succeeds_issue c : (forall pi, c <> CConnect pi) -> succeeds_iff (issue c) True.
Proof. intros Hc. apply succeeds_always. intros tr. exists tt. by apply Hwilling. Qed.

Lemma succeeds_seq c {B} (m : M B) phi :
  (forall pi, c <> CConnect pi) -> succeeds_iff m phi -> succeeds_iff (_ ← issue c; m) phi.
Proof.
  intros Hc Hm. eapply succeeds_equiv; [exact (succeeds_bind _ _ _ _ (succeeds_issue c Hc) (fun _ => Hm))|]. tauto.
Qed.

Lemma dial_bootstrap_succeeds h pis tr : snd (dial_bootstrap h pis tr) = Ok tt.
Proof.
  revert tr. induction pis as [|pi pis IH]; intros tr; cbn [dial_bootstrap]; [done|].
  case_bool_decide; [done|]. apply IH.
Qed.

Lemma EnableDHTDiscovery_succeeds h pis rendezvous : succeeds_iff (EnableDHTDiscovery h pis rendezvous) True.
Proof.
  unfold EnableDHTDiscovery. apply succeeds_seq; [done|]. apply succeeds_always. intros tr.
  unfold mbind, M_bind, bootstrap_or_close, issue. rewrite Hwilling by done.
  pose proof (dial_bootstrap_succeeds h pis (tr ++ [CBootstrap])) as E.
  destruct (dial_bootstrap h pis (tr ++ [CBootstrap])) as [tr' r]. cbn [snd] in E. subst r. by eexists.
Qed.

Lemma NewHostWithConfig_succeeds cfg generated :
  succeeds_iff (NewHostWithConfig cfg generated) (hc_IdentityKey cfg = None -> returned generated).
Proof.
  unfold NewHostWithConfig, newConnManager. eapply succeeds_equiv.
  - eapply succeeds_bind; [apply succeeds_lift|]. intros priv. do 2 (apply succeeds_seq; [done|]).
    apply succeeds_always. intros tr. by eexists.
  - destruct (hc_IdentityKey cfg) as [k|]; [|tauto].
    split; [done|]. intros _. by split; [eexists|].
Qed.

Lemma start_relays_succeeds wf :
  succeeds_iff (start_relays wf) (wf_relay wf <> [] -> returned (parse_addr (wf_relay wf))).
Proof.
  unfold start_relays. eapply succeeds_equiv.
  - apply (succeeds_bind _ _ True (wf_relay wf <> [] -> returned (parse_addr (wf_relay wf)))).
    { destruct (wf_relayService wf); [by apply succeeds_issue|]. apply succeeds_always. by eexists. }
    intros _. destruct (bytes_eqb (wf_relay wf) []) eqn:Ee; cbn [negb].
    + apply bytes_eqb_eq in Ee. intros tr. split; [done|by eexists].
    + eapply succeeds_equiv; [apply succeeds_bind; [apply succeeds_lift|by intros info; apply succeeds_issue]|].
      split; [tauto|]. intros Hp. split; [|done]. apply Hp. intros Hw. rewrite Hw in Ee. done.
  - tauto.
Qed.

Lemma start_discovery_succeeds wf h :
  succeeds_iff (start_discovery wf h)
    (wf_dht wf = true -> returned (bootstrap_infos (split_addrs (wf_dhtBootstrap wf)))).
Proof.
  unfold start_discovery. eapply succeeds_equiv.
  - apply (succeeds_bind _ _ True (wf_dht wf = true -> returned (bootstrap_infos (split_addrs (wf_dhtBootstrap wf))))).
    { destruct (wf_mdns wf); [by apply succeeds_issue|]. apply succeeds_always. by eexists. }
    intros _. destruct (wf_dht wf).
    + eapply succeeds_equiv;
        [apply succeeds_bind; [apply succeeds_lift|intros pis; eapply (succeeds_bind _ _ True True);
           [apply EnableDHTDiscovery_succeeds|intros _ tr; split; [done|by eexists]]]|]. tauto.
    + intros tr. split; [done|by eexists].
  - tauto.
Qed.

Lemma bootstrap_infos_ok addrs : returned (bootstrap_infos addrs) <-> Forall (fun a => returned (parse_addr a)) addrs.
Proof.
  induction addrs as [|a addrs IH]; cbn [bootstrap_infos]; [by split; [constructor|eexists]|].
  rewrite Forall_cons, <- IH. unfold mbind, result_bind.
  destruct (parse_addr a) as [pi|e]; [|by split; [intros [? ?]|intros [[? ?] _]]].
  destruct (bootstrap_infos addrs) as [pis|e]; [|by split; [intros [? ?]|intros [_ [? ?]]]].
  split; [by split; eexists|by eexists].
Qed.

(** the start once the host is configured *)
Lemma host_succeeds wf peers cfg generated :
  succeeds_iff
    (h ← NewHostWithConfig cfg generated; _ ← NewP2P; _ ← Wire; _ ← start_relays wf;
     _ ← dial_peers (split_addrs peers); _ ← start_discovery wf h; mret h)
    ((hc_IdentityKey cfg = None -> returned generated) /\
     (wf_relay wf <> [] -> returned (parse_addr (wf_relay wf))) /\
     (wf_dht wf = true -> Forall (fun a => returned (parse_addr a)) (split_addrs (wf_dhtBootstrap wf)))).
Proof.
  apply succeeds_bind; [apply NewHostWithConfig_succeeds|]. intros h. eapply succeeds_equiv.
  - eapply succeeds_bind; [unfold NewP2P; repeat (apply succeeds_seq; [done|]); by apply succeeds_issue|].
    intros _. eapply succeeds_bind.
    { unfold Wire, Start. apply (succeeds_bind _ _ True True); [by intros tr; split; [|eexists]|].
      intros _. apply succeeds_seq; [done|]. by apply succeeds_issue. }
    intros _. eapply succeeds_bind; [apply start_relays_succeeds|]. intros _.
    eapply (succeeds_bind _ _ True); [intros tr; rewrite dial_peers_calls; split; [done|by eexists]|].
    intros _. eapply (succeeds_bind _ _ _ True); [apply start_discovery_succeeds|].
    intros _ tr. split; [done|by eexists].
  - rewrite bootstrap_infos_ok. tauto.
Qed.
End Failing.

(** What a start depends on.  With a library that refuses nothing but connections, the
    network starts exactly when the identity seed decodes (or a key could be generated),
    the relay's address parses and, with the DHT on, every bootstrap address does: one
    malformed bootstrap address is fatal, while no list of startup peers, malformed or
    unreachable, can keep a node from starting. *)
Theorem start_network_succeeds_iff `{Peers} `{!AddrInfos} `{!Libp2p} wf peers generated tr :
  willing ->
  returned (snd (start_network wf peers generated tr)) <->
    (wf_identityKey wf <> [] -> returned (IdentityFromSeed (wf_identityKey wf))) /\
    (wf_identityKey wf = [] -> returned generated) /\
    (wf_relay wf <> [] -> returned (parse_addr (wf_relay wf))) /\
    (wf_dht wf = true -> Forall (fun a => returned (parse_addr a)) (split_addrs (wf_dhtBootstrap wf))).
Proof.
  intros Hw. revert tr. apply (succeeds_seq Hw); [done|]. intros tr.
  pose proof (fun id => host_succeeds Hw wf peers (mkHostConfig (wf_listenHost wf) (wf_listen wf) id)
    generated tr) as S. unfold host_config.
  destruct (bytes_eqb (wf_identityKey wf) []) eqn:Ee; cbn [negb].
  - apply bytes_eqb_eq in Ee. etransitivity; [exact (S None)|]. cbn [hc_IdentityKey].
    split; [intros (Hg & Hr & Hd)|intros (_ & Hg & Hr & Hd)]; split_and!; auto. done.
  - assert (Hne : wf_identityKey wf <> []) by (intros Hw'; rewrite Hw' in Ee; done).
    destruct (IdentityFromSeed (wf_identityKey wf)) as [k|e].
    + etransitivity; [exact (S (Some k))|]. cbn [hc_IdentityKey].
      split; [intros (_ & Hr & Hd)|intros (_ & _ & Hr & Hd)]; split_and!; auto;
        [intros _; by eexists|done|done].
    + split; [by intros [? ?]|]. intros [Hi _]. by destruct (Hi Hne).
Qed.
