(* ===== verification/Network.v ===== *)
(** * Several processes on one network

    The processes of [Cli] joined by the block topic of [p2p/gossip.go]: what one publishes
    passes the topic's validator and is read by every other before the next event.  This
    is the network without delay or loss; what reordering does is the subject of
    [ForkChoice], what loss does of the sync theorems of [P2PProps]. *)

From Stdlib Require Import String.
From S2P Require Import Prelude Sha256 Core Pow FeeMarket StateDB Mpt Pos StackVM Exchange.
From S2P Require Import ExchangeProps Adapter Transition TransitionTheorems Chain ChainProps.
From S2P Require Import ChainTheorems BlockBuilder Store StoreProps.
From S2P Require Import Node NodeProps P2P P2PProps GoStd Rpc RpcProps Cli CliProps.

Section Network.
Context `{HK : Secp} `{HKB : !SecpBytes} `{HBolt : Bolt} `{HGob : Gob} `{HGobTx : GobTx}.
Context `{HE : Engine} `{HG : GethEVM} `{HB : Blst} `{HBK : !BlstKeys} `{HBB : !BlstBytes}.
Context `{HT : ErrorText} `{HO : OrderbookText}.

Abbreviation wv := (Some wallet_Verify : verifier).

(** a message of the block topic reaches a process *)
Definition deliver (p : P2P) (data : bytes) : P2P :=
  if blockTopicValidator data then readBlock p data false true else p.

(** what happens on the network: something at the [i]-th process, or a block message from
    outside that reaches everyone *)
Inductive net_event :=
| NTick (i : nat) (now : Z)
| NHTTP (i : nat) (httpMethod : bytes) (body : option json)
| NTx (i : nat) (data : bytes)
| NServe (i : nat) (start : Z)
| NServeEnd (i : nat)
| NBlock (data : bytes).

(** an event at one process, and what it publishes delivered to the others *)
Definition local (fuel : nat) (mode : Mode) (net : list P2P) (i : nat) (e : event) : list P2P :=
  match net !! i with
  | None => net
  | Some p =>
      let '(p', sent) := process fuel mode p e in
      imap (fun j q => if (j =? i)%nat then p' else foldl deliver q sent) net
  end.

Definition net_step (fuel : nat) (mode : Mode) (net : list P2P) (e : net_event) : list P2P :=
  match e with
  | NTick i now => local fuel mode net i (ETick now)
  | NHTTP i m body => local fuel mode net i (EHTTP m body)
  | NTx i data => local fuel mode net i (ETxMsg data false)
  | NServe i start => local fuel mode net i (EServeOpen start)
  | NServeEnd i => local fuel mode net i EServeClose
  | NBlock data => map (fun p => deliver p data) net
  end.

(** ** What an event does to the chain of a process *)

(** the chain after a message of the block topic *)
Definition chain_after (c : Chain) (data : bytes) : Chain :=
  if blockTopicValidator data then
    match DecodeBlock data with
    | Ok b => fst (AddBlock c b wv)
    | Err _ => c
    end
  else c.

Abbreviation chain_of p := (n_chain (p_node p)).
Abbreviation in_memory p := (n_store (p_node p) = None).

Lemma save_node_memory n : n_store n = None -> save_node n = (n, Ok tt).
Proof. unfold save_node. by intros ->. Qed.

Lemma accept_spec n b :
  n_store n = None ->
  n_chain (fst (AcceptExternalBlock n b)) = fst (AddBlock (n_chain n) b wv) /\
  n_store (fst (AcceptExternalBlock n b)) = None.
Proof.
  intros Hs. unfold AcceptExternalBlock. destruct (AddBlock (n_chain n) b wv) as [c [u|e]].
  - rewrite save_node_memory by done. done.
  - by destruct e.
Qed.

Lemma deliver_spec p data :
  in_memory p -> chain_of (deliver p data) = chain_after (chain_of p) data /\ in_memory (deliver p data).
Proof.
  intros Hs. unfold deliver, chain_after. destruct (blockTopicValidator data); [|done].
  unfold readBlock. destruct (DecodeBlock data) as [b|]; [|done]. unfold handleBlock.
  destruct (accept_spec (p_node p) b Hs) as [Ec Es].
  destruct (AcceptExternalBlock (p_node p) b) as [n [u|e]]; cbn [fst] in *; [done|].
  repeat case_match; done.
Qed.

Lemma deliver_all p sent :
  in_memory p ->
  chain_of (foldl deliver p sent) = foldl chain_after (chain_of p) sent /\ in_memory (foldl deliver p sent).
Proof.
  revert p. induction sent as [|d sent IH]; intros p Hs; [done|]. cbn [foldl].
  destruct (deliver_spec p d Hs) as [<- Hs']. by apply IH.
Qed.

(** blocks can be encoded *)
Hypothesis gob_total : forall b, exists enc, gob_block b = Ok enc.
Context `{HGL : !GobLaws}.

Lemma announced_accepted c b v c' :
  AddBlock c b v = (c', Ok tt) -> v = wv -> (c_consensusMode c = PoW -> h_ProposerSig (b_Header b) = []) ->
  foldl chain_after c (AnnounceBlock b) = c'.
Proof.
  intros E -> Hpow. unfold AnnounceBlock, PublishBlock. destruct (gob_total b) as [data Ed].
  change (gob_block b) with (EncodeBlock b) in Ed. rewrite Ed. cbn [foldl]. unfold chain_after.
  rewrite (valid_block_relayed c b wv c' data E Ed Hpow). unfold DecodeBlock.
  rewrite (gob_unblock_block _ _ Ed), E. done.
Qed.

Lemma commitBlock_published n blk txs n' r :
  n_store n = None -> (c_consensusMode (n_chain n) = PoW -> h_ProposerSig (b_Header blk) = []) ->
  commitBlock n blk txs = (n', r) ->
  n_store n' = None /\
  n_chain n' = foldl chain_after (n_chain n) (match r with Ok b => AnnounceBlock b | Err _ => [] end).
Proof.
  intros Hs Hp. unfold commitBlock. destruct (AddBlock (n_chain n) blk wv) as [c [[]|e]] eqn:E.
  - cbv zeta. rewrite save_node_memory by done. intros [= <- <-]. split; [done|].
    cbn [with_mempool with_chain n_chain]. symmetry. by eapply announced_accepted.
  - intros [= <- <-]. split; [done|]. cbn [with_chain n_chain foldl].
    assert (Er : snd (AddBlock (n_chain n) blk wv) = Err e) by (by rewrite E).
    apply AddBlock_err in Er. by rewrite E in Er.
Qed.

Lemma MineBlock_published fuel n now n' r :
  n_store n = None -> MineBlock fuel n now = (n', r) ->
  n_store n' = None /\
  n_chain n' = foldl chain_after (n_chain n) (match r with Ok b => AnnounceBlock b | Err _ => [] end).
Proof.
  intros Hs. unfold MineBlock. cbv zeta. destruct (deriveStateRoot _ _ _) as [[root g]|]; [|by intros [= <- <-]].
  destruct (Mine _ _ _) as [[[h hash] []]|] eqn:Em; [|by intros [= <- <-]..].
  apply commitBlock_published; [done|]. intros _. cbn [b_Header].
  apply mine_loop_found in Em as [-> _]. done.
Qed.

Lemma ProposeBlock_published n now n' r :
  n_store n = None -> ProposeBlock n now = (n', r) ->
  n_store n' = None /\
  n_chain n' = foldl chain_after (n_chain n) (match r with Ok b => AnnounceBlock b | Err _ => [] end).
Proof.
  intros Hs. unfold ProposeBlock. cbv zeta. case_bool_decide as Em; cbn [negb]; [|by intros [= <- <-]].
  destruct (EffectiveValidatorSet _) as [act total].
  destruct (SelectProposer _ _ _); [|by intros [= <- <-]]. destruct (negb _); [by intros [= <- <-]|].
  destruct (n_validatorKey n); [|by intros [= <- <-]].
  destruct (deriveStateRoot _ _ _) as [[root g]|]; [|by intros [= <- <-]].
  apply commitBlock_published; [done|]. unfold ConsensusMode in Em. congruence.
Qed.

Lemma SubmitTx_store n tx : n_store (fst (SubmitTx n tx)) = n_store n.
Proof. destruct (SubmitTx_cases n tx) as [[_ ->]|[_ [e ->]]]; done. Qed.

Lemma MaybeAttest_quiet n :
  n_chain (fst (MaybeAttest n)) = n_chain n /\ n_store (fst (MaybeAttest n)) = n_store n.
Proof.
  unfold MaybeAttest. destruct (n_validatorKey n) as [key|]; [|done]. destruct (negb _); [done|].
  cbv zeta. destruct (_ || _); [done|]. pose proof (SubmitTx_chain n (attestation_tx n key)) as Ec.
  pose proof (SubmitTx_store n (attestation_tx n key)) as Es.
  by destruct (SubmitTx n _) as [n' [u|e]].
Qed.

(** a tick changes the chain exactly as the messages it publishes change another's *)
Lemma tick_published fuel mode n now n' sent :
  n_store n = None -> tick fuel mode n now = (n', sent) ->
  n_store n' = None /\ n_chain n' = foldl chain_after (n_chain n) sent.
Proof.
  intros Hs. unfold tick. case_bool_decide.
  - destruct (ProposeBlock n now) as [n1 r] eqn:E. apply ProposeBlock_published in E as [Es Ec]; [|done].
    destruct (MaybeAttest_quiet n1) as [Ec' Es']. destruct (MaybeAttest n1) as [n2 r2].
    cbn [fst] in *. intros [= <- <-]. split; [congruence|]. by rewrite Ec', Ec.
  - destruct (MineBlock fuel n now) as [n1 r] eqn:E. apply MineBlock_published in E as [Es Ec]; [|done].
    by destruct r; intros [= <- <-].
Qed.

(** the other events at a process publish nothing and leave its chain alone *)
Lemma ServeHTTP_quiet n m body :
  n_chain (fst (ServeHTTP n m body)) = n_chain n /\ n_store (fst (ServeHTTP n m body)) = n_store n.
Proof.
  unfold ServeHTTP. destruct (negb _); [done|]. destruct body as [b|]; [|done].
  destruct (Unmarshal (zero : Request) b) as [req|e]; [|done].
  assert (S : n_chain (fst (dispatch n req)) = n_chain n /\ n_store (fst (dispatch n req)) = n_store n).
  { destruct (dispatch_cases n req) as [->|[_ ->]]; [done|].
    destruct (sendRawTx_cases n (rq_Params req)) as [[-> _]|(tx & E & _)]; [done|].
    pose proof (SubmitTx_chain n tx) as Ec. pose proof (SubmitTx_store n tx) as Es.
    by rewrite E in Ec, Es. }
  by destruct (dispatch n req) as [n' []].
Qed.

(** the events that can happen at one process alone *)
Definition alone (e : event) : Prop :=
  match e with EBlockMsg _ _ _ | ESyncItem _ _ => False | _ => True end.

Lemma process_published fuel mode p e p' sent :
  in_memory p -> alone e -> process fuel mode p e = (p', sent) ->
  in_memory p' /\ chain_of p' = foldl chain_after (chain_of p) sent.
Proof.
  intros Hs He. destruct e as [now|m body|data own from|data own|i item|start|]; cbn [process]; try done.
  - destruct (tick fuel mode (p_node p) now) as [n' sent'] eqn:E. intros [= <- <-].
    by apply tick_published in E.
  - intros [= <- <-]. destruct (ServeHTTP_quiet (p_node p) m body) as [Ec Es]. cbn [with_node p_node].
    split; [congruence|done].
  - intros [= <- <-]. unfold readTx. destruct own; [done|]. destruct (decodeTx data) as [tx|]; [|done].
    cbn [p_node]. split; [by rewrite SubmitTx_store|apply SubmitTx_chain].
  - intros [= <- <-]. unfold serve_open. by case_match.
  - by intros [= <- <-].
Qed.

(** ** Agreement *)

(** in-memory processes whose chains are [c] *)
Definition agree (c : Chain) (net : list P2P) : Prop :=
  Forall (fun p => in_memory p /\ chain_of p = c) net.

Lemma local_agree fuel mode c net i e :
  agree c net -> alone e -> exists c', agree c' (local fuel mode net i e).
Proof.
  intros A He. unfold local. destruct (net !! i) as [p|] eqn:Ep; [|by exists c].
  destruct (process fuel mode p e) as [p' sent] eqn:E. unfold agree in *. rewrite Forall_lookup in A.
  destruct (A _ _ Ep) as [Hs Hc]. apply process_published in E as [Hs' Hc']; [|done|done].
  exists (foldl chain_after c sent). apply Forall_lookup. intros j q. rewrite list_lookup_imap.
  destruct (net !! j) as [q0|] eqn:Eq; [|done]. cbn [fmap option_fmap option_map]. intros [= <-].
  destruct (Nat.eqb_spec j i).
  - split; [done|]. by rewrite Hc', Hc.
  - destruct (A _ _ Eq) as [Hs0 Hc0]. destruct (deliver_all q0 sent Hs0) as [Hd Hm].
    split; [done|]. by rewrite Hd, Hc0.
Qed.

Lemma net_step_agree fuel mode c net e : agree c net -> exists c', agree c' (net_step fuel mode net e).
Proof.
  intros A. destruct e as [i now|i m body|i data|i start|i|data]; cbn [net_step];
    [by eapply local_agree..|].
  exists (chain_after c data). unfold agree in *. apply Forall_map. eapply Forall_impl; [exact A|].
  intros p [Hs Hc]. destruct (deliver_spec p data Hs) as [Hd Hm]. split; [done|]. cbn. by rewrite Hd, Hc.
Qed.

Lemma net_run_agree fuel mode c net es :
  agree c net -> exists c', agree c' (foldl (net_step fuel mode) net es).
Proof.
  revert c net. induction es as [|e es IH]; intros c net A; cbn [foldl]; [by exists c|].
  destruct (net_step_agree fuel mode c net e A) as [c' A']. by apply (IH c').
Qed.

Lemma net_run_length fuel mode net es : length (foldl (net_step fuel mode) net es) = length net.
Proof.
  assert (L : forall net i e, length (local fuel mode net i e) = length net).
  { intros net' i e. unfold local. destruct (net' !! i); [|done].
    destruct (process _ _ _ _). apply length_imap. }
  revert net. induction es as [|e es IH]; intros net; cbn [foldl]; [done|]. rewrite IH.
  destruct e; cbn [net_step]; try apply L. apply length_map.
Qed.

(** ** Starting with the same genesis *)

(** the flags that determine the genesis block and the rules of the chain *)
Definition genesis_flags (fl : NodeFlags) : Z * bytes * bytes * Z * bytes * bytes :=
  (nf_difficulty fl, nf_alloc fl, nf_baseAlloc fl, nf_genesisTimestamp fl, nf_consensus fl,
   nf_validators fl).

(** the chain they determine *)
Definition genesis_chain (flags : Z * bytes * bytes * Z * bytes * bytes) : result Chain :=
  let '(difficulty, allocSpec, baseSpec, timestamp, consensus, validatorSpec) := flags in
  alloc ← parseAlloc allocSpec;
  baseAlloc ← parseAlloc baseSpec;
  mode ← parse_consensus consensus;
  validators ← parseValidators validatorSpec;
  let g := mkGenesis alloc baseAlloc (u32 difficulty) timestamp 0 in
  let c := SetChainID (NewChainWithAlloc (ToBlock g) alloc baseAlloc) DefaultChainID in
  if bool_decide (mode = PoS) then
    vs ← NewValidatorSet validators;
    match SetConsensusMode c PoS (Some vs) with
    | (_, Err e) => Err e
    | (c, Ok _) => Ok c
    end
  else Ok c.

Lemma start_node_chain fl newKey newBLS now n :
  nf_genesisTimestamp fl <> 0 -> start_node fl newKey newBLS None now = Ok n ->
  n_store n = None /\ genesis_chain (genesis_flags fl) = Ok (n_chain n).
Proof.
  intros Hts. unfold start_node, node_config, genesis_chain, genesis_flags.
  destruct (miner_key fl newKey) as [k|]; [|done]. cbn [mbind result_bind].
  destruct (parseAlloc (nf_alloc fl)) as [alloc|]; [|done]. cbn [mbind result_bind].
  destruct (parseAlloc (nf_baseAlloc fl)) as [base|]; [|done]. cbn [mbind result_bind].
  destruct (parse_consensus (nf_consensus fl)) as [mode|]; [|done]. cbn [mbind result_bind].
  destruct (parseValidators (nf_validators fl)) as [vals|]; [|done]. cbn [mbind result_bind].
  destruct (validator_key fl mode newBLS) as [vk|]; [|done]. cbn [mbind result_bind].
  unfold New_node, fresh. cbn [cfg_GenesisTimestamp cfg_GenesisAlloc cfg_GenesisBaseAlloc cfg_Difficulty
    cfg_ChainID cfg_MaxMempool cfg_MinerKey cfg_ValidatorBLSKey].
  rewrite (proj2 (Z.eqb_neq _ _) Hts). cbv zeta. change (0 =? 0) with true. cbv iota.
  unfold configure. cbn [cfg_ConsensusMode cfg_Validators].
  destruct (if bool_decide (mode = PoS) then _ else _) as [c|]; [|done]. cbn [mbind result_bind].
  by intros <-%Ok_inj.
Qed.

(** a process just started, without a database, by flags that agree with [flags] *)
Definition started (flags : Z * bytes * bytes * Z * bytes * bytes) (p : P2P) : Prop :=
  exists fl newKey newBLS now n, genesis_flags fl = flags /\
    start_node fl newKey newBLS None now = Ok n /\ p = mkP2P n [] 0.

Lemma started_agree fl net :
  nf_genesisTimestamp fl <> 0 -> Forall (started (genesis_flags fl)) net -> exists c, agree c net.
Proof.
  intros Hts F. destruct (genesis_chain (genesis_flags fl)) as [c|e] eqn:Ec.
  - exists c. eapply Forall_impl; [exact F|]. intros p (fl' & k & b & now & n & Ef & Es & ->). cbn [p_node].
    apply start_node_chain in Es as [Hn Hg]; [|injection Ef; congruence]. rewrite Ef, Ec in Hg.
    apply Ok_inj in Hg. done.
  - destruct net as [|p net]; [exists (NewChainWithAlloc zero_block ∅ ∅); constructor|].
    apply Forall_cons in F as [(fl' & k & b & now & n & Ef & Es & ->) _].
    apply start_node_chain in Es as [Hn Hg]; [|injection Ef; congruence]. by rewrite Ef, Ec in Hg.
Qed.
End Network.

(** ** Transactions on their topic *)

(** encoding/gob reads back the transactions it writes *)
Class GobTxLaws `{GobTx} : Prop := {
  gob_untx_tx tx enc : gob_tx tx = Ok enc -> gob_untx enc = Some tx;
}.

(** a published transaction passes the topic's validator exactly when it is signed, and a
    peer that reads it submits it to its own node *)
Theorem published_tx_submitted `{Secp} `{Bolt} `{Gob} `{GobTxLaws} `{Engine} `{GethEVM} `{Blst}
    `{!BlstKeys} p tx data :
  data ∈ PublishTx tx ->
  txTopicValidator data = wallet_Verify tx /\
  readTx p data false = mkP2P (fst (SubmitTx (p_node p) tx)) (p_syncs p) (p_inbound p).
Proof.
  unfold PublishTx, encodeTx. destruct (gob_tx tx) as [enc|] eqn:E; intros Hd.
  - apply list_elem_of_singleton in Hd as ->. unfold txTopicValidator, readTx, decodeTx.
    by rewrite (gob_untx_tx _ _ E).
  - by apply not_elem_of_nil in Hd.
Qed.

(** C37: a network without delay agrees.  Any number of processes, started by [l1 node] with
    the same genesis flags and whatever keys, mine or propose, serve requests and
    streams, and receive messages from outside; what each publishes passes the topic's
    validator and reaches the others before the next event.  After any sequence of
    events all of them hold the same chain: the same blocks, votes, finality, head and
    state. *)
Theorem synchronous_network_agrees `{Secp} `{!SecpBytes} `{Bolt} `{GobLaws} `{GobTx} `{Engine}
    `{GethEVM} `{Blst} `{!BlstKeys} `{!BlstBytes} `{ErrorText} `{OrderbookText} fl net fuel mode es :
  (forall b, exists enc, gob_block b = Ok enc) ->
  nf_genesisTimestamp fl <> 0 -> Forall (started (genesis_flags fl)) net ->
  let net' := foldl (net_step fuel mode) net es in
  length net' = length net /\ exists c, Forall (fun p => n_chain (p_node p) = c) net'.
Proof.
  intros Hg Hts F net'. split; [apply net_run_length|].
  destruct (started_agree fl net Hts F) as [c A].
  destruct (net_run_agree Hg fuel mode c net es A) as [c' A']. exists c'.
  eapply Forall_impl; [exact A'|]. by intros p [_ ?].
Qed.

#[local] Existing Instance toy_secp.
#[local] Existing Instance toy_bolt.
#[local] Existing Instance toy_gob.
#[local] Existing Instance toy_gob_laws.
#[local] Existing Instance toy_engine.
#[local] Existing Instance toy_evm.
#[local] Existing Instance toy_blst.
#[local] Existing Instance toy_blst_keys.
#[local] Existing Instance toy_error_text.
#[local] Existing Instance toy_side_text.
#[local] Existing Instance toy_secp_bytes.
#[local] Existing Instance toy_blst_bytes.
#[local] Existing Instance toy_gob_tx.

(** the sample node and another miner of the same chain *)
Definition rival_flags : NodeFlags :=
  mkNodeFlags (str "01") 1 (Hex key1_addr ++ str ":1000") [] [] 1700000000 (str "pow") [] [].
Definition rival_node : Node := Eval vm_compute in
  match start_node rival_flags (Err ErrUsage) (Err ErrUsage) None 5 with
  | Ok n => n
  | Err _ => sample_node
  end.
Lemma rival_flags_start : start_node rival_flags (Err ErrUsage) (Err ErrUsage) None 5 = Ok rival_node.
Proof. vm_compute. reflexivity. Qed.

Example rival_mines_itself : n_miner rival_node <> n_miner sample_node.
Proof. vm_compute. discriminate. Qed.

Lemma synchronous_network_agrees_witness :
  let net := [mkP2P sample_node [] 0; mkP2P rival_node [] 0] in
  let net' := foldl (net_step 64 PoW) net [NTick 0 1700000010; NTick 1 1700000020; NHTTP 0 [] None] in
  length net' = 2%nat /\ exists c, Forall (fun p => n_chain (p_node p) = c) net'.
Proof.
  apply (synchronous_network_agrees sample_flags).
  - intros b. by eexists.
  - done.
  - apply Forall_cons. split; [|apply Forall_cons; split; [|constructor]].
    + exists sample_flags, (Err ErrUsage), (Err ErrUsage), 0, sample_node.
      split_and!; [done|exact sample_flags_start|done].
    + exists rival_flags, (Err ErrUsage), (Err ErrUsage), 5, rival_node.
      split_and!; [done|exact rival_flags_start|done].
Defined.
